(* ===== verification/_CoqProject ===== *)
-Q . S2P
Prelude.v
Iov.v
Wire.v
Kernel.v
Config.v
Attr.v
Getinfo.v
AttrSpec.v
Discovery.v
Cq.v
CqFifo.v
Av.v
AvIp.v
AvSpec.v
Rbt.v
RbtRep.v
RbtInsert.v
RbtDelete.v
RbtSpec.v
RbtMap.v
MrCache.v
MrCacheInv.v
State.v
Mr.v
MrInv.v
Pending.v
Ring.v
Msg.v
Rma.v
RingRx.v
RingLink.v
Progress.v
Ep.v
Cntr.v
Objects.v
Segments.v
Pres.v
Footprint.v
Frame.v
Inv.v
Rules.v
PendInv.v
Safety.v
SafetyRing.v
SafetyRx.v
RingPoll.v
SafetyTx.v
SafetyEp.v
Emits.v
Refs.v
CntrSpec.v
ObjSpec.v
Startup.v
Eager.v
Ops.v
Effects.v
Reach.v
RingSend.v
RingHand.v
RingEnd.v
RingLive.v
Rendezvous.v
RndzvEnd.v
Complete.v
Lifecycle.v
Traffic.v
RmaSpec.v
Close.v
Stack.v
Again.v
Limits.v
Demo.v
RingDemo.v
StackDemo.v
