(* ===== verification/Prelude.v ===== *)
(** * Verification of the libfabric RDS provider

    The subject is the RDS provider of libfabric
    (src/libfabric/prov/rds/src) with the parts of the libfabric utility
    library its data path runs on: reliable datagram endpoints over the
    Linux RDS socket family, with eager messages, rendezvous transfers by
    RDMA READ, an RDMA ring for small messages, and one-sided RMA.

    ** The program and its model

    An operation is a function of the state monad [M S A := S -> option (A *
    S)]; [None] stands for undefined behaviour (a dangling pointer, an index
    out of range, a failed assertion) and for a loop that runs out of fuel.
    [wp m Q s] says that [m] is defined in [s] and ends in [Q], so every
    specification includes that the operation is safe and returns.

    The state of the data path is [State.world]: one endpoint with its
    domain, completion queues, address vector, process memory, a log of what
    it handed to the socket, and the environment.  The environment is what
    the repository does not contain: the RDS socket, the allocator, the
    clock and the memory monitor are the operations of the class
    [Kernel.Kernel], over which everything is generic.  The allocator may
    fail at any call, a socket call with any errno, and a receive may
    deliver any bytes.  All entry points take the endpoint lock, so an
    operation is atomic; interleavings are sequences of operations.

    Foundations:
    - [Prelude]: record updates, the monad, [wp], integers, constants.
    - [Iov]: struct iovec, byte memory; ofi_iov.h, iov.c, rds_iov_slice.
    - [Wire]: the structures of rds.h on the wire, byte by byte.
    - [Kernel], [Config]: the environment; rds_init.c and the tunables.

    Discovery, before any endpoint exists:
    - [Attr]: struct fi_info and its parts, the tables of rds_attr.c, and
      the checks and adjustments of util_attr.c, one definition per
      function.
    - [Getinfo]: rds_getinfo and what it calls in util_main.c, util_av.c,
      common.c and fabric.c; the host's interfaces and resolver are the
      class [NetEnv], and every allocation on the way may fail.
    - [AttrSpec] (what an entry is made from), [Discovery] (theorems).

    The utility library:
    - [Cq], [CqFifo]: util_cq.c, ofi_cq_* of ofi_util.h, ofi_rbuf.h.
    - [Av], [AvIp]: util_av.c and the indexed pool of ofi_mem.h; [Av] is one
      address, [AvIp] the entry points fi_av_insert, fi_av_insertsvc,
      fi_av_insertsym, fi_av_remove and fi_av_lookup (parsing and
      resolving names is the class [Resolver]); [AvSpec] has the theorems.
    - [Rbt] (operations), [RbtRep], [RbtInsert], [RbtDelete], [RbtSpec]
      (representation and specifications), [RbtMap] (theorems): tree.c, with
      nodes as addresses, parent pointers, sentinel and free list.
    - [MrCache], [MrCacheInv]: util_mr_cache.c over that tree, generic in
      the provider's callbacks (class [CacheOwner], laws [CacheLaws]).

    The provider, one file per source file or part of one:
    - [State]: rds.h.  [Mr], [MrInv]: rds_mr.c.
    - [Pending]: completions, pending and parked operations of rds_msg.c and
      rds_post_rdma.  [Msg]: the rest of rds_msg.c.  [Rma]: rds_rma.c.
    - [Ring] and [RingRx]: rds_eager.c (sending; polling).
    - [Progress]: rds_progress.c.  [Ep]: rds_ep.c, rds_domain.c and the
      functions of util_ep.c.  [Cntr]: util_cntr.c and rds_cntr_open.
    - [Objects]: fabric, domain, address vector and completion queue as
      objects that are opened, referred to and closed (rds_fabric.c,
      rds_domain.c, rds_cq.c, util_fabric.c, util_domain.c, and the
      constructors of util_cq.c and util_av.c).

    Proofs about the provider: [Segments] (rendezvous segmentation), [Pres]
    and [Footprint] (what an operation leaves alone), [Frame], [Inv]
    (the endpoint invariant [world_ok]), [Rules], [PendInv], [Safety*] and
    [RingPoll] (every operation keeps it), [Emits] (what an operation hands
    to the socket), [Refs] (which object refers to which: the invariant
    [sys_ok] is [world_ok] with exact reference counts), [CntrSpec],
    [ObjSpec] (counters; the other objects), [Startup], [Ops] and [Effects]
    (the operations of an application, and what each hands to the socket),
    [Reach], [Eager], [Rendezvous], [RndzvEnd], [Complete], [Lifecycle] (an operation from the
    call to its completion), [Traffic] (what leaves the endpoint), [RmaSpec],
    [Close], [Again], [Limits]; [Demo] runs the code on concrete states.

    [Stack] composes the objects: a process that opens a fabric, a domain,
    queues, a vector and an endpoint, runs, and closes them all.
    [StackDemo] runs it.

    Two endpoints joined by an eager ring: [RingLink] is the abstract
    channel, numbered messages in numbered slots; [RingHand] says what it is
    to hand the bytes of a slot to the inbound handler; [RingSend] and [RingEnd]
    define the system of a sending and a receiving [world] with RDMA writes
    between them that land in pieces, in any order, the generation word last
    (the assumption the head of rds_eager.c states), and prove that every
    step of it is a step of the channel; [RingLive] has the theorems, and
    [RingDemo] runs the real handshake and the ring on two concrete worlds.

    ** What the theorems show

    - Safety: opening an endpoint establishes the invariant, and in every
      state reachable by API calls, traffic, notifications and invalidations
      it holds and every permitted call is defined ([Reach]).  The invariant
      says that ids are unique, regions and cache entries have exactly one
      owner each, requests in flight are counted exactly, no operation waits
      for nothing, no posted receive matches a queued message, and every
      object counts exactly the objects that refer to it.
    - The whole stack: from a fresh process, opening, any run of operations,
      and closing in order are defined and succeed, and nothing is left
      referred to; closing out of order is refused, except where the code
      does not look ([Stack]).
    - The address vector: inserting and removing arrays of addresses are
      inverse, and indices and addresses correspond one to one ([AvSpec]).
    - Functional correctness end to end: eager messages, early arrivals,
      rendezvous transfers and RMA move exactly the right bytes and report
      the right completion once; closing releases exactly what is held.
    - Life of an operation: a call that fails leaves no trace; one that
      succeeds completes exactly once, at the FIN or at the last
      notification, with the first error; cancelling takes back exactly one
      receive ([Lifecycle]).
    - The eager ring between two endpoints: for every interleaving of sends,
      polls, credit and landing writes, messages are delivered exactly once,
      in order and intact (delivered: [rds_handle_inbound] has run on the
      message of the slot), no slot is overwritten early, a poll drains what
      has arrived, and a slot is handled as the datagram it replaces.
    - Traffic: every datagram an endpoint sends is well formed, so the
      condition the safety theorem puts on inbound traffic holds between
      endpoints that run this code ([Traffic]).
    - Discovery: fi_getinfo returns an error or a list whose entries grant
      what was asked, and which the provider accepts again when they come
      back, up to the address format; fi_endpoint accepts nothing else
      ([Discovery], [Startup]).
    - Counters: opening, binding, reading and closing keep exact references
      ([CntrSpec], [Close]); that no completion ever moves them is one of the
      limits ([Traffic]).
    - Refinement: the completion queue is a FIFO, the pointer red-black tree
      is a sorted list, the scatter/gather helpers compute on the sequence
      of addresses a list denotes.
    - The registration cache terminates, hands out covering registrations,
      never loses or frees one in use, and cleans up after itself.
    - Limits: what the code does not do, stated as theorems and listed as
      findings in the manifest ([Again], [Limits], parts of [Stack],
      [AvSpec], [Complete], [RmaSpec], [Segments], [RingLive], [Discovery], [Traffic]).

    ** What the theorems assume of the environment

    - [MrInv.MrAgainEnds]: the kernel answers a registration with EAGAIN only
      finitely often in a row ([k_patience] bounds how often, and is the fuel
      for these retries).  The registration cache repeats the call at once and
      gives nothing up, so without this a lookup need not return ([Again]).
      [MrCacheInv.CacheLaws] is the same for any owner of a cache.
    - [SafetyEp.KnownOps]: a datagram that carries the magic number of the
      provider has one of the five operation codes; everything else of it is
      arbitrary.  Without this the handler reads past the datagram ([Limits]);
      endpoints that run this code keep it ([Traffic]).
    - A completion that needs an overflow entry (an error, or a success when
      the array of the queue is full) is lost when the allocator refuses the
      entry: rds_msg.c does not look at the result of the write.  Statements
      that an operation is reported are [Frame.posted], which allows the loss
      in that case only ([Frame.lost]), and only if the allocator can refuse.
    Theorems that use the first two have them as hypotheses.

    ** Bounds and fuel

    Loops whose recursion is not structural carry fuel that is computed from
    the state and proved sufficient wherever the operation is specified: the
    number of nodes for the loops of the tree, the number of cached entries
    for the loops of the cache (one entry leaves per round; a search retries
    only after freeing one, or after an EAGAIN, which [k_patience] counts), the number of slots for a ring (one lap), the
    total length over the segment size for segmentation, the socket budget
    of rds_progress.c for receives.  Machine integers are [Z] with explicit
    reduction where the code can wrap.  The reachability theorem assumes
    that fewer than 2^64 operation ids are ever issued, and that ring slots
    hold messages the peer's provider writes (the peer writes them by RDMA).

    ** Not modelled

    - Memory monitors, the kernel side of RDS and the allocator:
      environment, as above.
    - Locks and concurrency inside an operation: the provider serialises on
      the endpoint lock; the cache's own lock only guards against monitors
      and other domains.
    - Wait objects and event queues: the outcome of opening a wait object
      is an argument of the models of queues and counters.  Queues imported
      from another provider (FI_PEER): the owner's operations.
    - The list of open fabrics, which is an argument of discovery, and the
      operation tables the constructors fill in.
    - ofi_ip_av_straddr, which formats an address for printing.
    - The core's choice among providers in fi_getinfo, parameter
      registration, logging: no state of the provider.
    - Freeing the memory of an object once it is closed.  The assertions at
      the end of ofi_mr_cache_cleanup are not part of its definition, which
      is that of a build without them; that the counters of cached regions
      are zero once every entry has been given back is part of the theorem
      about it. *)

From Stdlib Require Export ZArith Lia.
From stdpp Require Export prelude gmap.

#[export] Set Default Goal Selector "1".
#[global] Open Scope Z_scope.

(** ** Record update

    [r <| f := v |>] is the record [r] with field [f] replaced by [v], and
    [r <| f ::= g |>] applies [g] to the field.  A record type opts in with a
    [Settable] instance that spells out its eta expansion; the setter of a
    field is found from it by abstracting the projection. *)

Class Settable (R : Type) := eta_expand : R -> R.
Class Setter {R T : Type} (proj : R -> T) := set_field : (T -> T) -> R -> R.
Arguments set_field {R T} proj {_} _ _.

Ltac find_setter :=
  lazymatch goal with
  | |- @Setter ?R ?T ?p =>
      let i := constr:(_ : Settable R) in
      let e := eval hnf in i in
      let e := eval cbv beta in e in
      lazymatch eval pattern p in e with
      | ?g _ => exact (fun (u : T -> T) (r : R) => g (fun x : R => u (p x)) r)
      end
  end.

#[export] Hint Extern 1 (Setter _) => find_setter : typeclass_instances.

Declare Scope record_scope.
Open Scope record_scope.
#[warnings="-postfix-notation-not-level-1"]
Notation "r <| f := v |>" := (set_field f (fun _ => v) r)
  (at level 12, f at next level, left associativity, format "r  <| f  :=  v |>") : record_scope.
#[warnings="-postfix-notation-not-level-1"]
Notation "r <| f ::= g |>" := (set_field f g r)
  (at level 12, f at next level, left associativity, format "r  <| f  ::=  g |>") : record_scope.

(** ** Machine integers

    C unsigned integers are [Z] values reduced modulo their width. *)

Definition u8 (x : Z) : Z := x mod 2 ^ 8.
Definition u16 (x : Z) : Z := x mod 2 ^ 16.
Definition u32 (x : Z) : Z := x mod 2 ^ 32.
Definition u64 (x : Z) : Z := x mod 2 ^ 64.
Definition SIZE_MAX : Z := 2 ^ 64 - 1.

Lemma u64_range x : 0 <= u64 x < 2 ^ 64.
Proof. apply Z.mod_pos_bound. reflexivity. Qed.
Lemma u32_range x : 0 <= u32 x < 2 ^ 32.
Proof. apply Z.mod_pos_bound. reflexivity. Qed.
Lemma u64_small x : 0 <= x < 2 ^ 64 -> u64 x = x.
Proof. apply Z.mod_small. Qed.
Lemma u32_small x : 0 <= x < 2 ^ 32 -> u32 x = x.
Proof. apply Z.mod_small. Qed.
Lemma u16_small x : 0 <= x < 2 ^ 16 -> u16 x = x.
Proof. apply Z.mod_small. Qed.

(** A flag word contains some bit of [b]: C's [flags & b] used as a condition. *)
Definition has (flags b : Z) : bool := negb (Z.land flags b =? 0).

(** ** libfabric constants *)

Definition FI_SUCCESS : Z := 0.
Definition FI_ENOENT : Z := 2.
Definition FI_EAGAIN : Z := 11.
Definition FI_ENOMEM : Z := 12.
Definition FI_EBUSY : Z := 16.
Definition FI_EINVAL : Z := 22.
Definition FI_ENOSPC : Z := 28.
Definition FI_ENOSYS : Z := 38.
Definition FI_ENODATA : Z := 61.
Definition FI_EMSGSIZE : Z := 90.
Definition FI_ENOPROTOOPT : Z := 92.
Definition FI_EOPNOTSUPP : Z := 95.
Definition FI_EADDRNOTAVAIL : Z := 99.
Definition FI_ENOBUFS : Z := 105.
Definition FI_EALREADY : Z := 114.
Definition FI_ECANCELED : Z := 125.
Definition FI_ETOOSMALL : Z := 257.
Definition FI_EOPBADSTATE : Z := 258.
Definition FI_EAVAIL : Z := 259.
Definition FI_EBADFLAGS : Z := 260.
Definition FI_ENOCQ : Z := 263.
Definition FI_ETRUNC : Z := 265.
Definition FI_ENOAV : Z := 267.

Definition FI_MSG : Z := Z.shiftl 1 1.
Definition FI_RMA : Z := Z.shiftl 1 2.
Definition FI_TAGGED : Z := Z.shiftl 1 3.
Definition FI_ATOMIC : Z := Z.shiftl 1 4.
Definition FI_READ : Z := Z.shiftl 1 8.
Definition FI_WRITE : Z := Z.shiftl 1 9.
Definition FI_RECV : Z := Z.shiftl 1 10.
Definition FI_SEND : Z := Z.shiftl 1 11.
Definition FI_TRANSMIT : Z := FI_SEND.
Definition FI_REMOTE_READ : Z := Z.shiftl 1 12.
Definition FI_REMOTE_WRITE : Z := Z.shiftl 1 13.
Definition FI_MULTI_RECV : Z := Z.shiftl 1 16.
Definition FI_REMOTE_CQ_DATA : Z := Z.shiftl 1 17.
Definition FI_COMPLETION : Z := Z.shiftl 1 24.
Definition FI_INJECT : Z := Z.shiftl 1 25.
Definition FI_INJECT_COMPLETE : Z := Z.shiftl 1 26.
Definition FI_DELIVERY_COMPLETE : Z := Z.shiftl 1 28.
Definition FI_AFFINITY : Z := Z.shiftl 1 29.
Definition FI_PEER : Z := Z.shiftl 1 43.
Definition FI_LOCAL_COMM : Z := Z.shiftl 1 51.
Definition FI_REMOTE_COMM : Z := Z.shiftl 1 52.
Definition FI_SOURCE : Z := Z.shiftl 1 57.
Definition FI_DIRECTED_RECV : Z := Z.shiftl 1 59.
Definition FI_SELECTIVE_COMPLETION : Z := Z.shiftl 1 59.

(** [fi_addr_t] is a 64-bit index; both sentinels are [(uint64_t) -1]. *)
Definition FI_ADDR_UNSPEC : Z := 2 ^ 64 - 1.
Definition FI_ADDR_NOTAVAIL : Z := 2 ^ 64 - 1.

(** ** The C monad

    A C function over a state [S] is a state transformer that is undefined
    where the C code would dereference a null or dangling pointer, divide by
    zero, or read past the object it was given. *)

Definition M (S A : Type) : Type := S -> option (A * S).

Definition ret {S A} (a : A) : M S A := fun s => Some (a, s).
Definition bind {S A B} (m : M S A) (k : A -> M S B) : M S B := fun s =>
  match m s with Some (a, s') => k a s' | None => None end.
Definition ub {S A} : M S A := fun _ => None.
Definition gets {S A} (f : S -> A) : M S A := fun s => Some (f s, s).
Definition modify {S} (f : S -> S) : M S unit := fun s => Some (tt, f s).
Definition of_opt {S A} (o : option A) : M S A :=
  match o with Some a => ret a | None => ub end.

Declare Scope c_scope.
Delimit Scope c_scope with c.
Notation "x <- m ;; k" := (bind m (fun x => k))
  (at level 100, m at next level, right associativity) : c_scope.
Notation "m ;;; k" := (bind m (fun _ => k))
  (at level 100, right associativity) : c_scope.
Open Scope c_scope.

Definition when {S} (b : bool) (m : M S unit) : M S unit := if b then m else ret tt.

(** ** Weakest preconditions

    [wp m Q s]: running [m] from [s] is defined and ends in a result and a
    state that satisfy [Q] (total correctness). *)

Definition wp {S A} (m : M S A) (Q : A -> S -> Prop) (s : S) : Prop :=
  match m s with Some (a, s') => Q a s' | None => False end.

Section wp_rules.
Context {S : Type}.
Implicit Types s : S.

Lemma wp_ret {A} (a : A) Q s : Q a s -> wp (ret a) Q s.
Proof. exact (fun H => H). Qed.

Lemma wp_bind {A B} (m : M S A) (k : A -> M S B) Q s :
  wp m (fun a s' => wp (k a) Q s') s -> wp (bind m k) Q s.
Proof. unfold wp, bind. by destruct (m s) as [[a s']|]. Qed.

Lemma wp_bind_inv {A B} (m : M S A) (k : A -> M S B) Q s :
  wp (bind m k) Q s -> wp m (fun a s' => wp (k a) Q s') s.
Proof. unfold wp, bind. by destruct (m s) as [[a s']|]. Qed.

Lemma wp_gets {A} (f : S -> A) Q s : Q (f s) s -> wp (gets f) Q s.
Proof. exact (fun H => H). Qed.

Lemma wp_modify (f : S -> S) Q s : Q tt (f s) -> wp (modify f) Q s.
Proof. exact (fun H => H). Qed.

Lemma wp_of_opt {A} (o : option A) Q s a : o = Some a -> Q a s -> wp (of_opt o) Q s.
Proof. intros ->. exact (fun H => H). Qed.

Lemma wp_when b (m : M S unit) Q s :
  (b = true -> wp m Q s) -> (b = false -> Q tt s) -> wp (when b m) Q s.
Proof. intros. destruct b; cbn; auto. Qed.

Lemma wp_mono {A} (m : M S A) (Q Q' : A -> S -> Prop) s :
  wp m Q s -> (forall a s', Q a s' -> Q' a s') -> wp m Q' s.
Proof. unfold wp. destruct (m s) as [[a s']|]; auto. Qed.

Lemma wp_and {A} (m : M S A) (Q Q' : A -> S -> Prop) s :
  wp m Q s -> wp m Q' s -> wp m (fun a s' => Q a s' /\ Q' a s') s.
Proof. unfold wp. destruct (m s) as [[a s']|]; auto. Qed.

Lemma wp_run {A} (m : M S A) Q s :
  wp m Q s <-> exists a s', m s = Some (a, s') /\ Q a s'.
Proof.
  unfold wp. destruct (m s) as [[a s']|]; split; intros H.
  - eauto.
  - by destruct H as (? & ? & [= <- <-] & ?).
  - done.
  - by destruct H as (? & ? & ? & ?).
Qed.
End wp_rules.

(** ** Weak preconditions

    [wlp m Q s]: if running [m] from [s] is defined, it ends in [Q].  The
    weak form carries facts about the trace of a program whose definedness
    is established separately; [wp_wlp] joins the two. *)

Definition wlp {S A} (m : M S A) (Q : A -> S -> Prop) (s : S) : Prop :=
  match m s with Some (a, s') => Q a s' | None => True end.

Section wlp_rules.
Context {S : Type}.
Implicit Types s : S.

Lemma wlp_of_wp {A} (m : M S A) Q s : wp m Q s -> wlp m Q s.
Proof. unfold wp, wlp. by destruct (m s) as [[a s']|]. Qed.

Lemma wp_wlp {A} (m : M S A) (Q Q' : A -> S -> Prop) s :
  wp m Q s -> wlp m Q' s -> wp m (fun a s' => Q a s' /\ Q' a s') s.
Proof. unfold wp, wlp. destruct (m s) as [[a s']|]; auto. Qed.

Lemma wlp_ret {A} (a : A) Q s : Q a s -> wlp (ret a) Q s.
Proof. exact (fun H => H). Qed.

Lemma wlp_bind {A B} (m : M S A) (k : A -> M S B) Q s :
  wlp m (fun a s' => wlp (k a) Q s') s -> wlp (bind m k) Q s.
Proof. unfold wlp, bind. by destruct (m s) as [[a s']|]. Qed.

Lemma wlp_mono {A} (m : M S A) (Q Q' : A -> S -> Prop) s :
  wlp m Q s -> (forall a s', Q a s' -> Q' a s') -> wlp m Q' s.
Proof. unfold wlp. destruct (m s) as [[a s']|]; auto. Qed.

Lemma wlp_of_opt {A} (o : option A) Q s : (forall a, o = Some a -> Q a s) -> wlp (of_opt o) Q s.
Proof. intros HQ. destruct o; [by apply HQ|done]. Qed.

Lemma wlp_ub {A} (Q : A -> S -> Prop) s : wlp ub Q s.
Proof. done. Qed.
(** A result that does not depend on what ran before it. *)
Lemma wlp_then_ret {A B} (m : M S A) (b : B) Q s : (forall s', Q b s') -> wlp (bind m (fun _ => ret b)) Q s.
Proof. intros HQ. unfold wlp, bind, ret. destruct (m s) as [[a s']|]; [apply HQ|done]. Qed.
End wlp_rules.

(** [wp_pure] takes the administrative steps; [wp_case] splits the next
    conditional or match of the program. *)
Ltac wp_pure :=
  repeat first
    [ apply wp_bind
    | apply wp_ret
    | apply wp_gets
    | apply wp_modify
    | progress cbn beta iota ].

Ltac wp_case :=
  match goal with
  | |- wp (if ?b then _ else _) _ _ => destruct b eqn:?
  | |- wp (match ?x with _ => _ end) _ _ => destruct x eqn:?
  | |- wp (when _ _) _ _ => apply wp_when; intros ?
  end.

(** ** Shared lemmas on lists *)

Definition sumZ (l : list Z) : Z := foldr Z.add 0 l.

Lemma sumZ_app l1 l2 : sumZ (l1 ++ l2) = sumZ l1 + sumZ l2.
Proof. unfold sumZ. induction l1; simpl; lia. Qed.

Lemma sumZ_nonneg l : Forall (Z.le 0) l -> 0 <= sumZ l.
Proof. unfold sumZ. induction 1; simpl; lia. Qed.

(** [find_split p l] is C's [dlist_foreach] search: the entries before the
    first one that satisfies [p], that entry, and the entries after it. *)
Fixpoint find_split {A} (p : A -> bool) (l : list A) : option (list A * A * list A) :=
  match l with
  | [] => None
  | x :: l' =>
      if p x then Some ([], x, l')
      else match find_split p l' with
           | Some (l1, y, l2) => Some (x :: l1, y, l2)
           | None => None
           end
  end.

Lemma find_split_Some {A} (p : A -> bool) l l1 x l2 :
  find_split p l = Some (l1, x, l2) <->
  l = l1 ++ x :: l2 /\ p x = true /\ Forall (fun y => p y = false) l1.
Proof.
  revert l1. induction l as [|a l IH]; intros l1; cbn.
  { split; [done|]. by intros [?%app_cons_not_nil _]. }
  destruct (p a) eqn:Ha.
  - split.
    + intros [= <- -> <-]. auto.
    + intros (E & Hx & HF). destruct l1 as [|b l1]; simplify_eq/=; [done|].
      inversion HF; congruence.
  - destruct (find_split p l) as [[[m1 y] m2]|] eqn:E.
    + split.
      * intros [= <- <- <-]. destruct (proj1 (IH m1) eq_refl) as (-> & ? & ?). auto.
      * intros (E' & Hx & HF). destruct l1 as [|b l1]; simplify_eq/=; [congruence|].
        inversion HF; subst.
        assert (Some (m1, y, m2) = Some (l1, x, l2)) as [= -> -> ->] by (apply IH; auto).
        done.
    + split; [done|]. intros (E' & Hx & HF).
      destruct l1 as [|b l1]; simplify_eq/=; [congruence|].
      inversion HF; subst.
      by assert (None = Some (l1, x, l2)) by (apply IH; auto).
Qed.

Lemma find_split_None {A} (p : A -> bool) l :
  find_split p l = None <-> Forall (fun y => p y = false) l.
Proof.
  induction l as [|a l IH]; cbn; [by split|].
  destruct (p a) eqn:Ha.
  - split; [done|]. inversion 1; congruence.
  - destruct (find_split p l) as [[[? ?] ?]|]; split; intros H; try done.
    + inversion H; subst. by apply IH in H3.
    + constructor; [done|]. by apply IH.
Qed.
