(* ===== verification/Iov.v ===== *)
(** * Scatter/gather lists and byte memory

    The process memory as the data path sees it, [struct iovec], and the
    scatter/gather helpers of [libfabric/include/ofi_iov.h],
    [libfabric/src/iov.c] and [rds_iov_slice] of [prov/rds/src/rds_msg.c].

    The reference semantics of a scatter list is [iov_addrs], the sequence of
    byte addresses it denotes.  The theorems say that each helper computes
    the corresponding operation on that sequence: a slice is [take]/[drop], a
    copy moves a prefix, and so on. *)

From S2P Require Import Prelude.

(** ** Byte memory *)

(** Bytes are [Z] values; memory is total, and the data path only touches the
    ranges it was given. *)
Definition mem : Type := Z -> Z.

Definition mem_read (m : mem) (a n : Z) : list Z := m <$> seqZ a n.

Definition mem_write (m : mem) (a : Z) (bs : list Z) : mem := fun x =>
  if (a <=? x) && (x <? a + Z.of_nat (length bs))
  then nth (Z.to_nat (x - a)) bs 0 else m x.

(** ** struct iovec *)

Record iovec := mkIov { iov_base : Z; iov_len : Z }.

#[global] Instance iovec_eq_dec : EqDecision iovec.
Proof. solve_decision. Defined.

(** A scatter list the caller may pass: lengths are [size_t] values and the
    whole list describes less than the address space. *)
Definition iov_total (iov : list iovec) : Z := sumZ (iov_len <$> iov).
Definition iov_ok (iov : list iovec) : Prop :=
  Forall (fun v => 0 <= iov_len v) iov /\ iov_total iov < 2 ^ 64.

(** The byte addresses a scatter list denotes, in order. *)
Definition iov_addrs (iov : list iovec) : list Z :=
  mjoin ((fun v => seqZ (iov_base v) (iov_len v)) <$> iov).

(** ** Operations *)

(** [ofi_total_iov_len]: the [size_t] sum of the lengths. *)
Definition ofi_total_iov_len (iov : list iovec) : Z :=
  foldl (fun len v => u64 (len + iov_len v)) 0 iov.

(** [rds_iov_len] of rds.h is the same loop. *)
Definition rds_iov_len (iov : list iovec) : Z :=
  foldl (fun len v => u64 (len + iov_len v)) 0 iov.

(** [ofi_iov_bytes_to_copy]: the bytes of this element to copy, its start
    address, and the updated [*size] and [*offset]. *)
Definition ofi_iov_bytes_to_copy (v : iovec) (size offset : Z) : Z * Z * Z * Z :=
  let len := iov_len v in
  if offset >? len then (0, 0, size, offset - len)
  else
    let copy_buf := iov_base v + offset in
    let len := Z.min (len - offset) size in
    (len, copy_buf, size - len, 0).

(** [ofi_copy_iov_buf] with [dir == OFI_COPY_BUF_TO_IOV]: copies the bytes
    [buf] out to the scatter list; returns the memory and the count. *)
Fixpoint ofi_copy_buf_to_iov (iov : list iovec) (offset : Z) (buf : list Z)
    (bufsize done : Z) (m : mem) : mem * Z :=
  match iov with
  | [] => (m, done)
  | v :: iov' =>
      if bufsize =? 0 then (m, done)
      else
        let '(len, dst, size', offset') := ofi_iov_bytes_to_copy v bufsize offset in
        if len =? 0 then ofi_copy_buf_to_iov iov' offset' buf size' done m
        else
          let src := take (Z.to_nat len) (drop (Z.to_nat done) buf) in
          ofi_copy_buf_to_iov iov' offset' buf size' (done + len) (mem_write m dst src)
  end.

(** [ofi_copy_iov_buf] with [dir == OFI_COPY_IOV_TO_BUF]: the bytes gathered
    into the buffer. *)
Fixpoint ofi_copy_iov_to_buf (iov : list iovec) (offset bufsize : Z) (m : mem)
    (acc : list Z) : list Z :=
  match iov with
  | [] => acc
  | v :: iov' =>
      if bufsize =? 0 then acc
      else
        let '(len, src, size', offset') := ofi_iov_bytes_to_copy v bufsize offset in
        if len =? 0 then ofi_copy_iov_to_buf iov' offset' size' m acc
        else ofi_copy_iov_to_buf iov' offset' size' m (acc ++ mem_read m src len)
  end.

(** [ofi_copy_to_iov] has a fast path for a single element. *)
Definition ofi_copy_to_iov (iov : list iovec) (iov_offset : Z) (buf : list Z)
    (bufsize : Z) (m : mem) : mem * Z :=
  match iov with
  | [v] =>
      let size := if iov_offset >? iov_len v then 0
                  else Z.min bufsize (iov_len v - iov_offset) in
      (mem_write m (iov_base v + iov_offset) (take (Z.to_nat size) buf), size)
  | _ => ofi_copy_buf_to_iov iov iov_offset buf bufsize 0 m
  end.

Definition ofi_copy_from_iov (bufsize : Z) (iov : list iovec) (iov_offset : Z)
    (m : mem) : list Z :=
  match iov with
  | [v] =>
      let size := if iov_offset >? iov_len v then 0
                  else Z.min bufsize (iov_len v - iov_offset) in
      mem_read m (iov_base v + iov_offset) size
  | _ => ofi_copy_iov_to_buf iov iov_offset bufsize m []
  end.

Definition RDS_IOV_LIMIT : nat := 8.

(** [rds_iov_slice]: the loop of the C function, with [dst] accumulated and
    [i], [pos], [dn], [got] as its local variables. *)
Fixpoint rds_iov_slice_loop (src : list iovec) (off len pos : Z) (dst : list iovec)
    (got : Z) : list iovec * Z :=
  match src with
  | [] => (dst, got)
  | v :: src' =>
      if (len =? 0) || (RDS_IOV_LIMIT <=? length dst)%nat then (dst, got)
      else
        let blen := iov_len v in
        if u64 (pos + blen) <=? off
        then rds_iov_slice_loop src' off len (u64 (pos + blen)) dst got
        else
          let s := if off >? pos then off - pos else 0 in
          let take := Z.min (blen - s) len in
          rds_iov_slice_loop src' off (len - take) (u64 (pos + blen))
            (dst ++ [mkIov (iov_base v + s) take]) (got + take)
  end.

(** Returns the slice and the number of bytes it covers. *)
Definition rds_iov_slice (src : list iovec) (off len : Z) : list iovec * Z :=
  rds_iov_slice_loop src off len 0 [] 0.

(** ** Facts about memory *)

Lemma mem_write_out m a bs x :
  ~ (a <= x < a + Z.of_nat (length bs)) -> mem_write m a bs x = m x.
Proof.
  intros H. unfold mem_write.
  destruct (Z.leb_spec a x), (Z.ltb_spec x (a + Z.of_nat (length bs))); cbn; try done; lia.
Qed.

Lemma mem_write_in m a bs x :
  a <= x < a + Z.of_nat (length bs) ->
  mem_write m a bs x = nth (Z.to_nat (x - a)) bs 0.
Proof.
  intros H. unfold mem_write.
  destruct (Z.leb_spec a x), (Z.ltb_spec x (a + Z.of_nat (length bs))); cbn; try done; lia.
Qed.

Lemma mem_read_length m a n : length (mem_read m a n) = Z.to_nat n.
Proof. unfold mem_read. by rewrite length_fmap, length_seqZ. Qed.

Lemma mem_read_write_same m a bs :
  mem_read (mem_write m a bs) a (Z.of_nat (length bs)) = bs.
Proof.
  apply list_eq. intros i. unfold mem_read. rewrite list_lookup_fmap.
  destruct (decide (i < length bs)%nat) as [Hi|Hi].
  - rewrite lookup_seqZ_lt by lia. cbn.
    rewrite mem_write_in by lia.
    replace (Z.to_nat (a + Z.of_nat i - a)) with i by lia.
    destruct (lookup_lt_is_Some_2 bs i Hi) as [b Hb].
    rewrite Hb. f_equal. by apply nth_lookup_Some.
  - rewrite lookup_seqZ_ge by lia. cbn. symmetry. apply lookup_ge_None. lia.
Qed.

Lemma mem_read_write_disjoint m a bs b n :
  b + n <= a \/ a + Z.of_nat (length bs) <= b ->
  mem_read (mem_write m a bs) b n = mem_read m b n.
Proof.
  intros H. unfold mem_read. apply list_fmap_ext. intros i x Hx.
  apply lookup_seqZ in Hx as [-> ?]. apply mem_write_out. lia.
Qed.

(** ** Facts about scatter lists *)

Lemma iov_total_cons v iov : iov_total (v :: iov) = iov_len v + iov_total iov.
Proof. reflexivity. Qed.

Lemma iov_total_nonneg iov : Forall (fun v => 0 <= iov_len v) iov -> 0 <= iov_total iov.
Proof. intros H. apply sumZ_nonneg. by rewrite Forall_fmap. Qed.

Lemma iov_addrs_cons v iov :
  iov_addrs (v :: iov) = seqZ (iov_base v) (iov_len v) ++ iov_addrs iov.
Proof. reflexivity. Qed.

Lemma iov_addrs_app iov1 iov2 : iov_addrs (iov1 ++ iov2) = iov_addrs iov1 ++ iov_addrs iov2.
Proof.
  induction iov1 as [|v iov1 IH]; [done|].
  cbn [app]. rewrite !iov_addrs_cons, IH, app_assoc. done.
Qed.

Lemma iov_addrs_length iov :
  Forall (fun v => 0 <= iov_len v) iov ->
  Z.of_nat (length (iov_addrs iov)) = iov_total iov.
Proof.
  induction 1 as [|v iov Hv _ IH]; [done|].
  rewrite iov_addrs_cons, iov_total_cons, length_app, length_seqZ. lia.
Qed.

Lemma iov_ok_cons v iov : iov_ok (v :: iov) -> 0 <= iov_len v /\ iov_ok iov.
Proof.
  intros [HF HT]. inversion_clear HF as [|? ? Hv HF']. rewrite iov_total_cons in HT.
  repeat split; [done..|lia].
Qed.

Lemma fold_total_iov iov acc :
  Forall (fun v => 0 <= iov_len v) iov -> 0 <= acc -> acc + iov_total iov < 2 ^ 64 ->
  foldl (fun len v => u64 (len + iov_len v)) acc iov = acc + iov_total iov.
Proof.
  intros HF. revert acc. induction HF as [|v iov Hv HF IH]; intros acc Ha Ht; [cbn; lia|].
  rewrite iov_total_cons in Ht. cbn [foldl].
  pose proof (iov_total_nonneg iov HF).
  rewrite u64_small by lia. rewrite IH by lia. rewrite iov_total_cons. lia.
Qed.

Lemma ofi_total_iov_len_ok iov : iov_ok iov -> ofi_total_iov_len iov = iov_total iov.
Proof.
  intros [HF HT]. unfold ofi_total_iov_len. rewrite fold_total_iov; [lia|done|lia|lia].
Qed.

Lemma seqZ_drop a n k : 0 <= k -> drop (Z.to_nat k) (seqZ a n) = seqZ (a + k) (n - k).
Proof.
  intros Hk. apply list_eq. intros i. rewrite lookup_drop.
  destruct (decide (k + Z.of_nat i < n)) as [Hi|Hi].
  - rewrite !lookup_seqZ_lt by lia. f_equal. lia.
  - rewrite !lookup_seqZ_ge by lia. done.
Qed.

Lemma seqZ_take a n k : take (Z.to_nat k) (seqZ a n) = seqZ a (Z.min k n).
Proof.
  apply list_eq. intros i.
  destruct (decide (Z.of_nat i < k)) as [Hk|Hk].
  - rewrite lookup_take by lia.
    destruct (decide (i < Z.to_nat k)%nat); [|lia].
    destruct (decide (Z.of_nat i < n)).
    + rewrite !lookup_seqZ_lt by lia. done.
    + rewrite !lookup_seqZ_ge by lia. done.
  - rewrite lookup_seqZ_ge by lia. apply lookup_ge_None.
    rewrite length_take, length_seqZ. lia.
Qed.

(** ** Slicing *)

Lemma slice_loop_spec src : forall off len pos dst got dst' got',
  Forall (fun v => 0 <= iov_len v) src -> 0 <= pos -> pos + iov_total src < 2 ^ 64 ->
  0 <= off -> 0 <= len -> (length dst <= RDS_IOV_LIMIT)%nat ->
  rds_iov_slice_loop src off len pos dst got = (dst', got') ->
  exists ext,
    dst' = dst ++ ext /\ got' = got + iov_total ext /\
    Forall (fun v => 0 <= iov_len v) ext /\ (length dst' <= RDS_IOV_LIMIT)%nat /\
    iov_addrs ext `prefix_of` take (Z.to_nat len) (drop (Z.to_nat (off - pos)) (iov_addrs src)) /\
    ((length dst + length src <= RDS_IOV_LIMIT)%nat ->
     iov_addrs ext = take (Z.to_nat len) (drop (Z.to_nat (off - pos)) (iov_addrs src))).
Proof.
  induction src as [|v src IH]; intros off len pos dst got dst' got' HF Hp Ht Ho Hl Hd E.
  { cbn in E. injection E as <- <-. exists []. rewrite app_nil_r.
    change (iov_addrs []) with (@nil Z). rewrite drop_nil, take_nil.
    repeat split; try done. cbn; lia. }
  cbn [rds_iov_slice_loop] in E. inversion_clear HF as [|? ? Hv HF'].
  rewrite iov_total_cons in Ht. pose proof (iov_total_nonneg src HF') as Hn.
  rewrite u64_small in E by lia.
  destruct ((len =? 0) || (RDS_IOV_LIMIT <=? length dst)%nat) eqn:Hstop.
  { injection E as <- <-. exists []. rewrite app_nil_r.
    repeat split; try done; [cbn; lia|apply prefix_nil|].
    intros Hlim. cbn [length] in Hlim. apply orb_true_iff in Hstop as [->%Z.eqb_eq|Hstop%Nat.leb_le]; [done|lia]. }
  apply orb_false_iff in Hstop as [Hl0 Hd0].
  apply Z.eqb_neq in Hl0. apply Nat.leb_gt in Hd0.
  rewrite iov_addrs_cons.
  destruct (Z.leb_spec (pos + iov_len v) off) as [Hs|Hs].
  - apply IH in E as (ext & -> & -> & Hpos & Hlen & Hpre & Heq); [|done|lia..].
    exists ext. replace (off - (pos + iov_len v)) with (off - pos - iov_len v) in * by lia.
    assert (drop (Z.to_nat (off - pos)) (seqZ (iov_base v) (iov_len v) ++ iov_addrs src)
            = drop (Z.to_nat (off - pos - iov_len v)) (iov_addrs src)) as ->.
    { rewrite drop_app_ge by (rewrite length_seqZ; lia). f_equal. rewrite length_seqZ. lia. }
    repeat split; try done. intros Hlim. apply Heq. cbn [length] in Hlim. lia.
  - set (s := if off >? pos then off - pos else 0) in *.
    assert (s = Z.max 0 (off - pos)) as Hseq.
    { unfold s. rewrite Z.gtb_ltb. destruct (Z.ltb_spec pos off); lia. }
    clearbody s. set (tk := Z.min (iov_len v - s) len) in *.
    apply IH in E as (ext & -> & -> & Hpos & Hlen & Hpre & Heq);
      [|done|try lia..]; [|rewrite length_app; cbn; lia].
    exists (mkIov (iov_base v + s) tk :: ext).
    assert (Z.to_nat (off - (pos + iov_len v)) = 0%nat) as Hz by lia.
    rewrite Hz, drop_0 in Hpre, Heq.
    assert (drop (Z.to_nat (off - pos)) (seqZ (iov_base v) (iov_len v) ++ iov_addrs src)
            = seqZ (iov_base v + s) (iov_len v - s) ++ iov_addrs src) as ->.
    { replace (Z.to_nat (off - pos)) with (Z.to_nat s) by lia.
      rewrite drop_app_le by (rewrite length_seqZ; lia). by rewrite seqZ_drop by lia. }
    assert (take (Z.to_nat len) (seqZ (iov_base v + s) (iov_len v - s) ++ iov_addrs src)
            = seqZ (iov_base v + s) tk ++ take (Z.to_nat (len - tk)) (iov_addrs src)) as ->.
    { rewrite take_app, seqZ_take, length_seqZ. f_equal; f_equal; lia. }
    rewrite iov_addrs_cons. cbn [iov_base iov_len].
    repeat split.
    + by rewrite <- app_assoc.
    + rewrite iov_total_cons. cbn. lia.
    + constructor; [cbn; lia|done].
    + done.
    + by apply prefix_app.
    + intros Hlim. f_equal. apply Heq. rewrite length_app. cbn [length] in *. lia.
Qed.

(** The byte count a slice reports never exceeds what was asked for. *)
Lemma slice_got src off len dst got : iov_ok src -> 0 <= off -> 0 <= len ->
  rds_iov_slice src off len = (dst, got) -> 0 <= got <= len.
Proof.
  intros [HF HT] Ho Hl E.
  apply slice_loop_spec in E as (ext & -> & -> & Hp & _ & Hpre & _); [|done|lia|lia|done|done|cbn; lia].
  pose proof (iov_addrs_length _ Hp). apply prefix_length in Hpre. rewrite length_take in Hpre. lia.
Qed.

(** [rds_iov_slice] computes a sub-range of a scatter list.  Its result is
    a scatter list of at most [RDS_IOV_LIMIT] elements whose byte addresses
    are a prefix of bytes [off, off+len) of the source, and its return value
    is the number of bytes it covers.  When the source itself has at most
    [RDS_IOV_LIMIT] elements the slice is exact. *)
Theorem rds_iov_slice_spec (src : list iovec) (off len : Z) :
  iov_ok src -> 0 <= off -> 0 <= len ->
  let '(dst, got) := rds_iov_slice src off len in
  let window := take (Z.to_nat len) (drop (Z.to_nat off) (iov_addrs src)) in
  (length dst <= RDS_IOV_LIMIT)%nat /\
  got = Z.of_nat (length (iov_addrs dst)) /\
  iov_addrs dst `prefix_of` window /\
  ((length src <= RDS_IOV_LIMIT)%nat -> iov_addrs dst = window).
Proof.
  intros [HF HT] Ho Hl. destruct (rds_iov_slice src off len) as [dst got] eqn:E.
  apply slice_loop_spec in E as (ext & -> & -> & Hp & Hd & Hpre & Heq);
    [|done|lia|lia|done|done|cbn; lia].
  cbn [app length] in *. rewrite Z.sub_0_r in *.
  split_and!; [done| |done|exact Heq].
  rewrite iov_addrs_length by done. lia.
Qed.

Lemma rds_iov_slice_spec_witness :
  let src := [mkIov 100 4; mkIov 0 0; mkIov 200 6] in
  let '(dst, got) := rds_iov_slice src 3 4 in
  let window := take 4 (drop 3 (iov_addrs src)) in
  (length dst <= RDS_IOV_LIMIT)%nat /\ got = Z.of_nat (length (iov_addrs dst)) /\
  iov_addrs dst `prefix_of` window /\ ((length src <= RDS_IOV_LIMIT)%nat -> iov_addrs dst = window).
Proof.
  apply (rds_iov_slice_spec [mkIov 100 4; mkIov 0 0; mkIov 200 6] 3 4); [|lia..].
  split; [by repeat constructor|done].
Defined.

(** ** Copies *)

(** A scatter copy writes nowhere else, whatever the list. *)
Lemma mem_write_frame m a bs len x : Z.of_nat (length bs) <= Z.max 0 len -> (x ∉ seqZ a len) -> mem_write m a bs x = m x.
Proof.
  intros Hl Hx. rewrite elem_of_seqZ in Hx. unfold mem_write. destruct (Z.leb_spec a x); [|done].
  destruct (Z.ltb_spec x (a + Z.of_nat (length bs))); [lia|done].
Qed.

Lemma copy_buf_frame iov : forall o buf n d m x, 0 <= o -> (x ∉ iov_addrs iov) ->
  (ofi_copy_buf_to_iov iov o buf n d m).1 x = m x.
Proof.
  induction iov as [|v iov IH]; intros o buf n d m x Ho Hx; [done|]. rewrite iov_addrs_cons, elem_of_app in Hx.
  cbn [ofi_copy_buf_to_iov]. destruct (n =? 0); [done|]. unfold ofi_iov_bytes_to_copy. rewrite Z.gtb_ltb.
  destruct (Z.ltb_spec (iov_len v) o); cbn [Z.eqb]; [apply IH; [lia|tauto]|].
  destruct (_ =? 0); [apply IH; [lia|tauto]|]. rewrite IH by (lia || tauto).
  apply (mem_write_frame _ _ _ (Z.min (iov_len v - o) n)); [rewrite length_take; lia|].
  intros Hin. apply elem_of_seqZ in Hin. apply Hx. left. apply elem_of_seqZ. lia.
Qed.

Lemma copy_to_iov_frame iov o buf n m x : 0 <= o -> (x ∉ iov_addrs iov) -> (ofi_copy_to_iov iov o buf n m).1 x = m x.
Proof.
  intros Ho Hx. destruct iov as [|v [|v2 iov]]; [done| |by apply copy_buf_frame]. cbn [ofi_copy_to_iov fst].
  rewrite Z.gtb_ltb. rewrite iov_addrs_cons, elem_of_app in Hx.
  apply (mem_write_frame _ _ _ (if iov_len v <? o then 0 else Z.min n (iov_len v - o))); [rewrite length_take; lia|].
  intros Hin. apply elem_of_seqZ in Hin. apply Hx. left. apply elem_of_seqZ. destruct (iov_len v <? o); lia.
Qed.

Lemma copy_to_iov_loop iov : forall o n d buf m m' r,
  Forall (fun v => 0 <= iov_len v) iov -> NoDup (iov_addrs iov) ->
  0 <= o -> 0 <= n -> 0 <= d -> d + n <= Z.of_nat (length buf) ->
  ofi_copy_buf_to_iov iov o buf n d m = (m', r) ->
  let A := take (Z.to_nat n) (drop (Z.to_nat o) (iov_addrs iov)) in
  r = d + Z.of_nat (length A) /\
  m' <$> A = take (length A) (drop (Z.to_nat d) buf) /\
  (forall x, x ∉ A -> m' x = m x).
Proof.
  induction iov as [|v iov IH]; intros o n d buf m m' r HF HN Ho Hn Hd Hb E A.
  { cbn in E. injection E as <- <-. subst A. change (iov_addrs []) with (@nil Z).
    rewrite drop_nil, take_nil. cbn. split_and!; [lia|done..]. }
  inversion_clear HF as [|? ? Hv HF']. rewrite iov_addrs_cons in *.
  apply NoDup_app in HN as (HN1 & Hdisj & HN2).
  cbn [ofi_copy_buf_to_iov] in E. unfold ofi_iov_bytes_to_copy in E.
  destruct (Z.eqb_spec n 0) as [->|Hn0].
  { injection E as <- <-. subst A. change (Z.to_nat 0) with 0%nat. rewrite take_0. cbn. split_and!; [lia|done..]. }
  rewrite Z.gtb_ltb in E. destruct (Z.ltb_spec (iov_len v) o) as [Hlt|Hle].
  - cbn in E. apply IH in E; try done; try lia. subst A. rewrite iov_addrs_cons.
    rewrite drop_app_ge by (rewrite length_seqZ; lia). rewrite length_seqZ.
    replace (Z.to_nat o - Z.to_nat (iov_len v))%nat with (Z.to_nat (o - iov_len v)) by lia.
    exact E.
  - set (len := Z.min (iov_len v - o) n) in *.
    assert (A = seqZ (iov_base v + o) len ++ take (Z.to_nat (n - len)) (iov_addrs iov)) as EA.
    { subst A. rewrite iov_addrs_cons, drop_app_le by (rewrite length_seqZ; lia).
      rewrite seqZ_drop by lia. rewrite take_app, seqZ_take, length_seqZ.
      f_equal; [f_equal; lia|]. f_equal. lia. }
    clearbody A. subst A.
    destruct (Z.eqb_spec len 0) as [Hl0|Hl0].
    + rewrite Hl0. rewrite Z.sub_0_r in *. cbn in E |- *.
      rewrite Hl0 in E. rewrite Z.sub_0_r in E.
      apply IH in E; try done; lia.
    + apply IH in E; try done; try lia. cbv zeta in E.
      change (Z.to_nat 0) with 0%nat in E. rewrite drop_0 in E.
      destruct E as (Er & Em & Ef).
      set (R := take (Z.to_nat (n - len)) (iov_addrs iov)) in *.
      assert (length (take (Z.to_nat len) (drop (Z.to_nat d) buf)) = Z.to_nat len) as Hsl.
      { rewrite length_take, length_drop. lia. }
      assert (HR : forall x, x ∈ seqZ (iov_base v + o) len -> x ∉ R).
      { intros x Hx HxR. apply elem_of_seqZ in Hx. eapply Hdisj.
        - apply elem_of_seqZ. instantiate (1 := x). lia.
        - apply elem_of_take in HxR as (i & Hi & _). by eapply list_elem_of_lookup_2. }
      split_and!.
      * rewrite length_app, length_seqZ. lia.
      * rewrite fmap_app, length_app, length_seqZ, Em.
        rewrite <- take_take_drop. f_equal.
        -- etransitivity; [|apply (mem_read_write_same m (iov_base v + o))].
           rewrite Hsl. unfold mem_read. rewrite Z2Nat.id by lia.
           apply list_fmap_ext. intros i x Hx%list_elem_of_lookup_2. auto.
        -- rewrite drop_drop. f_equal. f_equal. lia.
      * intros x Hx. rewrite not_elem_of_app in Hx. destruct Hx as [Hx HxR].
        rewrite Ef by done. apply mem_write_out. rewrite Hsl.
        rewrite elem_of_seqZ in Hx. lia.
Qed.

Lemma copy_from_iov_loop iov : forall o n m acc,
  Forall (fun v => 0 <= iov_len v) iov -> 0 <= o -> 0 <= n ->
  ofi_copy_iov_to_buf iov o n m acc =
  acc ++ (m <$> take (Z.to_nat n) (drop (Z.to_nat o) (iov_addrs iov))).
Proof.
  induction iov as [|v iov IH]; intros o n m acc HF Ho Hn.
  { change (iov_addrs []) with (@nil Z). rewrite drop_nil, take_nil. cbn.
    by rewrite app_nil_r. }
  inversion_clear HF as [|? ? Hv HF']. rewrite iov_addrs_cons.
  cbn [ofi_copy_iov_to_buf]. unfold ofi_iov_bytes_to_copy.
  destruct (Z.eqb_spec n 0) as [->|Hn0].
  { change (Z.to_nat 0) with 0%nat. rewrite take_0. cbn. by rewrite app_nil_r. }
  rewrite Z.gtb_ltb. destruct (Z.ltb_spec (iov_len v) o) as [Hlt|Hle].
  - cbn [Z.eqb]. rewrite IH by (done || lia).
    rewrite drop_app_ge by (rewrite length_seqZ; lia). rewrite length_seqZ.
    by replace (Z.to_nat o - Z.to_nat (iov_len v))%nat with (Z.to_nat (o - iov_len v)) by lia.
  - set (len := Z.min (iov_len v - o) n).
    assert (take (Z.to_nat n) (drop (Z.to_nat o) (seqZ (iov_base v) (iov_len v) ++ iov_addrs iov))
            = seqZ (iov_base v + o) len ++ take (Z.to_nat (n - len)) (iov_addrs iov)) as ->.
    { rewrite drop_app_le by (rewrite length_seqZ; lia).
      rewrite seqZ_drop by lia. rewrite take_app, seqZ_take, length_seqZ.
      f_equal; [f_equal; lia|]. f_equal. lia. }
    destruct (Z.eqb_spec len 0) as [Hl0|Hl0]; rewrite IH by (done || lia);
      change (Z.to_nat 0) with 0%nat; rewrite drop_0, fmap_app.
    + rewrite Hl0. done.
    + rewrite <- app_assoc. done.
Qed.

(** The one-element fast paths agree with the general loops. *)
Lemma ofi_copy_to_iov_loop iov o buf n m :
  Forall (fun v => 0 <= iov_len v) iov -> 0 <= o -> 0 <= n <= Z.of_nat (length buf) ->
  NoDup (iov_addrs iov) ->
  let '(m', r) := ofi_copy_to_iov iov o buf n m in
  let A := take (Z.to_nat n) (drop (Z.to_nat o) (iov_addrs iov)) in
  r = Z.of_nat (length A) /\ m' <$> A = take (length A) buf /\
  (forall x, x ∉ A -> m' x = m x).
Proof.
  intros HF Ho Hn HN.
  assert (Hgen : let '(m', r) := ofi_copy_buf_to_iov iov o buf n 0 m in
    let A := take (Z.to_nat n) (drop (Z.to_nat o) (iov_addrs iov)) in
    r = Z.of_nat (length A) /\ m' <$> A = take (length A) buf /\
    (forall x, x ∉ A -> m' x = m x)).
  { destruct (ofi_copy_buf_to_iov iov o buf n 0 m) as [m' r] eqn:E.
    exact (copy_to_iov_loop iov o n 0 buf m m' r HF HN Ho ltac:(lia) ltac:(lia) ltac:(lia) E). }
  destruct iov as [|v [|v2 iov]]; [exact Hgen| |exact Hgen].
  cbn [ofi_copy_to_iov]. inversion_clear HF as [|? ? Hv _].
  change (iov_addrs [v]) with (seqZ (iov_base v) (iov_len v) ++ []).
  rewrite app_nil_r, seqZ_drop, seqZ_take, length_seqZ by lia.
  rewrite Z.gtb_ltb. destruct (Z.ltb_spec (iov_len v) o) as [Hlt|Hle].
  - cbn. rewrite seqZ_nil by lia.
    replace (Z.to_nat (n `min` (iov_len v - o))) with 0%nat by lia.
    split_and!; [lia|done|]. intros x _. apply mem_write_out.
    change (Z.to_nat 0) with 0%nat. rewrite take_0. cbn [length]. lia.
  - set (len := Z.min n (iov_len v - o)).
    assert (length (take (Z.to_nat len) buf) = Z.to_nat len) as Hlen
      by (rewrite length_take; lia).
    split_and!; [lia| |].
    + etransitivity; [|apply (mem_read_write_same m (iov_base v + o))].
      rewrite Hlen, Z2Nat.id by lia. done.
    + intros x Hx. apply mem_write_out. rewrite elem_of_seqZ in Hx. lia.
Qed.

(** [ofi_copy_to_iov] scatters exactly the bytes that fit: it copies the
    first [min bufsize (total - offset)] bytes of the buffer to the addresses
    the scatter list denotes past [offset], in order, returns that count, and
    changes no other byte of memory. *)
Theorem ofi_copy_to_iov_spec (iov : list iovec) (o : Z) (buf : list Z) (n : Z) (m : mem) :
  iov_ok iov -> NoDup (iov_addrs iov) -> 0 <= o -> 0 <= n <= Z.of_nat (length buf) ->
  let '(m', r) := ofi_copy_to_iov iov o buf n m in
  let A := take (Z.to_nat n) (drop (Z.to_nat o) (iov_addrs iov)) in
  r = Z.min n (Z.max 0 (iov_total iov - o)) /\
  m' <$> A = take (Z.to_nat r) buf /\
  (forall x, x ∉ A -> m' x = m x).
Proof.
  intros [HF HT] HN Ho Hn. pose proof (ofi_copy_to_iov_loop iov o buf n m HF Ho Hn HN) as H.
  pose proof (iov_addrs_length iov HF) as HL.
  destruct (ofi_copy_to_iov iov o buf n m) as [m' r]. cbv zeta in *.
  destruct H as (-> & Hm & Hf). rewrite Nat2Z.id. split_and!; [|done|done].
  rewrite length_take, length_drop. lia.
Qed.

Lemma ofi_copy_to_iov_spec_witness :
  let iov := [mkIov 100 2; mkIov 200 3] in
  let '(m', r) := ofi_copy_to_iov iov 1 [7; 8; 9] 3 (fun _ => 0) in
  r = 3 /\ m' <$> take 3 (drop 1 (iov_addrs iov)) = [7; 8; 9] /\
  (forall x, x ∉ take 3 (drop 1 (iov_addrs iov)) -> m' x = 0).
Proof.
  apply (ofi_copy_to_iov_spec [mkIov 100 2; mkIov 200 3] 1 [7; 8; 9] 3 (fun _ => 0)); [| |lia|cbn; lia].
  - split; [by repeat constructor|done].
  - by apply (bool_decide_unpack _).
Defined.

Lemma copy_from_iov_eq (iov : list iovec) (o n : Z) (m : mem) :
  iov_ok iov -> 0 <= o -> 0 <= n ->
  ofi_copy_from_iov n iov o m = m <$> take (Z.to_nat n) (drop (Z.to_nat o) (iov_addrs iov)).
Proof.
  intros [HF _] Ho Hn. unfold ofi_copy_from_iov.
  destruct iov as [|v [|v2 iov]]; try exact (copy_from_iov_loop _ o n m [] HF Ho Hn).
  inversion_clear HF as [|? ? Hv _].
  change (iov_addrs [v]) with (seqZ (iov_base v) (iov_len v) ++ []).
  rewrite app_nil_r, seqZ_drop, seqZ_take by lia. rewrite Z.gtb_ltb.
  unfold mem_read. destruct (Z.ltb_spec (iov_len v) o) as [Hlt|Hle]; [|done].
  rewrite !seqZ_nil by lia. done.
Qed.

(** [ofi_copy_from_iov] gathers the bytes the scatter list denotes, from
    [offset] on and at most [bufsize] of them, in order. *)
Theorem ofi_copy_from_iov_spec (iov : list iovec) (o n : Z) (m : mem) :
  iov_ok iov -> 0 <= o -> 0 <= n ->
  ofi_copy_from_iov n iov o m = m <$> take (Z.to_nat n) (drop (Z.to_nat o) (iov_addrs iov)).
Proof. apply copy_from_iov_eq. Qed.

Lemma ofi_copy_from_iov_spec_witness :
  ofi_copy_from_iov 3 [mkIov 100 2; mkIov 200 3] 1 (fun a => a) = [101; 200; 201].
Proof.
  apply (ofi_copy_from_iov_spec [mkIov 100 2; mkIov 200 3] 1 3 (fun a => a)); [|lia..].
  split; [by repeat constructor|done].
Defined.
