(* ===== verification/Wire.v ===== *)
(** * Wire framing of the RDS provider

    The structures [prov/rds/src/rds.h] puts on the wire or into the eager
    ring ([struct rds_hdr], [struct rds_rndzv_seg], [struct rds_ring_info],
    [struct rds_ring_slot]) with their byte layout.  The code casts buffers to
    these structures on homogeneous little-endian x86 hosts, so a field is its
    little-endian bytes at its natural offset. *)

From S2P Require Import Prelude.

(** ** Little-endian integers *)

Fixpoint le_enc (n : nat) (v : Z) : list Z :=
  match n with
  | O => []
  | S n' => v mod 256 :: le_enc n' (v / 256)
  end.

Fixpoint le_dec (bs : list Z) : Z :=
  match bs with
  | [] => 0
  | b :: bs' => b + 256 * le_dec bs'
  end.

Definition byte_ok (b : Z) : Prop := 0 <= b < 256.

Lemma le_enc_length n v : length (le_enc n v) = n.
Proof. revert v. induction n; intros; cbn; auto. Qed.

Lemma le_dec_enc n v : le_dec (le_enc n v) = v mod 256 ^ Z.of_nat n.
Proof.
  revert v. induction n as [|n IH]; intros v.
  { change (256 ^ Z.of_nat 0) with 1. by rewrite Z.mod_1_r. }
  cbn [le_enc le_dec]. rewrite IH, Nat2Z.inj_succ, Z.pow_succ_r by lia.
  rewrite Z.rem_mul_r by lia. done.
Qed.

Lemma le_dec_enc_small n v : 0 <= v < 256 ^ Z.of_nat n -> le_dec (le_enc n v) = v.
Proof. intros. rewrite le_dec_enc. by apply Z.mod_small. Qed.

Lemma le_enc_ok n v : Forall byte_ok (le_enc n v).
Proof.
  revert v. induction n as [|n IH]; intros v; cbn [le_enc]; constructor; [|auto].
  apply Z.mod_pos_bound. lia.
Qed.

Lemma le_dec_range bs : Forall byte_ok bs -> 0 <= le_dec bs < 256 ^ Z.of_nat (length bs).
Proof.
  induction 1 as [|b bs Hb _ IH]; [cbn; lia|].
  cbn [le_dec length]. unfold byte_ok in Hb. rewrite Nat2Z.inj_succ, Z.pow_succ_r by lia. lia.
Qed.

(** [field o n bs] is the [n]-byte integer at offset [o]. *)
Definition field (o n : nat) (bs : list Z) : Z := le_dec (take n (drop o bs)).

Lemma field_here n v bs :
  0 <= v < 256 ^ Z.of_nat n -> field 0 n (le_enc n v ++ bs) = v.
Proof.
  intros Hv. unfold field. rewrite drop_0, take_app_length' by (by rewrite le_enc_length).
  by apply le_dec_enc_small.
Qed.

Lemma field_skip o k n v bs :
  (k <= o)%nat -> field o n (le_enc k v ++ bs) = field (o - k) n bs.
Proof.
  intros Hk. unfold field. rewrite drop_app_ge by (rewrite le_enc_length; lia).
  by rewrite le_enc_length.
Qed.

(** ** Opcodes and flags *)

Definition RDS_HDR_MAGIC : Z := 0x53445231.

Definition RDS_OP_EAGER : Z := 1.
Definition RDS_OP_RTS : Z := 2.
Definition RDS_OP_FIN : Z := 3.
Definition RDS_OP_RING_REQ : Z := 4.
Definition RDS_OP_RING_ACK : Z := 5.

Definition RDS_HF_TAGGED : Z := Z.shiftl 1 0.
Definition RDS_HF_CQ_DATA : Z := Z.shiftl 1 1.

(** ** struct rds_hdr *)

Record rds_hdr := mkHdr {
  h_magic : Z; h_op : Z; h_flags : Z; h_seg_cnt : Z;
  h_tag : Z; h_data : Z; h_size : Z; h_id : Z
}.

#[export] Instance rds_hdr_eta : Settable rds_hdr := fun h =>
  mkHdr (h_magic h) (h_op h) (h_flags h) (h_seg_cnt h) (h_tag h) (h_data h) (h_size h) (h_id h).

Definition RDS_HDR_SIZE : Z := 40.

(** [memset(&hdr, 0, sizeof(hdr))]. *)
Definition rds_hdr_zero : rds_hdr := mkHdr 0 0 0 0 0 0 0 0.

(** The bytes of a header in memory, and the fields a buffer has when it is
    cast to [struct rds_hdr *]; the code has neither function, it writes and
    reads the fields in place.  The same goes for the other structures. *)
Definition rds_hdr_bytes (h : rds_hdr) : list Z :=
  le_enc 4 (h_magic h) ++ le_enc 1 (h_op h) ++ le_enc 1 (h_flags h) ++
  le_enc 2 (h_seg_cnt h) ++ le_enc 8 (h_tag h) ++ le_enc 8 (h_data h) ++
  le_enc 8 (h_size h) ++ le_enc 8 (h_id h).

Definition rds_hdr_of_bytes (bs : list Z) : rds_hdr :=
  mkHdr (field 0 4 bs) (field 4 1 bs) (field 5 1 bs) (field 6 2 bs)
        (field 8 8 bs) (field 16 8 bs) (field 24 8 bs) (field 32 8 bs).

Definition rds_hdr_ok (h : rds_hdr) : Prop :=
  0 <= h_magic h < 2 ^ 32 /\ 0 <= h_op h < 2 ^ 8 /\ 0 <= h_flags h < 2 ^ 8 /\
  0 <= h_seg_cnt h < 2 ^ 16 /\ 0 <= h_tag h < 2 ^ 64 /\ 0 <= h_data h < 2 ^ 64 /\
  0 <= h_size h < 2 ^ 64 /\ 0 <= h_id h < 2 ^ 64.

(** ** struct rds_rndzv_seg *)

Record rds_rndzv_seg := mkSeg { seg_cookie : Z; seg_off : Z; seg_len : Z }.

Definition RDS_SEG_SIZE : Z := 24.

Definition rds_seg_bytes (s : rds_rndzv_seg) : list Z :=
  le_enc 8 (seg_cookie s) ++ le_enc 8 (seg_off s) ++ le_enc 8 (seg_len s).

Definition rds_seg_of_bytes (bs : list Z) : rds_rndzv_seg :=
  mkSeg (field 0 8 bs) (field 8 8 bs) (field 16 8 bs).

Definition rds_seg_ok (s : rds_rndzv_seg) : Prop :=
  0 <= seg_cookie s < 2 ^ 64 /\ 0 <= seg_off s < 2 ^ 64 /\ 0 <= seg_len s < 2 ^ 64.

Definition rds_segs_bytes (l : list rds_rndzv_seg) : list Z := mjoin (rds_seg_bytes <$> l).

(** Reading [cnt] elements of a segment array out of a payload of known
    length: undefined when the payload does not hold that many. *)
Fixpoint rds_segs_of_bytes (cnt : nat) (bs : list Z) : option (list rds_rndzv_seg) :=
  match cnt with
  | O => Some []
  | S cnt' =>
      if (length bs <? 24)%nat then None
      else match rds_segs_of_bytes cnt' (drop 24 bs) with
           | Some l => Some (rds_seg_of_bytes bs :: l)
           | None => None
           end
  end.

(** ** struct rds_ring_info *)

Record rds_ring_info := mkRingInfo {
  ri_ring_cookie : Z; ri_credit_cookie : Z; ri_slots : Z; ri_slot_size : Z }.

Definition RDS_RING_INFO_SIZE : Z := 24.

Definition rds_ring_info_bytes (i : rds_ring_info) : list Z :=
  le_enc 8 (ri_ring_cookie i) ++ le_enc 8 (ri_credit_cookie i) ++
  le_enc 4 (ri_slots i) ++ le_enc 4 (ri_slot_size i).

Definition rds_ring_info_of_bytes (bs : list Z) : rds_ring_info :=
  mkRingInfo (field 0 8 bs) (field 8 8 bs) (field 16 4 bs) (field 20 4 bs).

Definition rds_ring_info_ok (i : rds_ring_info) : Prop :=
  0 <= ri_ring_cookie i < 2 ^ 64 /\ 0 <= ri_credit_cookie i < 2 ^ 64 /\
  0 <= ri_slots i < 2 ^ 32 /\ 0 <= ri_slot_size i < 2 ^ 32.

(** ** struct rds_ring_slot *)

(** The two reserved bytes are whatever the staging buffer held. *)
Record rds_ring_slot := mkSlot {
  sl_len : Z; sl_flags : Z; sl_op : Z; sl_resv : Z; sl_tag : Z; sl_data : Z; sl_ack : Z }.

Definition RDS_RING_HDR_SIZE : Z := 32.
Definition RDS_RING_GEN_SIZE : Z := 4.

Definition rds_ring_slot_bytes (s : rds_ring_slot) : list Z :=
  le_enc 4 (sl_len s) ++ le_enc 1 (sl_flags s) ++ le_enc 1 (sl_op s) ++
  le_enc 2 (sl_resv s) ++ le_enc 8 (sl_tag s) ++ le_enc 8 (sl_data s) ++ le_enc 8 (sl_ack s).

Definition rds_ring_slot_of_bytes (bs : list Z) : rds_ring_slot :=
  mkSlot (field 0 4 bs) (field 4 1 bs) (field 5 1 bs) (field 6 2 bs)
         (field 8 8 bs) (field 16 8 bs) (field 24 8 bs).

Definition rds_ring_slot_ok (s : rds_ring_slot) : Prop :=
  0 <= sl_len s < 2 ^ 32 /\ 0 <= sl_flags s < 2 ^ 8 /\ 0 <= sl_op s < 2 ^ 8 /\
  0 <= sl_resv s < 2 ^ 16 /\ 0 <= sl_tag s < 2 ^ 64 /\ 0 <= sl_data s < 2 ^ 64 /\
  0 <= sl_ack s < 2 ^ 64.

(** The address of a slot's payload and of its trailing generation word. *)
Definition rds_slot_payload (slot : Z) : Z := slot + RDS_RING_HDR_SIZE.
Definition rds_slot_gen (slot slot_size : Z) : Z := slot + slot_size - RDS_RING_GEN_SIZE.

(** [uint32_t] arithmetic: wraps when the slot is smaller than its framing. *)
Definition rds_ring_payload_max (slot_size : Z) : Z :=
  u32 (slot_size - RDS_RING_HDR_SIZE - RDS_RING_GEN_SIZE).

(** ** RDS cookies *)

Definition rds_make_cookie (r_key off : Z) : Z := Z.lor (Z.shiftl r_key 32) off.
Definition rds_cookie_key (c : Z) : Z := u32 (Z.shiftr c 32).
Definition rds_cookie_off (c : Z) : Z := u32 (Z.land c 0xffffffff).

(** ** Lemmas *)

Ltac solve_field :=
  repeat (rewrite field_skip by lia; cbn [Nat.sub]);
  first [ apply field_here; cbn; lia
        | rewrite <- (app_nil_r (le_enc _ _)); apply field_here; cbn; lia ].

Lemma rds_hdr_bytes_length h : length (rds_hdr_bytes h) = 40%nat.
Proof. unfold rds_hdr_bytes. rewrite !length_app, !le_enc_length. done. Qed.

Lemma rds_seg_bytes_length s : length (rds_seg_bytes s) = 24%nat.
Proof. unfold rds_seg_bytes. rewrite !length_app, !le_enc_length. done. Qed.

Lemma rds_ring_info_bytes_length i : length (rds_ring_info_bytes i) = 24%nat.
Proof. unfold rds_ring_info_bytes. rewrite !length_app, !le_enc_length. done. Qed.

Lemma rds_ring_slot_bytes_length s : length (rds_ring_slot_bytes s) = 32%nat.
Proof. unfold rds_ring_slot_bytes. rewrite !length_app, !le_enc_length. done. Qed.

Lemma rds_segs_bytes_length l : length (rds_segs_bytes l) = (24 * length l)%nat.
Proof.
  induction l as [|s l IH]; [done|].
  change (rds_segs_bytes (s :: l)) with (rds_seg_bytes s ++ rds_segs_bytes l).
  rewrite length_app, rds_seg_bytes_length, IH. cbn. lia.
Qed.

Lemma rds_hdr_roundtrip h bs : rds_hdr_ok h -> rds_hdr_of_bytes (rds_hdr_bytes h ++ bs) = h.
Proof.
  intros (H1 & H2 & H3 & H4 & H5 & H6 & H7 & H8).
  destruct h as [mg op fl sc tg da sz id].
  unfold rds_hdr_of_bytes, rds_hdr_bytes;
    cbn [h_magic h_op h_flags h_seg_cnt h_tag h_data h_size h_id] in *.
  rewrite <- !app_assoc. f_equal; solve_field.
Qed.

Lemma rds_seg_roundtrip s bs : rds_seg_ok s -> rds_seg_of_bytes (rds_seg_bytes s ++ bs) = s.
Proof.
  intros (H1 & H2 & H3). destruct s as [c o l].
  unfold rds_seg_of_bytes, rds_seg_bytes; cbn [seg_cookie seg_off seg_len] in *.
  rewrite <- !app_assoc. f_equal; solve_field.
Qed.

Lemma rds_ring_info_roundtrip i bs :
  rds_ring_info_ok i -> rds_ring_info_of_bytes (rds_ring_info_bytes i ++ bs) = i.
Proof.
  intros (H1 & H2 & H3 & H4). destruct i as [r c s z].
  unfold rds_ring_info_of_bytes, rds_ring_info_bytes;
    cbn [ri_ring_cookie ri_credit_cookie ri_slots ri_slot_size] in *.
  rewrite <- !app_assoc. f_equal; solve_field.
Qed.

Lemma rds_ring_slot_roundtrip s bs :
  rds_ring_slot_ok s -> rds_ring_slot_of_bytes (rds_ring_slot_bytes s ++ bs) = s.
Proof.
  intros (H1 & H2 & H3 & H4 & H5 & H6 & H7). destruct s as [l f o r t d a].
  unfold rds_ring_slot_of_bytes, rds_ring_slot_bytes;
    cbn [sl_len sl_flags sl_op sl_resv sl_tag sl_data sl_ack] in *.
  rewrite <- !app_assoc. f_equal; solve_field.
Qed.

Lemma rds_segs_roundtrip l bs :
  Forall rds_seg_ok l -> rds_segs_of_bytes (length l) (rds_segs_bytes l ++ bs) = Some l.
Proof.
  induction 1 as [|s l Hs _ IH]; [done|].
  change (rds_segs_bytes (s :: l)) with (rds_seg_bytes s ++ rds_segs_bytes l).
  cbn [length rds_segs_of_bytes]. rewrite <- app_assoc.
  destruct (Nat.ltb_spec (length (rds_seg_bytes s ++ rds_segs_bytes l ++ bs)) 24) as [Hlt|_].
  { rewrite length_app, rds_seg_bytes_length in Hlt. lia. }
  rewrite drop_app_length' by (by rewrite rds_seg_bytes_length).
  rewrite IH, rds_seg_roundtrip by done. done.
Qed.

Lemma rds_segs_of_bytes_Some cnt bs :
  (24 * cnt <= length bs)%nat ->
  exists l, rds_segs_of_bytes cnt bs = Some l /\ length l = cnt.
Proof.
  revert bs. induction cnt as [|cnt IH]; intros bs Hb; cbn [rds_segs_of_bytes]; [by eexists|].
  destruct (Nat.ltb_spec (length bs) 24) as [Hlt|_]; [lia|].
  destruct (IH (drop 24 bs)) as (l & -> & Hl); [rewrite length_drop; lia|].
  eexists; split; [done|]. cbn. lia.
Qed.

Lemma rds_segs_of_bytes_None cnt bs :
  (length bs < 24 * cnt)%nat -> rds_segs_of_bytes cnt bs = None.
Proof.
  revert bs. induction cnt as [|cnt IH]; intros bs Hb; [lia|]. cbn [rds_segs_of_bytes].
  destruct (Nat.ltb_spec (length bs) 24) as [Hlt|Hge]; [done|].
  rewrite IH; [done|]. rewrite length_drop. lia.
Qed.
