(* ===== verification/Kernel.v ===== *)
(** * The environment of the provider

    What the provider calls and the repository does not contain: the Linux
    RDS socket, the C allocator, the clock and the process memory monitor.  They are the operations of a
    class over an abstract environment state [K]; every definition of the data
    path takes an instance, and the theorems hold for all of them unless they
    name a hypothesis.  The allocator may return NULL at any call, a socket
    call may fail with any errno, and a receive may deliver any bytes. *)

From S2P Require Import Prelude Iov Wire.

(** [struct rds_rdma_args] as [rds_post_rdma] fills it. *)
Record rds_rdma_args := mkRdmaArgs {
  ra_cookie : Z;
  ra_remote_addr : Z;          (* remote_vec.addr: offset into the remote MR *)
  ra_remote_bytes : Z;
  ra_local : list iovec;       (* local_vec_addr / nr_local *)
  ra_flags : Z;
  ra_user_token : Z
}.

(** [struct rds_get_mr_args] and [struct rds_get_mr_for_dest_args]. *)
Record rds_mr_args := mkMrArgs {
  ma_addr : Z; ma_bytes : Z; ma_flags : Z; ma_dest : option (list Z) }.

(** One control message of a receive: level, type and, for
    [RDS_CMSG_RDMA_STATUS], the [struct rds_rdma_notify] it carries. *)
Record rds_cmsg := mkCmsg { cm_level : Z; cm_type : Z; cm_token : Z; cm_status : Z }.

(** The outcome of [recvmsg]: an errno, or the source address, the bytes
    placed in the buffer, the return value, [MSG_TRUNC], and the control
    messages. *)
Inductive recv_result :=
| RecvErr (errno : Z)
| RecvMsg (src : list Z) (bytes : list Z) (trunc : bool) (cmsgs : list rds_cmsg).

(** The socket options set at endpoint creation. *)
Inductive rds_sockopt := OptTransport (v : Z) | OptSndbuf (v : Z) | OptRcvbuf (v : Z).

Class Kernel (K : Type) := {
  (** [malloc]/[calloc]/[posix_memalign] of a size: an address, or NULL. *)
  k_alloc : Z -> K -> option Z * K;
  (** [sendmsg(sock, {name, payload, control})]: 0 on success, else an errno. *)
  k_sendmsg : Z -> list Z -> list Z -> option rds_rdma_args -> K -> Z * K;
  (** [recvmsg(sock, ..., MSG_DONTWAIT)] into a buffer of the given size. *)
  k_recvmsg : Z -> Z -> Z -> K -> recv_result * K;
  (** [setsockopt(RDS_GET_MR | RDS_GET_MR_FOR_DEST)]: an errno or a cookie. *)
  k_get_mr : Z -> rds_mr_args -> K -> (Z + Z) * K;
  (** [setsockopt(RDS_FREE_MR)]; its result is ignored. *)
  k_free_mr : Z -> Z -> K -> K;
  (** [ofi_gettime_ms]. *)
  k_gettime_ms : K -> Z * K;
  (** The memory monitor of the registration cache: is the cached region
      (second) still mapped as it was, for a lookup of the first; watch a
      region (0 or an error); stop watching it. *)
  k_mon_valid : iovec -> iovec -> K -> bool;
  k_mon_subscribe : iovec -> K -> Z * K;
  k_mon_unsubscribe : iovec -> K -> K;
  (** Socket set-up: [socket(PF_RDS)] gives an errno or a descriptor, the
      other calls 0 or an errno; [getsockname] an errno or the bound name. *)
  k_socket : K -> (Z + Z) * K;
  k_setsockopt : Z -> rds_sockopt -> K -> Z * K;
  k_bind : Z -> list Z -> K -> Z * K;
  k_getsockname : Z -> K -> (Z + list Z) * K;
  k_nonblock : Z -> K -> Z * K;
  k_close : Z -> K -> K;
  (** Not a call: how often [RDS_GET_MR] may still answer [EAGAIN] before it
      answers otherwise.  Only the fuel of the loop that repeats a
      registration is computed from it. *)
  k_patience : K -> nat
}.

(** An allocation of [n] bytes can be refused. *)
Definition refuses (K : Type) `{!Kernel K} (n : Z) : Prop := exists k : K, (k_alloc n k).1 = None.

(** Socket addresses are their raw bytes; [ofi_sizeofaddr] goes by family. *)
Definition AF_INET : Z := 2.
Definition AF_INET6 : Z := 10.
Definition AF_IB : Z := 27.

Definition sa_family (sa : list Z) : Z :=
  match sa with b0 :: b1 :: _ => b0 + 256 * b1 | _ => 0 end.

Definition ofi_sizeofaddr (sa : list Z) : Z :=
  if sa_family sa =? AF_INET then 16
  else if sa_family sa =? AF_INET6 then 28
  else if sa_family sa =? AF_IB then 48
  else 0.

(** The [msg_name] the kernel sees: the first [msg_namelen] bytes. *)
Definition sa_name (sa : list Z) (len : Z) : list Z := take (Z.to_nat len) sa.

(** How the data path maps a failed [sendmsg] to its own result: a full
    send queue is retryable, anything else is the negated errno. *)
Definition send_status (errno : Z) : Z :=
  if errno =? 0 then 0
  else if (errno =? FI_EAGAIN) || (errno =? FI_ENOBUFS) then - FI_EAGAIN
  else - errno.

Lemma send_status_zero errno : send_status errno = 0 <-> errno = 0.
Proof. unfold send_status. destruct (Z.eqb_spec errno 0); [done|]. destruct (_ || _); unfold FI_EAGAIN; lia. Qed.

(** ** A concrete environment

    The simplest environment that keeps every promise: allocation and
    registration always succeed with fresh numbers, every datagram is
    accepted and recorded, and the datagrams of an inbox, given by source
    and untagged eager message, arrive one by one.  It makes the operations
    executable on concrete inputs. *)
Record quiet_state := mkQuiet {
  qs_next : Z;                                               (* next address, cookie, tick *)
  qs_sent : list (Z * list Z * list Z * option rds_rdma_args);
  qs_inbox : list (list Z * list Z) }.

Definition quiet_tick (k : quiet_state) : quiet_state := mkQuiet (qs_next k + 1) (qs_sent k) (qs_inbox k).

(** The datagram of an inbox message. *)
Definition quiet_datagram (msg : list Z) : list Z :=
  rds_hdr_bytes (mkHdr RDS_HDR_MAGIC RDS_OP_EAGER 0 0 0 0 (u64 (Z.of_nat (length msg))) 0) ++ msg.

#[export] Instance quiet_kernel : Kernel quiet_state := {
  k_alloc n k := (Some (qs_next k), mkQuiet (qs_next k + Z.max 1 n) (qs_sent k) (qs_inbox k));
  k_sendmsg s name pl ra k := (0, mkQuiet (qs_next k) (qs_sent k ++ [(s, name, pl, ra)]) (qs_inbox k));
  k_recvmsg _ _ _ k :=
    match qs_inbox k with
    | [] => (RecvErr FI_EAGAIN, k)
    | (src, msg) :: l => (RecvMsg src (quiet_datagram msg) false [], mkQuiet (qs_next k) (qs_sent k) l)
    end;
  k_get_mr _ _ k := (inr (qs_next k), quiet_tick k);
  k_free_mr _ _ k := k;
  k_gettime_ms k := (qs_next k, quiet_tick k);
  k_mon_valid _ _ _ := true;
  k_mon_subscribe _ k := (0, k);
  k_mon_unsubscribe _ k := k;
  k_socket k := (inr 3, k);
  k_setsockopt _ _ k := (0, k);
  k_bind _ _ k := (0, k);
  k_getsockname _ k := (inr [], k);
  k_nonblock _ k := (0, k);
  k_close _ k := k;
  k_patience _ := O
}.

Definition quiet0 : quiet_state := mkQuiet 4096 [] [].
