(* ===== verification/Config.v ===== *)
(** * Provider configuration

    The tunables of [rds.h], the globals of [rds_init.c] and their
    initialisation from the environment parameters ([RDS_INI]).  The
    parameter store is an input: each lookup yields a C [int] or nothing. *)

From S2P Require Import Prelude Iov Wire.

(** ** Constants *)

Definition RDS_KERNEL_SEG_MAX : Z := 1024 * 1024.
Definition RDS_DEF_EAGER_SIZE : Z := 65536.
Definition RDS_DEF_INJECT_SIZE : Z := 8192.
Definition RDS_MAX_EAGER_SIZE : Z := RDS_KERNEL_SEG_MAX - RDS_HDR_SIZE.
Definition RDS_DEF_RING_SLOTS : Z := 16.
Definition RDS_DEF_RING_SLOT_SIZE : Z := 1024.
Definition RDS_DEF_RING_MAX_PEERS : Z := 256.
Definition RDS_RING_CONNECT_TIMEOUT_MS : Z := 100.
Definition RDS_MAX_MSG_SIZE : Z := 256 * 1024 * 1024.
Definition RDS_PEER_HASH_SIZE : Z := 1024.
Definition RDS_RING_PAGE : Z := 4096.
Definition RDS_PROGRESS_BUDGET : Z := 256.

(** [RDS_RTS_MAX_PAYLOAD] of rds_ep.c. *)
Definition RDS_RTS_MAX_PAYLOAD : Z :=
  (RDS_MAX_MSG_SIZE / RDS_KERNEL_SEG_MAX + 1) * RDS_SEG_SIZE.

(** ** Globals *)

Record rds_config := mkConfig {
  rds_eager_size : Z;
  rds_eager_rdma : bool;
  rds_ring_slots : Z;
  rds_ring_slot_size : Z;
  rds_ring_max_peers : Z;
  rds_mr_cache_enable : bool;
  rds_rndzv_max_inflight : Z;
  rds_sndbuf : Z;
  rds_rcvbuf : Z
}.

#[export] Instance rds_config_eta : Settable rds_config := fun c =>
  mkConfig (rds_eager_size c) (rds_eager_rdma c) (rds_ring_slots c) (rds_ring_slot_size c)
    (rds_ring_max_peers c) (rds_mr_cache_enable c) (rds_rndzv_max_inflight c)
    (rds_sndbuf c) (rds_rcvbuf c).

(** The initialisers of the globals. *)
Definition rds_config_default : rds_config :=
  mkConfig RDS_DEF_EAGER_SIZE false RDS_DEF_RING_SLOTS RDS_DEF_RING_SLOT_SIZE
    RDS_DEF_RING_MAX_PEERS true 256 0 0.

(** ** Initialisation *)

(** The value of each [FI_RDS_*] parameter, when the user set it. *)
Record rds_params := mkParams {
  pv_eager_size : option Z; pv_eager_rdma : option Z; pv_ring_slots : option Z;
  pv_ring_slot_size : option Z; pv_ring_max_peers : option Z; pv_mr_cache : option Z;
  pv_rndzv_inflight : option Z; pv_sndbuf : option Z; pv_rcvbuf : option Z }.

(** Every value is a C [int]. *)
Definition int_ok (o : option Z) : Prop :=
  match o with Some v => - 2 ^ 31 <= v < 2 ^ 31 | None => True end.

Definition rds_params_ok (p : rds_params) : Prop :=
  int_ok (pv_eager_size p) /\ int_ok (pv_eager_rdma p) /\ int_ok (pv_ring_slots p) /\
  int_ok (pv_ring_slot_size p) /\ int_ok (pv_ring_max_peers p) /\ int_ok (pv_mr_cache p) /\
  int_ok (pv_rndzv_inflight p) /\ int_ok (pv_sndbuf p) /\ int_ok (pv_rcvbuf p).

(** [rds_pow2] on a [size_t]. *)
Definition rds_pow2 (v : Z) : bool := negb (v =? 0) && (Z.land v (u64 (v - 1)) =? 0).

(** One step of [RDS_INI] per parameter, in source order. *)
Definition ini_eager_size (p : rds_params) (c : rds_config) : rds_config :=
  match pv_eager_size p with
  | Some val =>
      let val := if val <? 0 then 0 else val in
      let val := if val >? RDS_MAX_EAGER_SIZE then RDS_MAX_EAGER_SIZE else val in
      c <| rds_eager_size := val |>
  | None => c
  end.

Definition ini_eager_rdma (p : rds_params) (c : rds_config) : rds_config :=
  match pv_eager_rdma p with
  | Some val => c <| rds_eager_rdma := negb (val =? 0) |>
  | None => c
  end.

Definition ini_ring_slots (p : rds_params) (c : rds_config) : rds_config :=
  match pv_ring_slots p with
  | Some val => if rds_pow2 (u64 val) then c <| rds_ring_slots := u64 val |> else c
  | None => c
  end.

Definition ini_ring_slot_size (p : rds_params) (c : rds_config) : rds_config :=
  match pv_ring_slot_size p with
  | Some val =>
      if val >=? RDS_RING_HDR_SIZE + RDS_RING_GEN_SIZE + 8
      then c <| rds_ring_slot_size := val |> else c
  | None => c
  end.

Definition ini_ring_max_peers (p : rds_params) (c : rds_config) : rds_config :=
  match pv_ring_max_peers p with
  | Some val => if val >? 0 then c <| rds_ring_max_peers := val |> else c
  | None => c
  end.

Definition ini_mr_cache (p : rds_params) (c : rds_config) : rds_config :=
  match pv_mr_cache p with
  | Some val => c <| rds_mr_cache_enable := negb (val =? 0) |>
  | None => c
  end.

Definition ini_rndzv_inflight (p : rds_params) (c : rds_config) : rds_config :=
  match pv_rndzv_inflight p with
  | Some val => if val >? 0 then c <| rds_rndzv_max_inflight := val |> else c
  | None => c
  end.

Definition ini_sndbuf (p : rds_params) (c : rds_config) : rds_config :=
  match pv_sndbuf p with
  | Some val => if val >? 0 then c <| rds_sndbuf := val |> else c
  | None => c
  end.

Definition ini_rcvbuf (p : rds_params) (c : rds_config) : rds_config :=
  match pv_rcvbuf p with
  | Some val => if val >? 0 then c <| rds_rcvbuf := val |> else c
  | None => c
  end.

Definition rds_ini (p : rds_params) (c : rds_config) : rds_config :=
  let c := ini_eager_size p c in
  let c := ini_eager_rdma p c in
  let c := ini_ring_slots p c in
  let c := ini_ring_slot_size p c in
  let c := ini_ring_max_peers p c in
  let c := ini_mr_cache p c in
  let c := ini_rndzv_inflight p c in
  let c := ini_sndbuf p c in
  ini_rcvbuf p c.

(** ** The configuration invariant *)

(** What the data path relies on: an eager datagram fits one kernel segment,
    the ring geometry is a power of two that fits its 32-bit endpoint fields,
    and a slot has room for its header, a payload and the generation word. *)
Record config_ok (c : rds_config) : Prop := {
  co_eager : 0 <= rds_eager_size c <= RDS_MAX_EAGER_SIZE;
  co_slots : exists k, 0 <= k <= 30 /\ rds_ring_slots c = 2 ^ k;
  co_slot_size : RDS_RING_HDR_SIZE + RDS_RING_GEN_SIZE + 8 <= rds_ring_slot_size c < 2 ^ 31;
  co_peers : 0 < rds_ring_max_peers c < 2 ^ 31;
  co_inflight : 0 < rds_rndzv_max_inflight c < 2 ^ 31;
  co_bufs : 0 <= rds_sndbuf c < 2 ^ 31 /\ 0 <= rds_rcvbuf c < 2 ^ 31
}.

(** ** Lemmas *)

(** [v & (v - 1) == 0] characterises the powers of two. *)
Lemma land_pred_pow2 v : 0 < v -> Z.land v (v - 1) = 0 -> v = 2 ^ Z.log2 v.
Proof.
  intros Hv Hl. pose proof (Z.log2_spec v Hv) as [Hlo Hhi].
  pose proof (Z.log2_nonneg v) as Hk. set (k := Z.log2 v) in *.
  destruct (Z.eq_dec v (2 ^ k)) as [|Hne]; [done|]. exfalso.
  assert (Hb : Z.testbit (Z.land v (v - 1)) k = false) by (rewrite Hl; apply Z.bits_0).
  rewrite Z.land_spec in Hb.
  assert (H1 : Z.testbit v k = true) by (apply Z.bit_log2; lia).
  assert (Hk2 : Z.log2 (v - 1) = k).
  { apply Z.log2_unique; [done|]. split; lia. }
  assert (H2 : Z.testbit (v - 1) k = true).
  { rewrite <- Hk2. apply Z.bit_log2. assert (0 < 2 ^ k) by lia. lia. }
  by rewrite H1, H2 in Hb.
Qed.

Lemma rds_pow2_int v : - 2 ^ 31 <= v < 2 ^ 31 -> rds_pow2 (u64 v) = true ->
  exists k, 0 <= k <= 30 /\ u64 v = 2 ^ k.
Proof.
  unfold rds_pow2. intros Hv [Hnz Hl]%andb_true_iff.
  apply negb_true_iff, Z.eqb_neq in Hnz. apply Z.eqb_eq in Hl.
  assert (Hr : 0 < u64 v) by (pose proof (u64_range v); lia).
  rewrite (u64_small (u64 v - 1)) in Hl by (pose proof (u64_range v); lia).
  pose proof (land_pred_pow2 _ Hr Hl) as E. pose proof (Z.log2_nonneg (u64 v)) as Hk.
  destruct (Z.neg_nonneg_cases v) as [Hneg|Hpos].
  - exfalso. assert (Eu : u64 v = v + 2 ^ 64).
    { unfold u64. symmetry. apply (Z.mod_unique_pos _ _ (-1)); lia. }
    assert (Hl2 : Z.log2 (u64 v) = 63) by (apply Z.log2_unique; [lia|rewrite Eu; cbn; lia]).
    rewrite Hl2, Eu in E. lia.
  - rewrite u64_small in * by lia. exists (Z.log2 v). split; [|done]. split; [done|].
    assert (Z.log2 v < 31); [|lia]. apply Z.log2_lt_pow2; lia.
Qed.

Lemma rds_config_default_ok : config_ok rds_config_default.
Proof. split; [by vm_compute|by exists 4|by vm_compute..]. Qed.

(** Each step keeps the invariant. *)
Ltac ini_step :=
  intros []; intros Hv; unfold int_ok in Hv; case_match; [|done]; repeat case_match; split;
  cbn [set_field rds_eager_size rds_eager_rdma rds_ring_slots rds_ring_slot_size rds_ring_max_peers
       rds_mr_cache_enable rds_rndzv_max_inflight rds_sndbuf rds_rcvbuf];
  first [ done | by apply rds_pow2_int
        | unfold RDS_MAX_EAGER_SIZE, RDS_KERNEL_SEG_MAX, RDS_HDR_SIZE, RDS_RING_HDR_SIZE, RDS_RING_GEN_SIZE in *;
          cbn in *; lia ].

Lemma ini_step_eager p c : config_ok c -> int_ok (pv_eager_size p) -> config_ok (ini_eager_size p c).
Proof. unfold ini_eager_size. ini_step. Qed.

Lemma ini_step_rdma p c : config_ok c -> int_ok (pv_eager_rdma p) -> config_ok (ini_eager_rdma p c).
Proof. unfold ini_eager_rdma. ini_step. Qed.

Lemma ini_step_slots p c : config_ok c -> int_ok (pv_ring_slots p) -> config_ok (ini_ring_slots p c).
Proof. unfold ini_ring_slots. ini_step. Qed.

Lemma ini_step_slot_size p c : config_ok c -> int_ok (pv_ring_slot_size p) -> config_ok (ini_ring_slot_size p c).
Proof. unfold ini_ring_slot_size. ini_step. Qed.

Lemma ini_step_max_peers p c : config_ok c -> int_ok (pv_ring_max_peers p) -> config_ok (ini_ring_max_peers p c).
Proof. unfold ini_ring_max_peers. ini_step. Qed.

Lemma ini_step_mr_cache p c : config_ok c -> int_ok (pv_mr_cache p) -> config_ok (ini_mr_cache p c).
Proof. unfold ini_mr_cache. ini_step. Qed.

Lemma ini_step_inflight p c : config_ok c -> int_ok (pv_rndzv_inflight p) -> config_ok (ini_rndzv_inflight p c).
Proof. unfold ini_rndzv_inflight. ini_step. Qed.

Lemma ini_step_sndbuf p c : config_ok c -> int_ok (pv_sndbuf p) -> config_ok (ini_sndbuf p c).
Proof. unfold ini_sndbuf. ini_step. Qed.

Lemma ini_step_rcvbuf p c : config_ok c -> int_ok (pv_rcvbuf p) -> config_ok (ini_rcvbuf p c).
Proof. unfold ini_rcvbuf. ini_step. Qed.

Create HintDb config.
#[export] Hint Resolve ini_step_eager ini_step_rdma ini_step_slots ini_step_slot_size
  ini_step_max_peers ini_step_mr_cache ini_step_inflight ini_step_sndbuf ini_step_rcvbuf : config.

(** C28: Whatever integers the user puts in the FI_RDS_* parameters, the
    initialised configuration is one the data path can rely on: an eager
    payload fits one datagram, the ring has a power-of-two number of slots
    that survives the cast to 32 bits, every slot has at least eight payload
    bytes, and no limit is zero. *)
Theorem rds_ini_config_ok p c :
  rds_params_ok p -> config_ok c -> config_ok (rds_ini p c).
Proof.
  intros (H1 & H2 & H3 & H4 & H5 & H6 & H7 & H8 & H9) Hc. unfold rds_ini.
  auto 20 with config.
Qed.

Lemma rds_ini_config_ok_witness :
  let p := mkParams (Some (-5)) (Some 1) (Some 24) (Some 100) (Some 0) None (Some 7) None (Some 4096) in
  config_ok (rds_ini p rds_config_default) /\ rds_ring_slots (rds_ini p rds_config_default) = 16.
Proof.
  split; [|reflexivity].
  apply (rds_ini_config_ok (mkParams (Some (-5)) (Some 1) (Some 24) (Some 100) (Some 0) None (Some 7) None (Some 4096))
           rds_config_default).
  - unfold rds_params_ok, int_ok. cbn. lia.
  - exact rds_config_default_ok.
Defined.
