(* ===== verification/Attr.v ===== *)
(** * Attributes: what the provider offers and what an application may ask

    The attribute tables of rds_attr.c and the routines of util_attr.c that
    hold an application's hints against them: [ofi_check_info] decides
    whether a template satisfies the hints, [ofi_alter_info] adapts a copy
    of the template to them.  Opening a domain and an endpoint repeat the
    check on the [fi_info] the application passes in. *)

From stdpp Require Import strings.
From S2P Require Import Prelude Iov Wire Config.

(** ** Capability, mode and ordering bits *)

Definition FI_ATOMICS : Z := FI_ATOMIC.
Definition FI_MULTICAST : Z := Z.shiftl 1 5.
Definition FI_COLLECTIVE : Z := Z.shiftl 1 6.
Definition FI_TRIGGER : Z := Z.shiftl 1 20.
Definition FI_FENCE : Z := Z.shiftl 1 21.
Definition FI_AV_USER_ID : Z := Z.shiftl 1 41.
Definition FI_HMEM : Z := Z.shiftl 1 47.
Definition FI_RMA_PMEM : Z := Z.shiftl 1 49.
Definition FI_SOURCE_ERR : Z := Z.shiftl 1 50.
Definition FI_SHARED_AV : Z := Z.shiftl 1 53.
Definition FI_RMA_EVENT : Z := Z.shiftl 1 56.
Definition FI_NAMED_RX_CTX : Z := Z.shiftl 1 58.

Definition FI_ORDER_RAR : Z := Z.shiftl 1 0.
Definition FI_ORDER_RAW : Z := Z.shiftl 1 1.
Definition FI_ORDER_WAR : Z := Z.shiftl 1 3.
Definition FI_ORDER_WAW : Z := Z.shiftl 1 4.
Definition FI_ORDER_SAR : Z := Z.shiftl 1 6.
Definition FI_ORDER_SAW : Z := Z.shiftl 1 7.
Definition FI_ORDER_SAS : Z := Z.shiftl 1 8.
Definition FI_ORDER_ATOMIC_RAR : Z := Z.shiftl 1 36.
Definition FI_ORDER_ATOMIC_RAW : Z := Z.shiftl 1 37.
Definition FI_ORDER_ATOMIC_WAR : Z := Z.shiftl 1 38.
Definition FI_ORDER_ATOMIC_WAW : Z := Z.shiftl 1 39.

Definition OFI_MR_UNSPEC : Z := 0.
Definition OFI_MR_BASIC : Z := Z.shiftl 1 0.
Definition OFI_MR_SCALABLE : Z := Z.shiftl 1 1.
Definition FI_MR_LOCAL : Z := Z.shiftl 1 2.
Definition FI_MR_RAW : Z := Z.shiftl 1 3.
Definition FI_MR_VIRT_ADDR : Z := Z.shiftl 1 4.
Definition FI_MR_ALLOCATED : Z := Z.shiftl 1 5.
Definition FI_MR_PROV_KEY : Z := Z.shiftl 1 6.
Definition FI_MR_RMA_EVENT : Z := Z.shiftl 1 8.
Definition FI_MR_HMEM : Z := Z.shiftl 1 10.
Definition OFI_LOCAL_MR : Z := Z.shiftl 1 55.

(** The union of a list of bits. *)
Definition bits (l : list Z) : Z := foldr Z.lor 0 l.

Definition OFI_MSG_DIRECTION_CAPS : Z := bits [FI_SEND; FI_RECV].
Definition OFI_RMA_DIRECTION_CAPS : Z := bits [FI_READ; FI_WRITE; FI_REMOTE_READ; FI_REMOTE_WRITE].
Definition OFI_PRIMARY_TX_CAPS : Z :=
  bits [FI_MSG; FI_RMA; FI_TAGGED; FI_ATOMIC; FI_MULTICAST; FI_READ; FI_WRITE; FI_SEND; FI_COLLECTIVE; FI_NAMED_RX_CTX; FI_HMEM].
Definition OFI_SECONDARY_TX_CAPS : Z := bits [FI_TRIGGER; FI_FENCE; FI_RMA_PMEM].
Definition OFI_PRIMARY_RX_CAPS : Z :=
  bits [FI_MSG; FI_RMA; FI_TAGGED; FI_ATOMIC; FI_REMOTE_READ; FI_REMOTE_WRITE; FI_RECV; FI_DIRECTED_RECV; FI_COLLECTIVE; FI_HMEM].
Definition OFI_SECONDARY_RX_CAPS : Z :=
  bits [FI_MULTI_RECV; FI_TRIGGER; FI_RMA_PMEM; FI_SOURCE; FI_RMA_EVENT; FI_SOURCE_ERR].
Definition OFI_DOMAIN_PRIMARY_CAPS : Z := bits [FI_AV_USER_ID; FI_PEER].
Definition OFI_DOMAIN_SECONDARY_CAPS : Z := bits [FI_SHARED_AV; FI_REMOTE_COMM; FI_LOCAL_COMM].
Definition OFI_PRIMARY_CAPS : Z := bits [OFI_PRIMARY_TX_CAPS; OFI_PRIMARY_RX_CAPS; OFI_DOMAIN_PRIMARY_CAPS].
Definition OFI_SECONDARY_CAPS : Z := bits [OFI_SECONDARY_TX_CAPS; OFI_SECONDARY_RX_CAPS; OFI_DOMAIN_SECONDARY_CAPS].
Definition OFI_IGNORED_TX_CAPS : Z :=
  bits [FI_REMOTE_READ; FI_REMOTE_WRITE; FI_RECV; FI_DIRECTED_RECV; FI_MULTI_RECV; FI_SOURCE; FI_RMA_EVENT; FI_SOURCE_ERR].
Definition OFI_IGNORED_RX_CAPS : Z := bits [FI_READ; FI_WRITE; FI_SEND; FI_FENCE; FI_MULTICAST; FI_NAMED_RX_CTX].
Definition OFI_MR_MODE_RMA_TARGET : Z := bits [FI_MR_RAW; FI_MR_VIRT_ADDR; FI_MR_PROV_KEY; FI_MR_RMA_EVENT].

(** [FI_SHARED_CONTEXT] and [FI_AV_AUTH_KEY] are [SIZE_MAX]. *)
Definition FI_SHARED_CONTEXT : Z := SIZE_MAX.
Definition FI_AV_AUTH_KEY : Z := SIZE_MAX.
Definition FI_TAG_GENERIC : Z := 0xAAAAAAAAAAAAAAAA.
Definition FI_PROTO_UNSPEC : Z := 0.

Definition FI_VERSION (major minor : Z) : Z := Z.lor (Z.shiftl major 16) minor.
Definition OFI_VERSION_DEF_PROV : Z := FI_VERSION (2 * 100 + 6) (0 * 10).

(** ** The attribute structures *)

Inductive fi_threading :=
| FI_THREAD_UNSPEC | FI_THREAD_SAFE | FI_THREAD_FID | FI_THREAD_DOMAIN | FI_THREAD_COMPLETION | FI_THREAD_ENDPOINT.
Inductive fi_progress := FI_PROGRESS_UNSPEC | FI_PROGRESS_AUTO | FI_PROGRESS_MANUAL | FI_PROGRESS_CONTROL_UNIFIED.
Inductive fi_resource_mgmt := FI_RM_UNSPEC | FI_RM_DISABLED | FI_RM_ENABLED.
Inductive fi_av_type := FI_AV_UNSPEC | FI_AV_MAP | FI_AV_TABLE.
Inductive fi_ep_type := FI_EP_UNSPEC | FI_EP_MSG | FI_EP_DGRAM | FI_EP_RDM.

(** The address formats the utility code distinguishes. *)
Inductive fi_addr_format :=
| FI_FORMAT_UNSPEC | FI_SOCKADDR | FI_SOCKADDR_IN | FI_SOCKADDR_IN6 | FI_SOCKADDR_IB | FI_ADDR_STR | FI_SOCKADDR_IP
| FI_ADDR_OTHER (n : Z).

#[export] Instance fi_threading_eq_dec : EqDecision fi_threading. Proof. solve_decision. Defined.
#[export] Instance fi_progress_eq_dec : EqDecision fi_progress. Proof. solve_decision. Defined.
#[export] Instance fi_av_type_eq_dec : EqDecision fi_av_type. Proof. solve_decision. Defined.
#[export] Instance fi_ep_type_eq_dec : EqDecision fi_ep_type. Proof. solve_decision. Defined.
#[export] Instance fi_addr_format_eq_dec : EqDecision fi_addr_format. Proof. solve_decision. Defined.

Record fi_tx_attr := mkTxAttr {
  txa_caps : Z; txa_mode : Z; txa_op_flags : Z; txa_msg_order : Z; txa_comp_order : Z;
  txa_inject_size : Z; txa_size : Z; txa_iov_limit : Z; txa_rma_iov_limit : Z; txa_tclass : Z }.

#[export] Instance fi_tx_attr_eta : Settable fi_tx_attr := fun a =>
  mkTxAttr (txa_caps a) (txa_mode a) (txa_op_flags a) (txa_msg_order a) (txa_comp_order a)
    (txa_inject_size a) (txa_size a) (txa_iov_limit a) (txa_rma_iov_limit a) (txa_tclass a).

Record fi_rx_attr := mkRxAttr {
  rxa_caps : Z; rxa_mode : Z; rxa_op_flags : Z; rxa_msg_order : Z; rxa_comp_order : Z;
  rxa_total_buffered_recv : Z; rxa_size : Z; rxa_iov_limit : Z }.

#[export] Instance fi_rx_attr_eta : Settable fi_rx_attr := fun a =>
  mkRxAttr (rxa_caps a) (rxa_mode a) (rxa_op_flags a) (rxa_msg_order a) (rxa_comp_order a)
    (rxa_total_buffered_recv a) (rxa_size a) (rxa_iov_limit a).

Record fi_ep_attr := mkEpAttr {
  epa_type : fi_ep_type; epa_protocol : Z; epa_protocol_version : Z; epa_max_msg_size : Z; epa_msg_prefix_size : Z;
  epa_max_order_raw_size : Z; epa_max_order_war_size : Z; epa_max_order_waw_size : Z;
  epa_mem_tag_format : Z; epa_tx_ctx_cnt : Z; epa_rx_ctx_cnt : Z;
  epa_auth_key_size : Z; epa_auth_key : option (list Z) }.

#[export] Instance fi_ep_attr_eta : Settable fi_ep_attr := fun a =>
  mkEpAttr (epa_type a) (epa_protocol a) (epa_protocol_version a) (epa_max_msg_size a) (epa_msg_prefix_size a)
    (epa_max_order_raw_size a) (epa_max_order_war_size a) (epa_max_order_waw_size a)
    (epa_mem_tag_format a) (epa_tx_ctx_cnt a) (epa_rx_ctx_cnt a) (epa_auth_key_size a) (epa_auth_key a).

(** [data_progress] and [progress] are one member. *)
Record fi_domain_attr := mkDomainAttr {
  dma_domain : option Z; dma_name : option string; dma_threading : fi_threading;
  dma_control_progress : fi_progress; dma_progress : fi_progress;
  dma_resource_mgmt : fi_resource_mgmt; dma_av_type : fi_av_type; dma_mr_mode : Z;
  dma_mr_key_size : Z; dma_cq_data_size : Z; dma_cq_cnt : Z; dma_ep_cnt : Z; dma_tx_ctx_cnt : Z; dma_rx_ctx_cnt : Z;
  dma_max_ep_tx_ctx : Z; dma_max_ep_rx_ctx : Z; dma_max_ep_stx_ctx : Z; dma_max_ep_srx_ctx : Z;
  dma_cntr_cnt : Z; dma_mr_iov_limit : Z; dma_caps : Z; dma_mode : Z;
  dma_auth_key : option (list Z); dma_auth_key_size : Z; dma_max_err_data : Z; dma_mr_cnt : Z; dma_tclass : Z;
  dma_max_ep_auth_key : Z; dma_max_group_id : Z; dma_max_cntr_value : Z; dma_max_err_cntr_value : Z }.

#[export] Instance fi_domain_attr_eta : Settable fi_domain_attr := fun a =>
  mkDomainAttr (dma_domain a) (dma_name a) (dma_threading a) (dma_control_progress a) (dma_progress a)
    (dma_resource_mgmt a) (dma_av_type a) (dma_mr_mode a)
    (dma_mr_key_size a) (dma_cq_data_size a) (dma_cq_cnt a) (dma_ep_cnt a) (dma_tx_ctx_cnt a) (dma_rx_ctx_cnt a)
    (dma_max_ep_tx_ctx a) (dma_max_ep_rx_ctx a) (dma_max_ep_stx_ctx a) (dma_max_ep_srx_ctx a)
    (dma_cntr_cnt a) (dma_mr_iov_limit a) (dma_caps a) (dma_mode a)
    (dma_auth_key a) (dma_auth_key_size a) (dma_max_err_data a) (dma_mr_cnt a) (dma_tclass a)
    (dma_max_ep_auth_key a) (dma_max_group_id a) (dma_max_cntr_value a) (dma_max_err_cntr_value a).

Record fi_fabric_attr := mkFabricAttr {
  fba_fabric : option Z; fba_name : option string; fba_prov_name : option string; fba_prov_version : Z; fba_api_version : Z }.

#[export] Instance fi_fabric_attr_eta : Settable fi_fabric_attr := fun a =>
  mkFabricAttr (fba_fabric a) (fba_name a) (fba_prov_name a) (fba_prov_version a) (fba_api_version a).

(** [struct fi_info]: its attribute structures are pointers.  An
    application's hints may leave any of them NULL ([fi_info]); a provider's
    template, and what [fi_getinfo] makes of it, has all of them
    ([prov_info]).  The list link is a list; the NIC is not used by the
    provider. *)
Record fi_info_of (P : Type -> Type) := mkInfo {
  in_caps : Z; in_mode : Z; in_addr_format : fi_addr_format;
  in_src_addr : option (list Z); in_dest_addr : option (list Z); in_handle : Z;
  in_tx_attr : P fi_tx_attr; in_rx_attr : P fi_rx_attr; in_ep_attr : P fi_ep_attr;
  in_domain_attr : P fi_domain_attr; in_fabric_attr : P fi_fabric_attr }.

Arguments mkInfo {P}.
Arguments in_caps {P}.
Arguments in_mode {P}.
Arguments in_addr_format {P}.
Arguments in_src_addr {P}.
Arguments in_dest_addr {P}.
Arguments in_handle {P}.
Arguments in_tx_attr {P}.
Arguments in_rx_attr {P}.
Arguments in_ep_attr {P}.
Arguments in_domain_attr {P}.
Arguments in_fabric_attr {P}.

#[export] Instance fi_info_eta P : Settable (fi_info_of P) := fun i =>
  mkInfo (in_caps i) (in_mode i) (in_addr_format i) (in_src_addr i) (in_dest_addr i) (in_handle i)
    (in_tx_attr i) (in_rx_attr i) (in_ep_attr i) (in_domain_attr i) (in_fabric_attr i).

Notation fi_info := (fi_info_of option).
Notation prov_info := (fi_info_of (fun A => A)).

(** A complete [fi_info] seen as the argument of a later call. *)
Definition as_user (i : prov_info) : fi_info :=
  mkInfo (in_caps i) (in_mode i) (in_addr_format i) (in_src_addr i) (in_dest_addr i) (in_handle i)
    (Some (in_tx_attr i)) (Some (in_rx_attr i)) (Some (in_ep_attr i)) (Some (in_domain_attr i)) (Some (in_fabric_attr i)).

(** ** The tables of rds_attr.c *)

Definition RDS_TX_CAPS : Z := bits [FI_MSG; FI_TAGGED; FI_RMA; FI_SEND; FI_READ; FI_WRITE; FI_ATOMICS].
Definition RDS_RX_CAPS : Z :=
  bits [FI_MSG; FI_TAGGED; FI_RMA; FI_RECV; FI_REMOTE_READ; FI_REMOTE_WRITE; FI_DIRECTED_RECV; FI_SOURCE; FI_MULTI_RECV; FI_ATOMICS].
Definition RDS_DOMAIN_CAPS : Z := bits [FI_LOCAL_COMM; FI_REMOTE_COMM; FI_ATOMICS].
Definition RDS_MSG_ORDER : Z :=
  bits [FI_ORDER_SAS; FI_ORDER_RAR; FI_ORDER_RAW; FI_ORDER_WAR; FI_ORDER_WAW; FI_ORDER_SAW; FI_ORDER_SAR;
        FI_ORDER_ATOMIC_RAR; FI_ORDER_ATOMIC_RAW; FI_ORDER_ATOMIC_WAR; FI_ORDER_ATOMIC_WAW].

Definition rds_tx_attr : fi_tx_attr :=
  mkTxAttr RDS_TX_CAPS 0 (bits [FI_COMPLETION; FI_DELIVERY_COMPLETE; FI_INJECT; FI_INJECT_COMPLETE])
    RDS_MSG_ORDER 0 RDS_DEF_INJECT_SIZE 1024 (Z.of_nat RDS_IOV_LIMIT) 1 0.

Definition rds_rx_attr : fi_rx_attr :=
  mkRxAttr RDS_RX_CAPS 0 (bits [FI_COMPLETION; FI_DELIVERY_COMPLETE; FI_INJECT; FI_INJECT_COMPLETE; FI_MULTI_RECV])
    RDS_MSG_ORDER 0 0 1024 (Z.of_nat RDS_IOV_LIMIT).

Definition rds_ep_attr : fi_ep_attr :=
  mkEpAttr FI_EP_RDM FI_PROTO_UNSPEC 1 RDS_MAX_MSG_SIZE 0 RDS_KERNEL_SEG_MAX RDS_KERNEL_SEG_MAX RDS_KERNEL_SEG_MAX
    FI_TAG_GENERIC 1 1 0 None.

Definition rds_domain_attr : fi_domain_attr :=
  mkDomainAttr None (Some "rds"%string) FI_THREAD_SAFE FI_PROGRESS_MANUAL FI_PROGRESS_MANUAL FI_RM_ENABLED FI_AV_UNSPEC OFI_MR_BASIC
    8 8 256 256 256 256 1 1 0 0 0 0 RDS_DOMAIN_CAPS 0 None 0 0 65536 0 0 0 0 0.

Definition rds_fabric_attr : fi_fabric_attr := mkFabricAttr None (Some "RDS"%string) None OFI_VERSION_DEF_PROV 0.

Definition rds_info : prov_info :=
  mkInfo (bits [RDS_DOMAIN_CAPS; RDS_TX_CAPS; RDS_RX_CAPS]) 0 FI_SOCKADDR_IN None None 0
    rds_tx_attr rds_rx_attr rds_ep_attr rds_domain_attr rds_fabric_attr.

(** [rds_util_prov]: one template, no [alter_defaults] callback, no lock. *)
Definition rds_util_prov : list prov_info := [rds_info].

(** ** Capabilities (common.c) *)

Definition ofi_send_allowed (caps : Z) : bool :=
  if has caps FI_MSG || has caps FI_TAGGED then
    if has caps FI_SEND then true else if has caps FI_RECV then false else true
  else false.

Definition ofi_recv_allowed (caps : Z) : bool :=
  if has caps FI_MSG || has caps FI_TAGGED then
    if has caps FI_RECV then true else if has caps FI_SEND then false else true
  else false.

Definition ofi_rma_initiate_allowed (caps : Z) : bool :=
  if has caps FI_RMA || has caps FI_ATOMIC then
    if has caps FI_WRITE || has caps FI_READ then true
    else if has caps FI_REMOTE_WRITE || has caps FI_REMOTE_READ then false else true
  else false.

Definition ofi_rma_target_allowed (caps : Z) : bool :=
  if has caps FI_RMA || has caps FI_ATOMIC then
    if has caps FI_REMOTE_WRITE || has caps FI_REMOTE_READ then true
    else if has caps FI_WRITE || has caps FI_READ then false else true
  else false.

Definition ofi_needs_tx (caps : Z) : bool := ofi_send_allowed caps || ofi_rma_initiate_allowed caps.
Definition ofi_needs_rx (caps : Z) : bool := ofi_recv_allowed caps.

(** The position of the highest set bit of a 64-bit number, from 1. *)
Fixpoint msb_loop (fuel : nat) (num msb : Z) : Z :=
  match fuel with
  | O => msb
  | S fuel' => if num =? 0 then msb else msb_loop fuel' (Z.shiftr num 1) (msb + 1)
  end.
Definition ofi_msb (num : Z) : Z := msb_loop 64 num 0.

Definition ofi_max_tag (mem_tag_format : Z) : Z :=
  if mem_tag_format =? 0 then 0 else Z.shiftr (2 ^ 64 - 1) (64 - ofi_msb mem_tag_format).

(** ** Checking hints (util_attr.c)

    C's [a & ~b] used as a condition: [a] asks for a bit [b] does not have. *)
Definition exceeds (a b : Z) : bool := negb (Z.land a (Z.lnot b) =? 0).

Definition is_sockaddr (f : fi_addr_format) : bool :=
  match f with FI_SOCKADDR | FI_SOCKADDR_IP | FI_SOCKADDR_IN | FI_SOCKADDR_IN6 | FI_SOCKADDR_IB => true | _ => false end.
Definition is_ipaddr (f : fi_addr_format) : bool :=
  match f with FI_SOCKADDR | FI_SOCKADDR_IP | FI_SOCKADDR_IN | FI_SOCKADDR_IN6 => true | _ => false end.
Definition is_ipv4addr (f : fi_addr_format) : bool :=
  match f with FI_SOCKADDR | FI_SOCKADDR_IP | FI_SOCKADDR_IN => true | _ => false end.
Definition is_ipv6addr (f : fi_addr_format) : bool :=
  match f with FI_SOCKADDR | FI_SOCKADDR_IP | FI_SOCKADDR_IN6 => true | _ => false end.
Definition is_ibaddr (f : fi_addr_format) : bool :=
  match f with FI_SOCKADDR | FI_SOCKADDR_IB => true | _ => false end.

Definition ofi_match_addr_format (if_format user_format : fi_addr_format) : bool :=
  if bool_decide (user_format = FI_FORMAT_UNSPEC) || bool_decide (if_format = FI_FORMAT_UNSPEC) then true
  else
    match user_format with
    | FI_SOCKADDR => is_sockaddr if_format
    | FI_SOCKADDR_IP => is_ipaddr if_format
    | _ => bool_decide (if_format = user_format)
    end.

Definition ofi_valid_addr_format (prov_format user_format : fi_addr_format) : bool :=
  if bool_decide (user_format = FI_FORMAT_UNSPEC) || bool_decide (prov_format = FI_FORMAT_UNSPEC) then true
  else
    match prov_format with
    | FI_SOCKADDR => is_sockaddr user_format
    | FI_SOCKADDR_IP => is_ipaddr user_format
    | FI_SOCKADDR_IN => is_ipv4addr user_format
    | FI_SOCKADDR_IN6 => is_ipv6addr user_format
    | FI_SOCKADDR_IB => is_ibaddr user_format
    | _ => bool_decide (prov_format = user_format)
    end.

(** [strcasestr] in the C locale. *)
Definition tolower (c : Ascii.ascii) : Ascii.ascii :=
  let n := Ascii.nat_of_ascii c in
  if (65 <=? n)%nat && (n <=? 90)%nat then Ascii.ascii_of_nat (n + 32) else c.
Fixpoint lower (s : string) : string :=
  match s with EmptyString => EmptyString | String c s' => String (tolower c) (lower s') end.
Fixpoint occurs (needle hay : string) : bool :=
  String.prefix needle hay || match hay with EmptyString => false | String _ hay' => occurs needle hay' end.
Definition strcasestr (hay needle : string) : bool := occurs (lower needle) (lower hay).

Definition ofi_check_fabric_attr (prov_attr user_attr : fi_fabric_attr) : Z :=
  let other := match fba_prov_name prov_attr, fba_prov_name user_attr with
               | Some p, Some u => negb (strcasestr u p)
               | _, _ => false
               end in
  if other then - FI_ENODATA
  else if fba_prov_version user_attr >? fba_prov_version prov_attr then - FI_ENODATA
  else if fba_api_version user_attr <? fba_api_version prov_attr then - FI_ENODATA
  else 0.

Definition ofi_thread_level (m : fi_threading) : Z :=
  match m with FI_THREAD_SAFE => 1 | FI_THREAD_COMPLETION => 2 | FI_THREAD_DOMAIN => 3 | FI_THREAD_UNSPEC => 4 | _ => -1 end.
Definition fi_progress_level (m : fi_progress) : Z :=
  match m with
  | FI_PROGRESS_AUTO => 1 | FI_PROGRESS_MANUAL => 2 | FI_PROGRESS_CONTROL_UNIFIED => 3 | FI_PROGRESS_UNSPEC => 4 end.
Definition fi_resource_mgmt_level (m : fi_resource_mgmt) : Z :=
  match m with FI_RM_ENABLED => 1 | FI_RM_DISABLED => 2 | FI_RM_UNSPEC => 3 end.

Definition ofi_cap_mr_mode (info_caps mr_mode : Z) : Z :=
  let mr_mode := if has info_caps FI_HMEM then mr_mode else Z.land mr_mode (Z.lnot FI_MR_HMEM) in
  let fin m := Z.land m (Z.lnot (Z.lor OFI_MR_BASIC OFI_MR_SCALABLE)) in
  if negb (ofi_rma_target_allowed info_caps) then
    if negb (has mr_mode (Z.lor FI_MR_LOCAL FI_MR_HMEM)) then 0
    else fin (Z.land mr_mode (Z.lnot OFI_MR_MODE_RMA_TARGET))
  else fin mr_mode.

(** [user_info->domain_attr] is [user_attr]. *)
Definition ofi_check_mr_mode (api_version prov_mode : Z) (user_info : fi_info) (user_attr : fi_domain_attr) : Z :=
  let user_mode := dma_mr_mode user_attr in
  if has prov_mode FI_MR_LOCAL && negb (has (in_mode user_info) OFI_LOCAL_MR || has user_mode FI_MR_LOCAL) then - FI_ENODATA
  else if api_version <? FI_VERSION 1 5 then
    if user_mode =? OFI_MR_UNSPEC then
      if negb (has prov_mode (Z.lor OFI_MR_SCALABLE OFI_MR_BASIC)) then - FI_ENODATA else 0
    else if user_mode =? OFI_MR_BASIC then if negb (has prov_mode OFI_MR_BASIC) then - FI_ENODATA else 0
    else if user_mode =? OFI_MR_SCALABLE then if negb (has prov_mode OFI_MR_SCALABLE) then - FI_ENODATA else 0
    else - FI_ENODATA
  else if has user_mode OFI_MR_BASIC then
    if exceeds user_mode OFI_MR_BASIC || negb (has prov_mode OFI_MR_BASIC) then - FI_ENODATA else 0
  else if has user_mode OFI_MR_SCALABLE then
    if exceeds user_mode OFI_MR_SCALABLE || negb (has prov_mode OFI_MR_SCALABLE) then - FI_ENODATA else 0
  else
    let prov_mode := ofi_cap_mr_mode (in_caps user_info) prov_mode in
    if negb (user_mode =? OFI_MR_UNSPEC) && negb (Z.land user_mode prov_mode =? prov_mode) then - FI_ENODATA else 0.

(** The authentication key of the domain. *)
Definition check_domain_auth_key (api_version : Z) (prov_attr user_attr : fi_domain_attr) : bool :=
  if (dma_auth_key_size user_attr =? FI_AV_AUTH_KEY) && (api_version >=? FI_VERSION 1 20)
  then bool_decide (dma_auth_key user_attr = None)
  else (dma_auth_key_size user_attr =? 0) || (dma_auth_key_size user_attr =? dma_auth_key_size prov_attr).

Definition ofi_check_domain_attr (api_version : Z) (prov_attr : fi_domain_attr) (user_info : fi_info)
    (user_attr : fi_domain_attr) : Z :=
  if ofi_thread_level (dma_threading user_attr) <? ofi_thread_level (dma_threading prov_attr) then - FI_ENODATA
  else if fi_progress_level (dma_progress user_attr) <? fi_progress_level (dma_progress prov_attr) then - FI_ENODATA
  else if fi_resource_mgmt_level (dma_resource_mgmt user_attr) <? fi_resource_mgmt_level (dma_resource_mgmt prov_attr)
  then - FI_ENODATA
  else if negb (bool_decide (dma_av_type prov_attr = FI_AV_UNSPEC)) && negb (bool_decide (dma_av_type user_attr = FI_AV_UNSPEC)) &&
          negb (bool_decide (dma_av_type prov_attr = dma_av_type user_attr)) then - FI_ENODATA
  else if dma_cq_data_size user_attr >? dma_cq_data_size prov_attr then - FI_ENODATA
  else if negb (ofi_check_mr_mode api_version (dma_mr_mode prov_attr) user_info user_attr =? 0) then - FI_ENODATA
  else if api_version <? FI_VERSION 1 5 then 0
  else if dma_cntr_cnt user_attr >? dma_cntr_cnt prov_attr then - FI_ENODATA
  else if dma_mr_iov_limit user_attr >? dma_mr_iov_limit prov_attr then - FI_ENODATA
  else if exceeds (dma_caps user_attr) (dma_caps prov_attr) then - FI_ENODATA
  else if negb (Z.land (dma_mode user_attr) (dma_mode prov_attr) =? dma_mode prov_attr) then - FI_ENODATA
  else if dma_max_err_data user_attr >? dma_max_err_data prov_attr then - FI_ENODATA
  else if dma_mr_cnt user_attr >? dma_mr_cnt prov_attr then - FI_ENODATA
  else if negb (check_domain_auth_key api_version prov_attr user_attr) then - FI_ENODATA
  else if (api_version >=? FI_VERSION 1 20) && (dma_max_ep_auth_key user_attr >? dma_max_ep_auth_key prov_attr) then - FI_ENODATA
  else if (api_version >=? FI_VERSION 2 5) && negb (dma_max_cntr_value prov_attr =? 0) &&
          (dma_max_cntr_value user_attr >? dma_max_cntr_value prov_attr) then - FI_ENODATA
  else if (api_version >=? FI_VERSION 2 5) && negb (dma_max_err_cntr_value prov_attr =? 0) &&
          (dma_max_err_cntr_value user_attr >? dma_max_err_cntr_value prov_attr) then - FI_ENODATA
  else 0.

(** Run a check, and the rest if it passed. *)
Definition and_then (r k : Z) : Z := if r =? 0 then k else r.

Definition ofi_check_ep_type (prov_attr user_attr : fi_ep_attr) : Z :=
  if negb (bool_decide (epa_type user_attr = FI_EP_UNSPEC)) && negb (bool_decide (epa_type prov_attr = FI_EP_UNSPEC)) &&
     negb (bool_decide (epa_type user_attr = epa_type prov_attr)) then - FI_ENODATA else 0.

(** The tests on the number of contexts of one direction: [cnt] against
    [max], with [shared] the number of shared contexts and [prov_cnt] the
    provider's default. *)
Definition ctx_cnt_ok (cnt max shared prov_cnt : Z) : bool :=
  if cnt >? max then (cnt =? FI_SHARED_CONTEXT) && negb (shared =? 0)
  else negb ((cnt =? 0) && (prov_cnt =? FI_SHARED_CONTEXT)).

(** [user_info->ep_attr] is [user_attr]. *)
Definition ofi_check_ep_attr (api_version : Z) (prov : prov_info) (user_info : fi_info) (user_attr : fi_ep_attr) : Z :=
  let prov_attr := in_ep_attr prov in
  let prov_dom := in_domain_attr prov in
  and_then (ofi_check_ep_type prov_attr user_attr)
   (let av_auth_key := match in_domain_attr user_info with
                       | Some d => (api_version >=? FI_VERSION 1 20) && (dma_auth_key_size d =? FI_AV_AUTH_KEY)
                       | None => false
                       end in
    if negb (epa_protocol user_attr =? FI_PROTO_UNSPEC) && negb (epa_protocol user_attr =? epa_protocol prov_attr) then - FI_ENODATA
    else if negb (epa_protocol_version user_attr =? 0) && (epa_protocol_version user_attr >? epa_protocol_version prov_attr)
    then - FI_ENODATA
    else if epa_max_msg_size user_attr >? epa_max_msg_size prov_attr then - FI_ENODATA
    else if negb (ctx_cnt_ok (epa_tx_ctx_cnt user_attr) (dma_max_ep_tx_ctx prov_dom) (dma_max_ep_stx_ctx prov_dom) (epa_tx_ctx_cnt prov_attr))
    then - FI_ENODATA
    else if negb (ctx_cnt_ok (epa_rx_ctx_cnt user_attr) (dma_max_ep_rx_ctx prov_dom) (dma_max_ep_srx_ctx prov_dom) (epa_rx_ctx_cnt prov_attr))
    then - FI_ENODATA
    else if has (in_caps user_info) (Z.lor FI_RMA FI_ATOMIC) &&
            ((epa_max_order_raw_size user_attr >? epa_max_order_raw_size prov_attr) ||
             (epa_max_order_war_size user_attr >? epa_max_order_war_size prov_attr) ||
             (epa_max_order_waw_size user_attr >? epa_max_order_waw_size prov_attr)) then - FI_ENODATA
    else if (if av_auth_key then negb (bool_decide (epa_auth_key user_attr = None)) || negb (epa_auth_key_size user_attr =? 0)
             else negb (epa_auth_key_size user_attr =? 0) && negb (epa_auth_key_size user_attr =? epa_auth_key_size prov_attr))
    then - FI_ENODATA
    else if has (in_caps user_info) FI_TAGGED && negb (epa_mem_tag_format user_attr =? 0) &&
            (ofi_max_tag (epa_mem_tag_format user_attr) >? ofi_max_tag (epa_mem_tag_format prov_attr)) then - FI_ENODATA
    else 0).

Definition ofi_check_rx_attr (prov_attr user_attr : fi_rx_attr) (info_mode : Z) : Z :=
  let info_mode := if rxa_mode user_attr =? 0 then info_mode else rxa_mode user_attr in
  if exceeds (Z.land (rxa_caps user_attr) (Z.lnot OFI_IGNORED_RX_CAPS)) (rxa_caps prov_attr) then - FI_ENODATA
  else if negb (Z.land info_mode (rxa_mode prov_attr) =? rxa_mode prov_attr) then - FI_ENODATA
  else if exceeds (rxa_op_flags user_attr) (rxa_op_flags prov_attr) then - FI_ENODATA
  else if exceeds (rxa_msg_order user_attr) (rxa_msg_order prov_attr) then - FI_ENODATA
  else if negb (rxa_comp_order user_attr =? 0) then - FI_ENODATA
  else if negb (rxa_total_buffered_recv user_attr =? 0) then - FI_ENODATA
  else if rxa_size user_attr >? rxa_size prov_attr then - FI_ENODATA
  else if rxa_iov_limit user_attr >? rxa_iov_limit prov_attr then - FI_ENODATA
  else 0.

Definition ofi_check_tx_attr (prov_attr user_attr : fi_tx_attr) (info_mode : Z) : Z :=
  let info_mode := if txa_mode user_attr =? 0 then info_mode else txa_mode user_attr in
  if exceeds (Z.land (txa_caps user_attr) (Z.lnot OFI_IGNORED_TX_CAPS)) (txa_caps prov_attr) then - FI_ENODATA
  else if negb (Z.land info_mode (txa_mode prov_attr) =? txa_mode prov_attr) then - FI_ENODATA
  else if exceeds (txa_op_flags user_attr) (txa_op_flags prov_attr) then - FI_ENODATA
  else if exceeds (txa_msg_order user_attr) (txa_msg_order prov_attr) then - FI_ENODATA
  else if negb (txa_comp_order user_attr =? 0) then - FI_ENODATA
  else if txa_inject_size user_attr >? txa_inject_size prov_attr then - FI_ENODATA
  else if txa_size user_attr >? txa_size prov_attr then - FI_ENODATA
  else if txa_iov_limit user_attr >? txa_iov_limit prov_attr then - FI_ENODATA
  else if txa_rma_iov_limit user_attr >? txa_rma_iov_limit prov_attr then - FI_ENODATA
  else 0.

Definition ofi_mr_get_prov_mode (version : Z) (user : fi_info) (prov : prov_info) : Z :=
  let no_local := match in_domain_attr user with Some d => negb (has (dma_mr_mode d) FI_MR_LOCAL) | None => false end in
  if (version <? FI_VERSION 1 5) || no_local then
    if has (dma_mr_mode (in_domain_attr prov)) FI_MR_LOCAL then Z.lor (in_mode prov) OFI_LOCAL_MR else in_mode prov
  else in_mode prov.

(** The outcome of a check on a structure that may be absent. *)
Definition check_opt {A} (check : A -> Z) (o : option A) : Z := match o with Some a => check a | None => 0 end.

Definition ofi_check_info (prov : prov_info) (api_version : Z) (user_info : option fi_info) : Z :=
  match user_info with
  | None => 0
  | Some user =>
      and_then (check_opt (ofi_check_ep_type (in_ep_attr prov)) (in_ep_attr user))
      (if exceeds (in_caps user) (in_caps prov) then - FI_ENODATA
       else
         let prov_mode := ofi_mr_get_prov_mode api_version user prov in
         if negb (Z.land (in_mode user) prov_mode =? prov_mode) then - FI_ENODATA
         else if negb (ofi_valid_addr_format (in_addr_format prov) (in_addr_format user)) then - FI_ENODATA
         else
           and_then (check_opt (ofi_check_fabric_attr (in_fabric_attr prov)) (in_fabric_attr user))
           (and_then (check_opt (ofi_check_domain_attr api_version (in_domain_attr prov) user) (in_domain_attr user))
           (and_then (check_opt (ofi_check_ep_attr api_version prov user) (in_ep_attr user))
           (and_then (check_opt (fun a => ofi_check_rx_attr (in_rx_attr prov) a (in_mode user)) (in_rx_attr user))
           (check_opt (fun a => ofi_check_tx_attr (in_tx_attr prov) a (in_mode user)) (in_tx_attr user))))))
  end.

(** Some template satisfies the hints. *)
Definition ofi_prov_check_info (provs : list prov_info) (api_version : Z) (user_info : option fi_info) : Z :=
  match user_info with
  | None => 0
  | Some _ =>
      if existsb (fun prov => ofi_check_info prov api_version user_info =? 0) provs then 0 else - FI_ENODATA
  end.

(** ** Adapting a template to the hints (util_attr.c)

    An attribute structure of the hints, if there are hints and they have it. *)
Definition hint_domain (hints : option fi_info) : option fi_domain_attr := h ← hints; in_domain_attr h.
Definition hint_fabric (hints : option fi_info) : option fi_fabric_attr := h ← hints; in_fabric_attr h.
Definition hint_ep (hints : option fi_info) : option fi_ep_attr := h ← hints; in_ep_attr h.
Definition hint_rx (hints : option fi_info) : option fi_rx_attr := h ← hints; in_rx_attr h.
Definition hint_tx (hints : option fi_info) : option fi_tx_attr := h ← hints; in_tx_attr h.

Definition ofi_get_caps (info_caps hint_caps attr_caps : Z) : Z :=
  let caps :=
    if hint_caps =? 0 then
      Z.lor (Z.land (Z.land info_caps attr_caps) OFI_PRIMARY_CAPS) (Z.land attr_caps OFI_SECONDARY_CAPS)
    else
      let caps := Z.lor (Z.land hint_caps OFI_PRIMARY_CAPS) (Z.land attr_caps OFI_SECONDARY_CAPS) in
      Z.lor (Z.land caps (Z.lnot FI_SOURCE)) (Z.land hint_caps FI_SOURCE) in
  let caps := if has caps (Z.lor FI_MSG FI_TAGGED) && negb (has caps OFI_MSG_DIRECTION_CAPS)
              then Z.lor caps (Z.land attr_caps OFI_MSG_DIRECTION_CAPS) else caps in
  if has caps (Z.lor FI_RMA FI_ATOMICS) && negb (has caps OFI_RMA_DIRECTION_CAPS)
  then Z.lor caps (Z.land attr_caps OFI_RMA_DIRECTION_CAPS) else caps.

(** C's [x ? x : y]. *)
Definition or_else (x y : Z) : Z := if x =? 0 then y else x.

Definition alter_mr_mode (mr_mode : Z) (hints : option fi_domain_attr) (info_caps api_version : Z) : Z :=
  let hints_mr_mode := match hints with Some h => dma_mr_mode h | None => 0 end in
  if has hints_mr_mode (Z.lor OFI_MR_BASIC OFI_MR_SCALABLE) then hints_mr_mode
  else if api_version <? FI_VERSION 1 5 then
    if negb (mr_mode =? 0) && negb (mr_mode =? OFI_MR_SCALABLE) then OFI_MR_BASIC else OFI_MR_SCALABLE
  else
    let mr_mode := Z.land mr_mode (Z.lnot (Z.lor OFI_MR_BASIC OFI_MR_SCALABLE)) in
    match hints with
    | Some _ => if negb (Z.land hints_mr_mode mr_mode =? mr_mode)
                then ofi_cap_mr_mode info_caps (Z.land mr_mode hints_mr_mode) else mr_mode
    | None => mr_mode
    end.

Definition fi_alter_domain_attr (attr : fi_domain_attr) (hints : option fi_domain_attr) (info_caps api_version : Z) : fi_domain_attr :=
  let attr := attr <| dma_mr_mode := alter_mr_mode (dma_mr_mode attr) hints info_caps api_version |>
                   <| dma_caps := ofi_get_caps info_caps (match hints with Some h => dma_caps h | None => 0 end) (dma_caps attr) |>
                   <| dma_max_cntr_value ::= fun v => or_else v (2 ^ 64 - 1) |>
                   <| dma_max_err_cntr_value ::= fun v => or_else v (2 ^ 64 - 1) |> in
  match hints with
  | None => attr
  | Some h =>
      attr <| dma_threading ::= fun t => match dma_threading h with FI_THREAD_UNSPEC => t | t' => t' end |>
           <| dma_progress ::= fun p => match dma_progress h with FI_PROGRESS_UNSPEC => p | p' => p' end |>
           <| dma_control_progress ::= fun p => match dma_progress h with FI_PROGRESS_UNSPEC => p | p' => p' end |>
           <| dma_av_type ::= fun t => match dma_av_type h with FI_AV_UNSPEC => t | t' => t' end |>
           <| dma_max_ep_auth_key ::= or_else (dma_max_ep_auth_key h) |>
           <| dma_auth_key_size ::= fun n => if dma_auth_key_size h =? FI_AV_AUTH_KEY then FI_AV_AUTH_KEY else n |>
  end.

Definition fi_alter_ep_attr (attr : fi_ep_attr) (hints : option fi_ep_attr) (info_caps : Z) : fi_ep_attr :=
  match hints with
  | None => attr
  | Some h =>
      let attr := if has info_caps (Z.lor FI_RMA FI_ATOMIC)
                  then attr <| epa_max_order_raw_size ::= or_else (epa_max_order_raw_size h) |>
                            <| epa_max_order_war_size ::= or_else (epa_max_order_war_size h) |>
                            <| epa_max_order_waw_size ::= or_else (epa_max_order_waw_size h) |>
                  else attr in
      attr <| epa_tx_ctx_cnt ::= or_else (epa_tx_ctx_cnt h) |> <| epa_rx_ctx_cnt ::= or_else (epa_rx_ctx_cnt h) |>
  end.

Definition fi_alter_rx_attr (attr : fi_rx_attr) (hints : option fi_rx_attr) (info_caps : Z) : fi_rx_attr :=
  let attr := attr <| rxa_caps := ofi_get_caps info_caps (match hints with Some h => rxa_caps h | None => 0 end) (rxa_caps attr) |> in
  match hints with
  | None => attr
  | Some h =>
      attr <| rxa_op_flags := rxa_op_flags h |> <| rxa_size ::= or_else (rxa_size h) |>
           <| rxa_iov_limit ::= or_else (rxa_iov_limit h) |>
  end.

Definition fi_alter_tx_attr (attr : fi_tx_attr) (hints : option fi_tx_attr) (info_caps : Z) : fi_tx_attr :=
  let attr := attr <| txa_caps := ofi_get_caps info_caps (match hints with Some h => txa_caps h | None => 0 end) (txa_caps attr) |> in
  match hints with
  | None => attr
  | Some h =>
      attr <| txa_op_flags := txa_op_flags h |> <| txa_inject_size ::= or_else (txa_inject_size h) |>
           <| txa_size ::= or_else (txa_size h) |> <| txa_iov_limit ::= or_else (txa_iov_limit h) |>
           <| txa_rma_iov_limit ::= or_else (txa_rma_iov_limit h) |>
  end.

Definition ofi_get_info_caps (prov : prov_info) (user_info : option fi_info) (api_version : Z) : Z :=
  match user_info with
  | None => in_caps prov
  | Some user =>
      let caps := ofi_get_caps (in_caps prov) (in_caps user) (in_caps prov) in
      let prov_mode := dma_mr_mode (in_domain_attr prov) in
      if negb (ofi_rma_target_allowed caps) || negb (has prov_mode OFI_MR_MODE_RMA_TARGET) then caps
      else
        let keep := match in_domain_attr user with
                    | None => false
                    | Some d =>
                        let user_mode := dma_mr_mode d in
                        ((api_version <? FI_VERSION 1 5) && (user_mode =? OFI_MR_UNSPEC)) ||
                        (user_mode =? OFI_MR_BASIC) ||
                        (Z.land (Z.land user_mode prov_mode) OFI_MR_MODE_RMA_TARGET =? Z.land prov_mode OFI_MR_MODE_RMA_TARGET)
                    end in
        if keep then caps else Z.land caps (Z.lnot (Z.lor FI_REMOTE_WRITE FI_REMOTE_READ))
  end.

(** [ofi_alter_info] on one entry of the list. *)
Definition ofi_alter_info (info : prov_info) (hints : option fi_info) (api_version : Z) : prov_info :=
  let info := info <| in_caps := ofi_get_info_caps info hints api_version |> in
  let old_style := match hint_domain hints with
                   | Some d => has (dma_mr_mode d) (Z.lor OFI_MR_BASIC OFI_MR_SCALABLE)
                   | None => false
                   end in
  let info := if has (dma_mr_mode (in_domain_attr info)) FI_MR_LOCAL && ((api_version <? FI_VERSION 1 5) || old_style)
              then info <| in_mode ::= Z.lor OFI_LOCAL_MR |> else info in
  let info := match hints with Some h => info <| in_handle := in_handle h |> | None => info end in
  info <| in_domain_attr ::= fun a => fi_alter_domain_attr a (hint_domain hints) (in_caps info) api_version |>
       <| in_ep_attr ::= fun a => fi_alter_ep_attr a (hint_ep hints) (in_caps info) |>
       <| in_rx_attr ::= fun a => fi_alter_rx_attr a (hint_rx hints) (in_caps info) |>
       <| in_tx_attr ::= fun a => fi_alter_tx_attr a (hint_tx hints) (in_caps info) |>.
