(* ===== verification/Getinfo.v ===== *)
(** * Discovery: fi_getinfo

    [rds_getinfo] of rds_init.c and the routines it runs on: util_getinfo and
    ofi_ip_getinfo of util_main.c, the address helpers of util_av.c, the list
    of interface addresses of common.c, [fi_dupinfo] of fabric.c.  What the
    operating system contributes - the resolver, routing and the interfaces -
    is the class [NetEnv]; every allocation may fail. *)

From stdpp Require Import strings.
From S2P Require Import Prelude Iov Wire Kernel Config Attr.

(** ** The network as the operating system reports it *)

(** An entry of [getifaddrs]: name, flags, address, the network it is on as
    [ofi_set_netmask_str] writes it, and the speed of the link. *)
Record ifaddrs := mkIfaddrs {
  ifa_name : string; ifa_up : bool; ifa_running : bool; ifa_loopback : bool;
  ifa_addr : option (list Z); ifa_netstr : string; ifa_speed : Z }.

Class NetEnv := {
  (** [getaddrinfo] for a node, a service, a family (0: any) and
      [AI_PASSIVE]: the first address found. *)
  ne_getaddrinfo : option string -> option string -> Z -> bool -> option (list Z);
  (** [socket] of a family: 0 or an errno. *)
  ne_socket : Z -> Z;
  (** [connect] a datagram socket to an address: 0 or -1. *)
  ne_connect : list Z -> Z;
  (** [getsockname] of that socket: an errno or the local address. *)
  ne_getsockname : list Z -> Z + list Z;
  (** [getifaddrs]. *)
  ne_getifaddrs : option (list ifaddrs);
  (** The provider's [iface] parameter. *)
  ne_iface : option string;
  (** [inet_ntop] writes an address. *)
  ne_inet_ntop : list Z -> bool
}.

(** Fabrics and domains that are open. *)
Record open_domain := mkOpenDomain { od_name : string; od_caps : Z; od_mode : Z; od_mr_mode : Z; od_fid : Z }.
Record open_fabric := mkOpenFabric { of_rds : bool; of_name : string; of_fid : Z; of_domains : list open_domain }.

(** ** Interface addresses (common.c) *)

Record ofi_addr_list_entry := mkAddrEntry {
  ae_ipaddr : list Z; ae_speed : Z; ae_net_name : string; ae_ifa_name : string; ae_comm_caps : Z }.

(** The port and the address proper of a socket address, by family. *)
Definition sin_port (sa : list Z) : list Z := take 2 (drop 2 sa).
Definition sin_addr (sa : list Z) : list Z := take 4 (drop 4 sa).
Definition sin6_addr (sa : list Z) : list Z := take 16 (drop 8 sa).
Definition sib_addr (sa : list Z) : list Z := take 16 (drop 8 sa).

(** [ofi_addr_cmp] as a condition: the addresses, or their ports, differ. *)
Definition ofi_addr_differs (sa1 sa2 : list Z) : bool :=
  if sa_family sa1 =? AF_INET then
    negb (bool_decide (sin_addr sa1 = sin_addr sa2)) || negb (bool_decide (sin_port sa1 = sin_port sa2))
  else if sa_family sa1 =? AF_INET6 then
    negb (bool_decide (sin6_addr sa1 = sin6_addr sa2)) || negb (bool_decide (sin_port sa1 = sin_port sa2))
  else false.

Definition ofi_compare_addr_entry (cur insert : ofi_addr_list_entry) : bool :=
  let fc := sa_family (ae_ipaddr cur) in
  let fi := sa_family (ae_ipaddr insert) in
  if ae_speed insert >? ae_speed cur then true
  else if ae_speed insert <? ae_speed cur then false
  else if fi <? fc then true
  else if fi >? fc then false
  else ofi_addr_differs (ae_ipaddr insert) (ae_ipaddr cur).

Fixpoint slist_insert_before_first_match (l : list ofi_addr_list_entry) (e : ofi_addr_list_entry) : list ofi_addr_list_entry :=
  match l with
  | [] => [e]
  | cur :: l' => if ofi_compare_addr_entry cur e then e :: l else cur :: slist_insert_before_first_match l' e
  end.

Definition ofi_equals_ipaddr (addr1 addr2 : list Z) : bool :=
  (sa_family addr1 =? sa_family addr2) &&
  (if sa_family addr1 =? AF_INET then bool_decide (sin_addr addr1 = sin_addr addr2)
   else if sa_family addr1 =? AF_INET6 then bool_decide (sin6_addr addr1 = sin6_addr addr2)
   else if sa_family addr1 =? AF_IB then bool_decide (sib_addr addr1 = sib_addr addr2)
   else false).

Definition ADDR_ENTRY_SIZE : Z := 1104.
(** The socket addresses of 127.0.0.1 and ::1, port 0. *)
Definition loopback4 : list Z := [2; 0; 0; 0; 127; 0; 0; 1] ++ replicate 8 0.
Definition loopback6 : list Z := [10; 0] ++ replicate 21 0 ++ [1; 0; 0; 0; 0].

Section Getinfo.
Context {K : Type} `{!Kernel K} `{!NetEnv}.
Implicit Types info : prov_info.

Definition k_malloc (size : Z) : M K bool := fun k =>
  let '(r, k') := k_alloc size k in Some (match r with Some _ => true | None => false end, k').

(** Allocate in order until one fails. *)
Fixpoint alloc_all (sizes : list Z) : M K bool :=
  match sizes with
  | [] => ret true
  | n :: sizes' => b <- k_malloc n ;; if (b : bool) then alloc_all sizes' else ret false
  end.

(** One interface address, unless it is filtered out, cannot be allocated
    or cannot be written. *)
Definition addr_of_ifa (iface : option string) (ifa : ifaddrs) : M K (option ofi_addr_list_entry) :=
  let skip := match iface with Some n => negb (bool_decide (n = ifa_name ifa)) | None => false end in
  match ifa_addr ifa with
  | Some a =>
      if skip || negb (ifa_up ifa) || negb (ifa_running ifa) || ifa_loopback ifa ||
         (negb (sa_family a =? AF_INET) && negb (sa_family a =? AF_INET6)) then ret None
      else
        b <- k_malloc ADDR_ENTRY_SIZE ;;
        if negb b then ret None
        else if negb (ne_inet_ntop a) then ret None
        else ret (Some (mkAddrEntry (take (Z.to_nat (ofi_sizeofaddr a)) a) (ifa_speed ifa) (ifa_netstr ifa) (ifa_name ifa)
                          (Z.lor FI_LOCAL_COMM FI_REMOTE_COMM)))
  | None => ret None
  end.

Fixpoint addr_list_loop (iface : option string) (l : list ifaddrs) (acc : list ofi_addr_list_entry) : M K (list ofi_addr_list_entry) :=
  match l with
  | [] => ret acc
  | ifa :: l' =>
      e <- addr_of_ifa iface ifa ;;
      addr_list_loop iface l' (match e with Some e => slist_insert_before_first_match acc e | None => acc end)
  end.

Definition ofi_insert_loopback_addr (l : list ofi_addr_list_entry) : M K (list ofi_addr_list_entry) :=
  b <- k_malloc ADDR_ENTRY_SIZE ;;
  if negb b then ret l
  else
    let l := l ++ [mkAddrEntry loopback4 0 "127.0.0.1/32" "lo" FI_LOCAL_COMM] in
    b <- k_malloc ADDR_ENTRY_SIZE ;;
    if negb b then ret l else ret (l ++ [mkAddrEntry loopback6 0 "::1/128" "lo" FI_LOCAL_COMM]).

Definition ofi_get_list_of_addr : M K (list ofi_addr_list_entry) :=
  l <- match ne_getifaddrs with Some ifs => addr_list_loop ne_iface ifs [] | None => ret [] end ;;
  let lo := match ne_iface with Some n => bool_decide (n = "lo"%string) || bool_decide (n = "loopback"%string) | None => true end in
  if lo then ofi_insert_loopback_addr l else ret l.

(** ** Addresses (util_av.c)

    A helper returns its status, the address it stored, if it stored one,
    and the address format it leaves. *)

Definition fi_get_src_sockaddr (fmt : fi_addr_format) (dest : list Z) : M K (Z * option (list Z) * fi_addr_format) :=
  let e := ne_socket (sa_family dest) in
  if negb (e =? 0) then ret (- e, None, fmt)
  else
    let r := ne_connect dest in
    if negb (r =? 0) then ret (r, None, fmt)
    else
      b <- k_malloc (Z.of_nat (length dest)) ;;
      if negb b then ret (- FI_ENOMEM, None, fmt)
      else
        match ne_getsockname dest with
        | inl e => ret (- e, Some [], fmt)            (* the buffer is kept, its length is not set *)
        | inr sa =>
            let no_port := take 2 sa ++ [0; 0] ++ drop 4 sa in
            if sa_family sa =? AF_INET then ret (0, Some no_port, FI_SOCKADDR_IN)
            else if sa_family sa =? AF_INET6 then ret (0, Some no_port, FI_SOCKADDR_IN6)
            else ret (- FI_ENOSYS, Some sa, fmt)
        end.

Definition ofi_get_src_addr (fmt : fi_addr_format) (dest : list Z) : M K (Z * option (list Z) * fi_addr_format) :=
  if is_ipaddr fmt then fi_get_src_sockaddr fmt dest else ret (- FI_ENOSYS, None, fmt).

Definition fi_get_sockaddr (family flags : Z) (node service : option string) : M K (Z + list Z) :=
  match ne_getaddrinfo node service family (has flags FI_SOURCE) with
  | None => ret (inl (- FI_ENODATA))
  | Some a => b <- k_malloc (Z.of_nat (length a)) ;; ret (if (b : bool) then inr a else inl (- FI_ENOMEM))
  end.

(** [strstr]. *)
Definition strstr (hay needle : string) : bool := occurs needle hay.

Definition ofi_get_str_addr (node : option string) : M K (option (list Z)) :=
  match node with
  | Some n =>
      if strstr n "://" then
        b <- k_malloc (Z.of_nat (String.length n) + 1) ;;
        ret (if (b : bool) then Some (((fun c => Z.of_nat (Ascii.nat_of_ascii c)) <$> String.list_ascii_of_string n) ++ [0]) else None)
      else ret None
  | None => ret None
  end.

Definition ofi_get_addr (fmt : fi_addr_format) (flags : Z) (node service : option string) :
    M K (Z * option (list Z) * fi_addr_format) :=
  let lookup family fmt_of :=
    r <- fi_get_sockaddr family flags node service ;;
    ret (match r with inl e => (e, None, fmt) | inr a => (0, Some a, fmt_of a) end) in
  match fmt with
  | FI_SOCKADDR | FI_SOCKADDR_IP => lookup 0 (fun a => if sa_family a =? AF_INET then FI_SOCKADDR_IN else FI_SOCKADDR_IN6)
  | FI_SOCKADDR_IN => lookup AF_INET (fun _ => fmt)
  | FI_SOCKADDR_IN6 => lookup AF_INET6 (fun _ => fmt)
  | FI_ADDR_STR => a <- ofi_get_str_addr node ;; ret (0, a, fmt)
  | _ => ret (- FI_ENOSYS, None, fmt)
  end.

(** ** Copies of a template (fabric.c) *)

Definition key_sizes (key : option (list Z)) : list Z := match key with Some l => [Z.of_nat (length l)] | None => [] end.
Definition name_sizes (name : option string) : list Z :=
  match name with Some n => [Z.of_nat (String.length n) + 1] | None => [] end.

(** What [fi_dupinfo] allocates, in order. *)
Definition dup_sizes (info : prov_info) : list Z :=
  [136] ++ key_sizes (in_src_addr info) ++ key_sizes (in_dest_addr info) ++ [80; 64] ++
  [96] ++ key_sizes (epa_auth_key (in_ep_attr info)) ++
  [232] ++ name_sizes (dma_name (in_domain_attr info)) ++ key_sizes (dma_auth_key (in_domain_attr info)) ++
  [32] ++ name_sizes (fba_name (in_fabric_attr info)) ++ name_sizes (fba_prov_name (in_fabric_attr info)).

Definition fi_dupinfo (info : prov_info) : M K (option prov_info) :=
  b <- alloc_all (dup_sizes info) ;; ret (if (b : bool) then Some info else None).

(** The templates that satisfy the hints, copied: [inl] is [-FI_ENOMEM]. *)
Fixpoint check_dup_loop (provs : list prov_info) (version : Z) (hints : option fi_info) (acc : list prov_info) :
    M K (Z + list prov_info) :=
  match provs with
  | [] => ret (inr acc)
  | prov :: provs' =>
      if negb (ofi_check_info prov version hints =? 0) then check_dup_loop provs' version hints acc
      else
        fi <- fi_dupinfo prov ;;
        match fi with
        | None => ret (inl (- FI_ENOMEM))
        | Some fi => check_dup_loop provs' version hints (acc ++ [fi])
        end
  end.

Definition ofi_prov_check_dup_info (provs : list prov_info) (version : Z) (hints : option fi_info) : M K (Z + list prov_info) :=
  r <- check_dup_loop provs version hints [] ;;
  ret (match r with
       | inl e => inl e
       | inr [] => inl (- FI_ENODATA)
       | inr l => inr l
       end).

(** ** util_main.c *)

Definition util_find_domain (info : prov_info) (hints : option fi_info) (d : open_domain) : bool :=
  let name := match (d ← hint_domain hints; dma_name d) with Some n => Some n | None => dma_name (in_domain_attr info) end in
  let mode := Z.lor (in_mode info) (dma_mode (in_domain_attr info)) in
  bool_decide (Some (od_name d) = name) &&
  negb (exceeds (Z.lor (in_caps info) (dma_caps (in_domain_attr info))) (od_caps d)) &&
  (Z.land mode (od_mode d) =? od_mode d) &&
  (Z.land (dma_mr_mode (in_domain_attr info)) (od_mr_mode d) =? od_mr_mode d).

Definition util_match_fabric (name : option string) (f : open_fabric) : bool :=
  of_rds f && bool_decide (Some (of_name f) = name).

Definition util_lookup_existing_fabric_domain (opened : list open_fabric) (hints : option fi_info) (info : prov_info) : prov_info :=
  let name := match (f ← hint_fabric hints; fba_name f) with Some n => Some n | None => fba_name (in_fabric_attr info) end in
  match List.find (util_match_fabric name) opened with
  | None => info
  | Some f =>
      let info := info <| in_fabric_attr ::= fun a => a <| fba_fabric := Some (of_fid f) |> |> in
      match List.find (util_find_domain info hints) (of_domains f) with
      | None => info
      | Some d => info <| in_domain_attr ::= fun a => a <| dma_domain := Some (od_fid d) |> |>
      end
  end.

(** Copy one key. *)
Definition dup_key (key : option (list Z)) : M K (Z + option (list Z)) :=
  match key with
  | None => ret (inr None)
  | Some l => b <- k_malloc (Z.of_nat (length l)) ;; ret (if (b : bool) then inr (Some l) else inl (- FI_ENOMEM))
  end.

Definition ofi_dup_auth_keys (hints : option fi_info) (info : prov_info) : M K (Z + prov_info) :=
  match hints with
  | None => ret (inr info)
  | Some h =>
      dk <- dup_key (d ← in_domain_attr h; dma_auth_key d) ;;
      match dk with
      | inl e => ret (inl e)
      | inr dk =>
          let info := match dk, in_domain_attr h with
                      | Some _, Some d => info <| in_domain_attr ::= fun a =>
                          a <| dma_auth_key := dk |> <| dma_auth_key_size := dma_auth_key_size d |> |>
                      | _, _ => info
                      end in
          ek <- dup_key (a ← in_ep_attr h; epa_auth_key a) ;;
          ret (match ek, in_ep_attr h with
               | inl e, _ => inl e
               | inr (Some k), Some d => inr (info <| in_ep_attr ::= fun a =>
                   a <| epa_auth_key := Some k |> <| epa_auth_key_size := epa_auth_key_size d |> |>)
               | inr _, _ => inr info
               end)
      end
  end.

(** The address part of the loop of [util_getinfo], for one entry. *)
Definition set_src (info : prov_info) (hints : option fi_info) : M K (Z + prov_info) :=
  match hints with
  | Some h =>
      match in_src_addr h with
      | Some a =>
          b <- k_malloc (Z.of_nat (length a)) ;;
          ret (if (b : bool) then inr (info <| in_src_addr := Some a |> <| in_addr_format := in_addr_format h |>) else inl (- FI_ENOMEM))
      | None => ret (inr info)
      end
  | None => ret (inr info)
  end.

Definition set_dest (info : prov_info) (hints : option fi_info) : M K (Z + prov_info) :=
  match hints with
  | Some h =>
      match in_dest_addr h with
      | Some a =>
          b <- k_malloc (Z.of_nat (length a)) ;;
          ret (if (b : bool) then inr (info <| in_dest_addr := Some a |> <| in_addr_format := in_addr_format h |>) else inl (- FI_ENOMEM))
      | None => ret (inr info)
      end
  | None => ret (inr info)
  end.

(** Resolve the node and the service into the address [set] stores. *)
Definition resolve (info : prov_info) (flags : Z) (node service : option string)
    (set : prov_info -> option (list Z) -> prov_info) : M K (Z + prov_info) :=
  r <- ofi_get_addr (in_addr_format info) flags node service ;;
  let '(st, a, fmt) := r in
  ret (if negb (st =? 0) then inl st else inr (set info a <| in_addr_format := fmt |>)).

(** Sequence two fallible steps. *)
Definition ebind {A B} (m : M K (Z + A)) (f : A -> M K (Z + B)) : M K (Z + B) :=
  r <- m ;; match r with inl e => ret (inl e) | inr a => f a end.

Definition is_null {A} (o : option A) : bool := match o with Some _ => false | None => true end.

Definition getinfo_addrs (flags : Z) (node service : option string) (hints : option fi_info) (info : prov_info) : M K (Z + prov_info) :=
  ebind (if has flags FI_SOURCE then
           ebind (resolve info flags node service (fun i a => i <| in_src_addr := a |>)) (fun info => set_dest info hints)
         else
           if negb (is_null node) || negb (is_null service) then
             ebind (resolve info flags node service (fun i a => i <| in_dest_addr := a |>)) (fun info => set_src info hints)
           else ebind (set_src info hints) (fun info => set_dest info hints))
  (fun info =>
     match in_dest_addr info, in_src_addr info with
     | Some dest, None =>
         r <- ofi_get_src_addr (in_addr_format info) dest ;;
         let '(_, a, fmt) := r in ret (inr (info <| in_src_addr := a |> <| in_addr_format := fmt |>))
     | _, _ => ret (inr info)
     end).

Fixpoint getinfo_loop (opened : list open_fabric) (flags : Z) (node service : option string) (hints : option fi_info)
    (infos : list prov_info) : M K (Z + list prov_info) :=
  match infos with
  | [] => ret (inr [])
  | info :: infos' =>
      ebind (getinfo_addrs flags node service hints (util_lookup_existing_fabric_domain opened hints info)) (fun info =>
      ebind (ofi_dup_auth_keys hints info) (fun info =>
      ebind (getinfo_loop opened flags node service hints infos') (fun l => ret (inr (info :: l)))))
  end.

Definition util_getinfo (provs : list prov_info) (opened : list open_fabric) (version : Z) (node service : option string)
    (flags : Z) (hints : option fi_info) : M K (Z + list prov_info) :=
  if has flags FI_SOURCE && is_null node && is_null service then ret (inl (- FI_EINVAL))
  else
    ebind (ofi_prov_check_dup_info provs version hints) (fun infos =>
    getinfo_loop opened flags node service hints ((fun i => ofi_alter_info i hints version) <$> infos)).

Definition util_set_netif_names (info : prov_info) (e : ofi_addr_list_entry) : M K prov_info :=
  b1 <- k_malloc (Z.of_nat (String.length (ae_net_name e)) + 1) ;;
  let info := if (b1 : bool) then info <| in_fabric_attr ::= fun a => a <| fba_name := Some (ae_net_name e) |> |> else info in
  b2 <- k_malloc (Z.of_nat (String.length (ae_ifa_name e)) + 1) ;;
  ret (if (b2 : bool) then info <| in_domain_attr ::= fun a => a <| dma_name := Some (ae_ifa_name e) |> |> else info).

(** The address format of an interface address; other families are passed
    over. *)
Definition ifs_format (e : ofi_addr_list_entry) : option fi_addr_format :=
  if sa_family (ae_ipaddr e) =? AF_INET then Some FI_SOCKADDR_IN
  else if sa_family (ae_ipaddr e) =? AF_INET6 then Some FI_SOCKADDR_IN6 else None.

(** The loop of [util_getinfo_ifs]. *)
Fixpoint getinfo_ifs_loop (hints : option fi_info) (src_info : prov_info) (l : list ofi_addr_list_entry) (acc : list prov_info) :
    M K (list prov_info) :=
  match l with
  | [] => ret acc
  | e :: l' =>
      match ifs_format e with
      | None => getinfo_ifs_loop hints src_info l' acc
      | Some fmt =>
          let skip := match hints with
                      | Some h => negb (Z.land (in_caps h) (ae_comm_caps e) =? Z.land (in_caps h) (Z.lor FI_LOCAL_COMM FI_REMOTE_COMM)) ||
                                  negb (ofi_match_addr_format fmt (in_addr_format h))
                      | None => false
                      end in
          if skip then getinfo_ifs_loop hints src_info l' acc
          else
            cur <- fi_dupinfo src_info ;;
            match cur with
            | None => ret acc
            | Some cur =>
                let cur := cur <| in_caps ::= fun c => Z.lor (Z.land c (Z.lnot (Z.lor FI_LOCAL_COMM FI_REMOTE_COMM))) (ae_comm_caps e) |> in
                b <- k_malloc (if sa_family (ae_ipaddr e) =? AF_INET then 16 else 28) ;;
                let cur := if (b : bool) then cur <| in_src_addr := Some (ae_ipaddr e) |> <| in_addr_format := fmt |> else cur in
                cur <- util_set_netif_names cur e ;;
                getinfo_ifs_loop hints src_info l' (acc ++ [cur])
            end
      end
  end.

Definition util_getinfo_ifs (hints : option fi_info) (src_info : prov_info) : M K (list prov_info) :=
  l <- ofi_get_list_of_addr ;;
  r <- getinfo_ifs_loop hints src_info l [] ;;
  ret (match r with [] => [src_info] | _ => r end).

(** The loop of [ofi_ip_getinfo]; [head] is the source address of the first
    entry of the list. *)
Fixpoint ip_getinfo_loop (hints : option fi_info) (head : option (list Z)) (infos : list prov_info) : M K (list prov_info) :=
  match infos with
  | [] => ret []
  | cur :: infos' =>
      curs <- (match in_src_addr cur, in_dest_addr cur with
               | None, None => util_getinfo_ifs hints cur
               | Some _, _ =>
                   l <- ofi_get_list_of_addr ;;
                   match List.find (fun e => match head with Some a => ofi_equals_ipaddr (ae_ipaddr e) a | None => false end) l with
                   | Some e => cur <- util_set_netif_names cur e ;; ret [cur]
                   | None => ret [cur]
                   end
               | None, Some _ => ret [cur]
               end) ;;
      rest <- ip_getinfo_loop hints head infos' ;;
      ret (curs ++ rest)
  end.

Definition ofi_ip_getinfo (provs : list prov_info) (opened : list open_fabric) (version : Z) (node service : option string)
    (flags : Z) (hints : option fi_info) : M K (Z + list prov_info) :=
  ebind (util_getinfo provs opened version node service flags hints) (fun infos =>
  l <- ip_getinfo_loop hints (match infos with i :: _ => in_src_addr i | [] => None end) infos ;; ret (inr l)).

Definition rds_getinfo (opened : list open_fabric) (version : Z) (node service : option string) (flags : Z) (hints : option fi_info) :
    M K (Z + list prov_info) :=
  ofi_ip_getinfo rds_util_prov opened version node service flags hints.
End Getinfo.

(** ** What the core adds (fabric.c)

    Before the entries of a provider reach the application [fi_getinfo] names
    the provider in them, with its version and the version of the interface
    that was asked for. *)

Definition RDS_PROV_NAME : string := "rds".

(** For a provider that is no utility provider: a name that is set stays. *)
Definition ofi_set_prov_attr (attr : fi_fabric_attr) : fi_fabric_attr :=
  attr <| fba_prov_name ::= fun n => match n with Some core => Some core | None => Some RDS_PROV_NAME end |>
       <| fba_prov_version := OFI_VERSION_DEF_PROV |>.

Definition core_entry (version : Z) (info : prov_info) : prov_info :=
  info <| in_fabric_attr ::= fun a => ofi_set_prov_attr a <| fba_api_version := version |> |>.
