(* ===== verification/AttrSpec.v ===== *)
(** * What discovery promises

    The [fi_info] entries that [fi_getinfo] returns grant at least what the
    hints ask for and at most what the provider has, and opening a domain or
    an endpoint with one of them passes the attribute check again - unless
    the entry carries an address the provider cannot use. *)

From stdpp Require Import strings.
From S2P Require Import Prelude Iov Wire Kernel Config Attr Getinfo.

(** ** Sets of bits *)

(** Every bit of [a] is a bit of [b]. *)
Definition sub (a b : Z) : Prop := forall i, Z.testbit a i = true -> Z.testbit b i = true.

Lemma exceeds_sub a b : exceeds a b = false <-> sub a b.
Proof.
  unfold exceeds. rewrite negb_false_iff, Z.eqb_eq. split.
  - intros H i Hi. destruct (Z.testbit b i) eqn:Eb; [done|]. assert (0 <= i) by (destruct i; [lia|lia|done]).
    assert (E : Z.testbit (Z.land a (Z.lnot b)) i = Z.testbit 0 i) by (by rewrite H).
    rewrite Z.land_spec, Z.lnot_spec, Hi, Eb, Z.testbit_0_l in E by done. done.
  - intros H. apply Z.bits_inj'. intros i Hi. rewrite Z.land_spec, Z.lnot_spec, Z.testbit_0_l by done.
    specialize (H i). destruct (Z.testbit a i); [|done]. by rewrite H.
Qed.

Lemma sub_refl a : sub a a.
Proof. by intros i. Qed.
Lemma sub_0 a : sub 0 a.
Proof. intros i. by rewrite Z.testbit_0_l. Qed.
Lemma sub_trans a b c : sub a b -> sub b c -> sub a c.
Proof. unfold sub. auto. Qed.
Lemma sub_lor a b c : sub a c -> sub b c -> sub (Z.lor a b) c.
Proof. intros Ha Hb i. rewrite Z.lor_spec, orb_true_iff. intros [H|H]; auto. Qed.
Lemma sub_lor_l a b c : sub a b -> sub a (Z.lor b c).
Proof. intros H i Hi. by rewrite Z.lor_spec, (H i Hi). Qed.
Lemma sub_lor_r a b c : sub a c -> sub a (Z.lor b c).
Proof. intros H i Hi. by rewrite Z.lor_spec, (H i Hi), orb_true_r. Qed.
Lemma sub_land_l a b c : sub a c -> sub (Z.land a b) c.
Proof. intros H i. rewrite Z.land_spec, andb_true_iff. intros [? _]. auto. Qed.
Lemma sub_land_r a b c : sub b c -> sub (Z.land a b) c.
Proof. intros H i. rewrite Z.land_spec, andb_true_iff. intros [_ ?]. auto. Qed.

(** Containment of a set built from others, by its construction. *)
Ltac bitsub :=
  lazymatch goal with
  | H : sub ?a ?b |- sub ?a ?b => exact H
  | |- sub ?a ?a => apply sub_refl
  | |- sub 0 _ => apply sub_0
  | |- sub (Z.lor _ _) _ => apply sub_lor; bitsub
  | |- sub (Z.land _ _) _ => first [apply sub_land_l; bitsub | apply sub_land_r; bitsub]
  | |- sub _ (Z.lor _ _) => first [apply sub_lor_l; bitsub | apply sub_lor_r; bitsub]
  end.

(** Containment of constants is computed. *)
Lemma sub_const a b : exceeds a b = false -> sub a b.
Proof. apply exceeds_sub. Qed.

(** Changing some bits does not change the others. *)
Lemma has_other c L new m : sub new L -> Z.land L m = 0 -> has (Z.lor (Z.land c (Z.lnot L)) new) m = has c m.
Proof.
  intros Hs H. unfold has. do 2 f_equal. apply Z.bits_inj'. intros i Hi. specialize (Hs i).
  assert (E : Z.testbit (Z.land L m) i = Z.testbit 0 i) by (by rewrite H). rewrite Z.land_spec, Z.testbit_0_l in E.
  rewrite !Z.land_spec, Z.lor_spec, Z.land_spec, Z.lnot_spec by done.
  destruct (Z.testbit c i), (Z.testbit L i), (Z.testbit m i), (Z.testbit new i); try done; by specialize (Hs eq_refl).
Qed.

(** ** Chains of checks *)

Lemma guard_0 (c : bool) k : (if c then - FI_ENODATA else k) = 0 <-> c = false /\ k = 0.
Proof. destruct c; [|tauto]. split; [|by intros []]. unfold FI_ENODATA. lia. Qed.

Lemma and_then_0 r k : and_then r k = 0 <-> r = 0 /\ k = 0.
Proof. unfold and_then. destruct (Z.eqb_spec r 0); split; [tauto|tauto|lia|lia]. Qed.

(** Read a check that passed as its conditions. *)
Ltac checks H := repeat first [rewrite guard_0 in H | rewrite and_then_0 in H].
Ltac checked := repeat first [rewrite guard_0 | rewrite and_then_0].

Lemma get_caps_sub i h a X : sub h X -> sub a X -> sub (ofi_get_caps i h a) X.
Proof.
  intros Hh Ha. unfold ofi_get_caps. repeat case_match; bitsub.
Qed.

Lemma or_else_le x y m : x <= m -> y <= m -> or_else x y <= m.
Proof. unfold or_else. by destruct (x =? 0). Qed.

Lemma gt_false a b : (a >? b) = false <-> a <= b.
Proof. rewrite Z.gtb_ltb, Z.ltb_ge. done. Qed.

Lemma has_0 m : has 0 m = false.
Proof. done. Qed.

Lemma has_lor a b c : has a (Z.lor b c) = has a b || has a c.
Proof.
  unfold has. rewrite Z.land_lor_distr_r. destruct (Z.eqb_spec (Z.land a b) 0) as [->|Hb]; [done|].
  destruct (Z.eqb_spec (Z.lor (Z.land a b) (Z.land a c)) 0) as [E|]; [|done]. by apply Z.lor_eq_0_iff in E as [? _].
Qed.

(** ** The structures, one by one

    Each structure that [ofi_alter_info] makes of the provider's passes the
    check again when the hints it was made from did. *)

Lemma mr_mode_recheck version (h : option fi_domain_attr) caps user user' a :
  (forall d, h = Some d -> ofi_check_mr_mode version OFI_MR_BASIC user d = 0) ->
  dma_mr_mode a = alter_mr_mode OFI_MR_BASIC h caps version ->
  ofi_check_mr_mode version OFI_MR_BASIC user' a = 0.
Proof.
  intros Hh Ha. unfold ofi_check_mr_mode. rewrite Ha. unfold alter_mr_mode. change (has OFI_MR_BASIC FI_MR_LOCAL) with false. cbn [andb].
  change (Z.land OFI_MR_BASIC (Z.lnot (Z.lor OFI_MR_BASIC OFI_MR_SCALABLE))) with 0. rewrite has_lor.
  destruct h as [d|]; [|by destruct (version <? FI_VERSION 1 5)].
  specialize (Hh d eq_refl). unfold ofi_check_mr_mode in Hh. change (has OFI_MR_BASIC FI_MR_LOCAL) with false in Hh. cbn [andb] in Hh.
  rewrite Z.land_0_r. destruct (version <? FI_VERSION 1 5).
  - destruct (Z.eqb_spec (dma_mr_mode d) OFI_MR_UNSPEC) as [->|_]; [done|]. destruct (Z.eqb_spec (dma_mr_mode d) OFI_MR_BASIC) as [->|_]; [done|].
    by destruct (dma_mr_mode d =? OFI_MR_SCALABLE).
  - destruct (has (dma_mr_mode d) OFI_MR_BASIC) eqn:Eb; cbn [orb].
    + by rewrite Eb.
    + destruct (has (dma_mr_mode d) OFI_MR_SCALABLE); [|done]. by rewrite orb_true_r in Hh.
Qed.

(** The key and its size in a returned domain structure: the hints' when they
    have a key; else none, with the size that stands for keys kept in the
    address vector when the hints ask for that. *)
Definition dom_keys (h : option fi_domain_attr) (k : option (list Z)) (n : Z) : Prop :=
  (k = None /\ n = match h with Some d => if dma_auth_key_size d =? FI_AV_AUTH_KEY then FI_AV_AUTH_KEY else 0 | None => 0 end) \/
  (exists d, h = Some d /\ is_Some (dma_auth_key d) /\ k = dma_auth_key d /\ n = dma_auth_key_size d).

Definition ep_keys (h : option fi_ep_attr) (k : option (list Z)) (n : Z) : Prop :=
  (k = None /\ n = 0) \/ (exists e, h = Some e /\ is_Some (epa_auth_key e) /\ k = epa_auth_key e /\ n = epa_auth_key_size e).

Lemma domain_keys_recheck version d k n a :
  check_domain_auth_key version rds_domain_attr d = true -> dom_keys (Some d) k n ->
  dma_auth_key a = k -> dma_auth_key_size a = n -> check_domain_auth_key version rds_domain_attr a = true.
Proof.
  unfold check_domain_auth_key. intros Hd Hk -> ->. destruct Hk as [[-> ->]|(d' & [= <-] & [x Hx] & -> & ->)]; [|done].
  destruct (Z.eqb_spec (dma_auth_key_size d) FI_AV_AUTH_KEY) as [E|]; [|done]. rewrite E in Hd. rewrite Z.eqb_refl. by destruct (version >=? FI_VERSION 1 20).
Qed.

(** What the check reads of a domain structure besides the key. *)
Definition dom_view (a : fi_domain_attr) :=
  ((dma_threading a, dma_progress a, dma_resource_mgmt a, dma_av_type a, dma_mr_mode a, dma_caps a, dma_mode a),
   (dma_cq_data_size a, dma_cntr_cnt a, dma_mr_iov_limit a, dma_max_err_data a, dma_mr_cnt a, dma_max_ep_auth_key a,
    dma_max_cntr_value a, dma_max_err_cntr_value a)).

Definition hint_thread (h : option fi_domain_attr) : fi_threading :=
  match h with Some d => match dma_threading d with FI_THREAD_UNSPEC => FI_THREAD_SAFE | t => t end | None => FI_THREAD_SAFE end.
Definition hint_progress (h : option fi_domain_attr) : fi_progress :=
  match h with Some d => match dma_progress d with FI_PROGRESS_UNSPEC => FI_PROGRESS_MANUAL | p => p end | None => FI_PROGRESS_MANUAL end.
Definition hint_av_type (h : option fi_domain_attr) : fi_av_type :=
  match h with Some d => match dma_av_type d with FI_AV_UNSPEC => FI_AV_UNSPEC | t => t end | None => FI_AV_UNSPEC end.

Lemma alter_domain_view h caps version :
  dom_view (fi_alter_domain_attr rds_domain_attr h caps version) =
    ((hint_thread h, hint_progress h, FI_RM_ENABLED, hint_av_type h, alter_mr_mode OFI_MR_BASIC h caps version,
      ofi_get_caps caps (match h with Some d => dma_caps d | None => 0 end) RDS_DOMAIN_CAPS, 0),
     (8, 0, 0, 0, 65536, match h with Some d => or_else (dma_max_ep_auth_key d) 0 | None => 0 end, 2 ^ 64 - 1, 2 ^ 64 - 1)).
Proof. destruct h; reflexivity. Qed.

Lemma domain_recheck version (h : option fi_domain_attr) caps user user' a :
  (forall d, h = Some d -> ofi_check_domain_attr version rds_domain_attr user d = 0) ->
  dom_view a = dom_view (fi_alter_domain_attr rds_domain_attr h caps version) -> dom_keys h (dma_auth_key a) (dma_auth_key_size a) ->
  ofi_check_domain_attr version rds_domain_attr user' a = 0.
Proof.
  intros Hh Ha Hk. rewrite alter_domain_view in Ha. injection Ha as E1 E2 E3 E4 E5 E6 E7 E8 E9 E10 E11 E12 E13 E14 E15.
  assert (Hm : ofi_check_mr_mode version OFI_MR_BASIC user' a = 0).
  { apply (mr_mode_recheck version h caps user); [|done].
    intros d ->. specialize (Hh d eq_refl). unfold ofi_check_domain_attr in Hh. checks Hh.
    destruct Hh as (_ & _ & _ & _ & _ & H & _). apply negb_false_iff, Z.eqb_eq in H. exact H. }
  unfold ofi_check_domain_attr. change (dma_mr_mode rds_domain_attr) with OFI_MR_BASIC. rewrite Hm, E1, E2, E3, E4, E6, E7, E8, E9, E10, E11, E12, E13, E14, E15.
  clear -Hh Hk. assert (Hc : (forall d, h = Some d -> sub (dma_caps d) RDS_DOMAIN_CAPS) ->
    exceeds (ofi_get_caps caps (match h with Some d => dma_caps d | None => 0 end) RDS_DOMAIN_CAPS) RDS_DOMAIN_CAPS = false).
  { intros H. apply exceeds_sub, get_caps_sub; [|apply sub_refl]. destruct h as [d|]; [by apply H|apply sub_0]. }
  destruct h as [d|].
  2: { checked. split_and!; try done. destruct (version <? FI_VERSION 1 5); [done|]. checked. split_and!; try done; [by apply Hc|..].
       - unfold check_domain_auth_key. by destruct Hk as [[-> ->]|(? & ? & _)].
       - by rewrite andb_false_r.
       - by rewrite andb_false_r.
       - by rewrite andb_false_r. }
  specialize (Hh d eq_refl). unfold ofi_check_domain_attr in Hh. checks Hh. destruct Hh as (H1 & H2 & _ & _ & _ & _ & H6).
  checked. split_and!; try done.
  - revert H1. cbn. by destruct (dma_threading d).
  - revert H2. cbn. by destruct (dma_progress d).
  - destruct (version <? FI_VERSION 1 5); [done|]. checks H6. destruct H6 as (_ & _ & H7%exceeds_sub & _ & _ & _ & H8 & H9 & _).
    checked. split_and!; try done.
    + apply Hc. by intros d' [= <-].
    + apply negb_false_iff. apply negb_false_iff in H8. by eapply domain_keys_recheck.
    + revert H9. destruct (version >=? FI_VERSION 1 20); [|done]. cbn. rewrite !gt_false. intros. by apply or_else_le.
    + by rewrite andb_false_r.
    + by rewrite andb_false_r.
Qed.

Lemma ctx_cnt_recheck cnt : ctx_cnt_ok cnt 1 0 1 = true -> ctx_cnt_ok (or_else cnt 1) 1 0 1 = true.
Proof. unfold or_else. by destruct (Z.eqb_spec cnt 0) as [->|]. Qed.

(** The hints bound the ordered sizes they ask for, or ask for capabilities
    without which these sizes mean nothing. *)
Definition order_sizes_ok (hints : option fi_info) : Prop :=
  match hints with
  | Some h => in_caps h = 0 -> forall e, in_ep_attr h = Some e ->
      epa_max_order_raw_size e <= RDS_KERNEL_SEG_MAX /\ epa_max_order_war_size e <= RDS_KERNEL_SEG_MAX /\
      epa_max_order_waw_size e <= RDS_KERNEL_SEG_MAX
  | None => True
  end.

Lemma exceeds_ignored a ign b : exceeds (Z.land a (Z.lnot ign)) b = false <-> sub a (Z.lor b ign).
Proof.
  rewrite exceeds_sub. split; intros H i Hi.
  - rewrite Z.lor_spec. destruct (Z.testbit ign i) eqn:E; [apply orb_true_r|]. rewrite H; [done|].
    assert (0 <= i) by (destruct i; [lia|lia|done]). by rewrite Z.land_spec, Z.lnot_spec, Hi, E.
  - assert (0 <= i) by (destruct i; [lia|lia|by rewrite Z.testbit_neg_r in Hi]).
    rewrite Z.land_spec, Z.lnot_spec, andb_true_iff in Hi by done. destruct Hi as [Hi Hn]. specialize (H i Hi). rewrite Z.lor_spec in H.
    by destruct (Z.testbit ign i), (Z.testbit b i).
Qed.

Lemma rx_recheck (h : option fi_rx_attr) caps mode mode' :
  (forall a, h = Some a -> ofi_check_rx_attr rds_rx_attr a mode = 0) ->
  ofi_check_rx_attr rds_rx_attr (fi_alter_rx_attr rds_rx_attr h caps) mode' = 0.
Proof.
  intros Hh. unfold ofi_check_rx_attr. change (rxa_mode rds_rx_attr) with 0. rewrite Z.land_0_r. destruct h as [a|].
  - specialize (Hh a eq_refl). unfold ofi_check_rx_attr in Hh. checks Hh. destruct Hh as (H1%exceeds_ignored & _ & H2 & _ & _ & _ & H3 & H4 & _).
    rewrite gt_false in H3, H4. checked. split_and!; try done; [|rewrite gt_false; by apply or_else_le..].
    apply exceeds_ignored. apply get_caps_sub; [done|apply sub_lor_l, sub_refl].
  - checked. split_and!; try done. apply exceeds_ignored. apply get_caps_sub; [apply sub_0|apply sub_lor_l, sub_refl].
Qed.

Lemma tx_recheck (h : option fi_tx_attr) caps mode mode' :
  (forall a, h = Some a -> ofi_check_tx_attr rds_tx_attr a mode = 0) ->
  ofi_check_tx_attr rds_tx_attr (fi_alter_tx_attr rds_tx_attr h caps) mode' = 0.
Proof.
  intros Hh. unfold ofi_check_tx_attr. change (txa_mode rds_tx_attr) with 0. rewrite Z.land_0_r. destruct h as [a|].
  - specialize (Hh a eq_refl). unfold ofi_check_tx_attr in Hh. checks Hh. destruct Hh as (H1%exceeds_ignored & _ & H2 & _ & _ & H3 & H4 & H5 & H6 & _).
    rewrite gt_false in H3, H4, H5, H6. checked. split_and!; try done; [|rewrite gt_false; by apply or_else_le..].
    apply exceeds_ignored. apply get_caps_sub; [done|apply sub_lor_l, sub_refl].
  - checked. split_and!; try done. apply exceeds_ignored. apply get_caps_sub; [apply sub_0|apply sub_lor_l, sub_refl].
Qed.

(** ** A whole entry *)

(** The capabilities [ofi_alter_info] settles on; the registration mode of
    the provider never costs any. *)
Lemma info_caps_rds hints version :
  ofi_get_info_caps rds_info hints version =
    match hints with Some h => ofi_get_caps (in_caps rds_info) (in_caps h) (in_caps rds_info) | None => in_caps rds_info end.
Proof. destruct hints as [h|]; [|done]. unfold ofi_get_info_caps. change (has (dma_mr_mode (in_domain_attr rds_info)) OFI_MR_MODE_RMA_TARGET) with false. by rewrite orb_true_r. Qed.

Definition COMM_CAPS : Z := Z.lor FI_LOCAL_COMM FI_REMOTE_COMM.

(** How the capabilities of a returned entry come about: as settled, or with
    the reach of an interface in place of the provider's. *)
Definition caps_from (hints : option fi_info) (base caps : Z) : Prop :=
  caps = base \/
  exists comm, sub comm COMM_CAPS /\ caps = Z.lor (Z.land base (Z.lnot COMM_CAPS)) comm /\
    forall h, hints = Some h -> Z.land (in_caps h) comm = Z.land (in_caps h) COMM_CAPS.

(** An entry that [rds_getinfo] makes of the template for the hints. *)
Record made_from (version : Z) (hints : option fi_info) (i : prov_info) : Prop := {
  mf_mode : in_mode i = 0;
  mf_caps : caps_from hints (ofi_get_info_caps rds_info hints version) (in_caps i);
  mf_tx : in_tx_attr i = fi_alter_tx_attr rds_tx_attr (hint_tx hints) (ofi_get_info_caps rds_info hints version);
  mf_rx : in_rx_attr i = fi_alter_rx_attr rds_rx_attr (hint_rx hints) (ofi_get_info_caps rds_info hints version);
  mf_ep : exists k n, ep_keys (hint_ep hints) k n /\
    in_ep_attr i = fi_alter_ep_attr rds_ep_attr (hint_ep hints) (ofi_get_info_caps rds_info hints version)
      <| epa_auth_key := k |> <| epa_auth_key_size := n |>;
  mf_keys : dom_keys (hint_domain hints) (dma_auth_key (in_domain_attr i)) (dma_auth_key_size (in_domain_attr i));
  mf_dom : dom_view (in_domain_attr i) =
    dom_view (fi_alter_domain_attr rds_domain_attr (hint_domain hints) (ofi_get_info_caps rds_info hints version) version);
  mf_fabric : fba_prov_version (in_fabric_attr i) = OFI_VERSION_DEF_PROV /\ 0 <= fba_api_version (in_fabric_attr i)
}.

Lemma caps_from_has hints base caps m : caps_from hints base caps -> Z.land COMM_CAPS m = 0 -> has caps m = has base m.
Proof. intros [->|(comm & Hs & -> & _)] Hm; [done|]. by apply has_other. Qed.

Lemma caps_from_sub hints base caps X : caps_from hints base caps -> sub base X -> sub COMM_CAPS X -> sub caps X.
Proof. intros [->|(comm & Hs & -> & _)] Hb Hc; [done|]. apply sub_lor; [by apply sub_land_l|by eapply sub_trans]. Qed.

Lemma get_caps_sub_hint i h a X :
  h <> 0 -> sub h X -> sub OFI_SECONDARY_CAPS X -> sub OFI_MSG_DIRECTION_CAPS X -> sub OFI_RMA_DIRECTION_CAPS X -> sub (ofi_get_caps i h a) X.
Proof.
  intros Hh H1 H2 H3 H4. unfold ofi_get_caps. rewrite (proj2 (Z.eqb_neq _ _) Hh). repeat case_match; bitsub.
Qed.

(** Two sets of bits have nothing in common. *)
Definition disjoint (a b : Z) : Prop := forall i, Z.testbit a i = true -> Z.testbit b i = true -> False.

Lemma has_disjoint a b : has a b = false <-> disjoint a b.
Proof.
  unfold has. rewrite negb_false_iff, Z.eqb_eq. split.
  - intros H i Ha Hb. assert (E : Z.testbit (Z.land a b) i = Z.testbit 0 i) by (by rewrite H). by rewrite Z.land_spec, Ha, Hb, Z.testbit_0_l in E.
  - intros H. apply Z.bits_inj'. intros i Hi. rewrite Z.land_spec, Z.testbit_0_l. specialize (H i).
    destruct (Z.testbit a i), (Z.testbit b i); try done. by destruct H.
Qed.

Lemma disjoint_sub a b c : sub a b -> disjoint b c -> disjoint a c.
Proof. intros Hs Hd i Ha. by apply Hd, Hs. Qed.

Lemma disjoint_lor a b c : disjoint a c -> disjoint b c -> disjoint (Z.lor a b) c.
Proof. intros Ha Hb i. rewrite Z.lor_spec, orb_true_iff. intros [H|H]; [by apply Ha|by apply Hb]. Qed.

(** Hints that ask for capabilities, but for none of [m], get none of [m],
    unless these are secondary or directions, which are thrown in. *)
Lemma info_caps_has h version m :
  in_caps h <> 0 -> has (bits [OFI_SECONDARY_CAPS; OFI_MSG_DIRECTION_CAPS; OFI_RMA_DIRECTION_CAPS]) m = false ->
  has (in_caps h) m = false -> has (ofi_get_info_caps rds_info (Some h) version) m = false.
Proof.
  intros Hh Hm%has_disjoint Hd%has_disjoint. rewrite info_caps_rds. apply has_disjoint.
  pose proof (disjoint_lor _ _ _ Hd Hm) as H. cbn [bits foldr] in H.
  eapply disjoint_sub; [|exact H]. apply get_caps_sub_hint; [done|..]; bitsub.
Qed.

(** ** The check repeated *)

(** What hints that pass the check satisfy. *)
Record hints_ok (version : Z) (h : fi_info) : Prop := {
  ho_caps : sub (in_caps h) (in_caps rds_info);
  ho_dom : forall d, in_domain_attr h = Some d -> ofi_check_domain_attr version rds_domain_attr h d = 0;
  ho_ep : forall e, in_ep_attr h = Some e -> ofi_check_ep_attr version rds_info h e = 0;
  ho_rx : forall a, in_rx_attr h = Some a -> ofi_check_rx_attr rds_rx_attr a (in_mode h) = 0;
  ho_tx : forall a, in_tx_attr h = Some a -> ofi_check_tx_attr rds_tx_attr a (in_mode h) = 0 }.

Lemma check_opt_0 {A} (check : A -> Z) o : check_opt check o = 0 <-> forall a, o = Some a -> check a = 0.
Proof. destruct o as [a|]; cbn; split; [by intros H a' [= <-]|auto|done|done]. Qed.

Lemma check_info_hints version h : ofi_check_info rds_info version (Some h) = 0 -> hints_ok version h.
Proof.
  unfold ofi_check_info. intros H. checks H. rewrite !check_opt_0 in H. destruct H as (_ & Hc%exceeds_sub & _ & _ & _ & Hd & He & Hr & Ht).
  by split.
Qed.

(** The authentication keys live in the address vector. *)
Definition av_keys (version : Z) (h : option fi_domain_attr) : bool :=
  match h with Some d => (version >=? FI_VERSION 1 20) && (dma_auth_key_size d =? FI_AV_AUTH_KEY) | None => false end.

Lemma dom_keys_av version h k n :
  dom_keys h k n -> (version >=? FI_VERSION 1 20) && (n =? FI_AV_AUTH_KEY) = true -> av_keys version h = true.
Proof.
  unfold av_keys. intros Hk [-> Hn%Z.eqb_eq]%andb_true_iff. destruct Hk as [[_ E]|(d & -> & _ & _ & E)]; subst n; [|by apply Z.eqb_eq].
  destruct h as [d|]; [|done]. by destruct (dma_auth_key_size d =? FI_AV_AUTH_KEY).
Qed.

Lemma ep_keys_recheck version h k n :
  (forall e, in_ep_attr h = Some e -> ofi_check_ep_attr version rds_info h e = 0) -> ep_keys (in_ep_attr h) k n ->
  n = 0 /\ (av_keys version (in_domain_attr h) = true -> k = None).
Proof.
  intros He [[-> ->]|(e & Ee & [x Hx] & -> & ->)]; [done|]. specialize (He e Ee). unfold ofi_check_ep_attr in He. checks He.
  change (epa_auth_key_size (in_ep_attr rds_info)) with 0 in He. destruct He as (_ & _ & _ & _ & _ & _ & _ & Ha & _).
  fold (av_keys version (in_domain_attr h)) in Ha. rewrite Hx in Ha. destruct (av_keys version (in_domain_attr h)); [done|].
  split; [|done]. by destruct (Z.eqb_spec (epa_auth_key_size e) 0).
Qed.

Lemma order_sizes_hints version h e :
  hints_ok version h -> order_sizes_ok (Some h) -> in_ep_attr h = Some e ->
  has (ofi_get_info_caps rds_info (Some h) version) (Z.lor FI_RMA FI_ATOMIC) = true ->
  epa_max_order_raw_size e <= RDS_KERNEL_SEG_MAX /\ epa_max_order_war_size e <= RDS_KERNEL_SEG_MAX /\ epa_max_order_waw_size e <= RDS_KERNEL_SEG_MAX.
Proof.
  intros Hh Ho Ee Hc. destruct (Z.eq_dec (in_caps h) 0) as [E|Hn]; [by apply Ho|].
  destruct (has (in_caps h) (Z.lor FI_RMA FI_ATOMIC)) eqn:Eh; [|by rewrite (info_caps_has h version (Z.lor FI_RMA FI_ATOMIC) Hn eq_refl Eh) in Hc].
  pose proof (ho_ep _ _ Hh e Ee) as He. unfold ofi_check_ep_attr in He. checks He. destruct He as (_ & _ & _ & _ & _ & _ & Hs & _).
  rewrite Eh in Hs. cbn [andb] in Hs. rewrite !orb_false_iff, !gt_false in Hs. tauto.
Qed.

(** The hints themselves, or none, as what a caller may ask. *)
Definition asked_ok (version : Z) (hints : option fi_info) : Prop := match hints with Some h => hints_ok version h | None => True end.

Lemma ep_check_intro version (u : fi_info) a :
  epa_type a = FI_EP_RDM -> epa_protocol a = 0 -> epa_protocol_version a = 1 -> epa_max_msg_size a = RDS_MAX_MSG_SIZE ->
  epa_mem_tag_format a = FI_TAG_GENERIC -> ctx_cnt_ok (epa_tx_ctx_cnt a) 1 0 1 = true -> ctx_cnt_ok (epa_rx_ctx_cnt a) 1 0 1 = true ->
  (has (in_caps u) (Z.lor FI_RMA FI_ATOMIC) = true -> epa_max_order_raw_size a <= RDS_KERNEL_SEG_MAX /\
     epa_max_order_war_size a <= RDS_KERNEL_SEG_MAX /\ epa_max_order_waw_size a <= RDS_KERNEL_SEG_MAX) ->
  epa_auth_key_size a = 0 -> (av_keys version (in_domain_attr u) = true -> epa_auth_key a = None) ->
  ofi_check_ep_attr version rds_info u a = 0.
Proof.
  intros E1 E2 E3 E4 E5 Ht Hr Hs Ek Hav. unfold ofi_check_ep_attr, ofi_check_ep_type. fold (av_keys version (in_domain_attr u)).
  rewrite E1, E2, E3, E4, E5, Ek. checked.
  change (dma_max_ep_tx_ctx _) with 1. change (dma_max_ep_rx_ctx _) with 1. change (dma_max_ep_stx_ctx _) with 0. change (dma_max_ep_srx_ctx _) with 0.
  change (epa_tx_ctx_cnt (in_ep_attr rds_info)) with 1. change (epa_rx_ctx_cnt (in_ep_attr rds_info)) with 1. rewrite Ht, Hr.
  split_and!; try done.
  - destruct (has (in_caps u) _); [|done]. cbn [andb]. destruct (Hs eq_refl) as (H1 & H2 & H3). by rewrite !orb_false_iff, !gt_false.
  - destruct (av_keys version (in_domain_attr u)); [|done]. by rewrite Hav.
  - by rewrite Z.gtb_ltb, Z.ltb_irrefl, andb_false_r.
Qed.

Lemma ep_recheck version hints i :
  made_from version hints i -> asked_ok version hints -> order_sizes_ok hints ->
  ofi_check_ep_attr version rds_info (as_user i) (in_ep_attr i) = 0.
Proof.
  intros [_ Hcaps _ _ (k & n & Hk & ->) Hkd _ _] Hh Ho.
  assert (Hc : has (in_caps i) (Z.lor FI_RMA FI_ATOMIC) = has (ofi_get_info_caps rds_info hints version) (Z.lor FI_RMA FI_ATOMIC))
    by (by apply (caps_from_has _ _ _ _ Hcaps)).
  assert (Hav : av_keys version (in_domain_attr (as_user i)) = true -> av_keys version (hint_domain hints) = true).
  { intros H. by eapply dom_keys_av. }
  destruct hints as [h|].
  2: { destruct Hk as [[-> ->]|(? & ? & _)]; [|done]. by apply ep_check_intro. }
  pose proof (ep_keys_recheck version h k n (ho_ep _ _ Hh) Hk) as [-> Hav2]. cbn [hint_ep mbind option_bind].
  destruct (in_ep_attr h) as [e|] eqn:Ee; [|apply ep_check_intro; try done; intros H; by apply Hav2, Hav].
  pose proof (ho_ep _ _ Hh e Ee) as He. unfold ofi_check_ep_attr in He. checks He. destruct He as (_ & _ & _ & _ & Ht & Hr & _).
  apply negb_false_iff in Ht, Hr. unfold fi_alter_ep_attr. destruct (has (ofi_get_info_caps _ _ _) _) eqn:Eh.
  - destruct (order_sizes_hints version h e Hh Ho Ee Eh) as (S1 & S2 & S3).
    apply ep_check_intro; try done; [by apply ctx_cnt_recheck..| |intros H; by apply Hav2, Hav].
    intros _. split_and!; by apply or_else_le.
  - apply ep_check_intro; try done; [by apply ctx_cnt_recheck..|intros H; by apply Hav2, Hav].
Qed.

Lemma check_info_full version i :
  ofi_check_info rds_info version (Some (as_user i)) =
    and_then (ofi_check_ep_type rds_ep_attr (in_ep_attr i))
    (if exceeds (in_caps i) (in_caps rds_info) then - FI_ENODATA
     else if negb (Z.land (in_mode i) (ofi_mr_get_prov_mode version (as_user i) rds_info) =? ofi_mr_get_prov_mode version (as_user i) rds_info)
     then - FI_ENODATA
     else if negb (ofi_valid_addr_format FI_SOCKADDR_IN (in_addr_format i)) then - FI_ENODATA
     else
       and_then (ofi_check_fabric_attr rds_fabric_attr (in_fabric_attr i))
       (and_then (ofi_check_domain_attr version rds_domain_attr (as_user i) (in_domain_attr i))
       (and_then (ofi_check_ep_attr version rds_info (as_user i) (in_ep_attr i))
       (and_then (ofi_check_rx_attr rds_rx_attr (in_rx_attr i) (in_mode i))
       (ofi_check_tx_attr rds_tx_attr (in_tx_attr i) (in_mode i)))))).
Proof. reflexivity. Qed.

(** The check of a returned entry comes down to its address format. *)
Lemma made_from_check version hints i :
  made_from version hints i -> asked_ok version hints -> order_sizes_ok hints ->
  ofi_prov_check_info rds_util_prov version (Some (as_user i)) =
    if ofi_valid_addr_format FI_SOCKADDR_IN (in_addr_format i) then 0 else - FI_ENODATA.
Proof.
  intros Hm Hh Ho. pose proof (ep_recheck version hints i Hm Hh Ho) as He. destruct Hm as [Emode Hcaps Etx Erx _ Hkd Ed (F1 & F2)].
  assert (Hsub : sub (ofi_get_info_caps rds_info hints version) (in_caps rds_info)).
  { rewrite info_caps_rds. destruct hints as [h|]; [|apply sub_refl]. apply get_caps_sub; [apply (ho_caps _ _ Hh)|apply sub_refl]. }
  assert (Hc : exceeds (in_caps i) (in_caps rds_info) = false) 
    by (apply exceeds_sub, (caps_from_sub _ _ _ _ Hcaps Hsub), sub_const; reflexivity).
  assert (Hd : ofi_check_domain_attr version rds_domain_attr (as_user i) (in_domain_attr i) = 0).
  { destruct hints as [h|]; [exact (domain_recheck _ _ _ _ _ _ (ho_dom _ _ Hh) Ed Hkd)|]. apply (domain_recheck version None _ (as_user i) _ _ (fun d E => ltac:(discriminate E)) Ed Hkd). }
  assert (Hr : ofi_check_rx_attr rds_rx_attr (in_rx_attr i) 0 = 0).
  { rewrite Erx. destruct hints as [h|]; [exact (rx_recheck _ _ _ _ (ho_rx _ _ Hh))|by apply (rx_recheck None _ 0)]. }
  assert (Ht : ofi_check_tx_attr rds_tx_attr (in_tx_attr i) 0 = 0).
  { rewrite Etx. destruct hints as [h|]; [exact (tx_recheck _ _ _ _ (ho_tx _ _ Hh))|by apply (tx_recheck None _ 0)]. }
  assert (Hp : ofi_mr_get_prov_mode version (as_user i) rds_info = 0) by (unfold ofi_mr_get_prov_mode; by case_match).
  assert (Hf : ofi_check_fabric_attr rds_fabric_attr (in_fabric_attr i) = 0) by (unfold ofi_check_fabric_attr; rewrite F1; cbn; by rewrite (proj2 (Z.ltb_ge _ _) F2)).
  pose proof He as Hty. unfold ofi_check_ep_attr in Hty. apply and_then_0 in Hty as [Hty _]. change (in_ep_attr rds_info) with rds_ep_attr in Hty.
  assert (E : ofi_check_info rds_info version (Some (as_user i)) = if negb (ofi_valid_addr_format FI_SOCKADDR_IN (in_addr_format i)) then - FI_ENODATA else 0).
  { rewrite check_info_full. unfold and_then. rewrite Hty, Hc, Hp, Emode, Hf, Hd, He, Hr, Ht. done. }
  unfold ofi_prov_check_info, rds_util_prov. cbn [existsb]. rewrite E. by destruct (ofi_valid_addr_format _ _).
Qed.

(** ** What discovery returns *)

Lemma alter_ep_keys h caps :
  fi_alter_ep_attr rds_ep_attr h caps = fi_alter_ep_attr rds_ep_attr h caps <| epa_auth_key := None |> <| epa_auth_key_size := 0 |>.
Proof. unfold fi_alter_ep_attr. destruct h as [e|]; [|done]. by destruct (has caps _). Qed.

Lemma alter_domain_keys h caps version :
  dma_auth_key (fi_alter_domain_attr rds_domain_attr h caps version) = None /\
  dma_auth_key_size (fi_alter_domain_attr rds_domain_attr h caps version) =
    match h with Some d => if dma_auth_key_size d =? FI_AV_AUTH_KEY then FI_AV_AUTH_KEY else 0 | None => 0 end.
Proof. destruct h; split; reflexivity. Qed.

Lemma alter_made_from version hints : made_from version hints (ofi_alter_info rds_info hints version).
Proof.
  unfold ofi_alter_info. change (has (dma_mr_mode (in_domain_attr _)) FI_MR_LOCAL) with false. cbn [andb].
  split; [by destruct hints|destruct hints; by left|by destruct hints|by destruct hints| | | |by destruct hints].
  - exists None, 0. split; [by left|]. destruct hints; exact (alter_ep_keys _ _).
  - left. destruct hints; exact (alter_domain_keys _ _ _).
  - destruct hints; reflexivity.
Qed.

(** Steps that change nothing the check looks at. *)
Lemma made_from_addrs version hints i src dest fmt :
  made_from version hints i -> made_from version hints (i <| in_src_addr := src |> <| in_dest_addr := dest |> <| in_addr_format := fmt |>).
Proof. intros [? ? ? ? ? ? ? ?]. by split. Qed.

Lemma made_from_names version hints i fname dname :
  made_from version hints i ->
  made_from version hints (i <| in_fabric_attr ::= fun a => a <| fba_name := fname |> |> <| in_domain_attr ::= fun a => a <| dma_name := dname |> |>).
Proof. intros [? ? ? ? ? ? ? ?]. by split. Qed.

Section Discovery.
Context {K : Type} `{!Kernel K} {NE : NetEnv}.

(** Whatever the environment does, the call is defined and its result is
    one of [P]. *)
Definition ensures {A} (m : M K A) (P : A -> Prop) : Prop := forall k, wp m (fun r _ => P r) k.

Lemma ens_ret {A} (a : A) (P : A -> Prop) : P a -> ensures (ret a) P.
Proof. intros H k. by apply wp_ret. Qed.

Lemma ens_bind {A B} (m : M K A) (f : A -> M K B) P Q : ensures m P -> (forall a, P a -> ensures (f a) Q) -> ensures (bind m f) Q.
Proof. intros Hm Hf k. apply wp_bind. eapply wp_mono; [apply Hm|]. cbn beta. intros a k' Ha. by apply Hf. Qed.

Lemma ens_malloc n : ensures (k_malloc (K := K) n) (fun _ => True).
Proof. intros k. unfold wp, k_malloc. by destruct (k_alloc n k). Qed.

Lemma ens_mono {A} (m : M K A) (P Q : A -> Prop) : ensures m P -> (forall a, P a -> Q a) -> ensures m Q.
Proof. intros Hm HQ k. eapply wp_mono; [apply Hm|]. auto. Qed.

(** A fallible step: an error is negative, a value is one of [P]. *)
Definition good {A} (P : A -> Prop) (r : Z + A) : Prop := match r with inl e => e < 0 | inr a => P a end.

Lemma ens_ebind {A B} (m : M K (Z + A)) (f : A -> M K (Z + B)) P Q :
  ensures m (good P) -> (forall a, P a -> ensures (f a) (good Q)) -> ensures (ebind m f) (good Q).
Proof. intros Hm Hf. eapply ens_bind; [exact Hm|]. intros [e|a] H; [by apply ens_ret|by apply Hf]. Qed.

Lemma ens_malloc_bind {B} n (f : bool -> M K B) Q : (forall b, ensures (f b) Q) -> ensures (bind (k_malloc n) f) Q.
Proof. intros Hf. eapply ens_bind; [apply ens_malloc|]. intros b _. apply Hf. Qed.

Lemma dupinfo_spec i : ensures (fi_dupinfo (K := K) i) (fun r => r = None \/ r = Some i).
Proof.
  unfold fi_dupinfo. apply (ens_bind _ _ (fun _ => True)); [|intros [] _; apply ens_ret; auto].
  generalize (dup_sizes i). intros l. induction l as [|n l IH]; [by apply ens_ret|]. apply ens_malloc_bind. intros []; [done|by apply ens_ret].
Qed.

Section Hints.
Variables (version : Z) (hints : option fi_info).

(** An entry before the interfaces are looked at. *)
Definition fresh (i : prov_info) : Prop := made_from version hints i /\ in_caps i = ofi_get_info_caps rds_info hints version.

Lemma check_dup_spec :
  ensures (ofi_prov_check_dup_info (K := K) rds_util_prov version hints)
    (good (fun l => l = [rds_info] /\ ofi_check_info rds_info version hints = 0)).
Proof.
  unfold ofi_prov_check_dup_info, rds_util_prov, check_dup_loop. destruct (Z.eqb_spec (ofi_check_info rds_info version hints) 0) as [E|]; cbn [negb].
  - eapply ens_bind; [|intros r H; apply ens_ret; exact H]. eapply ens_bind; [apply dupinfo_spec|]. by intros a [-> | ->]; apply ens_ret.
  - eapply (ens_bind _ _ (fun r => r = inr [])); [by apply ens_ret|]. intros r ->. by apply ens_ret.
Qed.

Lemma fresh_addrs i src dest fmt : fresh i -> fresh (i <| in_src_addr := src |> <| in_dest_addr := dest |> <| in_addr_format := fmt |>).
Proof. intros [Hm Hc]. split; [by apply made_from_addrs|done]. Qed.

Lemma set_src_spec i : fresh i -> ensures (set_src (K := K) i hints) (good fresh).
Proof.
  intros Hi. unfold set_src. destruct hints as [h|]; [|by apply ens_ret]. destruct (in_src_addr h) as [a|]; [|by apply ens_ret].
  apply ens_malloc_bind. intros []; apply ens_ret; [|done]. exact (fresh_addrs i (Some a) (in_dest_addr i) (in_addr_format h) Hi).
Qed.

Lemma set_dest_spec i : fresh i -> ensures (set_dest (K := K) i hints) (good fresh).
Proof.
  intros Hi. unfold set_dest. destruct hints as [h|]; [|by apply ens_ret]. destruct (in_dest_addr h) as [a|]; [|by apply ens_ret].
  apply ens_malloc_bind. intros []; apply ens_ret; [|done]. exact (fresh_addrs i (in_src_addr i) (Some a) (in_addr_format h) Hi).
Qed.

(** Addresses: a failed lookup is an error code. *)
Lemma get_addr_spec fmt flags node service :
  ensures (ofi_get_addr (K := K) fmt flags node service) (fun r => let '(st, _, _) := r in st <= 0).
Proof.
  assert (Hl : forall family, ensures (fi_get_sockaddr (K := K) family flags node service) (good (fun _ => True))).
  { intros family. unfold fi_get_sockaddr. destruct (ne_getaddrinfo _ _ _ _); [|by apply ens_ret].
    apply ens_malloc_bind. intros []; by apply ens_ret. }
  unfold ofi_get_addr. destruct fmt; try (by apply ens_ret);
    try (eapply ens_bind; [apply Hl|]; intros [e|a] Ha; apply ens_ret; cbn in *; lia).
  unfold ofi_get_str_addr. eapply (ens_bind _ _ (fun _ => True)); [|intros; by apply ens_ret].
  destruct node; [|by apply ens_ret]. destruct (strstr _ _); [|by apply ens_ret]. apply ens_malloc_bind. intros; by apply ens_ret.
Qed.

Lemma resolve_spec i flags node service set :
  fresh i -> (forall a fmt, fresh (set i a <| in_addr_format := fmt |>)) ->
  ensures (resolve (K := K) i flags node service set) (good fresh).
Proof.
  intros Hi Hs. unfold resolve. eapply ens_bind; [apply get_addr_spec|]. intros [[st a] fmt] Hst. apply ens_ret.
  destruct (Z.eqb_spec st 0); cbn; [apply Hs|lia].
Qed.

Lemma getinfo_addrs_spec flags node service i :
  fresh i -> ensures (getinfo_addrs (K := K) flags node service hints i) (good fresh).
Proof.
  intros Hi. unfold getinfo_addrs. apply (ens_ebind _ _ fresh).
  - destruct (has flags FI_SOURCE); [|destruct (negb _ || negb _)].
    + apply (ens_ebind _ _ fresh); [|intros; by apply set_dest_spec]. apply resolve_spec; [done|]. intros a fmt. exact (fresh_addrs i a (in_dest_addr i) fmt Hi).
    + apply (ens_ebind _ _ fresh); [|intros; by apply set_src_spec]. apply resolve_spec; [done|]. intros a fmt. exact (fresh_addrs i (in_src_addr i) a fmt Hi).
    + apply (ens_ebind _ _ fresh); [by apply set_src_spec|intros; by apply set_dest_spec].
  - intros j Hj. destruct (in_dest_addr j) as [dest|] eqn:Ed; [|by apply ens_ret]. destruct (in_src_addr j); [by apply ens_ret|].
    apply (ens_bind _ _ (fun _ => True)).
    + unfold ofi_get_src_addr, fi_get_src_sockaddr. destruct (is_ipaddr _); [|by apply ens_ret]. cbn zeta.
      destruct (negb (ne_socket _ =? 0)); [by apply ens_ret|]. destruct (negb (ne_connect _ =? 0)); [by apply ens_ret|].
      apply ens_malloc_bind. intros []; cbn [negb]; [|by apply ens_ret]. destruct (ne_getsockname dest); [by apply ens_ret|].
      repeat case_match; by apply ens_ret.
    + intros [[st a] fmt] _. apply ens_ret. exact (fresh_addrs j a (in_dest_addr j) fmt Hj).
Qed.

Lemma lookup_spec opened i : fresh i -> fresh (util_lookup_existing_fabric_domain opened hints i).
Proof.
  intros [[? ? ? ? ? ? ? ?] ?]. unfold util_lookup_existing_fabric_domain. destruct (List.find _ opened) as [f|]; [|done].
  destruct (List.find _ _) as [d|]; by (split; [split|]).
Qed.

Lemma dup_key_spec key : ensures (dup_key (K := K) key) (good (fun k => k = key)).
Proof. destruct key as [l|]; [|by apply ens_ret]. apply ens_malloc_bind. intros []; by apply ens_ret. Qed.

Lemma fresh_dom_key i h d k :
  hints = Some h -> in_domain_attr h = Some d -> dma_auth_key d = Some k -> fresh i ->
  fresh (i <| in_domain_attr ::= fun a => a <| dma_auth_key := Some k |> <| dma_auth_key_size := dma_auth_key_size d |> |>).
Proof.
  intros Eh Ed Ek [[? ? ? ? ? ? ? ?] ?]. split; [split|]; try done. right. exists d. unfold hint_domain. rewrite Eh. cbn. by rewrite Ed, Ek.
Qed.

Lemma fresh_ep_key i h e k :
  hints = Some h -> in_ep_attr h = Some e -> epa_auth_key e = Some k -> fresh i ->
  fresh (i <| in_ep_attr ::= fun a => a <| epa_auth_key := Some k |> <| epa_auth_key_size := epa_auth_key_size e |> |>).
Proof.
  intros Eh Ee Ek [[? ? ? ? (k0 & n0 & _ & Ei) ? ? ?] ?]. split; [split|]; try done. exists (Some k), (epa_auth_key_size e). split.
  - right. exists e. unfold hint_ep. rewrite Eh. cbn. by rewrite Ee, Ek.
  - cbn. by rewrite Ei.
Qed.

Lemma dup_auth_keys_spec i : fresh i -> ensures (ofi_dup_auth_keys (K := K) hints i) (good fresh).
Proof.
  intros Hi. unfold ofi_dup_auth_keys. destruct hints as [h|] eqn:Eh; [|by apply ens_ret].
  apply (ens_bind _ _ (good (fun k => k = (d ← in_domain_attr h; dma_auth_key d)))); [apply dup_key_spec|].
  intros [e|k] Hk; [by apply ens_ret|]. cbn in Hk. subst k. cbn beta match.
  match goal with |- context [match ?x with Some _ => ?a | None => i end] =>
    assert (Hj : fresh (match x with Some _ => a | None => i end)); [|revert Hj; generalize (match x with Some _ => a | None => i end)] end.
  { destruct (in_domain_attr h) as [d|] eqn:Ed; [|done]. cbn. destruct (dma_auth_key d) as [k|] eqn:Ek; [|done]. by eapply fresh_dom_key. }
  intros j Hj. apply (ens_bind _ _ (good (fun k => k = (a ← in_ep_attr h; epa_auth_key a)))); [apply dup_key_spec|].
  intros [e|k] Hk; [by apply ens_ret|]. cbn in Hk. subst k. apply ens_ret.
  destruct (in_ep_attr h) as [e|] eqn:Ee; [|done]. cbn. destruct (epa_auth_key e) as [k|] eqn:Ek; [|done]. by eapply fresh_ep_key.
Qed.

Lemma getinfo_loop_spec opened flags node service l :
  Forall fresh l -> ensures (getinfo_loop (K := K) opened flags node service hints l) (good (fun l' => Forall fresh l' /\ length l' = length l)).
Proof.
  induction 1 as [|i l Hi Hl IH]; [by apply ens_ret|]. cbn [getinfo_loop].
  apply (ens_ebind _ _ fresh); [by apply getinfo_addrs_spec, lookup_spec|]. intros i1 Hi1.
  apply (ens_ebind _ _ fresh); [by apply dup_auth_keys_spec|]. intros i2 Hi2.
  eapply ens_ebind; [exact IH|]. intros l' [Hl' E]. apply ens_ret. split; [by constructor|cbn; by rewrite E].
Qed.

Lemma util_getinfo_spec opened node service flags :
  ensures (util_getinfo (K := K) rds_util_prov opened version node service flags hints)
    (good (fun l => Forall fresh l /\ length l = 1%nat /\ ofi_check_info rds_info version hints = 0)).
Proof.
  unfold util_getinfo. destruct (_ && _ && _); [by apply ens_ret|].
  eapply ens_ebind; [apply check_dup_spec|]. intros l [-> Hc]. cbn [fmap list_fmap].
  eapply ens_mono; [apply getinfo_loop_spec|].
  - constructor; [|done]. split; [apply alter_made_from|by destruct hints].
  - intros [e|l] Hl; [done|]. cbn in *. tauto.
Qed.

(** ** Interfaces *)

Lemma netif_names_spec i e : made_from version hints i -> ensures (util_set_netif_names (K := K) i e)
  (fun j => made_from version hints j /\ in_addr_format j = in_addr_format i).
Proof.
  intros Hi. unfold util_set_netif_names. apply ens_malloc_bind. intros b1. apply ens_malloc_bind. intros b2. apply ens_ret.
  destruct Hi as [? ? ? ? ? ? ? ?]. destruct b1, b2; by (split; [split|]).
Qed.

Lemma insert_addr_spec l e (P : ofi_addr_list_entry -> Prop) : Forall P l -> P e -> Forall P (slist_insert_before_first_match l e).
Proof.
  intros Hl He. induction Hl as [|x l Hx Hl IH]; cbn; [by constructor|]. destruct (ofi_compare_addr_entry x e); by repeat constructor.
Qed.

Definition comm_ok (e : ofi_addr_list_entry) : Prop := sub (ae_comm_caps e) COMM_CAPS.

Lemma list_of_addr_spec : ensures (ofi_get_list_of_addr (K := K)) (Forall comm_ok).
Proof.
  unfold ofi_get_list_of_addr. apply (ens_bind _ _ (Forall comm_ok)).
  - destruct ne_getifaddrs as [ifs|]; [|by apply ens_ret]. assert (H : Forall comm_ok []) by done. revert H. generalize (@nil ofi_addr_list_entry).
    induction ifs as [|ifa ifs IH]; intros acc Hacc; [by apply ens_ret|]. cbn [addr_list_loop].
    apply (ens_bind _ _ (fun r => forall e, r = Some e -> comm_ok e)).
    + unfold addr_of_ifa. destruct (ifa_addr ifa) as [a|]; [|by apply ens_ret]. destruct (_ || _); [by apply ens_ret|].
      apply ens_malloc_bind. intros []; cbn [negb]; [|by apply ens_ret]. destruct (ne_inet_ntop a); apply ens_ret; [|done].
      intros e [= <-]. apply sub_refl.
    + intros [e|] He; apply IH; [apply insert_addr_spec; auto|done].
  - intros l Hl. destruct (match ne_iface with Some _ => _ | None => true end); [|by apply ens_ret].
    unfold ofi_insert_loopback_addr. apply ens_malloc_bind. intros []; cbn [negb]; [|by apply ens_ret].
    assert (Hlo : comm_ok (mkAddrEntry loopback4 0 "127.0.0.1/32" "lo" FI_LOCAL_COMM)) by (apply sub_const; reflexivity).
    apply ens_malloc_bind. intros []; cbn [negb]; apply ens_ret; rewrite !Forall_app; split_and!; repeat constructor; done.
Qed.

(** What an entry is that discovery made of one entry of [util_getinfo]: its
    address format is that entry's, or one an interface has and the hints
    accept. *)
Definition offered (src i : prov_info) : Prop :=
  made_from version hints i /\
  (in_addr_format i = in_addr_format src \/ forall h, hints = Some h -> ofi_match_addr_format (in_addr_format i) (in_addr_format h) = true).

Lemma fresh_iface i src e fmt (b : bool) :
  fresh i -> comm_ok e -> (forall h, hints = Some h -> Z.land (in_caps h) (ae_comm_caps e) = Z.land (in_caps h) COMM_CAPS) ->
  made_from version hints
    (let cur := i <| in_caps ::= fun c => Z.lor (Z.land c (Z.lnot (Z.lor FI_LOCAL_COMM FI_REMOTE_COMM))) (ae_comm_caps e) |> in
     if b then cur <| in_src_addr := src |> <| in_addr_format := fmt |> else cur).
Proof.
  intros [[? ? ? ? ? ? ? ?] Ec] He Hh. destruct b; split; try done; right; exists (ae_comm_caps e); cbn; rewrite Ec; done.
Qed.

Lemma ifs_loop_spec src l acc :
  fresh src -> Forall comm_ok l -> Forall (offered src) acc ->
  ensures (getinfo_ifs_loop (K := K) hints src l acc) (Forall (offered src)).
Proof.
  intros Hs Hl. revert acc. induction Hl as [|e l He Hl IH]; intros acc Hacc; [by apply ens_ret|]. cbn [getinfo_ifs_loop].
  destruct (ifs_format e) as [fmt|]; [|by apply IH].
  match goal with |- ensures (if ?s then _ else _) _ => destruct s eqn:Es end; [by apply IH|].
  assert (Hh : forall h, hints = Some h -> Z.land (in_caps h) (ae_comm_caps e) = Z.land (in_caps h) COMM_CAPS /\ ofi_match_addr_format fmt (in_addr_format h) = true).
  { intros h ->. apply orb_false_iff in Es as [E1%negb_false_iff%Z.eqb_eq E2%negb_false_iff]. done. }
  eapply ens_bind; [apply dupinfo_spec|]. intros ? [->| ->]; [by apply ens_ret|]. apply ens_malloc_bind. intros b.
  eapply ens_bind; [apply netif_names_spec, (fresh_iface src (Some (ae_ipaddr e)) e fmt b Hs He); intros h Eh; by destruct (Hh h Eh)|].
  intros j [Hj Ef]. apply IH. apply Forall_app. split; [done|]. constructor; [|done]. split; [done|]. rewrite Ef.
  destruct b; [right|by left]. intros h Eh. by destruct (Hh h Eh).
Qed.

Lemma getinfo_ifs_spec src : fresh src -> ensures (util_getinfo_ifs (K := K) hints src) (fun l => Forall (offered src) l /\ l <> []).
Proof.
  intros Hs. eapply ens_bind; [apply list_of_addr_spec|]. intros l Hl. eapply ens_bind; [by apply (ifs_loop_spec src l [])|].
  intros r Hr. apply ens_ret. destruct r; (split; [|done]); [|done]. constructor; [|done]. split; [apply Hs|by left].
Qed.

Lemma ip_loop_spec head l :
  Forall fresh l -> ensures (ip_getinfo_loop (K := K) hints head l)
    (fun l' => Forall (fun i => exists src, src ∈ l /\ offered src i) l' /\ (l <> [] -> l' <> [])).
Proof.
  induction 1 as [|i l Hi Hl IH]; [by apply ens_ret|]. cbn [ip_getinfo_loop].
  assert (Hkeep : Forall (offered i) [i] /\ [i] <> []) by (split; [constructor; [split; [apply Hi|by left]|done]|done]).
  apply (ens_bind _ _ (fun c => Forall (offered i) c /\ c <> [])).
  - destruct (in_src_addr i); [|destruct (in_dest_addr i); [by apply ens_ret|by apply getinfo_ifs_spec]].
    eapply ens_bind; [apply list_of_addr_spec|]. intros es _. destruct (List.find _ es) as [e|]; [|by apply ens_ret].
    eapply ens_bind; [apply netif_names_spec, Hi|]. intros j [Hj Ef]. apply ens_ret. split; [|done]. constructor; [|done]. split; [done|by left].
  - intros c [Hc Hne]. eapply ens_bind; [exact IH|]. intros l' [Hl' _]. apply ens_ret. split; [|destruct c; done].
    apply Forall_app. split; (eapply Forall_impl; [eassumption|]).
    + intros j Hj. exists i. split; [left|done].
    + intros j (src & Hs & Hj). exists src. split; [by right|done].
Qed.

Lemma rds_getinfo_spec opened node service flags :
  ensures (rds_getinfo (K := K) opened version node service flags hints)
    (good (fun l => l <> [] /\ Forall (made_from version hints) l /\ ofi_check_info rds_info version hints = 0)).
Proof.
  eapply ens_ebind; [apply util_getinfo_spec|]. intros l (Hl & En & Hc). eapply ens_bind; [by apply ip_loop_spec|].
  intros l' [Hl' Hne]. apply ens_ret. split_and!; [apply Hne; by destruct l| |done].
  eapply Forall_impl; [exact Hl'|]. intros i (src & _ & Hi & _). exact Hi.
Qed.
End Hints.
End Discovery.
