(* ===== verification/Discovery.v ===== *)
(** * What fi_getinfo promises

    The theorems on discovery: an entry the application is handed is accepted
    when it comes back to the provider (up to its address format), grants
    what was asked for and nothing the provider does not have, and, on every
    host, some entries are offered that the provider refuses. *)

From stdpp Require Import strings.
From S2P Require Import Prelude Iov Wire Kernel Config Attr Getinfo AttrSpec.

Section Discovery.
Context {K : Type} `{!Kernel K} `{NE : !NetEnv}.

Lemma ens_and {A} (m : M K A) (P Q : A -> Prop) : ensures m P -> ensures m Q -> ensures m (fun a => P a /\ Q a).
Proof. intros HP HQ k. specialize (HP k). specialize (HQ k). unfold wp in *. destruct (m k) as [[a k']|]; done. Qed.

(** ** Entries come back *)

Lemma core_made_from version hints i : 0 <= version -> made_from version hints i -> made_from version hints (core_entry version i).
Proof. intros Hv [? ? ? ? ? ? ? ?]. by split. Qed.

Lemma hints_asked version hints : ofi_check_info rds_info version hints = 0 -> asked_ok version hints.
Proof. destruct hints as [h|]; [apply check_info_hints|done]. Qed.

(** The verdict of the check on an entry as the application holds it. *)
Definition recheck (version : Z) (i : prov_info) : Z := ofi_prov_check_info rds_util_prov version (Some (as_user (core_entry version i))).

Lemma made_from_recheck version hints i :
  0 <= version -> asked_ok version hints -> order_sizes_ok hints -> made_from version hints i ->
  recheck version i = if ofi_valid_addr_format FI_SOCKADDR_IN (in_addr_format i) then 0 else - FI_ENODATA.
Proof. intros Hv Ha Ho Hi. exact (made_from_check version hints (core_entry version i) (core_made_from _ _ _ Hv Hi) Ha Ho). Qed.

(** C18: fi_getinfo round trip.  For any hints, node, service and flags,
    whatever the interfaces, the resolver and the allocator do, [rds_getinfo]
    terminates with a negative error or with a non-empty list; hints that the
    provider's attributes do not satisfy never get a list; and every entry,
    as [fi_getinfo] hands it to the application, passes the same check again
    when it is given to fi_domain or fi_endpoint exactly if its address
    format is one an IPv4 provider has.  Hints must not ask for an ordered
    size beyond the provider's unless they ask for RMA or atomics
    ([order_sizes_ok]). *)
Theorem getinfo_roundtrip opened version node service flags hints :
  0 <= version -> order_sizes_ok hints ->
  ensures (rds_getinfo (K := K) opened version node service flags hints)
    (fun r => match r with
              | inl e => e < 0
              | inr l => l <> [] /\ ofi_prov_check_info rds_util_prov version hints = 0 /\
                  Forall (fun i => recheck version i = if ofi_valid_addr_format FI_SOCKADDR_IN (in_addr_format i) then 0 else - FI_ENODATA) l
              end).
Proof.
  intros Hv Ho. eapply ens_mono; [apply rds_getinfo_spec|]. intros [e|l]; [done|]. intros (Hne & Hl & Hc). split_and!; [done| |].
  - unfold ofi_prov_check_info, rds_util_prov. cbn [existsb]. rewrite Hc. by destruct hints.
  - eapply Forall_impl; [exact Hl|]. intros i. apply (made_from_recheck version hints); [done|by apply hints_asked|done].
Qed.

(** ** What is granted *)

Lemma get_caps_covers i h a : sub h a -> sub a (Z.lor OFI_PRIMARY_CAPS OFI_SECONDARY_CAPS) -> sub h (ofi_get_caps i h a).
Proof.
  intros Ha Hps j Hj. assert (E : (h =? 0) = false) by (apply Z.eqb_neq; intros ->; by rewrite Z.testbit_0_l in Hj).
  unfold ofi_get_caps. rewrite E.
  match goal with |- context [has ?c (Z.lor FI_MSG FI_TAGGED)] => assert (Hc : Z.testbit c j = true); [|revert Hc; generalize c] end.
  { pose proof (Hps j (Ha j Hj)) as Hp. pose proof (Ha j Hj) as Hj'. destruct (Z.leb_spec 0 j) as [Hp0|Hn]; [|by rewrite Z.testbit_neg_r in Hj].
    rewrite Z.lor_spec in Hp. rewrite !Z.lor_spec, !Z.land_spec, Z.lor_spec, !Z.land_spec, Z.lnot_spec, Hj, Hj' by done.
    by destruct (Z.testbit OFI_PRIMARY_CAPS j), (Z.testbit OFI_SECONDARY_CAPS j), (Z.testbit FI_SOURCE j). }
  intros c Hc. repeat case_match; rewrite ?Z.lor_spec, Hc; done.
Qed.

Lemma caps_from_covers hints h base caps : hints = Some h -> caps_from hints base caps -> sub (in_caps h) base -> sub (in_caps h) caps.
Proof.
  intros Eh [->|(comm & Hs & -> & Hc)] Hb; [done|]. specialize (Hc h Eh). intros j Hj.
  destruct (Z.leb_spec 0 j) as [Hp0|Hn]; [|by rewrite Z.testbit_neg_r in Hj].
  assert (E : Z.testbit (Z.land (in_caps h) comm) j = Z.testbit (Z.land (in_caps h) COMM_CAPS) j) by (by rewrite Hc).
  rewrite !Z.land_spec, Hj in E. rewrite Z.lor_spec, Z.land_spec, Z.lnot_spec, (Hb j Hj) by done. cbn in *. rewrite E. by destruct (Z.testbit COMM_CAPS j).
Qed.

(** [x] is granted for a request [a] within the provider's [p]; a request of
    0 leaves it to the provider. *)
Definition within (a x p : Z) : Prop := a <= x <= p.

Lemma or_else_within a p : a <= p -> within a (or_else a p) p.
Proof. unfold within, or_else. destruct (Z.eqb_spec a 0); lia. Qed.

(** Entry [i] grants the hints [h]. *)
Record granted (h : fi_info) (i : prov_info) : Prop := {
  gr_caps : sub (in_caps h) (in_caps i) /\ sub (in_caps i) (in_caps rds_info);
  gr_mode : in_mode i = 0;
  gr_tx : forall a, in_tx_attr h = Some a ->
    txa_op_flags (in_tx_attr i) = txa_op_flags a /\ sub (txa_op_flags (in_tx_attr i)) (txa_op_flags rds_tx_attr) /\
    within (txa_inject_size a) (txa_inject_size (in_tx_attr i)) (txa_inject_size rds_tx_attr) /\
    within (txa_size a) (txa_size (in_tx_attr i)) (txa_size rds_tx_attr) /\
    within (txa_iov_limit a) (txa_iov_limit (in_tx_attr i)) (txa_iov_limit rds_tx_attr) /\
    within (txa_rma_iov_limit a) (txa_rma_iov_limit (in_tx_attr i)) (txa_rma_iov_limit rds_tx_attr) /\
    sub (txa_msg_order a) (txa_msg_order (in_tx_attr i)) /\ sub (txa_msg_order (in_tx_attr i)) (txa_msg_order rds_tx_attr);
  gr_rx : forall a, in_rx_attr h = Some a ->
    rxa_op_flags (in_rx_attr i) = rxa_op_flags a /\ sub (rxa_op_flags (in_rx_attr i)) (rxa_op_flags rds_rx_attr) /\
    within (rxa_size a) (rxa_size (in_rx_attr i)) (rxa_size rds_rx_attr) /\
    within (rxa_iov_limit a) (rxa_iov_limit (in_rx_attr i)) (rxa_iov_limit rds_rx_attr) /\
    sub (rxa_msg_order a) (rxa_msg_order (in_rx_attr i)) /\ sub (rxa_msg_order (in_rx_attr i)) (rxa_msg_order rds_rx_attr);
  gr_ep : forall e, in_ep_attr h = Some e ->
    within (epa_max_msg_size e) (epa_max_msg_size (in_ep_attr i)) (epa_max_msg_size rds_ep_attr)
}.

Lemma made_from_granted version h i : hints_ok version h -> made_from version (Some h) i -> granted h i.
Proof.
  intros Hh [Em Hc Et Er (k & n & _ & Ee) _ _ _]. rewrite info_caps_rds in Hc. split; [|done|..].
  - split; [apply (caps_from_covers _ h _ _ eq_refl Hc), get_caps_covers; [apply Hh|apply sub_const; reflexivity]|].
    apply (caps_from_sub _ _ _ _ Hc); [apply get_caps_sub; [apply Hh|apply sub_refl]|apply sub_const; reflexivity].
  - intros a Ea. pose proof (ho_tx _ _ Hh a Ea) as H. unfold ofi_check_tx_attr in H. checks H.
    destruct H as (_ & _ & Hf%exceeds_sub & Ho%exceeds_sub & _ & H1 & H2 & H3 & H4 & _). rewrite gt_false in H1, H2, H3, H4.
    rewrite Et. unfold hint_tx. cbn. rewrite Ea. cbn. split_and!; try done; try apply sub_refl; by apply or_else_within.
  - intros a Ea. pose proof (ho_rx _ _ Hh a Ea) as H. unfold ofi_check_rx_attr in H. checks H.
    destruct H as (_ & _ & Hf%exceeds_sub & Ho%exceeds_sub & _ & _ & H1 & H2 & _). rewrite gt_false in H1, H2.
    rewrite Er. unfold hint_rx. cbn. rewrite Ea. cbn. split_and!; try done; try apply sub_refl; by apply or_else_within.
  - intros e E. pose proof (ho_ep _ _ Hh e E) as H. unfold ofi_check_ep_attr in H. checks H. destruct H as (_ & _ & _ & H1%gt_false & _).
    rewrite Ee. unfold within, fi_alter_ep_attr, hint_ep. cbn. rewrite E. split; [etransitivity; [exact H1|]|]; by case_match.
Qed.

(** C19: fi_getinfo grants what it was asked.  Every entry returned for the
    hints [h] has all the capabilities they ask for and none the provider
    lacks; where the hints have transmit, receive or endpoint attributes, the
    operation flags are exactly the ones asked for, and they are flags the
    provider has; the message order, queue sizes, vector limits, inject size
    and message size lie between what was asked and what the provider
    has. *)
Theorem getinfo_grants opened version node service flags h :
  ensures (rds_getinfo (K := K) opened version node service flags (Some h))
    (fun r => match r with inl e => e < 0 | inr l => Forall (granted h) l end).
Proof.
  eapply ens_mono; [apply rds_getinfo_spec|]. intros [e|l]; [done|]. intros (_ & Hl & Hc%check_info_hints).
  eapply Forall_impl; [exact Hl|]. intros i. by apply made_from_granted with (version := version).
Qed.

(** ** Calls without addresses *)

(** What [util_getinfo] leaves when neither the call nor the hints have an
    address. *)
Definition unaddressed (i : prov_info) : Prop := in_addr_format i = FI_SOCKADDR_IN /\ in_src_addr i = None /\ in_dest_addr i = None.

Definition no_addrs (hints : option fi_info) : Prop := forall h, hints = Some h -> in_src_addr h = None /\ in_dest_addr h = None.

Lemma dup_keys_unaddressed hints i : unaddressed i -> ensures (ofi_dup_auth_keys (K := K) hints i) (good unaddressed).
Proof.
  intros Hi. unfold ofi_dup_auth_keys. destruct hints as [h|]; [|by apply ens_ret].
  eapply ens_bind; [apply dup_key_spec|]. intros [e|k] Hk; [by apply ens_ret|].
  eapply ens_bind; [apply dup_key_spec|]. intros [e|k'] Hk'; apply ens_ret; [done|]. cbn. repeat case_match; done.
Qed.

Lemma getinfo_addrs_plain flags hints i :
  has flags FI_SOURCE = false -> no_addrs hints -> unaddressed i -> getinfo_addrs (K := K) flags None None hints i = ret (inr i).
Proof.
  intros Hf Hh Hi. unfold getinfo_addrs. rewrite Hf. cbn [is_null negb orb].
  assert (E : set_src (K := K) i hints = ret (inr i) /\ set_dest (K := K) i hints = ret (inr i)).
  { unfold set_src, set_dest. destruct hints as [h|]; [|done]. by destruct (Hh h eq_refl) as [-> ->]. }
  destruct E as [E1 E2]. rewrite E1. unfold ebind at 2, bind, ret at 1. rewrite E2. unfold ebind, bind, ret. by destruct Hi as (_ & -> & ->).
Qed.

Lemma lookup_unaddressed opened hints i : unaddressed i -> unaddressed (util_lookup_existing_fabric_domain opened hints i).
Proof. intros Hi. unfold util_lookup_existing_fabric_domain. by repeat case_match. Qed.

Lemma alter_unaddressed hints version : unaddressed (ofi_alter_info rds_info hints version).
Proof. unfold ofi_alter_info. change (has (dma_mr_mode (in_domain_attr _)) FI_MR_LOCAL) with false. cbn [andb]. by destruct hints. Qed.

Lemma util_getinfo_plain opened version flags hints :
  has flags FI_SOURCE = false -> no_addrs hints ->
  ensures (util_getinfo (K := K) rds_util_prov opened version None None flags hints) (good (Forall unaddressed)).
Proof.
  intros Hf Hh. unfold util_getinfo. rewrite Hf. cbn [andb]. eapply ens_ebind; [apply check_dup_spec|]. intros l [-> _].
  cbn [fmap list_fmap getinfo_loop]. rewrite getinfo_addrs_plain by (done || apply lookup_unaddressed, alter_unaddressed).
  unfold ebind at 1, bind at 1, ret at 1. eapply ens_ebind; [apply dup_keys_unaddressed, lookup_unaddressed, alter_unaddressed|].
  intros i Hi. apply ens_ret. by constructor.
Qed.

(** Fi_getinfo is usable.  Hints that ask for IPv4 addresses, without
    an address of their own, get entries that the provider all accepts when
    they come back: nothing fi_getinfo returns has to be filtered further. *)
Theorem getinfo_usable opened version flags h :
  0 <= version -> order_sizes_ok (Some h) -> in_addr_format h = FI_SOCKADDR_IN -> in_src_addr h = None -> in_dest_addr h = None ->
  has flags FI_SOURCE = false ->
  ensures (rds_getinfo (K := K) opened version None None flags (Some h))
    (fun r => match r with inl e => e < 0 | inr l => l <> [] /\ Forall (fun i => recheck version i = 0) l end).
Proof.
  intros Hv Ho Hfmt Hs Hd Hf. assert (Hn : no_addrs (Some h)) by (by intros h' [= <-]).
  pose proof (util_getinfo_spec version (Some h) opened None None flags) as H1.
  eapply (ens_bind _ _ _ _ (ens_and _ _ _ H1 (util_getinfo_plain opened version flags (Some h) Hf Hn))).
  intros [e|l] [Hg Hp]; [by apply ens_ret|]. destruct Hg as (Hl & En & Hc). cbn in Hp.
  eapply ens_bind; [apply ip_loop_spec; exact Hl|]. intros l' [Hl' Hne]. apply ens_ret. split; [apply Hne; by destruct l|].
  eapply Forall_impl; [exact Hl'|]. cbn beta. intros i (src & Hin & Hi & Hf').
  rewrite (made_from_recheck version (Some h) i Hv (hints_asked _ _ Hc) Ho Hi).
  rewrite Forall_forall in Hp. destruct (Hp src Hin) as (Ef & _). destruct Hf' as [E|E]; [by rewrite E, Ef|].
  specialize (E h eq_refl). rewrite Hfmt in E. by destruct (in_addr_format i).
Qed.

(** ** Where the round trip ends *)

(** Hints without capabilities escape the check of the ordered sizes, but
    the size they ask for is granted, with all capabilities: the entry is
    then refused by the check the hints have passed. *)
Definition oversize_hints : fi_info :=
  mkInfo 0 0 FI_FORMAT_UNSPEC None None 0 None None (Some (rds_ep_attr <| epa_max_order_raw_size := 2 ^ 30 |>)) None None.

Theorem order_sizes_escape :
  ofi_prov_check_info rds_util_prov (FI_VERSION 2 0) (Some oversize_hints) = 0 /\
  recheck (FI_VERSION 2 0) (ofi_alter_info rds_info (Some oversize_hints) (FI_VERSION 2 0)) = - FI_ENODATA.
Proof. split; vm_compute; reflexivity. Qed.

(** From version 1.5 of the interface on, an application that uses the new
    bits of the registration mode is told that there are none: not that the
    provider chooses the keys ([FI_MR_PROV_KEY]), as it does. *)
Theorem mr_mode_hides_prov_key opened version node service flags hints :
  FI_VERSION 1 5 <= version ->
  (forall d, hint_domain hints = Some d -> has (dma_mr_mode d) (Z.lor OFI_MR_BASIC OFI_MR_SCALABLE) = false) ->
  ensures (rds_getinfo (K := K) opened version node service flags hints)
    (fun r => match r with inl e => e < 0 | inr l => Forall (fun i => dma_mr_mode (in_domain_attr i) = 0) l end).
Proof.
  intros Hv Hm. eapply ens_mono; [apply rds_getinfo_spec|]. intros [e|l]; [done|]. intros (_ & Hl & _).
  eapply Forall_impl; [exact Hl|]. cbn beta. intros i Hi. apply mf_dom in Hi. assert (E : dma_mr_mode (in_domain_attr i) = alter_mr_mode OFI_MR_BASIC (hint_domain hints) (ofi_get_info_caps rds_info hints version) version).
  { unfold dom_view in Hi. injection Hi as _ _ _ _ E _ _ _ _ _ _ _ _ _ _. rewrite E. by destruct (hint_domain hints). }
  rewrite E. unfold alter_mr_mode. replace (version <? FI_VERSION 1 5) with false by (symmetry; by apply Z.ltb_ge).
  destruct (hint_domain hints) as [d|]; [|done]. rewrite (Hm d eq_refl). change (Z.land OFI_MR_BASIC _) with 0. by rewrite Z.land_0_r.
Qed.

(** ** Every host offers an address the provider does not have *)

(** Allocations succeed. *)
Hypothesis alloc_ok : forall n k, exists a k', k_alloc n k = (Some a, k').

Lemma ens_malloc_ok n : ensures (k_malloc (K := K) n) (fun b => b = true).
Proof. intros k. unfold wp, k_malloc. by destruct (alloc_ok n k) as (a & k' & ->). Qed.

Lemma alloc_all_ok sizes : ensures (alloc_all (K := K) sizes) (fun b => b = true).
Proof. induction sizes as [|n sizes IH]; [by apply ens_ret|]. eapply ens_bind; [apply ens_malloc_ok|]. intros b ->. exact IH. Qed.

Lemma dupinfo_ok i : ensures (fi_dupinfo (K := K) i) (fun r => r = Some i).
Proof. eapply ens_bind; [apply alloc_all_ok|]. intros b ->. by apply ens_ret. Qed.

Lemma list_of_addr_loopback : ne_iface = None ->
  ensures (ofi_get_list_of_addr (K := K)) (fun l => exists e4 e6, e4 ∈ l /\ e6 ∈ l /\ ae_ipaddr e4 = loopback4 /\ ae_ipaddr e6 = loopback6).
Proof.
  intros Ei. unfold ofi_get_list_of_addr. apply (ens_bind _ _ (fun _ => True)).
  - destruct ne_getifaddrs as [ifs|]; [|by apply ens_ret]. generalize (@nil ofi_addr_list_entry).
    induction ifs as [|ifa ifs IH]; intros acc; [by apply ens_ret|]. cbn [addr_list_loop]. apply (ens_bind _ _ (fun _ => True)); [|intros; apply IH].
    unfold addr_of_ifa. repeat case_match; try by apply ens_ret. all: apply ens_malloc_bind; intros b; repeat case_match; by apply ens_ret.
  - intros l _. rewrite Ei. unfold ofi_insert_loopback_addr. eapply ens_bind; [apply ens_malloc_ok|]. intros ? ->. cbn [negb].
    eapply ens_bind; [apply ens_malloc_ok|]. intros ? ->. apply ens_ret. exists (mkAddrEntry loopback4 0 "127.0.0.1/32" "lo" FI_LOCAL_COMM), (mkAddrEntry loopback6 0 "::1/128" "lo" FI_LOCAL_COMM).
    rewrite !elem_of_app, !list_elem_of_singleton. tauto.
Qed.

(** Without hints no interface address is passed over. *)
Lemma ifs_loop_covers src l acc :
  ensures (getinfo_ifs_loop (K := K) None src l acc) (fun r =>
    (forall i, i ∈ acc -> i ∈ r) /\ (forall e fmt, e ∈ l -> ifs_format e = Some fmt ->
      exists i, i ∈ r /\ in_addr_format i = fmt /\ in_src_addr i = Some (ae_ipaddr e))).
Proof.
  revert acc. induction l as [|e l IH]; intros acc; [apply ens_ret; split_and!; [done|]; intros ? ? []%elem_of_nil|]. cbn [getinfo_ifs_loop].
  destruct (ifs_format e) as [fmt|] eqn:Ee; cycle 1.
  { eapply ens_mono; [apply IH|]. cbn beta. intros r [Hr Hc]. split; [done|]. intros e' fmt' [->|Hin]%elem_of_cons E; [congruence|eauto]. }
  eapply ens_bind; [apply dupinfo_ok|]. intros ? ->. eapply ens_bind; [apply ens_malloc_ok|]. intros ? ->.
  eapply (ens_bind _ _ (fun j => in_addr_format j = fmt /\ in_src_addr j = Some (ae_ipaddr e))).
  { unfold util_set_netif_names. apply ens_malloc_bind. intros b1. apply ens_malloc_bind. intros b2. apply ens_ret. by destruct b1, b2. }
  intros j [Ej Es]. eapply ens_mono; [apply IH|]. cbn beta. intros r [Hr Hc]. setoid_rewrite elem_of_app in Hr. split; [intros; apply Hr; by left|].
  intros e' fmt' [->|Hin]%elem_of_cons E; [|eauto]. exists j. split_and!; [apply Hr; right; by apply list_elem_of_singleton|congruence|done].
Qed.

Lemma getinfo_ifs_covers src : ne_iface = None ->
  ensures (util_getinfo_ifs (K := K) None src) (fun r =>
    exists i4 i6, i4 ∈ r /\ i6 ∈ r /\ (in_addr_format i4 = FI_SOCKADDR_IN /\ in_src_addr i4 = Some loopback4) /\
      (in_addr_format i6 = FI_SOCKADDR_IN6 /\ in_src_addr i6 = Some loopback6)).
Proof.
  intros Hi. eapply ens_bind; [by apply list_of_addr_loopback|]. intros es (e4 & e6 & H4 & H6 & A4 & A6).
  eapply ens_bind; [apply ifs_loop_covers|]. cbn beta. intros r [_ Hr]. apply ens_ret.
  destruct (Hr e4 FI_SOCKADDR_IN H4) as (i4 & I4 & F4 & S4); [unfold ifs_format; by rewrite A4|].
  destruct (Hr e6 FI_SOCKADDR_IN6 H6) as (i6 & I6 & F6 & S6); [unfold ifs_format; by rewrite A6|].
  rewrite A4 in S4. rewrite A6 in S6. exists i4, i6. destruct r; [by apply elem_of_nil in I4|done].
Qed.

Lemma util_getinfo_no_hints opened version flags : has flags FI_SOURCE = false ->
  ensures (util_getinfo (K := K) rds_util_prov opened version None None flags None) (fun r => exists i, r = inr [i] /\ unaddressed i).
Proof.
  intros Hf. unfold util_getinfo. rewrite Hf. cbn [andb].
  assert (H : ensures (ofi_prov_check_dup_info (K := K) rds_util_prov version None) (fun r => r = inr [rds_info])).
  { unfold ofi_prov_check_dup_info, rds_util_prov. cbn [check_dup_loop]. unfold ofi_check_info. cbn [Z.eqb negb].
    apply (ens_bind _ _ (fun r => r = inr [rds_info])); [|intros ? ->; by apply ens_ret]. eapply ens_bind; [apply dupinfo_ok|]. intros ? ->. by apply ens_ret. }
  eapply ens_bind; [exact H|]. intros ? ->. cbn [fmap list_fmap getinfo_loop].
  rewrite getinfo_addrs_plain by (done || apply lookup_unaddressed, alter_unaddressed).
  apply ens_ret. eexists. split; [reflexivity|]. apply lookup_unaddressed, alter_unaddressed.
Qed.

(** C30: an offer the provider does not honour.  A call of fi_getinfo without
    hints, node, service and FI_SOURCE, with no interface selected by the
    configuration and every allocation succeeding ([alloc_ok]), returns an
    entry whose source address is 127.0.0.1, which passes the check that
    fi_domain and fi_endpoint make when it comes back, and one whose source
    address is ::1, which fails that check with -FI_ENODATA, since the
    provider's own address format is FI_SOCKADDR_IN. *)
Theorem getinfo_offers_unusable opened version flags :
  0 <= version -> ne_iface = None -> has flags FI_SOURCE = false ->
  ensures (rds_getinfo (K := K) opened version None None flags None)
    (fun r => exists l i4 i6, r = inr l /\ i4 ∈ l /\ i6 ∈ l /\ (in_src_addr i4 = Some loopback4 /\ recheck version i4 = 0) /\
       in_addr_format i6 = FI_SOCKADDR_IN6 /\ in_src_addr i6 = Some loopback6 /\ recheck version i6 = - FI_ENODATA).
Proof.
  intros Hv Hi Hf. pose proof (util_getinfo_spec version None opened None None flags) as H1.
  eapply (ens_bind _ _ _ _ (ens_and _ _ _ H1 (util_getinfo_no_hints opened version flags Hf))).
  intros r [Hg (src & -> & Hfmt & Hs & Hd)]. destruct Hg as (Hl & _ & _). assert (Hfr := Forall_inv Hl). clear Hl.
  cbn [ip_getinfo_loop]. rewrite Hs, Hd. 
  assert (H := ens_and _ _ _ (getinfo_ifs_covers src Hi) (getinfo_ifs_spec version None src Hfr)). clear Hs Hd.
  eapply ens_bind; [eapply ens_bind; [exact H|]; intros l Hl; apply ens_ret; rewrite app_nil_r; exact Hl|].
  cbn beta. intros l ((i4 & i6 & I4 & I6 & [F4 S4] & F6 & S6) & Hall & _). apply ens_ret. rewrite Forall_forall in Hall.
  assert (Hre : forall i, i ∈ l -> recheck version i = if ofi_valid_addr_format FI_SOCKADDR_IN (in_addr_format i) then 0 else - FI_ENODATA).
  { intros i Hin. apply (made_from_recheck version None i Hv); [done|done|]. apply Hall, Hin. }
  exists l, i4, i6. split_and!; [done|done|done|done|rewrite Hre by done; by rewrite F4|done|done|rewrite Hre by done; by rewrite F6].
Qed.
End Discovery.
