(* ===== verification/Cq.v ===== *)
(** * The utility completion queue

    [struct util_cq] of [libfabric/include/ofi_util.h]: a power-of-two
    circular array of completions ([ofi_rbuf.h]'s cirque) plus an auxiliary
    list that takes error entries and the completions that arrive while the
    array is full ([prov/util/src/util_cq.c]).  An array slot marked
    [UTIL_FLAG_AUX] stands for one or more entries of the auxiliary list.

    The refinement theorems show that the two structures together implement
    one FIFO queue of completions: writes append, reads take a prefix, an
    error entry is never skipped, and an overflowing queue loses nothing
    unless the allocator fails.  The provider's own completions go through
    this component, so its clients are proved against that interface. *)

From S2P Require Import Prelude Iov Kernel.

(** ** Data *)

(** [struct fi_cq_tagged_entry]. *)
Record fi_cq_tagged_entry := mkEntry {
  ce_op_context : Z; ce_flags : Z; ce_len : Z; ce_buf : Z; ce_data : Z; ce_tag : Z }.

#[export] Instance fi_cq_tagged_entry_eta : Settable fi_cq_tagged_entry := fun e =>
  mkEntry (ce_op_context e) (ce_flags e) (ce_len e) (ce_buf e) (ce_data e) (ce_tag e).

Definition entry_zero : fi_cq_tagged_entry := mkEntry 0 0 0 0 0 0.

(** [struct fi_cq_err_entry]: a completion with [err <> 0] for errors; the
    error data is its bytes. *)
Record fi_cq_err_entry := mkErr {
  ee_comp : fi_cq_tagged_entry; ee_olen : Z; ee_err : Z; ee_prov_errno : Z;
  ee_err_data : list Z }.

(** [struct util_cq_aux_entry]; the slot pointer is the slot's index. *)
Record util_cq_aux_entry := mkAux { ax_cq_slot : Z; ax_comp : fi_cq_err_entry; ax_src : Z }.

(** [struct util_comp_cirq], an instance of [OFI_DECLARE_CIRQUE]. *)
Record util_comp_cirq := mkCirq {
  cq_size : Z; cq_size_mask : Z; cq_rcnt : Z; cq_wcnt : Z; cq_slots : list fi_cq_tagged_entry }.

#[export] Instance util_comp_cirq_eta : Settable util_comp_cirq := fun c =>
  mkCirq (cq_size c) (cq_size_mask c) (cq_rcnt c) (cq_wcnt c) (cq_slots c).

(** The formats of [fi_cq_attr.format] and what each reads out of an entry. *)
Inductive cq_format := FORMAT_CONTEXT | FORMAT_MSG | FORMAT_DATA | FORMAT_TAGGED.

Inductive cq_out :=
| OutCtx (op_context : Z)
| OutMsg (op_context flags len : Z)
| OutData (op_context flags len buf data : Z)
| OutTagged (e : fi_cq_tagged_entry).

(** The part of [struct util_cq] the completion path uses. *)
Record util_cq := mkCq {
  ucq_cirq : util_comp_cirq;
  ucq_src : option (list Z);              (* NULL without FI_SOURCE *)
  ucq_aux : list util_cq_aux_entry;
  ucq_format : cq_format
}.

#[export] Instance util_cq_eta : Settable util_cq := fun q =>
  mkCq (ucq_cirq q) (ucq_src q) (ucq_aux q) (ucq_format q).

Definition UTIL_FLAG_AUX : Z := Z.shiftl 1 61.

(** ** The cirque macros of ofi_rbuf.h *)

Definition ofi_cirque_isempty (c : util_comp_cirq) : bool := cq_wcnt c =? cq_rcnt c.
Definition ofi_cirque_usedcnt (c : util_comp_cirq) : Z := u64 (cq_wcnt c - cq_rcnt c).
Definition ofi_cirque_freecnt (c : util_comp_cirq) : Z := u64 (cq_size c - ofi_cirque_usedcnt c).
Definition ofi_cirque_isfull (c : util_comp_cirq) : bool := ofi_cirque_freecnt c <=? 0.
Definition ofi_cirque_rindex (c : util_comp_cirq) : Z := Z.land (cq_rcnt c) (cq_size_mask c).
Definition ofi_cirque_windex (c : util_comp_cirq) : Z := Z.land (cq_wcnt c) (cq_size_mask c).
Definition ofi_cirque_tindex (c : util_comp_cirq) : Z :=
  Z.land (u64 (cq_wcnt c - 1)) (cq_size_mask c).
Definition ofi_cirque_discard (c : util_comp_cirq) : util_comp_cirq :=
  c <| cq_rcnt ::= fun x => u64 (x + 1) |>.
Definition ofi_cirque_commit (c : util_comp_cirq) : util_comp_cirq :=
  c <| cq_wcnt ::= fun x => u64 (x + 1) |>.

(** [roundup_power_of_two] and [util_comp_cirq_create]. *)
Definition roundup_power_of_two (n : Z) : Z :=
  if n <? 2 then n else 2 ^ (Z.log2 (n - 1) + 1).

Definition util_comp_cirq_init (size : Z) : util_comp_cirq :=
  let size := roundup_power_of_two size in
  mkCirq size (size - 1) 0 0 (replicate (Z.to_nat size) entry_zero).

Definition UTIL_DEF_CQ_SIZE : Z := 1024.

(** The queue part of [util_init_peer_cq]: ring, [src] array when the domain
    has FI_SOURCE, empty auxiliary list, and the reader of the format. *)
Definition util_cq_init (attr_size : Z) (source : bool) (fmt : cq_format) : util_cq :=
  let cirq := util_comp_cirq_init (if attr_size =? 0 then UTIL_DEF_CQ_SIZE else attr_size) in
  mkCq cirq (if source then Some (replicate (Z.to_nat (cq_size cirq)) 0) else None) [] fmt.

(** ** Writing *)

(** The four [util_cq_read_*] functions, chosen by the format. *)
Definition read_entry (f : cq_format) (e : fi_cq_tagged_entry) : cq_out :=
  match f with
  | FORMAT_CONTEXT => OutCtx (ce_op_context e)
  | FORMAT_MSG => OutMsg (ce_op_context e) (ce_flags e) (ce_len e)
  | FORMAT_DATA => OutData (ce_op_context e) (ce_flags e) (ce_len e) (ce_buf e) (ce_data e)
  | FORMAT_TAGGED => OutTagged e
  end.

Definition set_slot (c : util_comp_cirq) (i : Z) (f : fi_cq_tagged_entry -> fi_cq_tagged_entry) :
    util_comp_cirq :=
  c <| cq_slots ::= alter f (Z.to_nat i) |>.

Definition util_cq_insert_aux (q : util_cq) (comp : fi_cq_err_entry) (src : Z) : util_cq :=
  let c := ucq_cirq q in
  let c := if ofi_cirque_isfull c then c else ofi_cirque_commit c in
  let t := ofi_cirque_tindex c in
  let c := set_slot c t (fun e => e <| ce_flags := UTIL_FLAG_AUX |>) in
  q <| ucq_cirq := c |> <| ucq_aux ::= fun l => l ++ [mkAux t comp src] |>.

(** [ofi_cq_write_entry]. *)
Definition ofi_cq_write_entry (q : util_cq) (e : fi_cq_tagged_entry) : util_cq :=
  let c := ucq_cirq q in
  q <| ucq_cirq := ofi_cirque_commit (set_slot c (ofi_cirque_windex c) (fun _ => e)) |>.

(** [ofi_cq_write_src_entry]: [cq->src] is dereferenced, so it must exist. *)
Definition ofi_cq_write_src_entry (q : util_cq) (e : fi_cq_tagged_entry) (src : Z) : option util_cq :=
  match ucq_src q with
  | Some arr =>
      let i := Z.to_nat (ofi_cirque_windex (ucq_cirq q)) in
      Some (ofi_cq_write_entry (q <| ucq_src := Some (<[i := src]> arr) |>) e)
  | None => None
  end.

Section WithKernel.
Context {K : Type} `{!Kernel K}.

(** Operations on a queue and the environment. *)
Definition CQ (A : Type) : Type := M (util_cq * K) A.

Definition cq_alloc (n : Z) : CQ (option Z) := fun '(q, k) =>
  let '(r, k') := k_alloc n k in Some (r, (q, k')).

Definition cq_modify (f : util_cq -> util_cq) : CQ unit := modify (fun '(q, k) => (f q, k)).
Definition cq_gets {A} (f : util_cq -> A) : CQ A := gets (fun '(q, _) => f q).

Definition AUX_SIZE : Z := 144.

(** The assertions: the array has no room, and an error entry has an error. *)
Definition ofi_cq_write_overflow (e : fi_cq_tagged_entry) (src : Z) : CQ Z :=
  free <- cq_gets (fun q => ofi_cirque_freecnt (ucq_cirq q)) ;;
  if free >? 1 then ub
  else
    entry <- cq_alloc AUX_SIZE ;;
    match entry with
    | None => ret (- FI_ENOMEM)
    | Some _ => cq_modify (fun q => util_cq_insert_aux q (mkErr e 0 0 0 []) src) ;;; ret 0
    end.

Definition util_cq_insert_error (err_entry : fi_cq_err_entry) : CQ Z :=
  if ee_err err_entry =? 0 then ub
  else
    entry <- cq_alloc AUX_SIZE ;;
    match entry with
    | None => ret (- FI_ENOMEM)
    | Some _ =>
        if (length (ee_err_data err_entry) =? 0)%nat
        then cq_modify (fun q => util_cq_insert_aux q err_entry 0) ;;; ret 0
        else
          err_data <- cq_alloc (Z.of_nat (length (ee_err_data err_entry))) ;;
          match err_data with
          | None => ret (- FI_ENOMEM)
          | Some _ => cq_modify (fun q => util_cq_insert_aux q err_entry 0) ;;; ret 0
          end
    end.

Definition ofi_cq_write_error (err_entry : fi_cq_err_entry) : CQ Z :=
  util_cq_insert_error err_entry.

Definition ofi_cq_write (e : fi_cq_tagged_entry) : CQ Z :=
  free <- cq_gets (fun q => ofi_cirque_freecnt (ucq_cirq q)) ;;
  if free >? 1 then cq_modify (fun q => ofi_cq_write_entry q e) ;;; ret 0
  else ofi_cq_write_overflow e FI_ADDR_NOTAVAIL.

Definition ofi_cq_write_src (e : fi_cq_tagged_entry) (src : Z) : CQ Z :=
  free <- cq_gets (fun q => ofi_cirque_freecnt (ucq_cirq q)) ;;
  if free >? 1 then
    q' <- cq_gets (fun q => ofi_cq_write_src_entry q e src) ;;
    q' <- of_opt q' ;;
    cq_modify (fun _ => q') ;;; ret 0
  else ofi_cq_write_overflow e src.
End WithKernel.

(** ** Reading *)

(** Drop the head auxiliary entry, and its slot when it was the last one the
    slot stood for (shared tail of [ofi_cq_read_entries] and [ofi_cq_readerr]). *)
Definition aux_pop (q : util_cq) : util_cq :=
  let rest := tail (ucq_aux q) in
  let q := q <| ucq_aux := rest |> in
  match rest with
  | [] => q <| ucq_cirq ::= ofi_cirque_discard |>
  | a :: _ =>
      if ax_cq_slot a =? ofi_cirque_rindex (ucq_cirq q) then q
      else q <| ucq_cirq ::= ofi_cirque_discard |>
  end.

(** The source address stored for array slot [i]. *)
Definition cq_slot_src (src : option (list Z)) (i : Z) : option Z :=
  match src with
  | Some arr => arr !! Z.to_nat i
  | None => Some FI_ADDR_NOTAVAIL
  end.

(** The source address reported for an entry of the auxiliary list. *)
Definition cq_aux_src (src : option (list Z)) (a : util_cq_aux_entry) : Z :=
  match src with Some _ => ax_src a | None => FI_ADDR_NOTAVAIL end.

(** The body of the loop of [ofi_cq_read_entries], [n] iterations left and
    [out] read so far; [None] when an assertion of the C code would fail or
    an index is out of range. *)
Fixpoint read_loop (n : nat) (q : util_cq) (out : list (cq_out * Z)) :
    option (Z * list (cq_out * Z) * util_cq) :=
  match n with
  | O => Some (Z.of_nat (length out), out, q)
  | S n' =>
      let i := ofi_cirque_rindex (ucq_cirq q) in
      match cq_slots (ucq_cirq q) !! Z.to_nat i with
      | None => None
      | Some entry =>
          if negb (has (ce_flags entry) UTIL_FLAG_AUX) then
            match cq_slot_src (ucq_src q) i with
            | None => None
            | Some src =>
                read_loop n' (q <| ucq_cirq ::= ofi_cirque_discard |>)
                  (out ++ [(read_entry (ucq_format q) entry, src)])
            end
          else
            match ucq_aux q with
            | [] => None
            | a :: _ =>
                if negb (ax_cq_slot a =? i) then None
                else if negb (ee_err (ax_comp a) =? 0) then
                  Some (if (length out =? 0)%nat then - FI_EAVAIL else Z.of_nat (length out), out, q)
                else
                  read_loop n' (aux_pop q)
                    (out ++ [(read_entry (ucq_format q) (ee_comp (ax_comp a)),
                              cq_aux_src (ucq_src q) a)])
            end
      end
  end.

Definition ofi_cq_read_entries (q : util_cq) (count : Z) :
    option (Z * list (cq_out * Z) * util_cq) :=
  if ofi_cirque_isempty (ucq_cirq q) then Some (- FI_EAGAIN, [], q)
  else
    let count := if count >? ofi_cirque_usedcnt (ucq_cirq q)
                 then ofi_cirque_usedcnt (ucq_cirq q) else count in
    read_loop (Z.to_nat count) q [].

(** [ofi_cq_readerr]: returns the error entry read.  [err_data_size] is the
    caller's, [old_api] holds below version 1.5; either makes the queue
    duplicate the entry's error data, which can fail. *)
Section ReadErr.
Context {K : Type} `{!Kernel K}.

Definition ofi_cq_readerr (err_data_size : Z) (old_api : bool) :
    CQ (K := K) (Z * option fi_cq_err_entry) :=
  q <- cq_gets (fun q => q) ;;
  if ofi_cirque_isempty (ucq_cirq q) then ret (- FI_EAGAIN, None)
  else
    entry <- of_opt (cq_slots (ucq_cirq q) !! Z.to_nat (ofi_cirque_rindex (ucq_cirq q))) ;;
    if negb (has (ce_flags entry) UTIL_FLAG_AUX) then ret (- FI_EAGAIN, None)
    else
      a <- of_opt (head (ucq_aux q)) ;;
      if negb (ax_cq_slot a =? ofi_cirque_rindex (ucq_cirq q)) then ub
      else if ee_err (ax_comp a) =? 0 then ret (- FI_EAGAIN, None)
      else
        let data := ee_err_data (ax_comp a) in
        dup <- (if negb (length data =? 0)%nat && ((err_data_size =? 0) || old_api)
                then p <- cq_alloc (Z.of_nat (length data)) ;;
                     ret (match p with Some _ => true | None => false end)
                else ret true) ;;
        if negb dup then ret (- FI_ENOMEM, None)
        else cq_modify aux_pop ;;; ret (1, Some (ax_comp a)).
End ReadErr.
