(* ===== verification/CqFifo.v ===== *)
(** * The completion queue is a FIFO

    The representation relation between a [util_cq] and the sequence of
    completions it holds, and the proof that every operation of [Cq]
    refines the corresponding operation on that sequence. *)

From S2P Require Import Prelude Iov Kernel Cq.

(** ** The abstract queue *)

(** One completion as the application will see it; an ordinary completion
    has [ee_err] zero. *)
Record completion := mkCompletion { c_comp : fi_cq_err_entry; c_src : Z }.

Definition comp_ok (e : fi_cq_tagged_entry) : fi_cq_err_entry := mkErr e 0 0 0 [].

(** The longest prefix, of at most [n] completions, that holds no error. *)
Fixpoint ok_prefix (n : nat) (cs : list completion) : list completion :=
  match n, cs with
  | S n', c :: cs' => if ee_err (c_comp c) =? 0 then c :: ok_prefix n' cs' else []
  | _, _ => []
  end.

(** What a read of the given format returns for a completion. *)
Definition out_of (f : cq_format) (c : completion) : cq_out * Z :=
  (read_entry f (ee_comp (c_comp c)), c_src c).

(** ** Representation *)

(** The occupied slots, oldest first. *)
Definition cirq_slots (c : util_comp_cirq) : list Z :=
  (fun i => (cq_rcnt c + i) mod cq_size c) <$> seqZ 0 (ofi_cirque_usedcnt c).

Record cirq_wf (c : util_comp_cirq) : Prop := {
  cw_pow : exists p, 0 <= p <= 63 /\ cq_size c = 2 ^ p;
  cw_mask : cq_size_mask c = cq_size c - 1;
  cw_len : Z.of_nat (length (cq_slots c)) = cq_size c;
  cw_rcnt : 0 <= cq_rcnt c < 2 ^ 64;
  cw_wcnt : 0 <= cq_wcnt c < 2 ^ 64;
  cw_used : ofi_cirque_usedcnt c <= cq_size c
}.

Definition is_aux (buf : list fi_cq_tagged_entry) (i : Z) : Prop :=
  exists e, buf !! Z.to_nat i = Some e /\ has (ce_flags e) UTIL_FLAG_AUX = true.

(** [rep buf src slots aux cs]: the slots, in order, and the auxiliary list
    together hold the completions [cs]. *)
Inductive rep (buf : list fi_cq_tagged_entry) (src : option (list Z)) :
    list Z -> list util_cq_aux_entry -> list completion -> Prop :=
| rep_nil : rep buf src [] [] []
| rep_entry s e a sl aux cs :
    buf !! Z.to_nat s = Some e -> has (ce_flags e) UTIL_FLAG_AUX = false ->
    cq_slot_src src s = Some a -> rep buf src sl aux cs ->
    rep buf src (s :: sl) aux (mkCompletion (comp_ok e) a :: cs)
| rep_aux s g sl aux cs :
    is_aux buf s -> g <> [] -> Forall (fun a => ax_cq_slot a = s) g ->
    rep buf src sl aux cs ->
    rep buf src (s :: sl) (g ++ aux)
      (((fun a => mkCompletion (ax_comp a) (cq_aux_src src a)) <$> g) ++ cs).

Record cq_rep (q : util_cq) (cs : list completion) : Prop := {
  cr_wf : cirq_wf (ucq_cirq q);
  cr_src : match ucq_src q with
           | Some arr => length arr = length (cq_slots (ucq_cirq q))
           | None => True
           end;
  cr_rep : rep (cq_slots (ucq_cirq q)) (ucq_src q) (cirq_slots (ucq_cirq q)) (ucq_aux q) cs;
  cr_full : ofi_cirque_usedcnt (ucq_cirq q) = cq_size (ucq_cirq q) ->
            is_aux (cq_slots (ucq_cirq q)) (ofi_cirque_tindex (ucq_cirq q))
}.

(** Reduce record updates of a queue, leaving the ring operations folded. *)
Ltac cq_simpl := cbn [set_field ucq_cirq ucq_src ucq_aux ucq_format] in *.

(** ** Index arithmetic *)

Lemma u64_mod_pow2 x p : 0 <= p <= 64 -> u64 x mod 2 ^ p = x mod 2 ^ p.
Proof.
  intros Hp. unfold u64. rewrite Z.mod_mod_divide; [done|].
  exists (2 ^ (64 - p)). rewrite <- Z.pow_add_r by lia. f_equal; lia.
Qed.

Lemma land_mask x c : cirq_wf c -> Z.land x (cq_size_mask c) = x mod cq_size c.
Proof.
  intros [[p [Hp ->]] -> _ _ _ _].
  rewrite <- Z.land_ones by lia. by rewrite Z.ones_equiv.
Qed.

Lemma cirq_size_pos c : cirq_wf c -> 0 < cq_size c <= 2 ^ 63.
Proof.
  intros [[p [Hp ->]] _ _ _ _ _]. split; [lia|]. by apply Z.pow_le_mono_r; lia.
Qed.

Lemma used_nonneg c : 0 <= ofi_cirque_usedcnt c.
Proof. apply u64_range. Qed.

Lemma u64_size_mod c x : cirq_wf c -> u64 x mod cq_size c = x mod cq_size c.
Proof. intros [[p [Hp ->]] _ _ _ _ _]. apply u64_mod_pow2; lia. Qed.

Lemma freecnt_eq c : cirq_wf c -> ofi_cirque_freecnt c = cq_size c - ofi_cirque_usedcnt c.
Proof.
  intros H. pose proof (cirq_size_pos c H). pose proof (used_nonneg c).
  destruct H. apply u64_small. lia.
Qed.

Lemma isfull_spec c : cirq_wf c ->
  ofi_cirque_isfull c = true <-> ofi_cirque_usedcnt c = cq_size c.
Proof.
  intros H. unfold ofi_cirque_isfull. rewrite freecnt_eq by done.
  destruct H. lia.
Qed.

Lemma isempty_spec c : cirq_wf c -> ofi_cirque_isempty c = true <-> ofi_cirque_usedcnt c = 0.
Proof.
  intros []. unfold ofi_cirque_isempty, ofi_cirque_usedcnt, u64.
  rewrite Z.eqb_eq. split; [intros ->; by rewrite Z.sub_diag|].
  intros Hm. apply Z.mod_divide in Hm as [k Hk]; lia.
Qed.

Lemma wcnt_used c : cirq_wf c -> cq_wcnt c mod cq_size c = (cq_rcnt c + ofi_cirque_usedcnt c) mod cq_size c.
Proof.
  intros H. pose proof (cirq_size_pos c H). unfold ofi_cirque_usedcnt.
  rewrite <- Zplus_mod_idemp_r, u64_size_mod, Zplus_mod_idemp_r by done.
  f_equal; lia.
Qed.

Lemma windex_eq c : cirq_wf c ->
  ofi_cirque_windex c = (cq_rcnt c + ofi_cirque_usedcnt c) mod cq_size c.
Proof. intros H. unfold ofi_cirque_windex. rewrite land_mask by done. by apply wcnt_used. Qed.

Lemma windex_range c : cirq_wf c -> (Z.to_nat (ofi_cirque_windex c) < length (cq_slots c))%nat.
Proof.
  intros H. pose proof (cirq_size_pos c H). rewrite windex_eq by done.
  destruct H as [_ _ Hl _ _ _].
  pose proof (Z.mod_pos_bound (cq_rcnt c + ofi_cirque_usedcnt c) (cq_size c)). lia.
Qed.

Lemma rindex_eq c : cirq_wf c -> ofi_cirque_rindex c = cq_rcnt c mod cq_size c.
Proof. intros H. unfold ofi_cirque_rindex. by apply land_mask. Qed.

Lemma tindex_eq c : cirq_wf c ->
  ofi_cirque_tindex c = (cq_rcnt c + (ofi_cirque_usedcnt c - 1)) mod cq_size c.
Proof.
  intros H. unfold ofi_cirque_tindex. rewrite land_mask, u64_size_mod by done.
  rewrite <- Zminus_mod_idemp_l, wcnt_used, Zminus_mod_idemp_l by done. f_equal; lia.
Qed.

(** Counters modulo 2^64. *)
Lemma used_commit c : cirq_wf c -> ofi_cirque_usedcnt c < cq_size c ->
  ofi_cirque_usedcnt (ofi_cirque_commit c) = ofi_cirque_usedcnt c + 1.
Proof.
  intros H ?. pose proof (cirq_size_pos c H). pose proof (used_nonneg c).
  unfold ofi_cirque_usedcnt in *. cbn. unfold u64 in *.
  rewrite Zminus_mod_idemp_l.
  replace (cq_wcnt c + 1 - cq_rcnt c) with (cq_wcnt c - cq_rcnt c + 1) by lia.
  rewrite <- Zplus_mod_idemp_l. apply Z.mod_small. lia.
Qed.

Lemma used_discard c : cirq_wf c -> 0 < ofi_cirque_usedcnt c ->
  ofi_cirque_usedcnt (ofi_cirque_discard c) = ofi_cirque_usedcnt c - 1.
Proof.
  intros H ?. pose proof (cirq_size_pos c H). destruct H.
  unfold ofi_cirque_usedcnt in *. cbn. unfold u64 in *.
  rewrite Zminus_mod_idemp_r.
  replace (cq_wcnt c - (cq_rcnt c + 1)) with (cq_wcnt c - cq_rcnt c - 1) by lia.
  rewrite <- Zminus_mod_idemp_l. apply Z.mod_small. lia.
Qed.

Lemma cirq_wf_commit c : cirq_wf c -> ofi_cirque_usedcnt c < cq_size c -> cirq_wf (ofi_cirque_commit c).
Proof.
  intros H ?. pose proof (used_commit c H ltac:(lia)). pose proof (u64_range (cq_wcnt c + 1)).
  destruct H. split; cbn in *; try done; lia.
Qed.

Lemma cirq_wf_discard c : cirq_wf c -> 0 < ofi_cirque_usedcnt c -> cirq_wf (ofi_cirque_discard c).
Proof.
  intros H ?. pose proof (used_discard c H ltac:(lia)). pose proof (u64_range (cq_rcnt c + 1)).
  destruct H. split; cbn in *; try done; lia.
Qed.

Lemma cirq_wf_set_slot c i f : cirq_wf c -> cirq_wf (set_slot c i f).
Proof. intros []. split; cbn; try done. by rewrite length_alter. Qed.

(** ** The occupied slots under each counter move *)

Lemma seqZ_snoc a n : 0 <= n -> seqZ a (n + 1) = seqZ a n ++ [a + n].
Proof.
  intros ?. by rewrite seqZ_app by lia.
Qed.

Lemma slots_commit c : cirq_wf c -> ofi_cirque_usedcnt c < cq_size c ->
  cirq_slots (ofi_cirque_commit c) = cirq_slots c ++ [ofi_cirque_windex c].
Proof.
  intros H ?. unfold cirq_slots. rewrite used_commit, seqZ_snoc by (done || apply used_nonneg).
  by rewrite fmap_app, windex_eq by done.
Qed.

Lemma slots_discard c : cirq_wf c -> 0 < ofi_cirque_usedcnt c ->
  cirq_slots c = ofi_cirque_rindex c :: cirq_slots (ofi_cirque_discard c).
Proof.
  intros H ?. unfold cirq_slots. rewrite used_discard by done.
  rewrite (seqZ_cons 0) by lia. cbn [fmap list_fmap]. rewrite rindex_eq by done.
  f_equal; [f_equal; lia|].
  change (cq_size (ofi_cirque_discard c)) with (cq_size c).
  change (cq_rcnt (ofi_cirque_discard c)) with (u64 (cq_rcnt c + 1)).
  replace (Z.pred (ofi_cirque_usedcnt c)) with (ofi_cirque_usedcnt c - 1) by lia.
  rewrite <- (fmap_add_seqZ 1 0), <- list_fmap_compose.
  apply list_fmap_ext. intros i x _. cbn.
  rewrite <- (Zplus_mod_idemp_l (u64 _)), u64_size_mod, Zplus_mod_idemp_l by done. f_equal; lia.
Qed.

Lemma slots_last c : cirq_wf c -> 0 < ofi_cirque_usedcnt c ->
  exists sl, cirq_slots c = sl ++ [ofi_cirque_tindex c].
Proof.
  intros H ?. unfold cirq_slots.
  replace (ofi_cirque_usedcnt c) with (ofi_cirque_usedcnt c - 1 + 1) by lia.
  rewrite seqZ_snoc, fmap_app by lia. cbn [fmap list_fmap].
  rewrite Z.add_0_l, <- tindex_eq by done. eauto.
Qed.

Lemma tindex_commit c : cirq_wf c -> ofi_cirque_usedcnt c < cq_size c ->
  ofi_cirque_tindex (ofi_cirque_commit c) = ofi_cirque_windex c.
Proof.
  intros H ?. rewrite tindex_eq, used_commit, windex_eq by (done || by apply cirq_wf_commit).
  cbn. f_equal; lia.
Qed.

Lemma slot_inj (r n i j : Z) : 0 < n -> 0 <= i < n -> 0 <= j < n ->
  (r + i) mod n = (r + j) mod n -> i = j.
Proof.
  intros ??? Hm. assert (Hd : (i - j) mod n = 0).
  { replace (i - j) with ((r + i) - (r + j)) by lia.
    rewrite Zminus_mod, Hm, Z.sub_diag. apply Z.mod_0_l. lia. }
  apply Z.mod_divide in Hd as [k Hk]; [|lia]. assert (k = 0) by nia. lia.
Qed.

Lemma windex_fresh c : cirq_wf c -> ofi_cirque_usedcnt c < cq_size c ->
  Forall (fun s => Z.to_nat s <> Z.to_nat (ofi_cirque_windex c)) (cirq_slots c).
Proof.
  intros H ?. pose proof (cirq_size_pos c H). pose proof (used_nonneg c).
  apply Forall_fmap, Forall_forall. intros i Hi%elem_of_seqZ. cbn.
  rewrite windex_eq by done. intros Heq.
  pose proof (Z.mod_pos_bound (cq_rcnt c + i) (cq_size c)).
  pose proof (Z.mod_pos_bound (cq_rcnt c + ofi_cirque_usedcnt c) (cq_size c)).
  apply Z2Nat.inj in Heq; [|lia..]. apply slot_inj in Heq; lia.
Qed.

Lemma slots_nil c : ofi_cirque_usedcnt c = 0 -> cirq_slots c = [].
Proof. intros H. unfold cirq_slots. by rewrite H. Qed.

(** ** The representation under each structural change *)

(** Slot [s] reads the same in both arrays, or stands for auxiliary entries
    in both. *)
Definition same_slot buf src buf' src' (s : Z) : Prop :=
  (buf' !! Z.to_nat s = buf !! Z.to_nat s /\ cq_slot_src src' s = cq_slot_src src s) \/
  (is_aux buf s /\ is_aux buf' s).

(** Only the occupied slots matter. *)
Lemma rep_frame buf src buf' src' sl aux cs :
  rep buf src sl aux cs ->
  Forall (same_slot buf src buf' src') sl ->
  (is_Some src' <-> is_Some src) ->
  rep buf' src' sl aux cs.
Proof.
  intros Hr Hf Hs. induction Hr as [|s e a sl aux cs Hb Hn Ha Hr IH|s g sl aux cs Ha Hg Hall Hr IH].
  - constructor.
  - apply Forall_cons in Hf as [[[H1 H2]|[(e' & H1 & H2) _]] Hf]; [|congruence].
    econstructor; try done; try congruence. by apply IH.
  - apply Forall_cons in Hf as [Hsame Hf].
    replace ((fun a => mkCompletion (ax_comp a) (cq_aux_src src a)) <$> g)
      with ((fun a => mkCompletion (ax_comp a) (cq_aux_src src' a)) <$> g).
    + constructor; try done; [|by apply IH].
      destruct Hsame as [[H1 _]|[_ H]]; [|done].
      destruct Ha as (e & He & Hx). exists e. by rewrite H1.
    + apply list_fmap_ext. intros i a _. unfold cq_aux_src.
      destruct src, src'; try done; exfalso; destruct Hs as [H3 H4];
        [destruct (H4 ltac:(eauto)) as [? ?]|destruct (H3 ltac:(eauto)) as [? ?]]; done.
Qed.

Lemma rep_snoc buf src sl aux cs sl2 aux2 cs2 :
  rep buf src sl aux cs -> rep buf src sl2 aux2 cs2 ->
  rep buf src (sl ++ sl2) (aux ++ aux2) (cs ++ cs2).
Proof.
  intros Hr Hr2. induction Hr; cbn; [done|by econstructor|].
  rewrite <- !app_assoc. by constructor.
Qed.

(** An auxiliary tail slot takes one more entry. *)
Lemma rep_extend buf src sl t aux cs a :
  rep buf src (sl ++ [t]) aux cs -> is_aux buf t -> ax_cq_slot a = t ->
  rep buf src (sl ++ [t]) (aux ++ [a]) (cs ++ [mkCompletion (ax_comp a) (cq_aux_src src a)]).
Proof.
  intros Hr Ht Ha. remember (sl ++ [t]) as l eqn:El. revert sl El.
  induction Hr as [|s e b l aux cs Hb Hn Hs Hr IH|s g l aux cs Hx Hg Hall Hr IH]; intros sl El.
  - by destruct sl.
  - destruct sl as [|s' sl]; cbn in El; injection El as -> ->.
    + destruct Ht as (e' & He & Hf). congruence.
    + cbn. econstructor; try done. by eapply IH.
  - destruct sl as [|s' sl]; cbn in El; injection El as -> ->.
    + inversion Hr; subst. rewrite !app_nil_r.
      pose proof (rep_aux buf src (ax_cq_slot a) (g ++ [a]) [] [] [] Hx) as H.
      rewrite !app_nil_r, fmap_app in H. cbn in H. apply H; [by destruct g| |constructor].
      apply Forall_app; auto.
    + rewrite <- !app_assoc. constructor; try done. by eapply IH.
Qed.

(** ** Writes append *)

Lemma set_slot_lookup c i f : (Z.to_nat i < length (cq_slots c))%nat ->
  exists e, cq_slots c !! Z.to_nat i = Some e /\
            cq_slots (set_slot c i f) !! Z.to_nat i = Some (f e).
Proof.
  intros H. apply lookup_lt_is_Some in H as [e He]. exists e. split; [done|].
  cbn. by rewrite list_lookup_alter_eq, He.
Qed.

Lemma set_slot_frame c i f sl : Forall (fun s => Z.to_nat s <> Z.to_nat i) sl ->
  Forall (fun s => cq_slots (set_slot c i f) !! Z.to_nat s = cq_slots c !! Z.to_nat s) sl.
Proof. intros H. eapply Forall_impl; [exact H|]. intros s Hs. cbn. by apply list_lookup_alter_ne. Qed.

Lemma not_full_after_write c : cirq_wf c -> ofi_cirque_freecnt c > 1 ->
  ofi_cirque_usedcnt c + 1 < cq_size c.
Proof. intros H. rewrite freecnt_eq by done. lia. Qed.

(** The array path, for any new content of the source array that keeps the
    occupied slots. *)
Lemma write_entry_rep q src' cs e a :
  cq_rep q cs ->
  ofi_cirque_freecnt (ucq_cirq q) > 1 ->
  has (ce_flags e) UTIL_FLAG_AUX = false ->
  cq_slot_src src' (ofi_cirque_windex (ucq_cirq q)) = Some a ->
  (is_Some src' <-> is_Some (ucq_src q)) ->
  (forall arr, src' = Some arr -> length arr = length (cq_slots (ucq_cirq q))) ->
  Forall (fun s => cq_slot_src src' s = cq_slot_src (ucq_src q) s) (cirq_slots (ucq_cirq q)) ->
  cq_rep (ofi_cq_write_entry (q <| ucq_src := src' |>) e) (cs ++ [mkCompletion (comp_ok e) a]).
Proof.
  intros [Hwf Hsrc Hrep _] Hfree Hflag Ha Hsome Hlen Hfr.
  set (c := ucq_cirq q) in *. set (w := ofi_cirque_windex c) in *.
  pose proof (not_full_after_write c Hwf Hfree) as Hroom.
  pose proof (cirq_wf_set_slot c w (fun _ => e) Hwf) as Hwf'.
  destruct (set_slot_lookup c w (fun _ => e)) as (e0 & _ & Hnew); [by apply windex_range|].
  unfold ofi_cq_write_entry. split; cq_simpl; fold c w.
  - apply cirq_wf_commit; [done|]. change (ofi_cirque_usedcnt c < cq_size c). lia.
  - cbn. destruct src' as [arr|]; [|done]. rewrite length_alter. by apply Hlen.
  - rewrite slots_commit by (done || (change (ofi_cirque_usedcnt c < cq_size c); lia)).
    rewrite <- (app_nil_r (ucq_aux _)).
    change (cirq_slots (set_slot c w (fun _ => e))) with (cirq_slots c).
    apply rep_snoc.
    + eapply rep_frame; [exact Hrep| |exact Hsome].
      apply (Forall_impl _ _ _ (proj2 (Forall_and _ _) (conj
        (set_slot_frame c w (fun _ => e) _ (windex_fresh c Hwf ltac:(lia))) Hfr))).
      intros s [? ?]. by left.
    + econstructor; [exact Hnew|done|exact Ha|constructor].
  - intros Hfull. exfalso. rewrite used_commit in Hfull by (done || (change (ofi_cirque_usedcnt c < cq_size c); lia)).
    change (ofi_cirque_usedcnt c + 1 = cq_size c) in Hfull. lia.
Qed.

(** The auxiliary path: a new entry always lands behind everything queued,
    on the tail slot of a full array or on a fresh slot. *)
Definition mark_aux (e : fi_cq_tagged_entry) : fi_cq_tagged_entry := e <| ce_flags := UTIL_FLAG_AUX |>.

Lemma mark_aux_is_aux c t : cq_slots c !! Z.to_nat t <> None ->
  is_aux (cq_slots (set_slot c t mark_aux)) t.
Proof.
  intros Ht. destruct (cq_slots c !! Z.to_nat t) as [e|] eqn:He; [|done].
  exists (mark_aux e). cbn. by rewrite list_lookup_alter_eq, He.
Qed.

Lemma rep_mark_tail c src aux cs a :
  cirq_wf c -> ofi_cirque_usedcnt c = cq_size c ->
  is_aux (cq_slots c) (ofi_cirque_tindex c) ->
  rep (cq_slots c) src (cirq_slots c) aux cs -> ax_cq_slot a = ofi_cirque_tindex c ->
  rep (cq_slots (set_slot c (ofi_cirque_tindex c) mark_aux)) src (cirq_slots c)
    (aux ++ [a]) (cs ++ [mkCompletion (ax_comp a) (cq_aux_src src a)]).
Proof.
  intros Hwf Hfull Ht Hrep Ha. pose proof (cirq_size_pos c Hwf).
  destruct (slots_last c Hwf) as [sl Hsl]; [lia|]. rewrite Hsl in *.
  assert (Ht' : is_aux (cq_slots (set_slot c (ofi_cirque_tindex c) mark_aux)) (ofi_cirque_tindex c)).
  { apply mark_aux_is_aux. by destruct Ht as (e & -> & _). }
  apply rep_extend; [|done..]. eapply rep_frame; [exact Hrep| |done].
  apply Forall_forall. intros s _.
  destruct (decide (Z.to_nat s = Z.to_nat (ofi_cirque_tindex c))) as [E|E].
  - right. unfold is_aux. by rewrite E.
  - left. split; [|done]. cbn. by apply list_lookup_alter_ne.
Qed.

Lemma rep_mark_next c src aux cs a :
  cirq_wf c -> ofi_cirque_usedcnt c < cq_size c ->
  rep (cq_slots c) src (cirq_slots c) aux cs -> ax_cq_slot a = ofi_cirque_windex c ->
  rep (cq_slots (set_slot (ofi_cirque_commit c) (ofi_cirque_windex c) mark_aux)) src
    (cirq_slots (ofi_cirque_commit c))
    (aux ++ [a]) (cs ++ [mkCompletion (ax_comp a) (cq_aux_src src a)]).
Proof.
  intros Hwf Hlt Hrep Ha. rewrite slots_commit by done. apply rep_snoc.
  - eapply rep_frame; [exact Hrep| |done].
    apply (Forall_impl _ _ _ (windex_fresh c Hwf Hlt)).
    intros s Hs. left. split; [|done]. cbn. by apply list_lookup_alter_ne.
  - apply (rep_aux _ _ _ [a] [] [] []); [|done|by repeat constructor|constructor].
    apply mark_aux_is_aux. intros E%lookup_ge_None.
    pose proof (windex_range c Hwf). cbn in *. lia.
Qed.

Lemma not_isfull c : cirq_wf c -> ofi_cirque_isfull c = false -> ofi_cirque_usedcnt c < cq_size c.
Proof.
  intros Hwf Hf. unfold ofi_cirque_isfull in Hf. rewrite freecnt_eq in Hf by done. lia.
Qed.

Lemma insert_aux_rep q cs comp src :
  cq_rep q cs ->
  cq_rep (util_cq_insert_aux q comp src)
    (cs ++ [mkCompletion comp (match ucq_src q with Some _ => src | None => FI_ADDR_NOTAVAIL end)]).
Proof.
  intros [Hwf Hsrc Hrep Hfull]. unfold util_cq_insert_aux.
  set (c := ucq_cirq q) in *. fold mark_aux.
  destruct (ofi_cirque_isfull c) eqn:Hf.
  - apply isfull_spec in Hf; [|done]. specialize (Hfull Hf).
    split; cq_simpl; [by apply cirq_wf_set_slot| | |].
    + destruct (ucq_src q); [|done]. cbn. by rewrite length_alter.
    + by apply (rep_mark_tail c (ucq_src q) _ _ (mkAux (ofi_cirque_tindex c) comp src)).
    + intros _. apply (mark_aux_is_aux c (ofi_cirque_tindex c)). by destruct Hfull as (e & -> & _).
  - apply not_isfull in Hf; [|done]. rewrite tindex_commit by done.
    split; cq_simpl; [by apply cirq_wf_set_slot, cirq_wf_commit| | |].
    + destruct (ucq_src q); [|done]. cbn. by rewrite length_alter.
    + by apply (rep_mark_next c (ucq_src q) _ _ (mkAux (ofi_cirque_windex c) comp src)).
    + intros _. change (ofi_cirque_tindex (set_slot _ _ _)) with (ofi_cirque_tindex (ofi_cirque_commit c)).
      rewrite tindex_commit by done. apply mark_aux_is_aux. intros E%lookup_ge_None.
      pose proof (windex_range c Hwf). cbn in *. lia.
Qed.

(** ** Reads take from the front *)

Lemma rep_aux_slots buf src sl aux cs : rep buf src sl aux cs ->
  Forall (fun a => ax_cq_slot a ∈ sl) aux.
Proof.
  induction 1 as [|s e a sl aux cs _ _ _ _ IH|s g sl aux cs _ _ Hg _ IH]; [done| |].
  - eapply Forall_impl; [exact IH|]. intros. by apply list_elem_of_further.
  - apply Forall_app. split; (eapply Forall_impl; [eassumption|]); intros b Hb; cbn in *.
    + rewrite Hb. apply list_elem_of_here.
    + by apply list_elem_of_further.
Qed.

Lemma slots_NoDup c : cirq_wf c -> NoDup (cirq_slots c).
Proof.
  intros H. pose proof (cirq_size_pos c H). destruct H. apply NoDup_fmap_2_strong; [|apply NoDup_seqZ].
  intros x y Hx%elem_of_seqZ Hy%elem_of_seqZ E. apply slot_inj in E; lia.
Qed.

Lemma rep_nonempty buf src sl aux cs : rep buf src sl aux cs -> (length sl <= length cs)%nat.
Proof.
  induction 1 as [|s e a sl aux cs _ _ _ _ IH|s g sl aux cs _ Hg _ _ IH]; cbn; [lia|lia|].
  rewrite length_app, length_fmap. destruct g; [done|]. cbn. lia.
Qed.

Lemma slots_length c : Z.of_nat (length (cirq_slots c)) = ofi_cirque_usedcnt c.
Proof. unfold cirq_slots. rewrite length_fmap, length_seqZ. pose proof (used_nonneg c). lia. Qed.

Lemma used_le_length q cs : cq_rep q cs -> ofi_cirque_usedcnt (ucq_cirq q) <= Z.of_nat (length cs).
Proof.
  intros H. pose proof (rep_nonempty _ _ _ _ _ (cr_rep q cs H)).
  pose proof (slots_length (ucq_cirq q)). lia.
Qed.

Lemma cq_rep_empty q cs : cq_rep q cs -> ofi_cirque_usedcnt (ucq_cirq q) = 0 -> cs = [].
Proof.
  intros [_ _ Hr _] H. rewrite slots_nil in Hr by done. by inversion Hr.
Qed.

(** Dropping the head slot once nothing is left under it. *)
Lemma discard_rep q aux cs :
  cirq_wf (ucq_cirq q) -> 0 < ofi_cirque_usedcnt (ucq_cirq q) ->
  match ucq_src q with Some arr => length arr = length (cq_slots (ucq_cirq q)) | None => True end ->
  rep (cq_slots (ucq_cirq q)) (ucq_src q) (cirq_slots (ofi_cirque_discard (ucq_cirq q))) aux cs ->
  cq_rep (q <| ucq_aux := aux |> <| ucq_cirq ::= ofi_cirque_discard |>) cs.
Proof.
  intros Hwf Hu Hsrc Hr. split; cq_simpl; [by apply cirq_wf_discard|done|done|].
  intros Hfull. rewrite used_discard in Hfull by done.
  change (cq_size (ofi_cirque_discard (ucq_cirq q))) with (cq_size (ucq_cirq q)) in Hfull.
  destruct Hwf. lia.
Qed.

(** What the head slot of a non-empty queue is, and what removing it leaves. *)
Inductive head_view (q : util_cq) : list completion -> Prop :=
| head_entry e a cs :
    cq_slots (ucq_cirq q) !! Z.to_nat (ofi_cirque_rindex (ucq_cirq q)) = Some e ->
    has (ce_flags e) UTIL_FLAG_AUX = false ->
    cq_slot_src (ucq_src q) (ofi_cirque_rindex (ucq_cirq q)) = Some a ->
    cq_rep (q <| ucq_cirq ::= ofi_cirque_discard |>) cs ->
    head_view q (mkCompletion (comp_ok e) a :: cs)
| head_aux e a rest cs :
    cq_slots (ucq_cirq q) !! Z.to_nat (ofi_cirque_rindex (ucq_cirq q)) = Some e ->
    has (ce_flags e) UTIL_FLAG_AUX = true ->
    ucq_aux q = a :: rest ->
    ax_cq_slot a = ofi_cirque_rindex (ucq_cirq q) ->
    cq_rep (aux_pop q) cs ->
    head_view q (mkCompletion (ax_comp a) (cq_aux_src (ucq_src q) a) :: cs).

(** Removing the head auxiliary entry drops the slot exactly when no later
    entry belongs to it. *)
Lemma aux_pop_rep q a g sl aux cs :
  cirq_wf (ucq_cirq q) -> 0 < ofi_cirque_usedcnt (ucq_cirq q) ->
  match ucq_src q with Some arr => length arr = length (cq_slots (ucq_cirq q)) | None => True end ->
  (ofi_cirque_usedcnt (ucq_cirq q) = cq_size (ucq_cirq q) ->
   is_aux (cq_slots (ucq_cirq q)) (ofi_cirque_tindex (ucq_cirq q))) ->
  cirq_slots (ucq_cirq q) = ofi_cirque_rindex (ucq_cirq q) :: sl ->
  is_aux (cq_slots (ucq_cirq q)) (ofi_cirque_rindex (ucq_cirq q)) ->
  Forall (fun a => ax_cq_slot a = ofi_cirque_rindex (ucq_cirq q)) g ->
  rep (cq_slots (ucq_cirq q)) (ucq_src q) sl aux cs ->
  ucq_aux q = a :: g ++ aux ->
  cq_rep (aux_pop q) (((fun a => mkCompletion (ax_comp a) (cq_aux_src (ucq_src q) a)) <$> g) ++ cs).
Proof.
  intros Hwf Hu Hsrc Hfull Hsl Hx Hg Hr Haux.
  pose proof (slots_discard _ Hwf Hu) as Hd. rewrite Hsl in Hd. injection Hd as Hd.
  unfold aux_pop. rewrite Haux. cbn [tail].
  destruct g as [|b g].
  - cbn [app fmap list_fmap]. assert (Hdone : cq_rep (q <| ucq_aux := aux |> <| ucq_cirq ::= ofi_cirque_discard |>) cs).
    { apply discard_rep; [done..|]. by rewrite <- Hd. }
    destruct aux as [|b aux]; [done|]. cq_simpl. destruct (_ =? _) eqn:E; [|exact Hdone].
    exfalso. pose proof (rep_aux_slots _ _ _ _ _ Hr) as [Hin _]%Forall_cons.
    pose proof (slots_NoDup _ Hwf) as Hnd. rewrite Hsl in Hnd. apply NoDup_cons in Hnd as [Hni _].
    apply Z.eqb_eq in E. apply Hni. by rewrite <- E.
  - pose proof Hg as [Hb _]%Forall_cons. cbn [app]. cq_simpl.
    rewrite Hb, Z.eqb_refl. split; cq_simpl; [done..| |done].
    rewrite Hsl. by apply (rep_aux _ _ _ (b :: g)).
Qed.

Lemma cq_head q cs : cq_rep q cs -> 0 < ofi_cirque_usedcnt (ucq_cirq q) -> head_view q cs.
Proof.
  intros [Hwf Hsrc Hrep Hfull] Hu. pose proof (slots_discard _ Hwf Hu) as Hsl.
  rewrite Hsl in Hrep. inversion Hrep as [|s e a sl aux cs' Hb Hn Ha Hr|s g sl aux cs' Hx Hg Hall Hr]; subst.
  - econstructor; [done..|].
    pose proof (discard_rep q (ucq_aux q) cs' Hwf Hu Hsrc Hr) as H. by destruct q.
  - destruct g as [|a g]; [done|]. apply Forall_cons in Hall as [Ha Hall].
    pose proof Hx as (e & He & Hf). cbn [app fmap list_fmap].
    eapply head_aux; [done..|]. by eapply aux_pop_rep.
Qed.

Lemma ok_prefix_cons n c cs :
  ok_prefix (S n) (c :: cs) = if ee_err (c_comp c) =? 0 then c :: ok_prefix n cs else [].
Proof. done. Qed.

Lemma used_discard_ge q n : cirq_wf (ucq_cirq q) -> Z.of_nat (S n) <= ofi_cirque_usedcnt (ucq_cirq q) ->
  Z.of_nat n <= ofi_cirque_usedcnt (ofi_cirque_discard (ucq_cirq q)).
Proof. intros Hwf H. rewrite used_discard by (done || lia). lia. Qed.

Lemma used_aux_pop_ge q n : cirq_wf (ucq_cirq q) -> Z.of_nat (S n) <= ofi_cirque_usedcnt (ucq_cirq q) ->
  Z.of_nat n <= ofi_cirque_usedcnt (ucq_cirq (aux_pop q)).
Proof.
  intros Hwf H. pose proof (used_discard_ge q n Hwf H).
  unfold aux_pop. destruct (tail _) as [|b ?]; cq_simpl; [done|].
  destruct (_ =? _); cq_simpl; lia.
Qed.

Lemma aux_pop_format q : ucq_format (aux_pop q) = ucq_format q.
Proof. unfold aux_pop. destruct (tail _); [done|]. by destruct (_ =? _). Qed.

(** The loop of [ofi_cq_read_entries]: it takes exactly the error-free
    prefix and never trips an assertion. *)
Lemma read_loop_spec n q cs out :
  cq_rep q cs -> Z.of_nat n <= ofi_cirque_usedcnt (ucq_cirq q) ->
  let pre := ok_prefix n cs in
  let out' := out ++ (out_of (ucq_format q) <$> pre) in
  exists q',
    read_loop n q out =
      Some (if (length pre <? n)%nat && (length out' =? 0)%nat then - FI_EAVAIL
            else Z.of_nat (length out'), out', q') /\
    ucq_format q' = ucq_format q /\ cq_rep q' (drop (length pre) cs).
Proof.
  revert q cs out. induction n as [|n IH]; intros q cs out Hq Hn.
  { cbn. rewrite app_nil_r, drop_0. eauto. }
  pose proof (cr_wf q cs Hq) as Hwf.
  destruct (cq_head q cs Hq ltac:(lia)) as [e a cs Hb Hf Ha Hr|e a rest cs Hb Hf Haux Hs Hr].
  - cbn zeta. rewrite ok_prefix_cons. cbn [c_comp comp_ok ee_err]. cbn [Z.eqb].
    destruct (IH _ cs (out ++ [(read_entry (ucq_format q) e, a)]) Hr) as (q' & Hl & Hfmt & Hq').
    { by apply used_discard_ge. }
    exists q'. cbn [read_loop]. rewrite Hb, Hf, Ha. cbn [negb]. rewrite Hl. cq_simpl.
    cbn [fmap list_fmap length drop]. rewrite <- app_assoc. done.
  - cbn zeta. rewrite ok_prefix_cons. cbn [c_comp].
    cbn [read_loop]. rewrite Hb, Hf, Haux, Hs, Z.eqb_refl. cbn [negb].
    destruct (ee_err (ax_comp a) =? 0) eqn:Herr; cbn [negb].
    + destruct (IH _ cs (out ++ [(read_entry (ucq_format q) (ee_comp (ax_comp a)), cq_aux_src (ucq_src q) a)]) Hr)
        as (q' & Hl & Hfmt & Hq'); [by apply used_aux_pop_ge|].
      exists q'. rewrite Hl, aux_pop_format in *. cbn [fmap list_fmap length drop].
      rewrite <- app_assoc. done.
    + exists q. cbn [fmap list_fmap length drop]. rewrite app_nil_r. done.
Qed.

(** ** The queue theorems *)

Lemma util_cq_init_rep n source fmt :
  0 <= n <= 2 ^ 63 ->
  cq_rep (util_cq_init n source fmt) [] /\ n <= cq_size (ucq_cirq (util_cq_init n source fmt)).
Proof.
  intros Hn. set (m := if n =? 0 then UTIL_DEF_CQ_SIZE else n).
  assert (Hm : 1 <= m <= 2 ^ 63 /\ n <= m) by (unfold m, UTIL_DEF_CQ_SIZE; destruct (n =? 0) eqn:?; lia).
  assert (Hp : exists p, 0 <= p <= 63 /\ roundup_power_of_two m = 2 ^ p /\ m <= 2 ^ p).
  { unfold roundup_power_of_two. destruct (m <? 2) eqn:?.
    - exists 0. split_and!; cbn; lia.
    - pose proof (Z.log2_spec (m - 1) ltac:(lia)). pose proof (Z.log2_nonneg (m - 1)).
      exists (Z.log2 (m - 1) + 1). assert (Z.log2 (m - 1) < 63).
      { apply (Z.pow_lt_mono_r_iff 2); lia. }
      rewrite Z.add_1_r. split_and!; lia. }
  destruct Hp as (p & Hp & Er & Hmp). unfold util_cq_init, util_comp_cirq_init. fold m.
  cbn [ucq_cirq cq_size]. rewrite Er. split; [|lia]. split.
  - split; cbn; try done; [eauto|rewrite length_replicate; lia|].
    change (0 <= 2 ^ p). lia.
  - cbn. destruct source; [|done]. by rewrite !length_replicate.
  - rewrite slots_nil by done. constructor.
  - intros H. change (0 = 2 ^ p) in H. lia.
Qed.

(** A fresh completion queue of any accepted size is empty: the array is
    a power of two at least as large as requested, and both structures
    represent the empty sequence of completions. *)
Theorem util_cq_init_empty n source fmt :
  0 <= n <= 2 ^ 63 ->
  cq_rep (util_cq_init n source fmt) [] /\ n <= cq_size (ucq_cirq (util_cq_init n source fmt)).
Proof. apply util_cq_init_rep. Qed.

Lemma util_cq_init_empty_witness : cq_rep (util_cq_init 10 true FORMAT_TAGGED) [] /\
  10 <= cq_size (ucq_cirq (util_cq_init 10 true FORMAT_TAGGED)).
Proof. apply (util_cq_init_empty 10 true FORMAT_TAGGED). lia. Defined.

Lemma write_plain_rep q cs e :
  cq_rep q cs -> ofi_cirque_freecnt (ucq_cirq q) > 1 -> has (ce_flags e) UTIL_FLAG_AUX = false ->
  exists a, cq_rep (ofi_cq_write_entry q e) (cs ++ [mkCompletion (comp_ok e) a]).
Proof.
  intros Hq Hfree Hf. pose proof (windex_range _ (cr_wf q cs Hq)) as Hw.
  pose proof (cr_src q cs Hq) as Hl.
  assert (exists a, cq_slot_src (ucq_src q) (ofi_cirque_windex (ucq_cirq q)) = Some a) as [a Ha].
  { unfold cq_slot_src. destruct (ucq_src q); [|eauto]. apply lookup_lt_is_Some. congruence. }
  exists a. pose proof (write_entry_rep q (ucq_src q) cs e a Hq Hfree Hf Ha) as H.
  replace (q <| ucq_src := ucq_src q |>) with q in H by (by destruct q).
  apply H; [done| |by apply Forall_forall]. intros arr Harr. by rewrite Harr in Hl.
Qed.

Lemma write_src_rep q cs e src :
  cq_rep q cs -> ofi_cirque_freecnt (ucq_cirq q) > 1 -> has (ce_flags e) UTIL_FLAG_AUX = false ->
  is_Some (ucq_src q) ->
  exists q', ofi_cq_write_src_entry q e src = Some q' /\ cq_rep q' (cs ++ [mkCompletion (comp_ok e) src]).
Proof.
  intros Hq Hfree Hf [arr Harr]. unfold ofi_cq_write_src_entry. rewrite Harr.
  eexists. split; [done|]. pose proof (windex_range _ (cr_wf q cs Hq)) as Hw.
  pose proof (cr_src q cs Hq) as Hl. rewrite Harr in Hl.
  pose proof (not_full_after_write _ (cr_wf q cs Hq) Hfree).
  apply (write_entry_rep q _ cs e src Hq Hfree Hf).
  - cbn. apply list_lookup_insert_eq. by rewrite Hl.
  - by rewrite Harr.
  - intros ? [= <-]. by rewrite length_insert.
  - eapply Forall_impl; [apply windex_fresh; [apply Hq|lia]|].
    intros s Hs. rewrite Harr. cbn. by apply list_lookup_insert_ne.
Qed.

Section Refinement.
Context {K : Type} `{!Kernel K}.

(** A completion that finds the array full goes to the auxiliary list. *)
Lemma write_overflow_spec e src (q : util_cq) (k : K) cs :
  cq_rep q cs -> ofi_cirque_freecnt (ucq_cirq q) <= 1 ->
  wp (ofi_cq_write_overflow e src) (fun r '(q', _) =>
    (r = 0 /\ exists a, cq_rep q' (cs ++ [mkCompletion (comp_ok e) a]) /\
                        (is_Some (ucq_src q) -> a = src)) \/
    (r = - FI_ENOMEM /\ q' = q /\ ofi_cirque_freecnt (ucq_cirq q) <= 1 /\ refuses K AUX_SIZE)) (q, k).
Proof.
  intros Hq Hfree. unfold ofi_cq_write_overflow, cq_alloc, cq_gets. apply wp_bind, wp_gets. replace (_ >? 1) with false by lia.
  apply wp_bind. unfold wp at 1. destruct (k_alloc AUX_SIZE k) as [[p|] k'] eqn:Ek; wp_pure.
  - left. split; [done|]. eexists. split; [by apply insert_aux_rep|].
    by intros [? ->].
  - right. split_and!; [done..|]. exists k. by rewrite Ek.
Qed.

(** A write appends; with -FI_ENOMEM it changes nothing, the array has no
    room and the overflow entry was refused. *)
Lemma ofi_cq_write_appends (with_src : bool) e src (q : util_cq) (k : K) cs :
  cq_rep q cs -> has (ce_flags e) UTIL_FLAG_AUX = false ->
  (with_src = true -> is_Some (ucq_src q)) ->
  wp (if with_src then ofi_cq_write_src e src else ofi_cq_write e) (fun r '(q', _) =>
    (r = 0 /\ exists a, cq_rep q' (cs ++ [mkCompletion (comp_ok e) a]) /\
                        (with_src = true -> a = src)) \/
    (r = - FI_ENOMEM /\ q' = q /\ ofi_cirque_freecnt (ucq_cirq q) <= 1 /\ refuses K AUX_SIZE)) (q, k).
Proof.
  intros Hq Hf Hsrc.
  destruct with_src; unfold ofi_cq_write_src, ofi_cq_write, cq_gets; wp_pure;
    destruct (_ >? 1) eqn:Hfree.
  - destruct (write_src_rep q cs e src) as (q' & Hw & Hq'); [done|lia|done|by apply Hsrc|].
    wp_pure. rewrite Hw. wp_pure. left. eauto.
  - eapply wp_mono; [apply write_overflow_spec; [done|lia]|].
    intros r [q' k'] [[-> (a & ? & Ha)]|?]; [left|by right]. eauto 10.
  - destruct (write_plain_rep q cs e) as [a Ha]; [done|lia|done|].
    wp_pure. left. split; [done|]. by exists a.
  - eapply wp_mono; [apply write_overflow_spec; [done|lia]|].
    intros r [q' k'] [[-> (a & ? & Ha)]|?]; [left|by right]. split; [done|]. by exists a.
Qed.

(** The allocations an error entry takes: itself, and its error data. *)
Definition err_refused (err : fi_cq_err_entry) : Prop :=
  refuses K AUX_SIZE \/ ee_err_data err <> [] /\ refuses K (Z.of_nat (length (ee_err_data err))).

(** So does an error completion. *)
Lemma ofi_cq_write_error_appends err (q : util_cq) (k : K) cs :
  cq_rep q cs -> ee_err err <> 0 ->
  wp (ofi_cq_write_error err) (fun r '(q', _) =>
    (r = 0 /\ exists a, cq_rep q' (cs ++ [mkCompletion err a])) \/
    (r = - FI_ENOMEM /\ q' = q /\ err_refused err)) (q, k).
Proof.
  intros Hq He. unfold ofi_cq_write_error, util_cq_insert_error, cq_alloc. rewrite (proj2 (Z.eqb_neq _ 0) He). apply wp_bind. unfold wp at 1.
  destruct (k_alloc AUX_SIZE k) as [[p|] k'] eqn:Ek; [|right; split_and!; [done..|left; exists k; by rewrite Ek]].
  destruct (length (ee_err_data err) =? 0)%nat eqn:El.
  - wp_pure. left. split; [done|]. eexists. by apply insert_aux_rep.
  - apply wp_bind. unfold wp at 1. destruct (k_alloc _ k') as [[p'|] k''] eqn:Ek'.
    + wp_pure. left. split; [done|]. eexists. by apply insert_aux_rep.
    + right. split_and!; [done..|right]. split; [by intros E; rewrite E in El|]. exists k'. by rewrite Ek'.
Qed.

(** [ofi_cq_readerr] removes an error at the front and nothing else. *)
Lemma ofi_cq_readerr_pops size old (q : util_cq) (k : K) cs :
  cq_rep q cs ->
  wp (ofi_cq_readerr size old) (fun '(r, err) '(q', _) =>
    match cs with
    | c :: cs' =>
        if ee_err (c_comp c) =? 0 then r = - FI_EAGAIN /\ err = None /\ q' = q
        else (r = 1 /\ err = Some (c_comp c) /\ cq_rep q' cs') \/
             (r = - FI_ENOMEM /\ err = None /\ q' = q /\ ee_err_data (c_comp c) <> [] /\ refuses K (Z.of_nat (length (ee_err_data (c_comp c)))))
    | [] => r = - FI_EAGAIN /\ err = None /\ q' = q
    end) (q, k).
Proof.
  intros Hq. unfold ofi_cq_readerr, cq_gets. wp_pure.
  pose proof (isempty_spec _ (cr_wf q cs Hq)) as Hem. pose proof (used_nonneg (ucq_cirq q)).
  destruct (ofi_cirque_isempty (ucq_cirq q)).
  { rewrite (cq_rep_empty q cs Hq) by (by apply Hem). wp_pure. done. }
  assert (0 < ofi_cirque_usedcnt (ucq_cirq q)) as Hu by (destruct (Z.eq_dec (ofi_cirque_usedcnt (ucq_cirq q)) 0); intuition (done || lia)).
  destruct (cq_head q cs Hq Hu) as [e a cs Hb Hf Ha Hr|e a rest cs Hb Hf Haux Hs Hr];
    apply wp_bind; rewrite Hb; wp_pure; rewrite Hf; wp_pure; [done|].
  rewrite Haux. wp_pure. rewrite Hs, Z.eqb_refl. cbn [negb c_comp].
  destruct (ee_err (ax_comp a) =? 0); [by wp_pure|].
  apply wp_bind. destruct (negb _ && _) eqn:Hd; wp_pure.
  - unfold cq_alloc. unfold wp at 1. destruct (k_alloc _ k) as [[p|] k'] eqn:Ek; wp_pure; [by left|].
    right. split_and!; [done..|intros E; by rewrite E in Hd|]. exists k. by rewrite Ek.
  - by left.
Qed.
End Refinement.

(** [ofi_cq_read_entries] takes an error-free prefix. *)
Lemma ofi_cq_read_entries_fifo q cs count :
  cq_rep q cs -> 0 <= count ->
  let n := Z.to_nat (Z.min count (ofi_cirque_usedcnt (ucq_cirq q))) in
  let pre := ok_prefix n cs in
  exists q',
    ofi_cq_read_entries q count =
      Some (match cs with
            | [] => - FI_EAGAIN
            | _ => if (length pre <? n)%nat && (length pre =? 0)%nat then - FI_EAVAIL
                   else Z.of_nat (length pre)
            end, out_of (ucq_format q) <$> pre, q') /\
    cq_rep q' (drop (length pre) cs).
Proof.
  intros Hq Hc n pre. unfold ofi_cq_read_entries.
  pose proof (isempty_spec _ (cr_wf q cs Hq)) as Hem. pose proof (used_nonneg (ucq_cirq q)).
  pose proof (used_le_length q cs Hq) as Hle.
  destruct (ofi_cirque_isempty (ucq_cirq q)).
  - pose proof (cq_rep_empty q cs Hq ltac:(by apply Hem)). subst cs. exists q.
    unfold pre. destruct n; cbn; done.
  - destruct cs as [|c cs]; [cbn in Hle; exfalso; assert (false = true) by (apply Hem; lia); done|].
    replace (if count >? _ then _ else count) with (Z.min count (ofi_cirque_usedcnt (ucq_cirq q)))
      by (destruct (count >? _) eqn:?; lia).
    destruct (read_loop_spec n q (c :: cs) [] Hq) as (q' & Hl & _ & Hq'); [lia|].
    exists q'. fold n. rewrite Hl. cbn [app]. rewrite length_fmap. done.
Qed.

(** ** Refinement of the abstract queue *)

(** The operations of a completion queue and what each returns. *)
Inductive cq_op :=
| OpWrite (e : fi_cq_tagged_entry)
| OpWriteSrc (e : fi_cq_tagged_entry) (src : Z)
| OpWriteErr (err : fi_cq_err_entry)
| OpRead (count : Z)
| OpReadErr (err_data_size : Z) (old_api : bool).

Inductive cq_res :=
| ResStatus (r : Z)
| ResRead (r : Z) (out : list (cq_out * Z))
| ResErr (r : Z) (err : option fi_cq_err_entry).

(** Completions never carry the internal marker; sources need the array; an
    error completion has an error. *)
Definition cq_op_ok (has_src : bool) (op : cq_op) : Prop :=
  match op with
  | OpWrite e => has (ce_flags e) UTIL_FLAG_AUX = false
  | OpWriteSrc e _ => has (ce_flags e) UTIL_FLAG_AUX = false /\ has_src = true
  | OpWriteErr err => ee_err err <> 0
  | OpRead count => 0 <= count
  | OpReadErr _ _ => True
  end.

(** The abstract queue; [oom] tells whether allocations can be refused. *)
Inductive fifo_step (oom : Prop) (fmt : cq_format) : list completion -> cq_op -> cq_res -> list completion -> Prop :=
| fs_write cs e a :
    fifo_step oom fmt cs (OpWrite e) (ResStatus 0) (cs ++ [mkCompletion (comp_ok e) a])
| fs_write_src cs e src :
    fifo_step oom fmt cs (OpWriteSrc e src) (ResStatus 0) (cs ++ [mkCompletion (comp_ok e) src])
| fs_write_err cs err a :
    fifo_step oom fmt cs (OpWriteErr err) (ResStatus 0) (cs ++ [mkCompletion err a])
| fs_nomem cs op :
    oom -> (forall n, op <> OpRead n) -> (forall n b, op <> OpReadErr n b) ->
    fifo_step oom fmt cs op (ResStatus (- FI_ENOMEM)) cs
| fs_read_empty count :
    fifo_step oom fmt [] (OpRead count) (ResRead (- FI_EAGAIN) []) []
| fs_read_error c cs count :
    0 < count -> ee_err (c_comp c) <> 0 ->
    fifo_step oom fmt (c :: cs) (OpRead count) (ResRead (- FI_EAVAIL) []) (c :: cs)
| fs_read pre cs count :
    pre ++ cs <> [] -> Z.of_nat (length pre) <= count -> (0 < count -> pre <> []) ->
    Forall (fun c => ee_err (c_comp c) = 0) pre ->
    fifo_step oom fmt (pre ++ cs) (OpRead count)
      (ResRead (Z.of_nat (length pre)) (out_of fmt <$> pre)) cs
| fs_readerr c cs n b :
    ee_err (c_comp c) <> 0 ->
    fifo_step oom fmt (c :: cs) (OpReadErr n b) (ResErr 1 (Some (c_comp c))) cs
| fs_readerr_nomem c cs n b :
    oom -> ee_err (c_comp c) <> 0 -> ee_err_data (c_comp c) <> [] ->
    fifo_step oom fmt (c :: cs) (OpReadErr n b) (ResErr (- FI_ENOMEM) None) (c :: cs)
| fs_readerr_none cs n b :
    (forall c cs', cs = c :: cs' -> ee_err (c_comp c) = 0) ->
    fifo_step oom fmt cs (OpReadErr n b) (ResErr (- FI_EAGAIN) None) cs.

Inductive fifo_run (oom : Prop) (fmt : cq_format) : list completion -> list cq_op -> list cq_res -> list completion -> Prop :=
| fr_nil cs : fifo_run oom fmt cs [] [] cs
| fr_cons cs op r cs1 ops rs cs2 :
    fifo_step oom fmt cs op r cs1 -> fifo_run oom fmt cs1 ops rs cs2 ->
    fifo_run oom fmt cs (op :: ops) (r :: rs) cs2.

Section Simulation.
Context {K : Type} `{!Kernel K}.

Definition cq_exec (op : cq_op) : CQ (K := K) cq_res :=
  match op with
  | OpWrite e => r <- ofi_cq_write e ;; ret (ResStatus r)
  | OpWriteSrc e src => r <- ofi_cq_write_src e src ;; ret (ResStatus r)
  | OpWriteErr err => r <- ofi_cq_write_error err ;; ret (ResStatus r)
  | OpRead count => fun '(q, k) =>
      match ofi_cq_read_entries q count with
      | Some (r, out, q') => Some (ResRead r out, (q', k))
      | None => None
      end
  | OpReadErr n b => r <- ofi_cq_readerr n b ;; let '(r, err) := r in ret (ResErr r err)
  end.

Fixpoint cq_exec_all (ops : list cq_op) : CQ (K := K) (list cq_res) :=
  match ops with
  | [] => ret []
  | op :: ops' => r <- cq_exec op ;; rs <- cq_exec_all ops' ;; ret (r :: rs)
  end.

Lemma ok_prefix_spec n cs :
  cs = ok_prefix n cs ++ drop (length (ok_prefix n cs)) cs /\
  Forall (fun c => ee_err (c_comp c) = 0) (ok_prefix n cs) /\
  (length (ok_prefix n cs) <= n)%nat.
Proof.
  revert cs. induction n as [|n IH]; intros [|c cs]; cbn; try (split_and!; [done|constructor|lia]).
  destruct (Z.eqb_spec (ee_err (c_comp c)) 0) as [E|E]; cbn; [|split_and!; [done|constructor|lia]].
  destruct (IH cs) as (H1 & H2 & H3). split_and!; [by f_equal|by constructor|lia].
Qed.

Lemma cq_exec_read q (k : K) cs count :
  cq_rep q cs -> 0 <= count ->
  wp (cq_exec (OpRead count)) (fun r '(q', _) =>
    exists cs', fifo_step (exists n, refuses K n) (ucq_format q) cs (OpRead count) r cs' /\ cq_rep q' cs') (q, k).
Proof.
  intros Hq Hc. destruct (ofi_cq_read_entries_fifo q cs count Hq Hc) as (q' & He & Hq').
  unfold wp, cq_exec. rewrite He. eexists. split; [|exact Hq'].
  pose proof (used_nonneg (ucq_cirq q)). pose proof (used_le_length q cs Hq).
  set (n := Z.to_nat (Z.min count (ofi_cirque_usedcnt (ucq_cirq q)))) in *.
  assert (Hn : Z.of_nat n = Z.min count (ofi_cirque_usedcnt (ucq_cirq q))) by (unfold n; lia).
  destruct (ok_prefix_spec n cs) as (Hsplit & Hok & Hlen).
  destruct cs as [|c cs]; [by destruct n; cbn; constructor|].
  assert (Hused : 0 < ofi_cirque_usedcnt (ucq_cirq q)).
  { destruct (Z.eq_dec (ofi_cirque_usedcnt (ucq_cirq q)) 0) as [E|]; [|lia].
    by pose proof (cq_rep_empty q _ Hq E). }
  destruct ((length (ok_prefix n (c :: cs)) <? n)%nat && (length (ok_prefix n (c :: cs)) =? 0)%nat) eqn:Eb.
  - apply andb_true_iff in Eb as [E1%Nat.ltb_lt E2%Nat.eqb_eq].
    destruct (ok_prefix n (c :: cs)) eqn:Ep; [|done]. cbn. rewrite drop_0 in *.
    constructor; [lia|]. destruct n; [lia|]. rewrite ok_prefix_cons in Ep.
    by destruct (Z.eqb_spec (ee_err (c_comp c)) 0).
  - rewrite Hsplit at 1. apply fs_read; [by rewrite <- Hsplit|lia| |done].
    intros Hpos Hnil. rewrite Hnil in Eb. destruct n; [lia|done].
Qed.

(** One operation of the implementation is one step of the abstract queue. *)
Lemma cq_exec_sim op (q : util_cq) (k : K) cs :
  cq_rep q cs -> cq_op_ok (bool_decide (is_Some (ucq_src q))) op ->
  wp (cq_exec op) (fun r '(q', _) =>
    exists cs', fifo_step (exists n, refuses K n) (ucq_format q) cs op r cs' /\ cq_rep q' cs') (q, k).
Proof.
  intros Hq Hop. destruct op as [e|e src|err|count|n b]; cbn [cq_op_ok] in Hop.
  - apply wp_bind. eapply wp_mono; [apply (ofi_cq_write_appends false e 0 q k cs Hq Hop); done|].
    intros r [q' k'] [(-> & a & Hq' & _)|(-> & -> & _ & Hn)]; apply wp_ret;
      [exists (cs ++ [mkCompletion (comp_ok e) a])|exists cs]; (split; [constructor; eauto|done]).
  - destruct Hop as [Hf Hs]. apply wp_bind.
    eapply wp_mono; [apply (ofi_cq_write_appends true e src q k cs Hq Hf); by intros _; apply bool_decide_eq_true in Hs|].
    intros r [q' k'] [(-> & a & Hq' & Ha)|(-> & -> & _ & Hn)]; apply wp_ret;
      [exists (cs ++ [mkCompletion (comp_ok e) src])|exists cs]; (split; [constructor; eauto|]); [|done].
    by rewrite <- Ha.
  - apply wp_bind. eapply wp_mono; [by apply (ofi_cq_write_error_appends err q k cs)|].
    intros r [q' k'] [(-> & a & Hq')|(-> & -> & Hn)]; apply wp_ret;
      [exists (cs ++ [mkCompletion err a])|exists cs]; (split; [constructor; unfold err_refused in *; naive_solver|done]).
  - by apply cq_exec_read.
  - apply wp_bind. eapply wp_mono; [by apply (ofi_cq_readerr_pops n b q k cs)|].
    intros [r err] [q' k'] H. apply wp_ret. destruct cs as [|c cs].
    + destruct H as (-> & -> & ->). exists []. split; [by constructor|done].
    + destruct (Z.eqb_spec (ee_err (c_comp c)) 0) as [E|E].
      * destruct H as (-> & -> & ->). exists (c :: cs). split; [|done].
        constructor. by intros ?? [= -> ->].
      * destruct H as [(-> & -> & H)|(-> & -> & -> & H & Hn)]; [exists cs|exists (c :: cs)]; (split; [constructor; eauto|done]).
Qed.
(** No operation changes the format or drops the source array. *)
Definition cq_static (q q' : util_cq) : Prop :=
  ucq_format q' = ucq_format q /\ (is_Some (ucq_src q') <-> is_Some (ucq_src q)).

Lemma aux_pop_static q : cq_static q (aux_pop q).
Proof. unfold aux_pop. destruct (tail _); [done|]. by destruct (_ =? _). Qed.

Lemma read_loop_static n q out r out' q' : read_loop n q out = Some (r, out', q') -> cq_static q q'.
Proof.
  revert q out. induction n as [|n IH]; intros q out; cbn [read_loop].
  { intros [= _ _ <-]. done. }
  intros H. repeat case_match; simplify_eq; try done; apply IH in H; [done|].
  destruct H as [Ha Hb], (aux_pop_static q) as [Hc Hd]. split; [congruence|tauto].
Qed.

Lemma cq_exec_static op (q : util_cq) (k : K) r q' k' :
  cq_exec op (q, k) = Some (r, (q', k')) -> cq_static q q'.
Proof.
  destruct op as [e|e src|err|count|n b]; cbn [cq_exec];
    unfold ofi_cq_write, ofi_cq_write_src, ofi_cq_write_overflow, ofi_cq_write_error, util_cq_insert_error,
      ofi_cq_readerr, ofi_cq_write_src_entry, cq_alloc, cq_modify, cq_gets, bind, ret, gets, modify, of_opt, ub.
  - intros H. repeat (case_match; simplify_eq/=); done.
  - intros H. unfold cq_static. destruct (ucq_src q) as [arr|] eqn:Es; repeat (case_match; unfold ret, ub in *; simplify_eq/=); try done.
    all: by split; [|congruence || by rewrite Es].
  - intros H. repeat (case_match; simplify_eq/=); done.
  - destruct (ofi_cq_read_entries q count) as [[[? ?] ?]|] eqn:E; [|done]. intros [= _ <- <-].
    unfold ofi_cq_read_entries in E. destruct (ofi_cirque_isempty _); [by simplify_eq|].
    by apply read_loop_static in E.
  - intros H. repeat (case_match; unfold ret, ub in *; simplify_eq/=); done || apply aux_pop_static.
Qed.

(** C10: The completion queue refines a FIFO: for every sequence of writes,
    error writes, reads and error reads, the array-plus-overflow
    implementation runs without tripping an assertion, and its results are
    those of the abstract queue, which appends what is written (or reports
    -FI_ENOMEM, if the allocator can refuse memory), hands completions out in
    order, never skips an error, and reports -FI_EAVAIL or -FI_EAGAIN exactly
    when it must.  Callers write ordinary completions without the internal
    flag of the queue, error completions with an error, and sources only to a
    queue that keeps them. *)
Theorem util_cq_refines_fifo ops (q : util_cq) (k : K) cs :
  cq_rep q cs -> Forall (cq_op_ok (bool_decide (is_Some (ucq_src q)))) ops ->
  wp (cq_exec_all ops) (fun rs '(q', _) =>
    exists cs', fifo_run (exists n, refuses K n) (ucq_format q) cs ops rs cs' /\ cq_rep q' cs') (q, k).
Proof.
  revert q k cs. induction ops as [|op ops IH]; intros q k cs Hq Hops.
  { apply wp_ret. exists cs. split; [constructor|done]. }
  apply Forall_cons in Hops as [Hop Hops]. apply wp_bind.
  pose proof (cq_exec_sim op q k cs Hq Hop) as Hs. unfold wp in Hs |- *.
  destruct (cq_exec op (q, k)) as [[r [q1 k1]]|] eqn:E; [|done].
  destruct Hs as (cs1 & Hstep & Hq1). destruct (cq_exec_static _ _ _ _ _ _ E) as [Hfmt Hsrc].
  apply (wp_bind (cq_exec_all ops)). eapply wp_mono.
  { apply (IH q1 k1 cs1 Hq1). by rewrite (bool_decide_ext _ _ Hsrc). }
  intros rs [q2 k2] (cs2 & Hrun & Hq2). apply wp_ret. exists cs2. split; [|done].
  econstructor; [done|]. by rewrite <- Hfmt.
Qed.
End Simulation.
(** ** A concrete queue: one completion and one error behind it *)

Definition demo_entry : fi_cq_tagged_entry := mkEntry 7 FI_RECV 3 0 0 9.
Definition demo_err : fi_cq_err_entry := mkErr (mkEntry 8 FI_RECV 0 0 0 0) 0 FI_ETRUNC 0 [].

Definition demo_cq : util_cq :=
  util_cq_insert_aux (ofi_cq_write_entry (util_cq_init 4 true FORMAT_TAGGED) demo_entry) demo_err 0.

Definition demo_contents : list completion :=
  [mkCompletion (comp_ok demo_entry) 0; mkCompletion demo_err 0].

Lemma demo_cq_rep : cq_rep demo_cq demo_contents.
Proof.
  split.
  - split; try done. by exists 2.
  - done.
  - change (rep (cq_slots (ucq_cirq demo_cq)) (ucq_src demo_cq) [0; 1] [mkAux 1 demo_err 0] demo_contents).
    apply rep_entry; [done..|].
    apply (rep_aux (cq_slots (ucq_cirq demo_cq)) (ucq_src demo_cq) 1 [mkAux 1 demo_err 0] [] [] []);
      [by eexists|done|by repeat constructor|constructor].
  - done.
Qed.

Lemma util_cq_refines_fifo_witness :
  let ops := [OpRead 4; OpWriteSrc demo_entry 5; OpReadErr 0 false; OpRead 1] in
  wp (cq_exec_all ops) (fun rs '(q', _) =>
    exists cs', fifo_run (exists n, refuses quiet_state n) FORMAT_TAGGED demo_contents ops rs cs' /\ cq_rep q' cs') (demo_cq, quiet0).
Proof.
  apply (util_cq_refines_fifo [OpRead 4; OpWriteSrc demo_entry 5; OpReadErr 0 false; OpRead 1]
           demo_cq quiet0 demo_contents demo_cq_rep).
  repeat constructor; done.
Defined.
