(* ===== verification/Av.v ===== *)
(** * The address vector

    The part of [prov/util/src/util_av.c] the provider resolves addresses
    through: an indexed buffer pool of entries (its index is the [fi_addr_t])
    and a hash from raw address bytes to the entry.  The pool hands out the
    lowest free index and grows by one region of [chunk_cnt] entries at a
    time ([ofi_ibuf_alloc] of [ofi_mem.h]); growing asks the allocator. *)

From S2P Require Import Prelude Iov Kernel.

(** ** Data *)

Record util_av_entry := mkAvEntry { ave_data : list Z; ave_use_cnt : Z }.

Record util_av := mkAv {
  av_addrlen : Z;
  av_chunk_cnt : Z;                      (* entries per pool region, positive *)
  av_region_cnt : Z;
  av_pool : gmap Z util_av_entry;        (* the allocated entries, by index *)
  av_hash : gmap (list Z) Z;             (* raw address -> index *)
  av_flags : Z
}.

#[export] Instance util_av_entry_eta : Settable util_av_entry := fun e =>
  mkAvEntry (ave_data e) (ave_use_cnt e).
#[export] Instance util_av_eta : Settable util_av := fun a =>
  mkAv (av_addrlen a) (av_chunk_cnt a) (av_region_cnt a) (av_pool a) (av_hash a) (av_flags a).

(** [addr] as a hash key: its first [addrlen] bytes. *)
Definition av_key (av : util_av) (addr : list Z) : list Z := take (Z.to_nat (av_addrlen av)) addr.

(** ** Lookups *)

Definition ofi_av_get_addr (av : util_av) (fi_addr : Z) : option (list Z) :=
  ave_data <$> av_pool av !! fi_addr.

Definition ofi_av_lookup_fi_addr (av : util_av) (addr : list Z) : Z :=
  match av_hash av !! av_key av addr with
  | Some i => i
  | None => FI_ADDR_NOTAVAIL
  end.

(** ** The index pool *)

(** The lowest index from [i] on that is not allocated, looking at most at
    [fuel] indices. *)
Fixpoint free_from (fuel : nat) (pool : gmap Z util_av_entry) (i : Z) : Z :=
  match fuel with
  | O => i
  | S fuel' => match pool !! i with Some _ => free_from fuel' pool (i + 1) | None => i end
  end.

Definition ibuf_index (av : util_av) : Z := free_from (size (av_pool av)) (av_pool av) 0.

Section Insert.
Context {K : Type} `{!Kernel K}.

Definition AV (A : Type) : Type := M (util_av * K) A.

(** [ofi_ibuf_alloc]: the index of a newly allocated entry. *)
Definition ofi_ibuf_alloc : AV (option Z) := fun '(av, k) =>
  let i := ibuf_index av in
  if i <? av_region_cnt av * av_chunk_cnt av then Some (Some i, (av, k))
  else
    let '(r, k') := k_alloc (av_chunk_cnt av) k in
    match r with
    | None => Some (None, (av, k'))
    | Some _ => Some (Some i, (av <| av_region_cnt ::= Z.add 1 |>, k'))
    end.

Definition ofi_av_insert_addr (addr : list Z) : AV (Z * Z) :=
  av <- gets fst ;;
  match av_hash av !! av_key av addr with
  | Some i =>
      e <- of_opt (av_pool av !! i) ;;
      modify (fun '(av, k) =>
        (av <| av_pool := <[i := e <| ave_use_cnt ::= Z.add 1 |>]> (av_pool av) |>, k)) ;;;
      ret (0, i)
  | None =>
      idx <- ofi_ibuf_alloc ;;
      match idx with
      | None => ret (- FI_ENOMEM, FI_ADDR_NOTAVAIL)
      | Some i =>
          modify (fun '(av, k) =>
            (av <| av_pool := <[i := mkAvEntry (av_key av addr) 1]> (av_pool av) |>
                <| av_hash := <[av_key av addr := i]> (av_hash av) |>, k)) ;;;
          ret (0, i)
      end
  end.
End Insert.

Definition ofi_av_remove_addr (av : util_av) (fi_addr : Z) : Z * util_av :=
  match av_pool av !! fi_addr with
  | None => (- FI_EINVAL, av)
  | Some e =>
      let uses := ave_use_cnt e - 1 in
      if negb (uses =? 0)
      then (0, av <| av_pool := <[fi_addr := e <| ave_use_cnt := uses |>]> (av_pool av) |>)
      else (0, av <| av_pool := delete fi_addr (av_pool av) |>
                  <| av_hash := delete (ave_data e) (av_hash av) |>)
  end.

(** ** The invariant: pool and hash are inverse *)

Record av_wf (av : util_av) : Prop := {
  aw_chunk : 0 < av_chunk_cnt av;
  aw_inv : forall k i, av_hash av !! k = Some i <->
                       exists e, av_pool av !! i = Some e /\ ave_data e = k;
  aw_use : forall i e, av_pool av !! i = Some e -> 0 < ave_use_cnt e;
  aw_len : forall i e, av_pool av !! i = Some e -> av_key av (ave_data e) = ave_data e;
  aw_idx : forall i e, av_pool av !! i = Some e -> 0 <= i
}.

(** ** Lemmas *)

Lemma free_from_ge fuel pool i : i <= free_from fuel pool i.
Proof.
  revert i. induction fuel as [|fuel IH]; intros i; cbn; [lia|].
  destruct (pool !! i); [|lia]. specialize (IH (i + 1)). lia.
Qed.

(** The scan stops at a free index: with more indices than entries, one of
    the scanned indices is free. *)
Lemma free_from_used fuel pool i :
  is_Some (pool !! free_from fuel pool i) ->
  forall j, i <= j < i + Z.of_nat fuel + 1 -> is_Some (pool !! j).
Proof.
  revert i. induction fuel as [|fuel IH]; intros i Hs j Hj; cbn in Hs.
  { by replace j with i by lia. }
  destruct (pool !! i) eqn:E.
  - destruct (Z.eq_dec j i) as [->|]; [by eexists|]. apply (IH (i + 1)); [done|lia].
  - by rewrite E in Hs.
Qed.

Lemma seqZ_subset_size (X : gset Z) n i :
  (forall j, i <= j < i + n -> j ∈ X) -> 0 <= n -> n <= Z.of_nat (size X).
Proof.
  intros HX Hn. assert (Hsub : list_to_set (C := gset Z) (seqZ i n) ⊆ X).
  { intros j Hj%elem_of_list_to_set%elem_of_seqZ. apply HX. lia. }
  apply subseteq_size in Hsub. rewrite size_list_to_set in Hsub by apply NoDup_seqZ.
  rewrite length_seqZ in Hsub. lia.
Qed.

Lemma ibuf_index_free av : av_pool av !! ibuf_index av = None.
Proof.
  destruct (av_pool av !! ibuf_index av) eqn:E; [|done]. exfalso.
  assert (Hall := free_from_used (size (av_pool av)) (av_pool av) 0).
  unfold ibuf_index in E. rewrite E in Hall.
  assert (H : Z.of_nat (size (av_pool av)) + 1 <= Z.of_nat (size (dom (av_pool av)))).
  { apply (seqZ_subset_size _ _ 0); [|lia]. intros j Hj. apply elem_of_dom, Hall; [by eexists|lia]. }
  rewrite size_dom in H. lia.
Qed.

Lemma ibuf_index_nonneg av : 0 <= ibuf_index av.
Proof. apply free_from_ge. Qed.

Lemma av_key_idemp av a : av_key av (av_key av a) = av_key av a.
Proof. unfold av_key. rewrite take_take. f_equal. lia. Qed.

(** A fresh entry keeps pool and hash inverse. *)
Lemma av_wf_add av a i n :
  av_wf av -> av_hash av !! av_key av a = None -> av_pool av !! i = None -> 0 <= i ->
  av_wf (mkAv (av_addrlen av) (av_chunk_cnt av) n
           (<[i := mkAvEntry (av_key av a) 1]> (av_pool av)) (<[av_key av a := i]> (av_hash av)) (av_flags av)).
Proof.
  intros [Hc Hi Hu Hl Hx] Hh Hp Hnn. split; cbn.
  - done.
  - intros k j. destruct (decide (k = av_key av a)) as [->|Hk].
    + rewrite lookup_insert_eq. split.
      * intros [= <-]. eexists. by rewrite lookup_insert_eq.
      * intros (e & He & Hd). destruct (decide (i = j)) as [->|Hij]; [done|].
        rewrite lookup_insert_ne in He by done. exfalso.
        assert (av_hash av !! av_key av a = Some j) by (apply Hi; eauto). congruence.
    + rewrite lookup_insert_ne by done. rewrite Hi. split.
      * intros (e & He & Hd). exists e. rewrite lookup_insert_ne; [done|congruence].
      * intros (e & He & Hd). destruct (decide (i = j)) as [->|Hij].
        -- rewrite lookup_insert_eq in He. by simplify_eq/=.
        -- rewrite lookup_insert_ne in He by done. eauto.
  - intros j e He. destruct (decide (i = j)) as [->|Hij].
    + rewrite lookup_insert_eq in He. by simplify_eq/=.
    + rewrite lookup_insert_ne in He by done. eauto.
  - intros j e He. unfold av_key; cbn. destruct (decide (i = j)) as [->|Hij].
    + rewrite lookup_insert_eq in He. simplify_eq/=. apply av_key_idemp.
    + rewrite lookup_insert_ne in He by done. by apply (Hl j).
  - intros j e He. destruct (decide (i = j)) as [->|Hij]; [done|].
    rewrite lookup_insert_ne in He by done. eauto.
Qed.

(** Changing a use count keeps the invariant. *)
Lemma av_wf_use av i e u :
  av_wf av -> av_pool av !! i = Some e -> 0 < u ->
  av_wf (av <| av_pool := <[i := mkAvEntry (ave_data e) u]> (av_pool av) |>).
Proof.
  intros [Hc Hi Hu Hl Hx] He Hpos. split; cbn [set_field av_chunk_cnt av_hash av_pool].
  - done.
  - intros k j. rewrite Hi. destruct (decide (i = j)) as [->|Hij].
    + rewrite lookup_insert_eq. split; intros (e' & He' & Hd); simplify_eq; eauto.
    + by rewrite lookup_insert_ne.
  - intros j e' He'. destruct (decide (i = j)) as [->|Hij].
    + rewrite lookup_insert_eq in He'. by simplify_eq/=.
    + rewrite lookup_insert_ne in He' by done. eauto.
  - intros j e' He'. destruct (decide (i = j)) as [->|Hij].
    + rewrite lookup_insert_eq in He'. simplify_eq/=. by apply (Hl j).
    + rewrite lookup_insert_ne in He' by done. by apply (Hl j).
  - intros j e' He'. destruct (decide (i = j)) as [->|Hij]; [by eapply Hx|].
    rewrite lookup_insert_ne in He' by done. eauto.
Qed.

Lemma av_wf_remove av i e :
  av_wf av -> av_pool av !! i = Some e ->
  av_wf (av <| av_pool := delete i (av_pool av) |> <| av_hash := delete (ave_data e) (av_hash av) |>).
Proof.
  intros [Hc Hi Hu Hl Hx] He.
  assert (Hk : av_hash av !! ave_data e = Some i) by (apply Hi; eauto).
  split; cbn [set_field av_chunk_cnt av_hash av_pool av_addrlen].
  - done.
  - intros k j. rewrite lookup_delete_Some. rewrite Hi. split.
    + intros (Hne & e' & He' & Hd). exists e'. rewrite lookup_delete_ne; [done|congruence].
    + intros (e' & He' & Hd). apply lookup_delete_Some in He' as [Hij He'].
      split; [|by eauto]. intros Hkk. apply Hij.
      assert (av_hash av !! ave_data e = Some j) by (apply Hi; exists e'; split; congruence). congruence.
  - intros j e' He'. apply lookup_delete_Some in He' as [_ ?]. eauto.
  - intros j e' He'. apply lookup_delete_Some in He' as [_ ?]. by apply (Hl j).
  - intros j e' He'. apply lookup_delete_Some in He' as [_ ?]. eauto.
Qed.

(** ** Inserting one address *)

(** What an insertion of [a] that returns the index [i] makes of a vector:
    one more use of the entry that has the address, or a new entry. *)
Inductive av_added (av : util_av) (a : list Z) (i : Z) : util_av -> Prop :=
| added_again e :
    av_hash av !! av_key av a = Some i -> av_pool av !! i = Some e -> ave_data e = av_key av a ->
    av_added av a i (av <| av_pool := <[i := e <| ave_use_cnt ::= Z.add 1 |>]> (av_pool av) |>)
| added_new n :
    av_hash av !! av_key av a = None -> av_pool av !! i = None -> 0 <= i ->
    av_added av a i (mkAv (av_addrlen av) (av_chunk_cnt av) n (<[i := mkAvEntry (av_key av a) 1]> (av_pool av))
                          (<[av_key av a := i]> (av_hash av)) (av_flags av)).

Lemma added_wf av a i av' : av_wf av -> av_added av a i av' -> av_wf av'.
Proof.
  intros Hwf [e Hh He Hd|n Hh Hp Hi]; [|by apply av_wf_add].
  apply (av_wf_use av i e); [done|done|]. pose proof (aw_use av Hwf i e He). lia.
Qed.

Lemma added_addrlen av a i av' : av_added av a i av' -> av_addrlen av' = av_addrlen av /\ av_flags av' = av_flags av.
Proof. by intros []. Qed.

(** The address is found in both directions. *)
Lemma added_get av a i av' : av_added av a i av' -> ofi_av_get_addr av' i = Some (av_key av a) /\ ofi_av_lookup_fi_addr av' a = i.
Proof.
  intros [e Hh He Hd|n Hh Hp Hi]; unfold ofi_av_get_addr, ofi_av_lookup_fi_addr, av_key in *; cbn; rewrite !lookup_insert_eq; [|done].
  rewrite Hh. cbn. by rewrite Hd.
Qed.

(** No index changes its address, and no address its index. *)
Lemma added_keeps av a i av' j b : av_added av a i av' -> ofi_av_get_addr av j = Some b -> ofi_av_get_addr av' j = Some b.
Proof.
  intros H Hj. unfold ofi_av_get_addr in *. destruct H as [e Hh He Hd|n Hh Hp Hi]; cbn; (destruct (decide (i = j)) as [->|Hne];
    [rewrite lookup_insert_eq|by rewrite lookup_insert_ne]); [by rewrite He in Hj|by rewrite Hp in Hj].
Qed.

Lemma added_other av a i av' j : av_added av a i av' -> j <> i -> ofi_av_get_addr av' j = ofi_av_get_addr av j.
Proof. intros [e Hh He Hd|n Hh Hp Hi] Hj; unfold ofi_av_get_addr; cbn; by rewrite lookup_insert_ne. Qed.

Lemma added_lookup av a i av' b j : av_added av a i av' -> av_hash av !! b = Some j -> av_hash av' !! b = Some j.
Proof. intros [e Hh He Hd|n Hh Hp Hi] Hb; cbn; [done|]. rewrite lookup_insert_ne; [done|]. intros <-. congruence. Qed.

(** Removing the index takes the insertion back. *)
Lemma added_undo av a i av' n :
  av_wf av -> av_added av a i av' -> ofi_av_remove_addr (av' <| av_region_cnt := n |>) i = (0, av <| av_region_cnt := n |>).
Proof.
  intros Hwf H. unfold ofi_av_remove_addr. destruct H as [e Hh He Hd|m Hh Hp Hi]; cbn; rewrite lookup_insert_eq; cbn.
  - pose proof (aw_use av Hwf i e He). replace (1 + ave_use_cnt e - 1 =? 0) with false by (symmetry; apply Z.eqb_neq; lia). cbn.
    f_equal. destruct av as [al ch rc pool hash fl], e as [d u]. cbn in *. unfold set_field. cbn. f_equal.
    rewrite insert_insert_eq. replace (1 + u - 1) with u by lia. by apply insert_id.
  - f_equal. destruct av as [al ch rc pool hash fl]. unfold set_field. cbn in *. f_equal; by apply delete_insert_id.
Qed.

Section Insertion.
Context {K : Type} `{!Kernel K}.

Lemma insert_addr_cases addr av (k : K) :
  av_wf av ->
  wp (ofi_av_insert_addr addr) (fun '(r, i) '(av', _) =>
    r = 0 /\ av_added av addr i av' \/ r = - FI_ENOMEM /\ i = FI_ADDR_NOTAVAIL /\ av' = av) (av, k).
Proof.
  intros Hwf. unfold ofi_av_insert_addr. wp_pure. cbn [fst]. destruct (av_hash av !! av_key av addr) as [i|] eqn:Hh.
  - pose proof Hh as Hh'. apply (aw_inv av Hwf) in Hh' as (e & He & Hd). rewrite He. wp_pure. left. split; [done|]. by apply added_again.
  - pose proof (ibuf_index_free av) as Hf. pose proof (ibuf_index_nonneg av) as Hnn. apply wp_bind. unfold ofi_ibuf_alloc, wp at 1.
    destruct (_ <? _); [|destruct (k_alloc _ k) as [[p|] k']]; wp_pure; [left; split; [done|]..|by right].
    + exact (added_new av addr (ibuf_index av) (av_region_cnt av) Hh Hf Hnn).
    + exact (added_new av addr (ibuf_index av) (1 + av_region_cnt av) Hh Hf Hnn).
Qed.
End Insertion.

(** ** Theorems *)

Section Roundtrip.
Context {K : Type} `{!Kernel K}.

(** Inserting an address either fails with -FI_ENOMEM and changes no
    entry, or returns an index under which the address is found again in
    both directions ([ofi_av_get_addr] gives the bytes, the reverse lookup
    gives the index); every other index keeps its address, and the pool
    and the hash stay inverse to each other. *)
Theorem ofi_av_insert_addr_roundtrip addr av (k : K) :
  av_wf av ->
  wp (ofi_av_insert_addr addr) (fun '(r, i) '(av', _) =>
    av_wf av' /\
    (r = 0 /\ ofi_av_get_addr av' i = Some (av_key av addr) /\ ofi_av_lookup_fi_addr av' addr = i /\
     (forall j, j <> i -> ofi_av_get_addr av' j = ofi_av_get_addr av j) \/
     r = - FI_ENOMEM /\ i = FI_ADDR_NOTAVAIL /\ av' = av)) (av, k).
Proof.
  intros Hwf. eapply wp_mono; [by apply insert_addr_cases|]. intros [r i] [av' k'] [[-> Ha]|(-> & -> & ->)]; [|by split; [|right]].
  split; [by eapply added_wf|]. left. pose proof (added_get _ _ _ _ Ha) as [? ?]. split_and!; [done..|]. intros j. by apply added_other with (a := addr).
Qed.

(** Removing an address drops it from both maps exactly when its last
    use goes away, refuses an index that is not allocated, and never
    disturbs another index. *)
Theorem ofi_av_remove_addr_spec av i :
  av_wf av ->
  let '(r, av') := ofi_av_remove_addr av i in
  av_wf av' /\
  (r = 0 <-> is_Some (ofi_av_get_addr av i)) /\
  (forall j, j <> i -> ofi_av_get_addr av' j = ofi_av_get_addr av j) /\
  (forall e, av_pool av !! i = Some e -> ave_use_cnt e = 1 ->
     ofi_av_get_addr av' i = None /\ ofi_av_lookup_fi_addr av' (ave_data e) = FI_ADDR_NOTAVAIL).
Proof.
  intros Hwf. unfold ofi_av_remove_addr, ofi_av_get_addr.
  destruct (av_pool av !! i) as [e|] eqn:He; cbn [fmap option_fmap option_map].
  - pose proof (aw_use av Hwf i e He) as Hu.
    destruct (Z.eqb_spec (ave_use_cnt e - 1) 0) as [Hz|Hnz]; cbn [negb].
    + split_and!; [by apply av_wf_remove|by split; eauto| |].
      * intros j Hj. cbn. by rewrite lookup_delete_ne.
      * intros e' [= <-] _. cbn. rewrite lookup_delete_eq. split; [done|].
        unfold ofi_av_lookup_fi_addr. change (av_key _ (ave_data e)) with (av_key av (ave_data e)).
        rewrite (aw_len av Hwf i e He). cbn. by rewrite lookup_delete_eq.
    + split_and!; [by apply (av_wf_use av i e); [| |lia]|by split; eauto| |].
      * intros j Hj. cbn. by rewrite lookup_insert_ne.
      * intros e' [= <-] ?. lia.
  - split_and!; [done| |done|done]. split; [done|]. by intros [? ?].
Qed.
End Roundtrip.

(** ** A concrete vector *)

Definition demo_addr (n : Z) : list Z := [2; 0; 0; 7; 10; 0; 0; n; 0; 0; 0; 0; 0; 0; 0; 0].
Definition demo_av : util_av :=
  mkAv 16 4 1 {[0 := mkAvEntry (demo_addr 1) 1]} {[demo_addr 1 := 0]} 0.

Lemma demo_av_wf : av_wf demo_av.
Proof.
  split; cbn [demo_av av_chunk_cnt av_hash av_pool].
  - done.
  - intros k i. rewrite lookup_singleton_Some. split.
    + intros [<- <-]. eexists. by rewrite lookup_singleton_eq.
    + intros (e & He & Hd). apply lookup_singleton_Some in He as [<- <-]. done.
  - intros i e He. apply lookup_singleton_Some in He as [_ <-]. done.
  - intros i e He. apply lookup_singleton_Some in He as [_ <-]. done.
  - intros i e He. apply lookup_singleton_Some in He as [<- _]. done.
Qed.

Lemma ofi_av_remove_addr_spec_witness :
  let '(r, av') := ofi_av_remove_addr demo_av 0 in
  av_wf av' /\ (r = 0 <-> is_Some (ofi_av_get_addr demo_av 0)) /\
  (forall j, j <> 0 -> ofi_av_get_addr av' j = ofi_av_get_addr demo_av j) /\
  (forall e, av_pool demo_av !! 0 = Some e -> ave_use_cnt e = 1 ->
     ofi_av_get_addr av' 0 = None /\ ofi_av_lookup_fi_addr av' (ave_data e) = FI_ADDR_NOTAVAIL).
Proof. exact (ofi_av_remove_addr_spec demo_av 0 demo_av_wf). Defined.
