(* ===== verification/AvIp.v ===== *)
(** * The address vector of IP providers

    The calls of [fi_ops_av] the provider has (ip_av_ops of util_av.c): the
    insertion of arrays of socket addresses and of symmetric ranges of hosts
    and ports, removal and lookup, on the vector of [Av].  Socket addresses
    are their bytes; an array of them is the bytes of the array, and the
    address at some position everything from there on. *)

From Stdlib Require Import Ascii.
From stdpp Require Import strings.
From S2P Require Import Prelude Iov Wire Kernel Config Attr Getinfo Cq Av.

Definition FI_MORE : Z := Z.shiftl 1 18.
Definition FI_FIREWALL_ADDR : Z := Z.shiftl 1 42.
Definition FI_SYNC_ERR : Z := Z.shiftl 1 58.
Definition FI_SYMMETRIC : Z := Z.shiftl 1 59.
Definition OFI_AV_DYN_ADDRLEN : Z := 1.
Definition OFI_NAME_MAX : Z := 64.

(** ** Socket addresses (ofi_net.h) *)

(** Network byte order. *)
Definition be_enc (n : nat) (v : Z) : list Z := rev (le_enc n v).
Definition be_dec (bs : list Z) : Z := le_dec (rev bs).

Definition all_zero (bs : list Z) : bool := forallb (Z.eqb 0) bs.

(** A field whose bytes are all there and zero, as [memcmp] sees it. *)
Definition zero_field (n : nat) (bs : list Z) : bool := all_zero (take n bs) && (n <=? length bs)%nat.

Definition ofi_is_any_addr (sa : list Z) : bool :=
  if sa_family sa =? AF_INET then zero_field 4 (drop 4 sa)
  else if sa_family sa =? AF_INET6 then zero_field 16 (drop 8 sa)
  else if sa_family sa =? AF_IB then zero_field 16 (drop 8 sa)
  else false.

Definition ofi_addr_get_port (sa : list Z) : Z :=
  if sa_family sa =? AF_INET then be_dec (sin_port sa)
  else if sa_family sa =? AF_INET6 then be_dec (sin_port sa)
  else if sa_family sa =? AF_IB then u16 (be_dec (take 8 (drop 24 sa)))
  else 0.

Definition ofi_valid_dest_ipaddr (sa : list Z) : bool :=
  negb (ofi_addr_get_port sa =? 0) && negb (ofi_is_any_addr sa) &&
  (negb (sa_family sa =? AF_INET) || zero_field 8 (drop 8 sa)).

(** ** Numbers in names *)

Definition digit_val (c : Ascii.ascii) : option Z :=
  let n := Z.of_nat (Ascii.nat_of_ascii c) in
  if (48 <=? n) && (n <=? 57) then Some (n - 48)
  else if (97 <=? n) && (n <=? 122) then Some (n - 87)
  else if (65 <=? n) && (n <=? 90) then Some (n - 55)
  else None.

Definition is_digit (c : Ascii.ascii) : bool := match digit_val c with Some d => d <? 10 | None => false end.

Definition is_space (c : Ascii.ascii) : bool :=
  let n := Z.of_nat (Ascii.nat_of_ascii c) in (n =? 32) || ((9 <=? n) && (n <=? 13)).

Fixpoint digits (base acc : Z) (s : string) : Z :=
  match s with
  | String c s' => match digit_val c with
                   | Some d => if d <? base then digits base (acc * base + d) s' else acc
                   | None => acc
                   end
  | EmptyString => acc
  end.

Definition hex_digit_next (s : string) : bool :=
  match s with
  | String c _ => match digit_val c with Some d => d <? 16 | None => false end
  | EmptyString => false
  end.

(** The unsigned part of [strtol] with base 0. *)
Definition strtol_abs (s : string) : Z :=
  match s with
  | String "0"%char (String "x"%char s') | String "0"%char (String "X"%char s') => if hex_digit_next s' then digits 16 0 s' else 0
  | String "0"%char s' => digits 8 0 s'
  | _ => digits 10 0 s
  end.

Fixpoint skip_spaces (s : string) : string :=
  match s with
  | String c s' => if is_space c then skip_spaces s' else s
  | EmptyString => EmptyString
  end.

(** [strtol(s, NULL, 0)] for a 64-bit [long]. *)
Definition strtol (s : string) : Z :=
  let clamp v := Z.max (- 2 ^ 63) (Z.min (2 ^ 63 - 1) v) in
  match skip_spaces s with
  | String "-"%char s' => clamp (- strtol_abs s')
  | String "+"%char s' => clamp (strtol_abs s')
  | s' => clamp (strtol_abs s')
  end.

(** The last character before the trailing digits of a name exists. *)
Definition has_stem (s : string) : bool := existsb (fun c => negb (is_digit c)) (String.list_ascii_of_string s).

(** C's conversion of a [size_t] to [int]. *)
Definition to_int (n : Z) : Z := let m := u32 n in if m <? 2 ^ 31 then m else m - 2 ^ 32.

(** ** Symmetric addresses *)

(** [sockaddr_in] of an address and a port in host order. *)
Definition sockaddr_in (ip port : Z) : list Z := [2; 0] ++ be_enc 2 port ++ be_enc 4 ip ++ replicate 8 0.
Definition sockaddr_in6 (ip : list Z) (port : Z) : list Z := [10; 0] ++ be_enc 2 port ++ replicate 4 0 ++ ip ++ replicate 4 0.

(** The addresses the IPv4 loops write, node by node. *)
Definition ip4sym (ip : list Z) (ipcnt port portcnt : Z) : list (list Z) :=
  i ← seqZ 0 ipcnt; (fun p => sockaddr_in (u32 (be_dec ip + u32 i)) (u16 (port + u16 p))) <$> seqZ 0 portcnt.

(** One step of the IPv6 loop: bytes are incremented from the last on, until
    one ends up below 255.  The bytes come last first. *)
Fixpoint ip6_carry (rip : list Z) : list Z :=
  match rip with
  | [] => []
  | b :: rip' => let b' := u8 (b + 1) in if b' <? 255 then b' :: rip' else b' :: ip6_carry rip'
  end.
Definition ip6_next (ip : list Z) : list Z := rev (ip6_carry (rev ip)).

Definition ip6sym (ip : list Z) (ipcnt port portcnt : Z) : list (list Z) :=
  i ← seqZ 0 ipcnt; (fun p => sockaddr_in6 (Nat.iter (Z.to_nat i) ip6_next ip) (u16 (port + p))) <$> seqZ 0 portcnt.

(** The functions of the C library that turn text into addresses:
    [inet_pton] for the two families, and the first address [getaddrinfo]
    finds for a datagram socket of a family, or its error. *)
Class Resolver := {
  rs_pton4 : string -> option (list Z);
  rs_pton6 : string -> option (list Z);
  rs_getaddrinfo : string -> string -> Z -> Z + list Z
}.

(** ** Inserting *)

Section AvIp.
Context {K : Type} `{!Kernel K} `{!Resolver}.

Definition av_alloc (n : Z) : AV (K := K) (option Z) := fun '(av, k) => let '(r, k') := k_alloc n k in Some (r, (av, k')).
Definition av_get {A} (f : util_av -> A) : AV (K := K) A := gets (fun s => f (fst s)).
Definition av_upd (f : util_av -> util_av) : AV (K := K) unit := modify (fun '(av, k) => (f av, k)).

Definition ofi_verify_av_insert (flags : Z) (context : bool) : Z :=
  if negb (Z.land flags (Z.lnot (bits [FI_MORE; FI_SYNC_ERR; FI_FIREWALL_ADDR; FI_AV_USER_ID])) =? 0) then - FI_EBADFLAGS
  else if has flags FI_SYNC_ERR && negb context then - FI_EINVAL
  else 0.

(** The result and the index. *)
Definition ip_av_insert_addr (addr : list Z) : AV (K := K) (Z * Z) :=
  if ofi_valid_dest_ipaddr addr then ofi_av_insert_addr addr else ret (- FI_EADDRNOTAVAIL, FI_ADDR_NOTAVAIL).

(** The addresses of an array, by position. *)
Definition elements (buf : list Z) (addrlen : Z) (count : Z) : list (list Z) :=
  (fun i => drop (Z.to_nat (i * addrlen)) buf) <$> seqZ 0 count.

(** The result of every insertion with its index. *)
Fixpoint insert_loop (addrs : list (list Z)) : AV (K := K) (list (Z * Z)) :=
  match addrs with
  | [] => ret []
  | a :: addrs' =>
      r <- ip_av_insert_addr a ;;
      rs <- insert_loop addrs' ;;
      ret (r :: rs)
  end.

Definition successes (rs : list (Z * Z)) : Z := Z.of_nat (length (filter (fun r : Z * Z => r.1 = 0) rs)).

(** The number of addresses inserted, and what the loop left for each of
    them: the index is stored in the [fi_addr] array when there is one, the
    negated result in the array of errors with FI_SYNC_ERR. *)
Definition ofi_ip_av_insertv (buf : list Z) (addrlen count : Z) : AV (K := K) (Z * list (Z * Z)) :=
  if count =? 0 then ret (0, [])
  else
    av_addrlen0 <- av_get av_addrlen ;;
    if addrlen >? av_addrlen0 then ret (- FI_EINVAL, [])
    else
      flags <- av_get av_flags ;;
      (if negb (has flags OFI_AV_DYN_ADDRLEN)
       then av_upd (fun av => av <| av_addrlen := addrlen |> <| av_flags ::= fun f => Z.land f (Z.lnot OFI_AV_DYN_ADDRLEN) |>)
       else ret tt) ;;;
      len <- av_get av_addrlen ;;
      if negb (len =? addrlen) then ub
      else
        rs <- insert_loop (elements buf addrlen count) ;;
        ret (successes rs, rs).

(** [context]: whether the caller passed one. *)
Definition ofi_ip_av_insert (buf : list Z) (count flags : Z) (context : bool) : AV (K := K) (Z * list (Z * Z)) :=
  let r := ofi_verify_av_insert flags context in
  if negb (r =? 0) then ret (r, [])
  else ofi_ip_av_insertv buf (if count =? 0 then 0 else ofi_sizeofaddr buf) count.

(** The addresses of the symmetric insertions, or an error: their number as
    [int], the bytes of the array and the length of an address. *)
Definition sym_addrs (ipcnt portcnt size : Z) (l : list (list Z)) : AV (K := K) (Z * list Z * Z) :=
  if ipcnt * portcnt >=? 2 ^ 64 then ub
  else
    p <- av_alloc (ipcnt * portcnt * size) ;;
    match p with
    | None => ret (- FI_ENOMEM, [], size)
    | Some _ => ret (to_int (ipcnt * portcnt), concat l, size)
    end.

Definition ip_av_ip4sym_getaddr (ip : list Z) (ipcnt port portcnt : Z) : AV (K := K) (Z * list Z * Z) :=
  sym_addrs ipcnt portcnt 16 (ip4sym ip ipcnt port portcnt).

Definition ip_av_ip6sym_getaddr (ip : list Z) (ipcnt port portcnt : Z) : AV (K := K) (Z * list Z * Z) :=
  sym_addrs ipcnt portcnt 28 (ip6sym ip ipcnt port portcnt).

(** [n] resolutions of the node and service as they were passed. *)
Fixpoint resolve_loop (n : nat) (node service : string) (family addrlen : Z) : Z + list (list Z) :=
  match n with
  | O => inr []
  | S n' =>
      match rs_getaddrinfo node service family with
      | inl e => inl (- Z.abs e)
      | inr a => match resolve_loop n' node service family addrlen with
                 | inl e => inl e
                 | inr l => inr (take (Z.to_nat addrlen) a :: l)
                 end
      end
  end.

(** [fmt] is the address format of the domain.  The names with an index
    that the loop builds are not used. *)
Definition ip_av_nodesym_getaddr (fmt : fi_addr_format) (node : string) (nodecnt : Z) (service : string) (svccnt : Z) : AV (K := K) (Z * list Z * Z) :=
  let go family addrlen :=
    if nodecnt * svccnt >=? 2 ^ 64 then ub
    else
      p <- av_alloc (nodecnt * svccnt * addrlen) ;;
      match p with
      | None => ret (- FI_ENOMEM, [], addrlen)
      | Some _ =>
          if negb (has_stem node) then ub
          else
            match resolve_loop (Z.to_nat (nodecnt * svccnt)) node service family addrlen with
            | inl e => ret (e, [], addrlen)
            | inr l => ret (to_int (nodecnt * svccnt), concat l, addrlen)
            end
      end in
  match fmt with
  | FI_SOCKADDR_IN => go AF_INET 16
  | FI_SOCKADDR_IN6 => go AF_INET6 28
  | _ => ret (- FI_EINVAL, [], 0)
  end.

Definition ofi_ip_av_sym_getaddr (fmt : fi_addr_format) (node : string) (nodecnt : Z) (service : string) (svccnt : Z) : AV (K := K) (Z * list Z * Z) :=
  if (Z.of_nat (String.length node) >=? OFI_NAME_MAX) || (Z.of_nat (String.length service) >=? OFI_NAME_MAX) then ret (- FI_ENOSYS, [], 0)
  else
    match rs_pton4 node with
    | Some ip => ip_av_ip4sym_getaddr ip nodecnt (u16 (strtol service)) svccnt
    | None =>
        match rs_pton6 node with
        | Some ip => ip_av_ip6sym_getaddr ip nodecnt (u16 (strtol service)) svccnt
        | None => ip_av_nodesym_getaddr fmt node nodecnt service svccnt
        end
    end.

Definition ofi_ip_av_insertsym (fmt : fi_addr_format) (node : string) (nodecnt : Z) (service : string) (svccnt flags : Z) (context : bool) :
    AV (K := K) (Z * list (Z * Z)) :=
  let r := ofi_verify_av_insert flags context in
  if negb (r =? 0) then ret (r, [])
  else
    c <- ofi_ip_av_sym_getaddr fmt node nodecnt service svccnt ;;
    let '(count, buf, addrlen) := c in
    if count <=? 0 then ret (count, []) else ofi_ip_av_insertv buf addrlen count.

Definition ofi_ip_av_insertsvc (fmt : fi_addr_format) (node service : string) (flags : Z) (context : bool) : AV (K := K) (Z * list (Z * Z)) :=
  ofi_ip_av_insertsym fmt node 1 service 1 flags context.
End AvIp.

(** ** Removing and looking up *)

(** The last address comes first; the last failure is reported. *)
Fixpoint remove_loop (rl : list Z) (av : util_av) (err : Z) : Z * util_av :=
  match rl with
  | [] => (err, av)
  | a :: rl' => let '(r, av') := ofi_av_remove_addr av a in remove_loop rl' av' (if r =? 0 then err else r)
  end.

Definition ofi_ip_av_remove (av : util_av) (fi_addr : list Z) (flags : Z) : Z * util_av :=
  if negb (flags =? 0) then (- FI_EINVAL, av) else remove_loop (rev fi_addr) av 0.

Definition ofi_ip_av_is_valid (av : util_av) (fi_addr : Z) : bool := bool_decide (is_Some (av_pool av !! fi_addr)).

(** The result, the bytes copied to a buffer of [addrlen] bytes, and the
    length of an address. *)
Definition ofi_ip_av_lookup (av : util_av) (fi_addr addrlen : Z) : Z * list Z * Z :=
  match ofi_av_get_addr av fi_addr with
  | None => (- FI_EINVAL, [], addrlen)
  | Some a => (0, take (Z.to_nat (Z.min addrlen (av_addrlen av))) a, av_addrlen av)
  end.
