(* ===== verification/AvSpec.v ===== *)
(** * What the address vector promises

    The theorems on the calls of the address vector: an insertion of an
    array maps every address it accepts, in both directions, and removing
    what was inserted restores the vector; and the inputs that the code does
    not handle as its documentation says. *)

From stdpp Require Import strings.
From S2P Require Import Prelude Iov Wire Kernel Config Attr Getinfo Cq Av AvIp.

Section AvSpec.
Context {K : Type} `{!Kernel K} `{RS : !Resolver}.
Implicit Types av : util_av.

(** ** The loop *)

(** What an insertion of [addrs] that returned [rs] made of a vector, step
    by step. *)
Inductive inserted : util_av -> list (list Z) -> list (Z * Z) -> util_av -> Prop :=
| ins_nil av : inserted av [] [] av
| ins_new av a i av1 addrs rs av' :
    ofi_valid_dest_ipaddr a = true -> av_added av a i av1 -> inserted av1 addrs rs av' ->
    inserted av (a :: addrs) ((0, i) :: rs) av'
| ins_full av a addrs rs av' :
    ofi_valid_dest_ipaddr a = true -> inserted av addrs rs av' ->
    inserted av (a :: addrs) ((- FI_ENOMEM, FI_ADDR_NOTAVAIL) :: rs) av'
| ins_bad av a addrs rs av' :
    ofi_valid_dest_ipaddr a = false -> inserted av addrs rs av' ->
    inserted av (a :: addrs) ((- FI_EADDRNOTAVAIL, FI_ADDR_NOTAVAIL) :: rs) av'.

Lemma insert_loop_inserts addrs av (k : K) :
  av_wf av -> wp (insert_loop addrs) (fun rs '(av', _) => inserted av addrs rs av') (av, k).
Proof.
  revert av k. induction addrs as [|a addrs IH]; intros av k Hwf; cbn [insert_loop]; [apply wp_ret; constructor|].
  apply wp_bind. unfold ip_av_insert_addr. destruct (ofi_valid_dest_ipaddr a) eqn:Hv.
  - eapply wp_mono; [by apply insert_addr_cases|]. intros [r i] [av1 k1] H.
    apply wp_bind. destruct H as [[-> Ha]|(-> & -> & ->)].
    + eapply wp_mono; [apply IH; by eapply added_wf|]. intros rs [av' k'] Hi. apply wp_ret. by eapply ins_new.
    + eapply wp_mono; [by apply IH|]. intros rs [av' k'] Hi. apply wp_ret. by apply ins_full.
  - apply wp_ret, wp_bind. eapply wp_mono; [by apply IH|]. intros rs [av' k'] Hi. apply wp_ret. by apply ins_bad.
Qed.

Lemma inserted_wf av addrs rs av' : inserted av addrs rs av' -> av_wf av -> av_wf av'.
Proof. induction 1; eauto using added_wf. Qed.

Lemma inserted_addrlen av addrs rs av' : inserted av addrs rs av' -> av_addrlen av' = av_addrlen av.
Proof. induction 1; [done| |done..]. destruct (added_addrlen _ _ _ _ H0). congruence. Qed.

Lemma inserted_keeps av addrs rs av' j b : inserted av addrs rs av' -> ofi_av_get_addr av j = Some b -> ofi_av_get_addr av' j = Some b.
Proof. induction 1; eauto using added_keeps. Qed.

Lemma inserted_lookup av addrs rs av' b j : inserted av addrs rs av' -> av_hash av !! b = Some j -> av_hash av' !! b = Some j.
Proof. induction 1; eauto using added_lookup. Qed.

(** What the caller learns about one address. *)
Definition outcome av av' (a : list Z) (r : Z * Z) : Prop :=
  r.1 = 0 /\ ofi_valid_dest_ipaddr a = true /\ ofi_av_get_addr av' r.2 = Some (av_key av a) /\ ofi_av_lookup_fi_addr av' a = r.2 \/
  r = (- FI_ENOMEM, FI_ADDR_NOTAVAIL) /\ ofi_valid_dest_ipaddr a = true \/
  r = (- FI_EADDRNOTAVAIL, FI_ADDR_NOTAVAIL) /\ ofi_valid_dest_ipaddr a = false.

Lemma inserted_outcomes av addrs rs av' : inserted av addrs rs av' -> Forall2 (outcome av av') addrs rs.
Proof.
  induction 1 as [|av a i av1 addrs rs av' Hv Ha Hi IH|av a addrs rs av' Hv Hi IH|av a addrs rs av' Hv Hi IH];
    constructor; [|eapply Forall2_impl; [exact IH|]| |done| |done].
  - left. pose proof (added_get _ _ _ _ Ha) as [Hg Hl]. pose proof (inserted_addrlen _ _ _ _ Hi) as El. destruct (added_addrlen _ _ _ _ Ha) as [El1 _].
    split_and!; [done|done|by eapply inserted_keeps|]. cbn. unfold ofi_av_lookup_fi_addr, av_key in *. rewrite El.
    destruct (av_hash av1 !! take (Z.to_nat (av_addrlen av1)) a) as [j|] eqn:E.
    + rewrite (inserted_lookup _ _ _ _ _ _ Hi E). congruence.
    + exfalso. destruct Ha as [e Hh He Hd|n Hh Hp Hnn]; unfold av_key in *; cbn in *; [congruence|]. by rewrite lookup_insert_eq in E.
  - intros b r. unfold outcome, av_key. destruct (added_addrlen _ _ _ _ Ha) as [-> _]. done.
  - right. by left.
  - right. by right.
Qed.

(** The indices of the addresses that were inserted. *)
Definition inserted_at (rs : list (Z * Z)) : list Z := (filter (fun r : Z * Z => r.1 = 0) rs).*2.

Lemma remove_loop_app l1 l2 av err : remove_loop (l1 ++ l2) av err = let '(e, av') := remove_loop l1 av err in remove_loop l2 av' e.
Proof. revert av err. induction l1 as [|i l1 IH]; intros av err; [done|]. cbn. destruct (ofi_av_remove_addr av i). apply IH. Qed.

Lemma inserted_undo av addrs rs av' n :
  inserted av addrs rs av' -> av_wf av -> remove_loop (rev (inserted_at rs)) (av' <| av_region_cnt := n |>) 0 = (0, av <| av_region_cnt := n |>).
Proof.
  induction 1 as [|av a i av1 addrs rs av' Hv Ha Hi IH|av a addrs rs av' Hv Hi IH|av a addrs rs av' Hv Hi IH]; intros Hwf; [done| |by apply IH..].
  change (inserted_at ((0, i) :: rs)) with (i :: inserted_at rs). cbn [rev]. rewrite remove_loop_app, IH by (by eapply added_wf).
  cbn. by rewrite (added_undo _ _ _ _ n Hwf Ha).
Qed.

(** ** Insertion and removal *)

(** A vector of IPv4 addresses. *)
Definition av_ipv4 av : Prop := av_wf av /\ av_addrlen av = 16 /\ has (av_flags av) OFI_AV_DYN_ADDRLEN = false.

Lemma same_flags f : has f OFI_AV_DYN_ADDRLEN = false -> Z.land f (Z.lnot OFI_AV_DYN_ADDRLEN) = f.
Proof.
  intros H%negb_false_iff%Z.eqb_eq. rewrite <- Z.ldiff_land.
  apply Z.bits_inj. intros j. rewrite Z.ldiff_spec. assert (E : Z.testbit (Z.land f OFI_AV_DYN_ADDRLEN) j = false) by (rewrite H; apply Z.testbit_0_l).
  rewrite Z.land_spec in E. destruct (Z.testbit f j), (Z.testbit OFI_AV_DYN_ADDRLEN j); done.
Qed.

Lemma insertv_ipv4 buf count av (k : K) :
  av_ipv4 av -> 0 <= count ->
  wp (ofi_ip_av_insertv buf 16 count) (fun '(r, rs) '(av', _) => r = successes rs /\ inserted av (elements buf 16 count) rs av') (av, k).
Proof.
  intros (Hwf & Hl & Hf) Hc. unfold ofi_ip_av_insertv. destruct (Z.eqb_spec count 0) as [->|Hne]; [apply wp_ret; split; [done|constructor]|].
  apply wp_bind, wp_gets. cbn [fst]. rewrite Hl. cbn [Z.gtb Z.compare Pos.compare Pos.compare_cont]. apply wp_bind, wp_gets. cbn [fst]. rewrite Hf. cbn [negb].
  apply wp_bind, wp_modify, wp_bind, wp_gets. cbn [fst set_field av_addrlen Z.eqb Pos.eqb negb].
  match goal with |- wp _ _ (?a, _) => replace a with av by (destruct av as [al ch rc po ha fl]; cbn in *; unfold set_field; cbn; by rewrite (same_flags fl Hf), Hl) end.
  apply wp_bind. eapply wp_mono; [by apply insert_loop_inserts|]. intros rs [av' k'] Hi. by apply wp_ret.
Qed.

(** C26: fi_av_insert.  Inserting an array of [count] addresses, the first of
    which is an IPv4 address, into a vector of IPv4 addresses always returns
    the number of addresses inserted.  An address that is a valid
    destination (a port, an address, zero padding) is inserted, found under
    the index returned for it and maps back to that index, unless there was
    no memory for it; any other is refused with FI_EADDRNOTAVAIL; the ones
    not inserted get FI_ADDR_NOTAVAIL.  Every index that was in use keeps
    its address.  Removing the indices returned brings back the same
    vector, with the same use counts, up to the memory of its pool. *)
Theorem av_insert_remove buf count flags context av (k : K) :
  av_ipv4 av -> 0 < count -> sa_family buf = AF_INET -> ofi_verify_av_insert flags context = 0 ->
  wp (ofi_ip_av_insert buf count flags context) (fun '(r, rs) '(av', _) =>
    av_ipv4 av' /\ r = Z.of_nat (length (inserted_at rs)) /\ Forall2 (outcome av av') (elements buf 16 count) rs /\
    (forall j b, ofi_av_get_addr av j = Some b -> ofi_av_get_addr av' j = Some b) /\
    exists n, ofi_ip_av_remove av' (inserted_at rs) 0 = (0, av <| av_region_cnt := n |>)) (av, k).
Proof.
  intros Hav Hc Hf Hv. unfold ofi_ip_av_insert. rewrite Hv. cbn [Z.eqb negb]. unfold ofi_sizeofaddr. rewrite Hf.
  replace (count =? 0) with false by (symmetry; apply Z.eqb_neq; lia). cbn [AF_INET Z.eqb Pos.eqb].
  eapply wp_mono; [apply insertv_ipv4; [done|lia]|]. intros [r rs] [av' k'] [-> Hi]. destruct Hav as (Hwf & Hl & Hfl).
  split_and!.
  - split_and!; [by eapply inserted_wf|by rewrite (inserted_addrlen _ _ _ _ Hi)|].
    clear -Hi Hfl. induction Hi as [|av a i av1 addrs rs av' Hv Ha Hi IH| |]; auto. apply IH. by destruct (added_addrlen _ _ _ _ Ha) as [_ ->].
  - unfold successes, inserted_at. by rewrite length_fmap.
  - by apply inserted_outcomes.
  - intros j b. by apply inserted_keeps with (addrs := elements buf 16 count) (rs := rs).
  - exists (av_region_cnt av'). unfold ofi_ip_av_remove. cbn [Z.eqb negb].
    replace av' with (av' <| av_region_cnt := av_region_cnt av' |>) at 1 by (by destruct av'). by apply inserted_undo with (addrs := elements buf 16 count).
Qed.

(** ** Families the vector does not know *)

Lemma unknown_family a : ofi_sizeofaddr a = 0 -> ofi_valid_dest_ipaddr a = false.
Proof. unfold ofi_sizeofaddr, ofi_valid_dest_ipaddr, ofi_addr_get_port. by repeat case_match. Qed.

Lemma insert_loop_bad addrs (s : util_av * K) :
  Forall (fun a => ofi_valid_dest_ipaddr a = false) addrs ->
  wp (insert_loop addrs) (fun rs s' => s' = s /\ Forall (fun r => r = (- FI_EADDRNOTAVAIL, FI_ADDR_NOTAVAIL)) rs) s.
Proof.
  induction 1 as [|a addrs Ha _ IH]; cbn [insert_loop]; [by apply wp_ret|].
  unfold ip_av_insert_addr. rewrite Ha. apply wp_bind, wp_ret, wp_bind. eapply wp_mono; [exact IH|]. intros rs s' [-> Hr]. apply wp_ret. by split; [|constructor].
Qed.

(** C34: an address of an unknown family disables the vector.  Inserting an
    array that starts with an address of a family other than IPv4, IPv6 and
    InfiniBand inserts nothing, reports every address as invalid and leaves
    the entries of the vector as they were, but sets the length of its
    addresses to 0: from then on every insertion that starts with an address
    of a known family is refused with -FI_EINVAL. *)
Theorem av_unknown_family_disables buf count flags context av (k : K) :
  av_ipv4 av -> 0 < count -> ofi_sizeofaddr buf = 0 -> ofi_verify_av_insert flags context = 0 ->
  wp (ofi_ip_av_insert buf count flags context) (fun '(r, rs) '(av', k') =>
    r = 0 /\ Forall (fun r => r = (- FI_EADDRNOTAVAIL, FI_ADDR_NOTAVAIL)) rs /\ av_addrlen av' = 0 /\
    (forall j, ofi_av_get_addr av' j = ofi_av_get_addr av j) /\
    forall buf' count' flags' context', 0 < count' -> 0 < ofi_sizeofaddr buf' -> ofi_verify_av_insert flags' context' = 0 ->
      ofi_ip_av_insert buf' count' flags' context' (av', k') = Some ((- FI_EINVAL, []), (av', k'))) (av, k).
Proof.
  intros (Hwf & Hl & Hf) Hc Hs Hv. unfold ofi_ip_av_insert at 1, ofi_ip_av_insertv at 1. rewrite Hv, Hs. cbn [Z.eqb negb].
  replace (count =? 0) with false by (symmetry; apply Z.eqb_neq; lia). apply wp_bind, wp_gets. cbn [fst]. rewrite Hl. cbn [Z.gtb Z.compare].
  apply wp_bind, wp_gets. cbn [fst]. rewrite Hf. cbn [negb]. apply wp_bind, wp_modify, wp_bind, wp_gets. cbn [fst set_field av_addrlen Z.eqb negb].
  apply wp_bind. eapply wp_mono; [apply insert_loop_bad|].
  { apply Forall_fmap, Forall_forall. intros i _. cbn. rewrite Z.mul_0_r, drop_0. by apply unknown_family. }
  cbn beta. intros rs [av' k'] [[= -> ->] Hr]. apply wp_ret. split_and!; [|done|done|done|].
  - unfold successes. replace (filter _ rs) with (@nil (Z * Z)); [done|]. symmetry. clear -Hr. induction Hr as [|r rs Hr _ IH]; [done|]. subst r. by rewrite filter_cons_False.
  - intros buf' count' flags' context' Hc' Hs' Hv'. unfold ofi_ip_av_insert, ofi_ip_av_insertv. rewrite Hv'. cbn [Z.eqb negb].
    replace (count' =? 0) with false by (symmetry; apply Z.eqb_neq; lia). unfold bind, av_get, gets. cbn.
    by replace (ofi_sizeofaddr buf' >? 0) with true by (symmetry; apply Z.gtb_lt; lia).
Qed.

(** A vector opened for addresses of any family keeps the length of the
    longest and cannot take an IPv4 address: the assertion on the length
    fails. *)
Theorem av_dynamic_length_fails buf count flags context av (k : K) :
  av_addrlen av = 28 -> has (av_flags av) OFI_AV_DYN_ADDRLEN = true -> 0 < count -> sa_family buf = AF_INET ->
  ofi_verify_av_insert flags context = 0 -> ofi_ip_av_insert buf count flags context (av, k) = None.
Proof.
  intros Hl Hf Hc Ha Hv. unfold ofi_ip_av_insert, ofi_ip_av_insertv, ofi_sizeofaddr. rewrite Hv, Ha.
  replace (count =? 0) with false by (symmetry; apply Z.eqb_neq; lia). unfold bind, av_get, gets. cbn. rewrite Hl. cbn. rewrite Hf. cbn. by rewrite Hl.
Qed.

(** ** Symmetric ranges *)

(** The range of three IPv6 hosts from ::fe on is not ::fe, ::ff, ::100. *)
Theorem ip6_range_skips_hosts :
  (fun sa => take 2 (drop 22 sa)) <$> ip6sym (replicate 15 0 ++ [254]) 3 7 1 = [[0; 254]; [1; 255]; [1; 0]].
Proof. reflexivity. Qed.

Lemma resolve_loop_same n node service family len l a :
  rs_getaddrinfo node service family = inr a -> resolve_loop n node service family len = inr l -> l = replicate n (take (Z.to_nat len) a).
Proof.
  intros Ha. revert l. induction n as [|n IH]; intros l; cbn; [by intros [= <-]|]. rewrite Ha.
  destruct (resolve_loop n _ _ _ _) as [e|l'] eqn:E; [done|]. intros [= <-]. by rewrite (IH l' eq_refl).
Qed.

Lemma concat_replicate_at (a : list Z) m n i :
  length a = m -> (i < n)%nat -> take m (drop (i * m) (concat (replicate n a))) = a.
Proof.
  intros Hm. revert i. induction n as [|n IH]; intros i Hi; [lia|]. cbn [replicate concat]. destruct i as [|i]; cbn [Nat.mul].
  - rewrite drop_0, take_app_le by lia. apply take_ge. lia.
  - rewrite drop_app_ge by lia. replace (m + i * m - length a)%nat with (i * m)%nat by lia. apply IH. lia.
Qed.

Lemma elements_same a n x : length a = 16%nat -> 0 <= n -> x ∈ elements (concat (replicate (Z.to_nat n) a)) 16 n -> take 16 x = a.
Proof.
  intros Ha Hn (i & -> & Hi%elem_of_seqZ)%list_elem_of_fmap. replace (Z.to_nat (i * 16)) with (Z.to_nat i * 16)%nat by lia.
  apply concat_replicate_at; [done|lia].
Qed.

(** A range of named hosts is one peer.  fi_av_insertsym on a node that
    is a name (not a numeric address) and more than one host or service
    resolves the name and service it was passed for every one of them: all
    the addresses it inserts have the same index.  (The resolver returns an
    IPv4 socket address of 16 bytes.) *)
Theorem node_range_is_one_peer node nodecnt service svccnt flags context a av (k : K) :
  av_ipv4 av -> rs_pton4 node = None -> rs_pton6 node = None -> has_stem node = true -> rs_getaddrinfo node service AF_INET = inr a ->
  length a = 16%nat -> 0 <= nodecnt * svccnt < 2 ^ 31 ->
  wp (ofi_ip_av_insertsym FI_SOCKADDR_IN node nodecnt service svccnt flags context) (fun '(_, rs) _ =>
    forall x y, x ∈ rs -> y ∈ rs -> x.1 = 0 -> y.1 = 0 -> x.2 = y.2) (av, k).
Proof.
  intros Hav H4 H6 Hst Hg Ha Hn. assert (Hnil : forall x y : Z * Z, x ∈ ([] : list (Z * Z)) -> y ∈ ([] : list (Z * Z)) -> x.1 = 0 -> y.1 = 0 -> x.2 = y.2) by (intros ? ? []%elem_of_nil).
  unfold ofi_ip_av_insertsym. destruct (negb _); [by apply wp_ret|]. apply wp_bind. unfold ofi_ip_av_sym_getaddr. destruct (_ || _); [by apply wp_ret, wp_ret|].
  rewrite H4, H6. unfold ip_av_nodesym_getaddr. replace (nodecnt * svccnt >=? 2 ^ 64) with false by (symmetry; rewrite Z.geb_leb; apply Z.leb_gt; lia).
  apply wp_bind. unfold wp at 1, av_alloc. destruct (k_alloc _ k) as [[p|] k']; [|by apply wp_ret, wp_ret]. rewrite Hst. cbn [negb].
  destruct (resolve_loop _ _ _ _ _) as [e|l] eqn:E; apply wp_ret; [destruct (e <=? 0) eqn:He; [by apply wp_ret|]|].
  { exfalso. clear -E He Hg. induction (Z.to_nat (nodecnt * svccnt)) as [|n IH]; cbn in E; [done|]. rewrite Hg in E. destruct (resolve_loop n _ _ _ _); [|done]. auto. }
  apply (resolve_loop_same _ _ _ _ _ _ _ Hg) in E as ->. change (Z.to_nat 16) with 16%nat. rewrite take_ge by lia.
  assert (Ei : to_int (nodecnt * svccnt) = nodecnt * svccnt).
  { unfold to_int, u32. rewrite Z.mod_small by lia. by replace (_ <? 2 ^ 31) with true by (symmetry; apply Z.ltb_lt; lia). }
  rewrite Ei. destruct (_ <=? 0); [by apply wp_ret|]. eapply wp_mono; [apply insertv_ipv4; [done|lia]|]. intros [r rs] [av' k''] [_ Hi] x y Hx Hy Hx0 Hy0.
  assert (Hone : forall z, z ∈ rs -> z.1 = 0 -> z.2 = match av_hash av' !! a with Some j => j | None => FI_ADDR_NOTAVAIL end).
  { intros z Hz Hz0. apply list_elem_of_lookup in Hz as [m Hm]. pose proof (inserted_outcomes _ _ _ _ Hi) as Ho.
    destruct (Forall2_lookup_r _ _ _ _ _ Ho Hm) as (b & Hb%list_elem_of_lookup_2 & [(_ & _ & _ & <-)|[[-> _]|[-> _]]]); [|done..].
    unfold ofi_av_lookup_fi_addr, av_key. rewrite (inserted_addrlen _ _ _ _ Hi). destruct Hav as (_ & -> & _). change (Z.to_nat 16) with 16%nat. rewrite (elements_same a (nodecnt * svccnt) b Ha); [done|lia|done]. }
  by rewrite (Hone x), (Hone y).
Qed.
End AvSpec.

(** ** A concrete vector *)

Lemma demo_av_ipv4 : av_ipv4 demo_av.
Proof. split_and!; [exact demo_av_wf|done..]. Qed.

(** A known peer, a new one, and an address without a port. *)
Definition demo_array : list Z := demo_addr 1 ++ demo_addr 2 ++ sockaddr_in 167772163 0.

Lemma av_insert_remove_witness : av_ipv4 demo_av /\
  wp (ofi_ip_av_insert demo_array 3 0 false) (fun '(r, rs) '(av', _) =>
    av_ipv4 av' /\ r = Z.of_nat (length (inserted_at rs)) /\ Forall2 (outcome demo_av av') (elements demo_array 16 3) rs /\
    (forall j b, ofi_av_get_addr demo_av j = Some b -> ofi_av_get_addr av' j = Some b) /\
    exists n, ofi_ip_av_remove av' (inserted_at rs) 0 = (0, demo_av <| av_region_cnt := n |>)) (demo_av, quiet0).
Proof. split; [exact demo_av_ipv4|]. apply av_insert_remove; [exact demo_av_ipv4|lia|reflexivity|reflexivity]. Defined.

Example demo_array_inserted :
  match ofi_ip_av_insert demo_array 3 0 false (demo_av, quiet0) with
  | Some (r, _) => r = (2, [(0, 0); (0, 1); (- FI_EADDRNOTAVAIL, FI_ADDR_NOTAVAIL)])
  | None => False
  end.
Proof. vm_compute. reflexivity. Qed.

(** An address of family 99. *)
Definition demo_alien : list Z := [99; 0; 0; 7] ++ replicate 12 0.

Lemma av_unknown_family_disables_witness : av_ipv4 demo_av /\
  wp (ofi_ip_av_insert demo_alien 1 0 false) (fun '(r, rs) '(av', k') =>
    r = 0 /\ Forall (fun r => r = (- FI_EADDRNOTAVAIL, FI_ADDR_NOTAVAIL)) rs /\ av_addrlen av' = 0 /\
    (forall j, ofi_av_get_addr av' j = ofi_av_get_addr demo_av j) /\
    forall buf' count' flags' context', 0 < count' -> 0 < ofi_sizeofaddr buf' -> ofi_verify_av_insert flags' context' = 0 ->
      ofi_ip_av_insert buf' count' flags' context' (av', k') = Some ((- FI_EINVAL, []), (av', k'))) (demo_av, quiet0).
Proof. split; [exact demo_av_ipv4|]. apply av_unknown_family_disables; [exact demo_av_ipv4|lia|reflexivity|reflexivity]. Defined.

(** A resolver that knows one host. *)
#[local] Instance demo_resolver : Resolver :=
  {| rs_pton4 _ := None; rs_pton6 _ := None; rs_getaddrinfo _ _ _ := inr (demo_addr 9) |}.

Lemma node_range_is_one_peer_witness : av_ipv4 demo_av /\
  wp (ofi_ip_av_insertsym FI_SOCKADDR_IN "node1" 4 "7" 1 0 false) (fun '(_, rs) _ =>
    forall x y, x ∈ rs -> y ∈ rs -> x.1 = 0 -> y.1 = 0 -> x.2 = y.2) (demo_av, quiet0).
Proof.
  split; [exact demo_av_ipv4|].
  apply (node_range_is_one_peer "node1" 4 "7" 1 0 false (demo_addr 9)); [exact demo_av_ipv4|reflexivity|reflexivity|reflexivity|reflexivity|reflexivity|lia].
Defined.
