(* ===== verification/Rbt.v ===== *)
(** * The red-black tree of [src/tree.c]

    [struct ofi_rbmap] with its nodes, parent pointers, embedded sentinel and
    free list, and every operation on it, as C manipulates them: a node is
    an address in [rm_nodes], and following a pointer that is no node (NULL,
    a node that was never allocated) is undefined.  The comparison callback
    of the map is an argument of the operations that call it. *)

From S2P Require Import Prelude.

(** ** Data *)

Inductive ofi_node_color := BLACK | RED.
#[export] Instance ofi_node_color_eq : EqDecision ofi_node_color.
Proof. solve_decision. Defined.

Record ofi_rbnode := mkRbNode {
  rb_left : Z; rb_right : Z; rb_parent : Z; rb_color : ofi_node_color; rb_data : Z }.

#[export] Instance ofi_rbnode_eta : Settable ofi_rbnode := fun n =>
  mkRbNode (rb_left n) (rb_right n) (rb_parent n) (rb_color n) (rb_data n).

(** The null pointer, and [&map->sentinel]. *)
Definition NULL : Z := 0.
Definition SENTINEL : Z := 1.

(** [rm_nodes] holds the sentinel and every node [malloc] returned, on the
    free list or not; [rm_next] is the address of the next new node. *)
Record ofi_rbmap := mkRbMap {
  rm_root : Z; rm_nodes : gmap Z ofi_rbnode; rm_free_list : Z; rm_next : Z }.

#[export] Instance ofi_rbmap_eta : Settable ofi_rbmap := fun m =>
  mkRbMap (rm_root m) (rm_nodes m) (rm_free_list m) (rm_next m).

Definition ofi_rbmap_init : ofi_rbmap :=
  mkRbMap SENTINEL {[ SENTINEL := mkRbNode SENTINEL SENTINEL NULL BLACK 0 ]} NULL 2.

(** ** Access to nodes *)

Definition node (a : Z) : M ofi_rbmap ofi_rbnode := fun m =>
  match rm_nodes m !! a with Some n => Some (n, m) | None => None end.
Definition node_upd (a : Z) (f : ofi_rbnode -> ofi_rbnode) : M ofi_rbmap unit := fun m =>
  match rm_nodes m !! a with
  | Some n => Some (tt, m <| rm_nodes ::= insert a (f n) |>)
  | None => None
  end.
Definition left_of (a : Z) : M ofi_rbmap Z := n <- node a ;; ret (rb_left n).
Definition right_of (a : Z) : M ofi_rbmap Z := n <- node a ;; ret (rb_right n).
Definition parent_of (a : Z) : M ofi_rbmap Z := n <- node a ;; ret (rb_parent n).
Definition is_red (a : Z) : M ofi_rbmap bool := n <- node a ;; ret (bool_decide (rb_color n = RED)).
Definition set_color (a : Z) (c : ofi_node_color) : M ofi_rbmap unit :=
  node_upd a (fun n => n <| rb_color := c |>).
Definition set_root (a : Z) : M ofi_rbmap unit := modify (fun m => m <| rm_root := a |>).

(** ** Node storage *)

(** A node from [malloc]; its fields are not initialised. *)
Definition rbnode_malloc : M ofi_rbmap Z := fun m =>
  Some (rm_next m, m <| rm_nodes ::= insert (rm_next m) (mkRbNode NULL NULL NULL BLACK 0) |>
                     <| rm_next ::= Z.add 1 |>).

(** [ofi_rbnode_alloc] when the free list has a node. *)
Definition rbnode_reuse : M ofi_rbmap Z :=
  node_ <- gets rm_free_list ;;
  r <- right_of node_ ;;
  modify (fun m => m <| rm_free_list := r |>) ;;;
  ret node_.

(** [mem] tells whether [malloc] succeeds. *)
Definition ofi_rbnode_alloc (mem : bool) : M ofi_rbmap Z :=
  f <- gets rm_free_list ;;
  if f =? NULL then (if mem then rbnode_malloc else ret NULL) else rbnode_reuse.

Definition ofi_rbnode_free (a : Z) : M ofi_rbmap unit :=
  f <- gets rm_free_list ;;
  node_upd a (fun n => n <| rb_right := f |>) ;;;
  modify (fun m => m <| rm_free_list := a |>).

(** ** Rotations *)

(** The child pointer of [parent] (or the root) that led to [old] now leads
    to [new]. *)
Definition relink (parent old new : Z) : M ofi_rbmap unit :=
  if parent =? NULL then set_root new
  else
    l <- left_of parent ;;
    if old =? l then node_upd parent (fun n => n <| rb_left := new |>)
    else node_upd parent (fun n => n <| rb_right := new |>).

Definition ofi_rotate_left (x : Z) : M ofi_rbmap unit :=
  y <- right_of x ;;
  yl <- left_of y ;;
  node_upd x (fun n => n <| rb_right := yl |>) ;;;
  when (negb (yl =? SENTINEL)) (node_upd yl (fun n => n <| rb_parent := x |>)) ;;;
  p <- parent_of x ;;
  when (negb (y =? SENTINEL)) (node_upd y (fun n => n <| rb_parent := p |>)) ;;;
  relink p x y ;;;
  node_upd y (fun n => n <| rb_left := x |>) ;;;
  when (negb (x =? SENTINEL)) (node_upd x (fun n => n <| rb_parent := y |>)).

(** The mirror image; C tests the right child of the parent first. *)
Definition relink_right (parent old new : Z) : M ofi_rbmap unit :=
  if parent =? NULL then set_root new
  else
    r <- right_of parent ;;
    if old =? r then node_upd parent (fun n => n <| rb_right := new |>)
    else node_upd parent (fun n => n <| rb_left := new |>).

Definition ofi_rotate_right (x : Z) : M ofi_rbmap unit :=
  y <- left_of x ;;
  yr <- right_of y ;;
  node_upd x (fun n => n <| rb_left := yr |>) ;;;
  when (negb (yr =? SENTINEL)) (node_upd yr (fun n => n <| rb_parent := x |>)) ;;;
  p <- parent_of x ;;
  when (negb (y =? SENTINEL)) (node_upd y (fun n => n <| rb_parent := p |>)) ;;;
  relink_right p x y ;;;
  node_upd y (fun n => n <| rb_right := x |>) ;;;
  when (negb (x =? SENTINEL)) (node_upd x (fun n => n <| rb_parent := y |>)).

(** ** Insertion *)

(** The two arms of the loop of [ofi_insert_rebalance]; the result is the
    next [x]. *)
Definition insert_fix_left (x p g : Z) : M ofi_rbmap Z :=
  y <- right_of g ;;
  red <- is_red y ;;
  if (red : bool) then
    set_color p BLACK ;;; set_color y BLACK ;;; set_color g RED ;;; ret g
  else
    pr <- right_of p ;;
    x <- (if x =? pr then ofi_rotate_left p ;;; ret p else ret x) ;;
    p <- parent_of x ;;
    set_color p BLACK ;;;
    g <- parent_of p ;;
    set_color g RED ;;;
    ofi_rotate_right g ;;;
    ret x.

Definition insert_fix_right (x p g : Z) : M ofi_rbmap Z :=
  y <- left_of g ;;
  red <- is_red y ;;
  if (red : bool) then
    set_color p BLACK ;;; set_color y BLACK ;;; set_color g RED ;;; ret g
  else
    pl <- left_of p ;;
    x <- (if x =? pl then ofi_rotate_right p ;;; ret p else ret x) ;;
    p <- parent_of x ;;
    set_color p BLACK ;;;
    g <- parent_of p ;;
    set_color g RED ;;;
    ofi_rotate_left g ;;;
    ret x.

Fixpoint insert_rebalance_loop (fuel : nat) (x : Z) : M ofi_rbmap unit :=
  root <- gets rm_root ;;
  if x =? root then ret tt
  else
    p <- parent_of x ;;
    red <- is_red p ;;
    if negb red then ret tt
    else
      match fuel with
      | O => ub
      | S fuel' =>
          g <- parent_of p ;;
          gl <- left_of g ;;
          x <- (if p =? gl then insert_fix_left x p g else insert_fix_right x p g) ;;
          insert_rebalance_loop fuel' x
      end.

(** [x] climbs towards the root, so the number of nodes bounds the loop. *)
Definition ofi_insert_rebalance (x : Z) : M ofi_rbmap unit :=
  n <- gets (fun m => size (rm_nodes m)) ;;
  insert_rebalance_loop n x ;;;
  root <- gets rm_root ;;
  set_color root BLACK.

(** The descent of [ofi_rbmap_insert_common]: the node that compares equal,
    or the parent of the new node. *)
Fixpoint insert_descend (fuel : nat) (cmp : Z -> comparison) (current parent : Z) : M ofi_rbmap (Z + Z) :=
  if current =? SENTINEL then ret (inr parent)
  else
    match fuel with
    | O => ub
    | S fuel' =>
        n <- node current ;;
        match cmp (rb_data n) with
        | Eq => ret (inl current)
        | Lt => insert_descend fuel' cmp (rb_left n) current
        | Gt => insert_descend fuel' cmp (rb_right n) current
        end
    end.

(** The new node [x] below [parent], or as the root. *)
Definition insert_attach (cmp : Z -> comparison) (data x parent : Z) : M ofi_rbmap unit :=
  node_upd x (fun _ => mkRbNode SENTINEL SENTINEL parent RED data) ;;;
  if parent =? NULL then set_root x
  else
    pn <- node parent ;;
    match cmp (rb_data pn) with
    | Lt => node_upd parent (fun n => n <| rb_left := x |>)
    | _ => node_upd parent (fun n => n <| rb_right := x |>)
    end.

(** [ofi_rbmap_insert_common]: the code, and the node stored in [*ret_node],
    if one is stored; [mem] tells whether [malloc] succeeds. *)
Definition ofi_rbmap_insert_common (cmp : Z -> comparison) (data prealloc : Z) (mem : bool) : M ofi_rbmap (Z * option Z) :=
  n <- gets (fun m => size (rm_nodes m)) ;;
  root <- gets rm_root ;;
  found <- insert_descend n cmp root NULL ;;
  match found with
  | inl current => ret (- FI_EALREADY, Some current)
  | inr parent =>
      x <- (if negb (prealloc =? NULL) then ret prealloc else ofi_rbnode_alloc mem) ;;
      if x =? NULL then ret (- FI_ENOMEM, None)
      else
        insert_attach cmp data x parent ;;;
        ofi_insert_rebalance x ;;;
        ret (0, Some x)
  end.

Definition ofi_rbmap_insert_at (cmp : Z -> comparison) (data prealloc : Z) (mem : bool) : M ofi_rbmap (Z * option Z) :=
  ofi_rbmap_insert_common cmp data prealloc mem.

(** ** Deletion *)

(** The arm of the loop of [ofi_delete_rebalance] for a left child of [p],
    from its end: the final rotation, the sibling [w] being black, and the
    whole arm. *)
Definition delete_final_left (p w : Z) : M ofi_rbmap Z :=
  pn <- node p ;;
  set_color w (rb_color pn) ;;;
  set_color p BLACK ;;;
  wr <- right_of w ;;
  set_color wr BLACK ;;;
  ofi_rotate_left p ;;;
  gets rm_root.

Definition delete_black_left (p w : Z) : M ofi_rbmap Z :=
  wl <- left_of w ;;
  wr <- right_of w ;;
  lred <- is_red wl ;;
  rred <- is_red wr ;;
  if negb lred && negb rred then
    set_color w RED ;;; ret p
  else
    w <- (if negb rred
          then set_color wl BLACK ;;; set_color w RED ;;; ofi_rotate_right w ;;; right_of p
          else ret w) ;;
    delete_final_left p w.

Definition delete_fix_left (p : Z) : M ofi_rbmap Z :=
  w <- right_of p ;;
  red <- is_red w ;;
  w <- (if (red : bool)
        then set_color w BLACK ;;; set_color p RED ;;; ofi_rotate_left p ;;; right_of p
        else ret w) ;;
  delete_black_left p w.

(** The mirror image. *)
Definition delete_final_right (p w : Z) : M ofi_rbmap Z :=
  pn <- node p ;;
  set_color w (rb_color pn) ;;;
  set_color p BLACK ;;;
  wl <- left_of w ;;
  set_color wl BLACK ;;;
  ofi_rotate_right p ;;;
  gets rm_root.

Definition delete_black_right (p w : Z) : M ofi_rbmap Z :=
  wr <- right_of w ;;
  wl <- left_of w ;;
  rred <- is_red wr ;;
  lred <- is_red wl ;;
  if negb rred && negb lred then
    set_color w RED ;;; ret p
  else
    w <- (if negb lred
          then set_color wr BLACK ;;; set_color w RED ;;; ofi_rotate_left w ;;; left_of p
          else ret w) ;;
    delete_final_right p w.

Definition delete_fix_right (p : Z) : M ofi_rbmap Z :=
  w <- left_of p ;;
  red <- is_red w ;;
  w <- (if (red : bool)
        then set_color w BLACK ;;; set_color p RED ;;; ofi_rotate_right p ;;; left_of p
        else ret w) ;;
  delete_black_right p w.

Fixpoint delete_rebalance_loop (fuel : nat) (x : Z) : M ofi_rbmap Z :=
  root <- gets rm_root ;;
  if x =? root then ret x
  else
    red <- is_red x ;;
    if (red : bool) then ret x
    else
      match fuel with
      | O => ub
      | S fuel' =>
          p <- parent_of x ;;
          pl <- left_of p ;;
          x <- (if x =? pl then delete_fix_left p else delete_fix_right p) ;;
          delete_rebalance_loop fuel' x
      end.

Definition ofi_delete_rebalance (x : Z) : M ofi_rbmap unit :=
  n <- gets (fun m => size (rm_nodes m)) ;;
  x <- delete_rebalance_loop n x ;;
  set_color x BLACK.

Definition ofi_rbmap_replace_node_ptr (old_node new_node : Z) : M ofi_rbmap unit :=
  if new_node =? old_node then ret tt
  else
    o <- node old_node ;;
    node_upd new_node (fun _ => o) ;;;
    relink (rb_parent o) old_node new_node ;;;
    when (negb (rb_left o =? SENTINEL)) (node_upd (rb_left o) (fun n => n <| rb_parent := new_node |>)) ;;;
    when (negb (rb_right o =? SENTINEL)) (node_upd (rb_right o) (fun n => n <| rb_parent := new_node |>)).

(** The leftmost node of a subtree. *)
Fixpoint leftmost (fuel : nat) (y : Z) : M ofi_rbmap Z :=
  l <- left_of y ;;
  if l =? SENTINEL then ret y
  else match fuel with O => ub | S fuel' => leftmost fuel' l end.

(** The node to splice out, and its only child. *)
Definition delete_target (z : Z) : M ofi_rbmap (Z * Z) :=
  zn <- node z ;;
  if rb_left zn =? SENTINEL then ret (z, rb_right zn)
  else if rb_right zn =? SENTINEL then ret (z, rb_left zn)
  else
    n <- gets (fun m => size (rm_nodes m)) ;;
    y <- leftmost n (rb_right zn) ;;
    x <- right_of y ;;
    ret (y, x).

(** [ofi_rbmap_delete] once the node [y] to splice out and its child [x] are
    known. *)
Definition delete_splice (z y x : Z) : M ofi_rbmap unit :=
  yn <- node y ;;
  node_upd x (fun n => n <| rb_parent := rb_parent yn |>) ;;;
  relink (rb_parent yn) y x ;;;
  when (negb (y =? z)) (node_upd z (fun n => n <| rb_data := rb_data yn |>)) ;;;
  when (bool_decide (rb_color yn = BLACK)) (ofi_delete_rebalance x) ;;;
  ofi_rbmap_replace_node_ptr z y ;;;
  ofi_rbnode_free z.

Definition ofi_rbmap_delete (z : Z) : M ofi_rbmap unit :=
  yx <- delete_target z ;;
  delete_splice z yx.1 yx.2.

(** ** Search *)

(** [ofi_rbmap_search] (and [ofi_rbmap_find], with the map's comparison):
    [NULL] when nothing compares equal. *)
Fixpoint search_descend (fuel : nat) (cmp : Z -> comparison) (a : Z) : M ofi_rbmap Z :=
  if a =? SENTINEL then ret NULL
  else
    match fuel with
    | O => ub
    | S fuel' =>
        n <- node a ;;
        match cmp (rb_data n) with
        | Eq => ret a
        | Lt => search_descend fuel' cmp (rb_left n)
        | Gt => search_descend fuel' cmp (rb_right n)
        end
    end.

Definition ofi_rbmap_search (cmp : Z -> comparison) : M ofi_rbmap Z :=
  n <- gets (fun m => size (rm_nodes m)) ;;
  root <- gets rm_root ;;
  search_descend n cmp root.

Definition ofi_rbmap_empty (m : ofi_rbmap) : bool := rm_root m =? SENTINEL.

Definition ofi_rbmap_insert (cmp : Z -> comparison) (data : Z) (mem : bool) : M ofi_rbmap (Z * option Z) :=
  ofi_rbmap_insert_common cmp data NULL mem.

(** The same loop with the comparison of the map. *)
Definition ofi_rbmap_find (cmp : Z -> comparison) : M ofi_rbmap Z := ofi_rbmap_search cmp.

Definition ofi_rbmap_find_delete (cmp : Z -> comparison) : M ofi_rbmap Z :=
  x <- ofi_rbmap_find cmp ;;
  if x =? NULL then ret (- FI_ENODATA) else ofi_rbmap_delete x ;;; ret 0.

(** ** Release *)

(** [free] of a node: undefined when it was freed before. *)
Definition node_free (a : Z) : M ofi_rbmap unit :=
  _n <- node a ;; modify (fun m => m <| rm_nodes ::= delete a |>).

Fixpoint ofi_rbmap_foreach (fuel : nat) (a : Z) (func : Z -> M ofi_rbmap Z) : M ofi_rbmap Z :=
  if a =? SENTINEL then ret FI_SUCCESS
  else
    match fuel with
    | O => ub
    | S fuel' =>
        l <- left_of a ;;
        r1 <- ofi_rbmap_foreach fuel' l func ;;
        if negb (r1 =? 0) then ret r1
        else
          r <- right_of a ;;
          r2 <- ofi_rbmap_foreach fuel' r func ;;
          if negb (r2 =? 0) then ret r2 else func a
    end.

Fixpoint free_list_loop (fuel : nat) : M ofi_rbmap unit :=
  a <- gets rm_free_list ;;
  if a =? NULL then ret tt
  else
    match fuel with
    | O => ub
    | S fuel' =>
        r <- right_of a ;;
        modify (fun m => m <| rm_free_list := r |>) ;;;
        node_free a ;;;
        free_list_loop fuel'
    end.

Definition ofi_rbmap_cleanup : M ofi_rbmap unit :=
  n <- gets (fun m => size (rm_nodes m)) ;;
  root <- gets rm_root ;;
  _r <- ofi_rbmap_foreach n root (fun a => node_free a ;;; ret FI_SUCCESS) ;;
  free_list_loop n.

(** ** The contents *)

(** In-order walk: node and data of each element. *)
Fixpoint walk (fuel : nat) (nodes : gmap Z ofi_rbnode) (a : Z) : list (Z * Z) :=
  match fuel with
  | O => []
  | S fuel' =>
      if a =? SENTINEL then []
      else
        match nodes !! a with
        | Some n => walk fuel' nodes (rb_left n) ++ (a, rb_data n) :: walk fuel' nodes (rb_right n)
        | None => []
        end
  end.

Definition rb_list (m : ofi_rbmap) : list (Z * Z) := walk (size (rm_nodes m)) (rm_nodes m) (rm_root m).
