(* ===== verification/RbtRep.v ===== *)
(** * What a red-black map represents

    [rep m0 m k t sp]: the nodes of the map [m] form the tree [t] in the
    context [k] (the path back to the root), linked both ways; outside that
    tree the node storage is the one of [m0], and the sentinel's parent
    pointer is [sp].  Rotations, recolouring and navigation are specified
    once against [rep]; the loops are verified on trees and contexts. *)

From S2P Require Import Prelude Rbt.

(** ** Trees and contexts *)

Inductive tree :=
| Lf
| Nd (a : Z) (c : ofi_node_color) (d : Z) (l r : tree).

(** One step up: the hole is the left, or the right, child. *)
Inductive frame :=
| FL (a : Z) (c : ofi_node_color) (d : Z) (r : tree)
| FR (a : Z) (c : ofi_node_color) (d : Z) (l : tree).

Definition rt (t : tree) : Z := match t with Lf => SENTINEL | Nd a _ _ _ _ => a end.
Definition fr_addr (f : frame) : Z := match f with FL a _ _ _ | FR a _ _ _ => a end.
Definition up (k : list frame) : Z := match k with [] => NULL | f :: _ => fr_addr f end.

Definition fill (f : frame) (t : tree) : tree :=
  match f with FL a c d r => Nd a c d t r | FR a c d l => Nd a c d l t end.
Definition plug (k : list frame) (t : tree) : tree := foldl (fun t f => fill f t) t k.

Fixpoint addrs (t : tree) : list Z :=
  match t with Lf => [] | Nd a _ _ l r => a :: addrs l ++ addrs r end.
Definition fr_addrs (f : frame) : list Z :=
  match f with FL a _ _ t | FR a _ _ t => a :: addrs t end.
Fixpoint kaddrs (k : list frame) : list Z :=
  match k with [] => [] | f :: k' => fr_addrs f ++ kaddrs k' end.

(** The elements, in order. *)
Fixpoint elems (t : tree) : list (Z * Z) :=
  match t with Lf => [] | Nd a _ d l r => elems l ++ (a, d) :: elems r end.
Fixpoint before (k : list frame) : list (Z * Z) :=
  match k with [] => [] | FL _ _ _ _ :: k' => before k' | FR a _ d l :: k' => before k' ++ elems l ++ [(a, d)] end.
Fixpoint after (k : list frame) : list (Z * Z) :=
  match k with [] => [] | FL a _ d r :: k' => (a, d) :: elems r ++ after k' | FR _ _ _ _ :: k' => after k' end.

Lemma plug_elems k t : elems (plug k t) = before k ++ elems t ++ after k.
Proof.
  revert t. induction k as [|[a c d r|a c d l] k IH]; intros t; cbn; [by rewrite app_nil_r| |].
  all: change (foldl _ _ _) with (plug k (Nd a c d t r)) || change (foldl _ _ _) with (plug k (Nd a c d l t)).
  all: rewrite IH; cbn; by rewrite <- !app_assoc.
Qed.

Lemma plug_cons f k t : plug (f :: k) t = plug k (fill f t).
Proof. done. Qed.

Lemma plug_addrs k t : addrs (plug k t) ≡ₚ addrs t ++ kaddrs k.
Proof.
  revert t. induction k as [|f k IH]; intros t; [by rewrite app_nil_r|]. rewrite plug_cons, IH.
  destruct f as [a c d r|a c d l]; cbn; solve_Permutation.
Qed.

Lemma elems_addrs t : (elems t).*1 ≡ₚ addrs t.
Proof. induction t as [|a c d l IHl r IHr]; cbn; [done|]. rewrite fmap_app, fmap_cons, IHl, IHr. cbn. solve_Permutation. Qed.

(** ** Linked nodes *)

Fixpoint linked (N : gmap Z ofi_rbnode) (par : Z) (t : tree) : Prop :=
  match t with
  | Lf => True
  | Nd a c d l r => N !! a = Some (mkRbNode (rt l) (rt r) par c d) /\ linked N a l /\ linked N a r
  end.

Fixpoint klinked (N : gmap Z ofi_rbnode) (k : list frame) (hole : Z) : Prop :=
  match k with
  | [] => True
  | FL a c d r :: k' => N !! a = Some (mkRbNode hole (rt r) (up k') c d) /\ linked N a r /\ klinked N k' a
  | FR a c d l :: k' => N !! a = Some (mkRbNode (rt l) hole (up k') c d) /\ linked N a l /\ klinked N k' a
  end.

Definition kroot (k : list frame) (x : Z) : Z := match last k with Some f => fr_addr f | None => x end.

Record rep (m0 m : ofi_rbmap) (k : list frame) (t : tree) (sp : Z) : Prop := {
  rp_linked : linked (rm_nodes m) (up k) t;
  rp_klinked : klinked (rm_nodes m) k (rt t);
  rp_nodup : NoDup (addrs t ++ kaddrs k);
  rp_real : forall a, a ∈ addrs t ++ kaddrs k -> 1 < a;
  rp_root : rm_root m = kroot k (rt t);
  rp_sent : rm_nodes m !! SENTINEL = Some (mkRbNode SENTINEL SENTINEL sp BLACK 0);
  rp_out : forall a, (a ∉ addrs t ++ kaddrs k) -> a <> SENTINEL -> rm_nodes m !! a = rm_nodes m0 !! a;
  rp_free : rm_free_list m = rm_free_list m0;
  rp_next : rm_next m = rm_next m0 }.

Lemma linked_ext N N' par t : (forall a, a ∈ addrs t -> N' !! a = N !! a) -> linked N par t -> linked N' par t.
Proof.
  revert par. induction t as [|a c d l IHl r IHr]; intros par Hext; [done|]. cbn. intros (Ha & Hl & Hr).
  rewrite (Hext a) by (apply list_elem_of_here). split_and!; [done| |]; [apply IHl|apply IHr]; auto.
  all: intros b Hb; apply Hext; cbn; set_solver.
Qed.

Lemma klinked_ext N N' k hole : (forall a, a ∈ kaddrs k -> N' !! a = N !! a) -> klinked N k hole -> klinked N' k hole.
Proof.
  revert hole. induction k as [|[a c d t|a c d t] k IH]; intros hole Hext; [done| |]; cbn; intros (Ha & Ht & Hk).
  all: rewrite (Hext a) by (cbn; set_solver); split_and!; [done|eapply linked_ext; [|done]|apply IH; [|done]].
  all: intros b Hb; apply Hext; cbn; set_solver.
Qed.

(** The same tree under another parent, or with another node in the hole. *)
Lemma linked_parent N N' par par' t :
  (forall a, a ∈ addrs t -> a <> rt t -> N' !! a = N !! a) ->
  (forall n, t <> Lf -> N !! rt t = Some n -> N' !! rt t = Some (n <| rb_parent := par' |>)) ->
  NoDup (addrs t) -> linked N par t -> linked N' par' t.
Proof.
  destruct t as [|a c d l r]; [done|]. cbn. intros Hext Hrt Hnd (Ha & Hl & Hr). rewrite (Hrt _ ltac:(done) Ha).
  apply NoDup_cons in Hnd as [Hna _]. split_and!; [done| |]; (eapply linked_ext; [|done]); intros b Hb; apply Hext; set_solver.
Qed.

Lemma klinked_hole N N' k hole hole' :
  (forall a, a ∈ kaddrs k -> a <> up k -> N' !! a = N !! a) ->
  (forall f k', k = f :: k' -> forall n, N !! up k = Some n ->
     N' !! up k = Some (match f with FL _ _ _ _ => n <| rb_left := hole' |> | FR _ _ _ _ => n <| rb_right := hole' |> end)) ->
  NoDup (kaddrs k) -> klinked N k hole -> klinked N' k hole'.
Proof.
  destruct k as [|[a c d t|a c d t] k]; [done| |]; cbn; intros Hext Hup Hnd (Ha & Ht & Hk).
  all: rewrite (Hup _ _ eq_refl _ Ha); apply NoDup_cons in Hnd as [Hna _].
  all: split_and!; [done|eapply linked_ext; [|done]|eapply klinked_ext; [|done]]; intros b Hb; apply Hext; set_solver.
Qed.

(** ** Moving the focus *)

Lemma kroot_cons f k x : kroot (f :: k) x = kroot k (fr_addr f).
Proof. unfold kroot. rewrite last_cons. by destruct (last k). Qed.

Lemma kaddrs_fill f k t : addrs (fill f t) ++ kaddrs k ≡ₚ addrs t ++ kaddrs (f :: k).
Proof. destruct f; cbn; solve_Permutation. Qed.

Lemma rep_fill m0 m f k t sp : rep m0 m (f :: k) t sp <-> rep m0 m k (fill f t) sp.
Proof.
  assert (Hr : rt (fill f t) = fr_addr f) by (by destruct f).
  split; intros [H1 H2 H3 H4 H5 H6 H7 H8 H9]; split; try done.
  - destruct f; cbn in *; tauto.
  - rewrite Hr. destruct f; cbn in *; tauto.
  - by rewrite kaddrs_fill.
  - intros a. rewrite kaddrs_fill. apply H4.
  - by rewrite Hr, <- (kroot_cons f k (rt t)).
  - intros a. rewrite kaddrs_fill. apply H7.
  - destruct f; cbn in *; tauto.
  - rewrite Hr in H2. destruct f; cbn in *; tauto.
  - by rewrite <- kaddrs_fill.
  - intros a. rewrite <- kaddrs_fill. apply H4.
  - by rewrite kroot_cons, <- Hr.
  - intros a. rewrite <- kaddrs_fill. apply H7.
Qed.

Lemma rep_plug m0 m k t sp : rep m0 m k t sp <-> rep m0 m [] (plug k t) sp.
Proof. revert t. induction k as [|f k IH]; intros t; [done|]. by rewrite rep_fill, IH. Qed.

(** ** Rules for the accessors *)

Ltac rb_simpl :=
  cbn [set_field rm_root rm_nodes rm_free_list rm_next rb_left rb_right rb_parent rb_color rb_data] in *.

Lemma wp_node a n Q (m : ofi_rbmap) : rm_nodes m !! a = Some n -> Q n m -> wp (node a) Q m.
Proof. unfold wp, node. by intros ->. Qed.
Lemma wp_node_upd a f n Q (m : ofi_rbmap) :
  rm_nodes m !! a = Some n -> Q tt (m <| rm_nodes ::= insert a (f n) |>) -> wp (node_upd a f) Q m.
Proof. unfold wp, node_upd. by intros ->. Qed.
Lemma wp_left_of a n Q (m : ofi_rbmap) : rm_nodes m !! a = Some n -> Q (rb_left n) m -> wp (left_of a) Q m.
Proof. intros Ha HQ. apply wp_bind. eapply wp_node; [done|]. by apply wp_ret. Qed.
Lemma wp_right_of a n Q (m : ofi_rbmap) : rm_nodes m !! a = Some n -> Q (rb_right n) m -> wp (right_of a) Q m.
Proof. intros Ha HQ. apply wp_bind. eapply wp_node; [done|]. by apply wp_ret. Qed.
Lemma wp_parent_of a n Q (m : ofi_rbmap) : rm_nodes m !! a = Some n -> Q (rb_parent n) m -> wp (parent_of a) Q m.
Proof. intros Ha HQ. apply wp_bind. eapply wp_node; [done|]. by apply wp_ret. Qed.
Lemma wp_is_red a n Q (m : ofi_rbmap) :
  rm_nodes m !! a = Some n -> Q (bool_decide (rb_color n = RED)) m -> wp (is_red a) Q m.
Proof. intros Ha HQ. apply wp_bind. eapply wp_node; [done|]. by apply wp_ret. Qed.

(** ** Relinking *)

Definition sib (f : frame) : tree := match f with FL _ _ _ t | FR _ _ _ t => t end.

(** What relinking the hole of [k] gives. *)
Definition relinked (k : list frame) (new : Z) (m m' : ofi_rbmap) : Prop :=
  klinked (rm_nodes m') k new /\ rm_root m' = kroot k new /\
  (forall a, (a ∉ kaddrs k) -> rm_nodes m' !! a = rm_nodes m !! a) /\
  rm_free_list m' = rm_free_list m /\ rm_next m' = rm_next m.

Lemma relinked_upd k new old m f fn :
  klinked (rm_nodes m) (f :: k) old -> NoDup (kaddrs (f :: k)) -> rm_root m = kroot (f :: k) old ->
  (forall n, fn n = match f with FL _ _ _ _ => n <| rb_left := new |> | FR _ _ _ _ => n <| rb_right := new |> end) ->
  wp (node_upd (fr_addr f) fn) (fun _ => relinked (f :: k) new m) m.
Proof.
  intros Hk Hnd Hr Hfn. assert (Hin : fr_addr f ∈ kaddrs (f :: k)) by (destruct f; cbn; set_solver).
  assert (Hn : exists n, rm_nodes m !! fr_addr f = Some n) by (destruct f; cbn in *; destruct Hk as (-> & _); eauto).
  destruct Hn as [n Hn]. eapply wp_node_upd; [exact Hn|]. split_and!; rb_simpl; try done.
  - eapply klinked_hole; [..|exact Hk]; try done.
    + intros a _ Ha. by rewrite lookup_insert_ne.
    + intros f' k' [= <- <-] n'. cbn [up]. rewrite Hn. intros [= <-]. by rewrite lookup_insert_eq, Hfn.
  - rewrite Hr. by rewrite !kroot_cons.
  - intros a Ha. rewrite lookup_insert_ne; [done|]. by intros <-.
Qed.

Lemma relinked_root m new : wp (set_root new) (fun _ => relinked [] new m) m.
Proof. apply wp_modify. by split_and!. Qed.

(** The hole is told from its sibling by its address. *)
Definition distinct (k : list frame) (x : Z) : Prop := forall f k', k = f :: k' -> rt (sib f) <> x /\ 1 < fr_addr f.

Lemma relink_spec k old new m :
  klinked (rm_nodes m) k old -> NoDup (kaddrs k) -> rm_root m = kroot k old -> distinct k old ->
  wp (relink (up k) old new) (fun _ => relinked k new m) m.
Proof.
  intros Hk Hnd Hr Hd. unfold relink. destruct k as [|f k]; [apply relinked_root|].
  destruct (Hd _ _ eq_refl) as [Hs Hp]. cbn [up]. rewrite (proj2 (Z.eqb_neq _ NULL)) by (unfold NULL; lia).
  apply wp_bind. destruct f as [a c d s|a c d s]; cbn [sib fr_addr] in *; pose proof Hk as (Ha & _); (eapply wp_left_of; [exact Ha|]); rb_simpl.
  - rewrite Z.eqb_refl. by eapply (relinked_upd k new old m (FL a c d s)).
  - rewrite (proj2 (Z.eqb_neq old _)) by done. by eapply (relinked_upd k new old m (FR a c d s)).
Qed.

Lemma relink_right_spec k old new m :
  klinked (rm_nodes m) k old -> NoDup (kaddrs k) -> rm_root m = kroot k old -> distinct k old ->
  wp (relink_right (up k) old new) (fun _ => relinked k new m) m.
Proof.
  intros Hk Hnd Hr Hd. unfold relink_right. destruct k as [|f k]; [apply relinked_root|].
  destruct (Hd _ _ eq_refl) as [Hs Hp]. cbn [up]. rewrite (proj2 (Z.eqb_neq _ NULL)) by (unfold NULL; lia).
  apply wp_bind. destruct f as [a c d s|a c d s]; cbn [sib fr_addr] in *; pose proof Hk as (Ha & _); (eapply wp_right_of; [exact Ha|]); rb_simpl.
  - rewrite (proj2 (Z.eqb_neq old _)) by done. by eapply (relinked_upd k new old m (FL a c d s)).
  - rewrite Z.eqb_refl. by eapply (relinked_upd k new old m (FR a c d s)).
Qed.

Lemma rt_in t : t = Lf \/ rt t ∈ addrs t.
Proof. destruct t; [by left|right; apply list_elem_of_here]. Qed.

Lemma rep_distinct m0 m k a c d l r sp : rep m0 m k (Nd a c d l r) sp -> distinct k a.
Proof.
  intros H f k' ->. split.
  - intros E. pose proof (rp_nodup _ _ _ _ _ H) as Hnd. cbn in Hnd. apply NoDup_cons in Hnd as [Hnd _].
    destruct (rt_in (sib f)) as [Hs|Hs].
    + rewrite Hs in E. pose proof (rp_real _ _ _ _ _ H a ltac:(cbn; set_solver)). cbn in E. unfold SENTINEL in E. lia.
    + apply Hnd. rewrite E in Hs. destruct f; cbn in *; set_solver.
  - apply (rp_real _ _ _ _ _ H). destruct f; cbn; set_solver.
Qed.

(** ** Reparenting *)

(** Everything but the nodes of [l] stays. *)
Definition same_off (l : list Z) (m m' : ofi_rbmap) : Prop :=
  rm_root m' = rm_root m /\ (forall a, (a ∉ l) -> rm_nodes m' !! a = rm_nodes m !! a) /\
  rm_free_list m' = rm_free_list m /\ rm_next m' = rm_next m.

Lemma reparent_spec t par par' m :
  linked (rm_nodes m) par t -> NoDup (addrs t) -> (forall a, a ∈ addrs t -> 1 < a) ->
  wp (when (negb (rt t =? SENTINEL)) (node_upd (rt t) (fun n => n <| rb_parent := par' |>)))
    (fun _ m' => linked (rm_nodes m') par' t /\ same_off (addrs t) m m') m.
Proof.
  intros Ht Hnd Hre. destruct t as [|a c d l r]; [by apply wp_ret|]. cbn [rt].
  rewrite (proj2 (Z.eqb_neq a SENTINEL)) by (specialize (Hre a ltac:(cbn; set_solver)); unfold SENTINEL; lia).
  cbn [negb when]. pose proof Ht as (Ha & _). eapply wp_node_upd; [exact Ha|]. rb_simpl. split; [|split_and!; try done].
  - eapply linked_parent; [..|exact Hnd|exact Ht].
    + intros b _ Hb. by rewrite lookup_insert_ne.
    + cbn [rt]. rewrite Ha. intros n _ [= <-]. by rewrite lookup_insert_eq.
  - intros b Hb. rb_simpl. rewrite lookup_insert_ne; [done|]. intros <-. apply Hb. cbn. set_solver.
Qed.

(** ** Rotations *)

(** Membership goals need the address facts only. *)
Ltac addr_solver :=
  repeat match goal with
  | H : linked _ _ _ |- _ => clear H
  | H : klinked _ _ _ |- _ => clear H
  | H : rm_nodes _ !! _ = _ |- _ => clear H
  | H : distinct _ _ |- _ => clear H
  | H : forall a, a ∈ _ -> 1 < a |- _ => clear H
  | H : forall a, (a ∉ _) -> _ |- _ => clear H
  | H : forall a, a <> _ -> _ |- _ => clear H
  | H : NoDup _ |- _ => clear H
  end; cbn [addrs kaddrs fr_addrs app] in *; set_solver.

(** The addresses of a tree are pairwise different. *)
Ltac split_nodup H :=
  cbn [addrs kaddrs app] in H; rewrite ?NoDup_app, ?NoDup_cons, ?NoDup_app, ?NoDup_cons, ?NoDup_app in H; destruct_and? H.

Lemma rotate_left_spec m0 m k n c d A y c' d' B E sp :
  rep m0 m k (Nd n c d A (Nd y c' d' B E)) sp ->
  wp (ofi_rotate_left n) (fun _ m' => rep m0 m' k (Nd y c' d' (Nd n c d A B) E) sp) m.
Proof.
  intros H. pose proof (rep_distinct _ _ _ _ _ _ _ _ _ H) as Hdist. destruct H as [(Hn & HA & Hy & HB & HE) Hk Hnd Hre Hro Hse Hou Hfr Hne].
  cbn [rt] in *. fold linked in *. pose proof Hnd as Hnd0. split_nodup Hnd.
  assert (Hn1 : 1 < n) by (apply Hre; cbn; set_solver). assert (Hy1 : 1 < y) by (apply Hre; cbn; set_solver).
  assert (HB1 : forall a, a ∈ addrs B -> 1 < a) by (intros; apply Hre; cbn; set_solver).
  assert (HK1 : SENTINEL ∉ kaddrs k) by (intros Hin; specialize (Hre SENTINEL ltac:(set_solver)); unfold SENTINEL in Hre; lia).
  unfold ofi_rotate_left. apply wp_bind. eapply wp_right_of; [exact Hn|]. apply wp_bind. eapply wp_left_of; [exact Hy|]. rb_simpl.
  apply wp_bind. eapply wp_node_upd; [exact Hn|]. rb_simpl. apply wp_bind.
  eapply wp_mono; [apply (reparent_spec B y n); [|done|done]|].
  { eapply linked_ext; [|exact HB]. intros a Ha. rb_simpl. rewrite lookup_insert_ne; [done|]. addr_solver. }
  cbn beta. intros _ m2 (HB2 & Hr2 & Ho2 & Hf2 & Hx2). rb_simpl.
  assert (Hn2 : rm_nodes m2 !! n = Some (mkRbNode (rt A) (rt B) (up k) c d)) by (rewrite Ho2, lookup_insert_eq by addr_solver; done).
  assert (Hy2 : rm_nodes m2 !! y = Some (mkRbNode (rt B) (rt E) n c' d')) by (rewrite Ho2, lookup_insert_ne by addr_solver; done).
  assert (Hoth2 : forall a, a <> n -> (a ∉ addrs B) -> rm_nodes m2 !! a = rm_nodes m !! a) by (intros a Ha Hb; by rewrite Ho2, lookup_insert_ne).
  clear Ho2. apply wp_bind. eapply wp_parent_of; [exact Hn2|]. rb_simpl.
  rewrite (proj2 (Z.eqb_neq y SENTINEL)), (proj2 (Z.eqb_neq n SENTINEL)) by (unfold SENTINEL; lia). cbn [negb when].
  apply wp_bind. eapply wp_node_upd; [exact Hy2|]. rb_simpl. apply wp_bind. eapply wp_mono; [apply relink_spec; [|done| |exact Hdist]|].
  { rb_simpl. eapply klinked_ext; [|exact Hk]. intros a Ha. rewrite lookup_insert_ne by addr_solver. apply Hoth2; addr_solver. }
  { rb_simpl. by rewrite Hr2. }
  cbn beta. intros _ m4 (Hk4 & Hr4 & Ho4 & Hf4 & Hx4). rb_simpl.
  apply wp_bind. eapply wp_node_upd; [rewrite Ho4, lookup_insert_eq by addr_solver; done|]. rb_simpl.
  eapply wp_node_upd; [rb_simpl; rewrite lookup_insert_ne, Ho4, lookup_insert_ne by addr_solver; exact Hn2|]. rb_simpl.
  assert (Hoth : forall a, a <> n -> a <> y -> (a ∉ kaddrs k) -> (a ∉ addrs B) ->
    <[n := mkRbNode (rt A) (rt B) y c d]> (<[y := mkRbNode n (rt E) (up k) c' d']> (rm_nodes m4)) !! a = rm_nodes m !! a).
  { intros a ? ? ? ?. rewrite !lookup_insert_ne, Ho4, lookup_insert_ne by done. by apply Hoth2. }
  split; rb_simpl; try congruence.
  - cbn [linked rt]. rewrite (lookup_insert_ne _ n y), !lookup_insert_eq by addr_solver. split_and!; try done.
    + eapply linked_ext; [|exact HA]. intros a Ha. apply Hoth; addr_solver.
    + eapply linked_ext; [|exact HB2]. intros a Ha. rewrite !lookup_insert_ne, Ho4, lookup_insert_ne by addr_solver. done.
    + eapply linked_ext; [|exact HE]. intros a Ha. apply Hoth; addr_solver.
  - eapply klinked_ext; [|exact Hk4]. intros a Ha. rewrite !lookup_insert_ne by addr_solver. done.
  - eapply NoDup_Permutation_proper; [|exact Hnd0]. cbn [addrs app]. solve_Permutation.
  - intros a Ha. apply Hre. addr_solver.
  - exact Hr4.
  - etrans; [apply Hoth|done]; [unfold SENTINEL in *; lia|unfold SENTINEL in *; lia|done|]. intros Hin%HB1. unfold SENTINEL in Hin. lia.
  - intros a Ha Has. rewrite <- Hou by addr_solver. apply Hoth; addr_solver.
Qed.

Lemma rotate_right_spec m0 m k n c d A y c' d' B E sp :
  rep m0 m k (Nd n c d (Nd y c' d' E B) A) sp ->
  wp (ofi_rotate_right n) (fun _ m' => rep m0 m' k (Nd y c' d' E (Nd n c d B A)) sp) m.
Proof.
  intros H. pose proof (rep_distinct _ _ _ _ _ _ _ _ _ H) as Hdist. destruct H as [(Hn & (Hy & HE & HB) & HA) Hk Hnd Hre Hro Hse Hou Hfr Hne].
  cbn [rt] in *. fold linked in *. pose proof Hnd as Hnd0. split_nodup Hnd.
  assert (Hn1 : 1 < n) by (apply Hre; cbn; set_solver). assert (Hy1 : 1 < y) by (apply Hre; cbn; set_solver).
  assert (HB1 : forall a, a ∈ addrs B -> 1 < a) by (intros; apply Hre; cbn; set_solver).
  assert (HK1 : SENTINEL ∉ kaddrs k) by (intros Hin; specialize (Hre SENTINEL ltac:(set_solver)); unfold SENTINEL in Hre; lia).
  unfold ofi_rotate_right. apply wp_bind. eapply wp_left_of; [exact Hn|]. apply wp_bind. eapply wp_right_of; [exact Hy|]. rb_simpl.
  apply wp_bind. eapply wp_node_upd; [exact Hn|]. rb_simpl. apply wp_bind.
  eapply wp_mono; [apply (reparent_spec B y n); [|done|done]|].
  { eapply linked_ext; [|exact HB]. intros a Ha. rb_simpl. rewrite lookup_insert_ne; [done|]. addr_solver. }
  cbn beta. intros _ m2 (HB2 & Hr2 & Ho2 & Hf2 & Hx2). rb_simpl.
  assert (Hn2 : rm_nodes m2 !! n = Some (mkRbNode (rt B) (rt A) (up k) c d)) by (rewrite Ho2, lookup_insert_eq by addr_solver; done).
  assert (Hy2 : rm_nodes m2 !! y = Some (mkRbNode (rt E) (rt B) n c' d')) by (rewrite Ho2, lookup_insert_ne by addr_solver; done).
  assert (Hoth2 : forall a, a <> n -> (a ∉ addrs B) -> rm_nodes m2 !! a = rm_nodes m !! a) by (intros a Ha Hb; by rewrite Ho2, lookup_insert_ne).
  clear Ho2. apply wp_bind. eapply wp_parent_of; [exact Hn2|]. rb_simpl.
  rewrite (proj2 (Z.eqb_neq y SENTINEL)), (proj2 (Z.eqb_neq n SENTINEL)) by (unfold SENTINEL; lia). cbn [negb when].
  apply wp_bind. eapply wp_node_upd; [exact Hy2|]. rb_simpl. apply wp_bind. eapply wp_mono; [apply relink_right_spec; [|done| |exact Hdist]|].
  { rb_simpl. eapply klinked_ext; [|exact Hk]. intros a Ha. rewrite lookup_insert_ne by addr_solver. apply Hoth2; addr_solver. }
  { rb_simpl. by rewrite Hr2. }
  cbn beta. intros _ m4 (Hk4 & Hr4 & Ho4 & Hf4 & Hx4). rb_simpl.
  apply wp_bind. eapply wp_node_upd; [rewrite Ho4, lookup_insert_eq by addr_solver; done|]. rb_simpl.
  eapply wp_node_upd; [rb_simpl; rewrite lookup_insert_ne, Ho4, lookup_insert_ne by addr_solver; exact Hn2|]. rb_simpl.
  assert (Hoth : forall a, a <> n -> a <> y -> (a ∉ kaddrs k) -> (a ∉ addrs B) ->
    <[n := mkRbNode (rt B) (rt A) y c d]> (<[y := mkRbNode (rt E) n (up k) c' d']> (rm_nodes m4)) !! a = rm_nodes m !! a).
  { intros a ? ? ? ?. rewrite !lookup_insert_ne, Ho4, lookup_insert_ne by done. by apply Hoth2. }
  split; rb_simpl; try congruence.
  - cbn [linked rt]. rewrite (lookup_insert_ne _ n y), !lookup_insert_eq by addr_solver. split_and!; try done.
    + eapply linked_ext; [|exact HE]. intros a Ha. apply Hoth; addr_solver.
    + eapply linked_ext; [|exact HB2]. intros a Ha. rewrite !lookup_insert_ne, Ho4, lookup_insert_ne by addr_solver. done.
    + eapply linked_ext; [|exact HA]. intros a Ha. apply Hoth; addr_solver.
  - eapply klinked_ext; [|exact Hk4]. intros a Ha. rewrite !lookup_insert_ne by addr_solver. done.
  - eapply NoDup_Permutation_proper; [|exact Hnd0]. cbn [addrs app]. solve_Permutation.
  - intros a Ha. apply Hre. addr_solver.
  - exact Hr4.
  - etrans; [apply Hoth|done]; [unfold SENTINEL in *; lia|unfold SENTINEL in *; lia|done|]. intros Hin%HB1. unfold SENTINEL in Hin. lia.
  - intros a Ha Has. rewrite <- Hou by addr_solver. apply Hoth; addr_solver.
Qed.

(** ** Recolouring *)

(** An update of the colour or the data of the focused node. *)
Lemma focus_upd_spec m0 m k a c d l r sp f c' d' :
  rep m0 m k (Nd a c d l r) sp -> (forall x y z, f (mkRbNode x y z c d) = mkRbNode x y z c' d') ->
  wp (node_upd a f) (fun _ m' => rep m0 m' k (Nd a c' d' l r) sp) m.
Proof.
  intros [(Ha & Hl & Hr) Hk Hnd Hre Hro Hse Hou Hfr Hne] Hf. fold linked in *. eapply wp_node_upd; [exact Ha|].
  assert (Ha1 : 1 < a) by (apply Hre; cbn; set_solver). rewrite Hf. pose proof Hnd as Hnd0. split_nodup Hnd.
  split; rb_simpl; try done.
  - cbn [linked]. rewrite lookup_insert_eq. split_and!; [done| |]; (eapply linked_ext; [|done]); intros b Hb; rewrite lookup_insert_ne by addr_solver; done.
  - eapply klinked_ext; [|exact Hk]. intros b Hb. rewrite lookup_insert_ne by addr_solver. done.
  - by rewrite lookup_insert_ne by (unfold SENTINEL; lia).
  - intros b Hb Hbs. rewrite <- Hou by done. rewrite lookup_insert_ne by addr_solver. done.
Qed.

Lemma set_color_spec m0 m k a c d l r sp c' :
  rep m0 m k (Nd a c d l r) sp -> wp (set_color a c') (fun _ m' => rep m0 m' k (Nd a c' d l r) sp) m.
Proof. intros H. by eapply focus_upd_spec. Qed.

Definition blacken (t : tree) : tree := match t with Lf => Lf | Nd a _ d l r => Nd a BLACK d l r end.

(** The sentinel is black already. *)
Lemma set_black_spec m0 m k t sp : rep m0 m k t sp -> wp (set_color (rt t) BLACK) (fun _ m' => rep m0 m' k (blacken t) sp) m.
Proof.
  intros H. destruct t as [|a c d l r]; [|by apply (set_color_spec _ _ _ _ c)].
  destruct H as [Hl Hk Hnd Hre Hro Hse Hou Hfr Hne]. cbn [rt blacken] in *. eapply wp_node_upd; [exact Hse|]. rb_simpl.
  split; rb_simpl; try done.
  - eapply klinked_ext; [|exact Hk]. intros b Hb. rewrite lookup_insert_ne; [done|]. intros <-. specialize (Hre _ Hb). unfold SENTINEL in Hre. lia.
  - by rewrite lookup_insert_eq.
  - intros b Hb Hbs. rewrite lookup_insert_ne by done. by apply Hou.
Qed.

(** ** Reading through the representation *)

Definition col (t : tree) : ofi_node_color := match t with Lf => BLACK | Nd _ c _ _ _ => c end.

Section Reading.
Context (m0 : ofi_rbmap).
Implicit Types (m : ofi_rbmap) (k : list frame) (t l r : tree).

Lemma rep_up m f k t sp : rep m0 m (f :: k) t sp -> rep m0 m k (fill f t) sp.
Proof. apply rep_fill. Qed.
Lemma rep_left m k a c d l r sp : rep m0 m k (Nd a c d l r) sp -> rep m0 m (FL a c d r :: k) l sp.
Proof. apply (rep_fill _ _ (FL a c d r)). Qed.
Lemma rep_right m k a c d l r sp : rep m0 m k (Nd a c d l r) sp -> rep m0 m (FR a c d l :: k) r sp.
Proof. apply (rep_fill _ _ (FR a c d l)). Qed.

Lemma rep_lookup m k a c d l r sp :
  rep m0 m k (Nd a c d l r) sp -> rm_nodes m !! a = Some (mkRbNode (rt l) (rt r) (up k) c d).
Proof. intros H. apply (rp_linked _ _ _ _ _ H). Qed.

Lemma rep_node m k t sp : rep m0 m k t sp -> exists n, rm_nodes m !! rt t = Some n /\ rb_color n = col t.
Proof.
  intros H. destruct t as [|a c d l r]; eexists; split; [apply (rp_sent _ _ _ _ _ H)|done|by eapply rep_lookup|done].
Qed.

Lemma wp_left m k a c d l r sp Q : rep m0 m k (Nd a c d l r) sp -> Q (rt l) m -> wp (left_of a) Q m.
Proof. intros H HQ. eapply wp_left_of; [by eapply rep_lookup|exact HQ]. Qed.
Lemma wp_right m k a c d l r sp Q : rep m0 m k (Nd a c d l r) sp -> Q (rt r) m -> wp (right_of a) Q m.
Proof. intros H HQ. eapply wp_right_of; [by eapply rep_lookup|exact HQ]. Qed.
Lemma wp_parent m k a c d l r sp Q : rep m0 m k (Nd a c d l r) sp -> Q (up k) m -> wp (parent_of a) Q m.
Proof. intros H HQ. eapply wp_parent_of; [by eapply rep_lookup|exact HQ]. Qed.
Lemma wp_red m k t sp Q : rep m0 m k t sp -> Q (bool_decide (col t = RED)) m -> wp (is_red (rt t)) Q m.
Proof. intros (n & Hn & Hc)%rep_node HQ. eapply wp_is_red; [exact Hn|]. by rewrite Hc. Qed.

Lemma wp_color m k a c d l r sp c' Q : rep m0 m k (Nd a c d l r) sp ->
  (forall m', rep m0 m' k (Nd a c' d l r) sp -> Q tt m') -> wp (set_color a c') Q m.
Proof. intros H HQ. eapply wp_mono; [by eapply set_color_spec|]. intros []. apply HQ. Qed.
Lemma wp_rotate_left m k x c d A y c' d' B E sp Q : rep m0 m k (Nd x c d A (Nd y c' d' B E)) sp ->
  (forall m', rep m0 m' k (Nd y c' d' (Nd x c d A B) E) sp -> Q tt m') -> wp (ofi_rotate_left x) Q m.
Proof. intros H HQ. eapply wp_mono; [by eapply rotate_left_spec|]. intros []. apply HQ. Qed.
Lemma wp_rotate_right m k x c d A y c' d' B E sp Q : rep m0 m k (Nd x c d (Nd y c' d' E B) A) sp ->
  (forall m', rep m0 m' k (Nd y c' d' E (Nd x c d B A)) sp -> Q tt m') -> wp (ofi_rotate_right x) Q m.
Proof. intros H HQ. eapply wp_mono; [by eapply rotate_right_spec|]. intros []. apply HQ. Qed.

(** The root is not the focused node, unless the focus is at the top. *)
Lemma rep_not_root m f k t sp : rep m0 m (f :: k) t sp -> rm_root m <> rt t.
Proof.
  intros H. rewrite (rp_root _ _ _ _ _ H), kroot_cons.
  assert (Hin : forall k' x, kroot k' x = x \/ kroot k' x ∈ kaddrs k').
  { intros k'. induction k' as [|g k' IH]; intros x; [by left|]. rewrite kroot_cons. right.
    destruct (IH (fr_addr g)) as [-> |]; destruct g; cbn; set_solver. }
  assert (Hk : kroot k (fr_addr f) ∈ kaddrs (f :: k)).
  { destruct (Hin k (fr_addr f)) as [-> |]; destruct f; cbn; set_solver. }
  intros E. rewrite E in Hk. pose proof (rp_nodup _ _ _ _ _ H) as Hnd. apply NoDup_app in Hnd as (_ & Hd & _).
  destruct (rt_in t) as [-> |Ht]; [|by apply (Hd (rt t))].
  pose proof (rp_real _ _ _ _ _ H SENTINEL) as Hre. cbn in Hk. unfold SENTINEL in *. specialize (Hre ltac:(set_solver)). lia.
Qed.

Lemma rep_at_root m t sp : rep m0 m [] t sp -> rm_root m = rt t.
Proof. intros H. apply (rp_root _ _ _ _ _ H). Qed.

(** The number of nodes bounds the depth of the focus. *)
Lemma linked_dom N par t a : linked N par t -> a ∈ addrs t -> is_Some (N !! a).
Proof.
  revert par. induction t as [|b c d l IHl r IHr]; intros par; cbn; [by intros _ ?%elem_of_nil|].
  intros (Hb & Hl & Hr). rewrite elem_of_cons, elem_of_app. intros [-> |[Ha|Ha]]; [rewrite Hb; eauto|by eapply IHl|by eapply IHr].
Qed.
Lemma klinked_dom N k x a : klinked N k x -> a ∈ kaddrs k -> is_Some (N !! a).
Proof.
  revert x. induction k as [|[b c d t|b c d t] k IH]; intros x; cbn; [by intros _ ?%elem_of_nil| |].
  all: intros (Hb & Ht & Hk); rewrite elem_of_cons, elem_of_app; intros [-> |[Ha|Ha]]; [rewrite Hb; eauto|by eapply linked_dom|by eapply IH].
Qed.
Lemma kaddrs_length k : (length k <= length (kaddrs k))%nat.
Proof. induction k as [|f k IH]; cbn; [done|]. rewrite length_app. destruct f; cbn; lia. Qed.

Lemma rep_depth m k t sp : rep m0 m k t sp -> (length k + length (addrs t) < size (rm_nodes m))%nat.
Proof.
  intros H. assert (Hs : NoDup (SENTINEL :: addrs t ++ kaddrs k)).
  { apply NoDup_cons. split; [|apply (rp_nodup _ _ _ _ _ H)]. intros Hin%(rp_real _ _ _ _ _ H). unfold SENTINEL in Hin. lia. }
  assert (Hd : list_to_set (SENTINEL :: addrs t ++ kaddrs k) ⊆ dom (rm_nodes m)).
  { intros a. rewrite elem_of_list_to_set, elem_of_cons, elem_of_app, elem_of_dom. intros [-> |[Ha|Ha]].
    - rewrite (rp_sent _ _ _ _ _ H). eauto.
    - eapply linked_dom; [apply (rp_linked _ _ _ _ _ H)|done].
    - eapply klinked_dom; [apply (rp_klinked _ _ _ _ _ H)|done]. }
  apply subseteq_size in Hd. rewrite size_list_to_set, size_dom in Hd by done. cbn in Hd. rewrite length_app in Hd.
  pose proof (kaddrs_length k). lia.
Qed.
End Reading.
