(* ===== verification/RbtInsert.v ===== *)
(** * Balance, and insertion into the red-black tree

    The red-black property on trees and on contexts, and the proof that
    [ofi_rbmap_insert_at] puts the new node in its place and restores it. *)

From stdpp Require Import sorting.
From S2P Require Import Prelude Rbt RbtRep.

(** ** The red-black property *)

(** [rbt n t]: every path through [t] meets [n] black nodes, and no red
    node has a red child. *)
Inductive rbt : nat -> tree -> Prop :=
| rbt_leaf : rbt 0 Lf
| rbt_black n a d l r : rbt n l -> rbt n r -> rbt (S n) (Nd a BLACK d l r)
| rbt_red n a d l r : rbt n l -> rbt n r -> col l = BLACK -> col r = BLACK -> rbt n (Nd a RED d l r).

Definition fr_color (f : frame) : ofi_node_color := match f with FL _ c _ _ | FR _ c _ _ => c end.

(** [krbt n c k]: a tree of black height [n] whose root has colour [c] can
    take the hole of [k]; the root of the whole is black. *)
Inductive krbt : nat -> ofi_node_color -> list frame -> Prop :=
| krbt_top n : krbt n BLACK []
| krbt_black n c f k : rbt n (sib f) -> fr_color f = BLACK -> krbt (S n) BLACK k -> krbt n c (f :: k)
| krbt_red n f k : rbt n (sib f) -> fr_color f = RED -> col (sib f) = BLACK -> krbt n RED k -> krbt n BLACK (f :: k).

#[export] Hint Constructors rbt krbt : rbt.

Lemma krbt_FL_black n c a d r k : rbt n r -> krbt (S n) BLACK k -> krbt n c (FL a BLACK d r :: k).
Proof. auto with rbt. Qed.
Lemma krbt_FR_black n c a d l k : rbt n l -> krbt (S n) BLACK k -> krbt n c (FR a BLACK d l :: k).
Proof. auto with rbt. Qed.
Lemma krbt_FL_red n a d r k : rbt n r -> col r = BLACK -> krbt n RED k -> krbt n BLACK (FL a RED d r :: k).
Proof. auto with rbt. Qed.
Lemma krbt_FR_red n a d l k : rbt n l -> col l = BLACK -> krbt n RED k -> krbt n BLACK (FR a RED d l :: k).
Proof. auto with rbt. Qed.
#[export] Hint Resolve krbt_FL_black krbt_FR_black krbt_FL_red krbt_FR_red : rbt.

Lemma rbt_node_inv n a c d l r : rbt n (Nd a c d l r) ->
  (c = BLACK /\ exists n', n = S n' /\ rbt n' l /\ rbt n' r) \/ (c = RED /\ rbt n l /\ rbt n r /\ col l = BLACK /\ col r = BLACK).
Proof. inversion 1; subst; [left|right]; eauto 6. Qed.

Lemma krbt_cons_inv n c f k : krbt n c (f :: k) -> rbt n (sib f) /\
  ((fr_color f = BLACK /\ krbt (S n) BLACK k) \/ (fr_color f = RED /\ c = BLACK /\ col (sib f) = BLACK /\ krbt n RED k)).
Proof. inversion 1; subst; split; auto 6. Qed.

Lemma krbt_weaken n c k : krbt n c k -> krbt n BLACK k.
Proof. inversion 1; subst; auto with rbt. Qed.

Lemma rbt_fill n f k t : rbt n t -> krbt n (col t) (f :: k) -> exists n', rbt n' (fill f t) /\ krbt n' (col (fill f t)) k.
Proof.
  intros Ht [Hs [[Hc Hk]|(Hc & Hct & Hcs & Hk)]]%krbt_cons_inv.
  - exists (S n). destruct f; cbn in *; subst; auto with rbt.
  - exists n. destruct f; cbn in *; subst; auto with rbt.
Qed.

Lemma rbt_plug n k t : rbt n t -> krbt n (col t) k -> exists n', rbt n' (plug k t) /\ col (plug k t) = BLACK.
Proof.
  revert n t. induction k as [|f k IH]; intros n t Ht Hk.
  - exists n. split; [done|]. by inversion Hk.
  - destruct (rbt_fill _ _ _ _ Ht Hk) as (n' & Ht' & Hk'). rewrite plug_cons. eauto.
Qed.

(** Conversely, every focus of a red-black tree splits it this way. *)
Lemma rbt_unplug n k t : rbt n (plug k t) -> col (plug k t) = BLACK -> exists n', rbt n' t /\ krbt n' (col t) k.
Proof.
  revert n t. induction k as [|f k IH]; intros n t Ht Hc.
  - exists n. cbn in *. rewrite Hc. auto with rbt.
  - rewrite plug_cons in Ht, Hc. destruct (IH _ _ Ht Hc) as (n' & Hf & Hk).
    destruct f as [a c d s|a c d s]; cbn in Hf, Hk; apply rbt_node_inv in Hf as [(-> & n1 & -> & H1 & H2)|(-> & H1 & H2 & H3 & H4)].
    + exists n1. auto with rbt.
    + exists n'. rewrite H3. auto with rbt.
    + exists n1. auto with rbt.
    + exists n'. rewrite H4. auto with rbt.
Qed.

Lemma rbt_blacken n t : rbt n t -> exists n', rbt n' (blacken t).
Proof. destruct 1; cbn; eauto with rbt. Qed.

Lemma blacken_id t : col t = BLACK -> blacken t = t.
Proof. by destruct t as [|a [] d l r]. Qed.

Lemma blacken_elems t : elems (blacken t) = elems t.
Proof. by destruct t. Qed.

Lemma plug_elems_ext k t t' : elems t = elems t' -> elems (plug k t) = elems (plug k t').
Proof. intros E. by rewrite !plug_elems, E. Qed.

(** The same elements after moving nodes around. *)
Ltac same_elems := rewrite ?plug_cons; apply plug_elems_ext; cbn [elems fill blacken]; repeat (rewrite <- app_assoc; cbn [app]); done.

(** ** The rebalancing loop *)

Section Insert.
Context (m0 : ofi_rbmap).
Implicit Types (m : ofi_rbmap) (k : list frame) (t l r : tree) (sp : Z).

(** The focused node is red, and may have a red parent; all else is in
    order. *)
Definition ins_inv k t : Prop := exists n, rbt n t /\ col t = RED /\ krbt n BLACK k.

(** The state of the loop at [x], [E] being the elements. *)
Definition ins_at (E : list (Z * Z)) (depth : nat) sp (x : Z) m : Prop := exists k t,
  rep m0 m k t sp /\ rt t = x /\ elems (plug k t) = E /\ ins_inv k t /\ (length k < depth)%nat.

(** Recolouring below a grandparent whose two children are red. *)
Lemma recolour_spec m k g dg p dp pl pr y dy yl yr sp (left : bool) Q :
  rep m0 m k (Nd g BLACK dg (if left then Nd p RED dp pl pr else Nd y RED dy yl yr)
    (if left then Nd y RED dy yl yr else Nd p RED dp pl pr)) sp ->
  (forall m', rep m0 m' k (Nd g RED dg (if left then Nd p BLACK dp pl pr else Nd y BLACK dy yl yr)
    (if left then Nd y BLACK dy yl yr else Nd p BLACK dp pl pr)) sp -> Q g m') ->
  wp (set_color p BLACK ;;; set_color y BLACK ;;; set_color g RED ;;; ret g) Q m.
Proof.
  intros H HQ. destruct left.
  - apply wp_bind. eapply wp_color; [by eapply rep_left|]. intros m1 H1%rep_up. cbn [fill] in H1.
    apply wp_bind. eapply wp_color; [by eapply rep_right|]. intros m2 H2%rep_up. cbn [fill] in H2.
    apply wp_bind. eapply wp_color; [exact H2|]. intros m3 H3. apply wp_ret, HQ, H3.
  - apply wp_bind. eapply wp_color; [by eapply rep_right|]. intros m1 H1%rep_up. cbn [fill] in H1.
    apply wp_bind. eapply wp_color; [by eapply rep_left|]. intros m2 H2%rep_up. cbn [fill] in H2.
    apply wp_bind. eapply wp_color; [exact H2|]. intros m3 H3. apply wp_ret, HQ, H3.
Qed.

Lemma insert_fix_left_spec m k f g dg u t sp :
  rep m0 m (f :: FL g BLACK dg u :: k) t sp -> fr_color f = RED -> ins_inv (f :: FL g BLACK dg u :: k) t ->
  wp (insert_fix_left (rt t) (fr_addr f) g) (ins_at (elems (plug (f :: FL g BLACK dg u :: k) t)) (2 + length k) sp) m.
Proof.
  intros H Hf (n & Ht & Hct & [Hs [[? _]|(_ & _ & Hcs & Hk)]]%krbt_cons_inv); [congruence|].
  apply krbt_cons_inv in Hk as [Hu [[_ Hk]|(? & _)]]; [|done]. cbn [sib] in Hu. destruct t as [|x ct dx a b]; [done|]. cbn in Hct. subst ct.
  unfold insert_fix_left. pose proof (rep_up _ _ _ _ _ _ (rep_up _ _ _ _ _ _ H)) as Hg. cbn [fill] in Hg.
  apply wp_bind. eapply wp_right; [exact Hg|]. apply wp_bind. eapply wp_red; [by eapply rep_right|].
  pose proof (rep_distinct _ _ _ _ _ _ _ _ _ H _ _ eq_refl) as [Hd _].
  pose proof (rbt_node_inv _ _ _ _ _ _ Ht) as [[? _]|(_ & Ha & Hb & Hca & Hcb)]; [done|].
  destruct (bool_decide_reflect (col u = RED)) as [Hcu|Hcu].
  { destruct u as [|y cy dy ul ur]; [done|]. cbn in Hcu. subst cy. apply rbt_node_inv in Hu as [[? _]|(_ & Hul & Hur & _)]; [done|].
    cbn [rt]. destruct f as [p cp dp s|p cp dp s]; cbn in Hf; subst cp; cbn [sib fr_addr fill] in *.
    all: eapply (recolour_spec _ _ _ _ _ _ _ _ _ _ _ _ _ true); [exact Hg|]; intros m' H'; do 2 eexists.
    all: split_and!; [exact H'|done|same_elems|exists (S n); split_and!; auto 6 with rbt|lia]. }
  assert (Hcu' : col u = BLACK) by (by destruct (col u)). clear Hcu. apply wp_bind.
  destruct f as [p cp dp s|p cp dp s]; cbn in Hf; subst cp; cbn [sib fr_addr fill rt] in *.
  - eapply wp_right; [by eapply rep_left|]. rewrite (proj2 (Z.eqb_neq x (rt s))) by congruence. apply wp_bind, wp_ret, wp_bind.
    eapply wp_parent; [exact H|]. cbn [up fr_addr]. apply wp_bind. eapply wp_color; [by eapply rep_left|]. intros m1 H1.
    apply wp_bind. eapply wp_parent; [exact H1|]. cbn [up fr_addr]. apply rep_up in H1. cbn [fill] in H1.
    apply wp_bind. eapply wp_color; [exact H1|]. intros m2 H2. apply wp_bind. eapply wp_rotate_right; [exact H2|]. intros m3 H3.
    apply wp_ret. exists (FL p BLACK dp (Nd g RED dg s u) :: k), (Nd x RED dx a b).
    split_and!; [by apply rep_left|done|same_elems|exists n; split_and!; auto 6 with rbt|cbn; lia].
  - eapply wp_right; [by eapply rep_left|]. cbn [rt]. rewrite Z.eqb_refl. apply wp_bind, wp_bind.
    eapply wp_rotate_left; [by eapply rep_left|]. intros m1 H1. apply wp_ret, wp_bind. eapply wp_parent; [by eapply rep_left|]. cbn [up fr_addr].
    apply wp_bind. eapply wp_color; [exact H1|]. intros m2 H2. apply wp_bind. eapply wp_parent; [exact H2|]. cbn [up fr_addr].
    apply rep_up in H2. cbn [fill] in H2. apply wp_bind. eapply wp_color; [exact H2|]. intros m3 H3.
    apply wp_bind. eapply wp_rotate_right; [exact H3|]. intros m4 H4. apply wp_ret.
    exists (FL x BLACK dx (Nd g RED dg b u) :: k), (Nd p RED dp s a).
    split_and!; [by apply rep_left|done|same_elems|exists n; split_and!; auto 6 with rbt|cbn; lia].
Qed.
Lemma insert_fix_right_spec m k f g dg u t sp :
  rep m0 m (f :: FR g BLACK dg u :: k) t sp -> fr_color f = RED -> ins_inv (f :: FR g BLACK dg u :: k) t ->
  wp (insert_fix_right (rt t) (fr_addr f) g) (ins_at (elems (plug (f :: FR g BLACK dg u :: k) t)) (2 + length k) sp) m.
Proof.
  intros H Hf (n & Ht & Hct & [Hs [[? _]|(_ & _ & Hcs & Hk)]]%krbt_cons_inv); [congruence|].
  apply krbt_cons_inv in Hk as [Hu [[_ Hk]|(? & _)]]; [|done]. cbn [sib] in Hu. destruct t as [|x ct dx a b]; [done|]. cbn in Hct. subst ct.
  unfold insert_fix_right. pose proof (rep_up _ _ _ _ _ _ (rep_up _ _ _ _ _ _ H)) as Hg. cbn [fill] in Hg.
  apply wp_bind. eapply wp_left; [exact Hg|]. apply wp_bind. eapply wp_red; [by eapply rep_left|].
  pose proof (rep_distinct _ _ _ _ _ _ _ _ _ H _ _ eq_refl) as [Hd _].
  pose proof (rbt_node_inv _ _ _ _ _ _ Ht) as [[? _]|(_ & Ha & Hb & Hca & Hcb)]; [done|].
  destruct (bool_decide_reflect (col u = RED)) as [Hcu|Hcu].
  { destruct u as [|y cy dy ul ur]; [done|]. cbn in Hcu. subst cy. apply rbt_node_inv in Hu as [[? _]|(_ & Hul & Hur & _)]; [done|].
    cbn [rt]. destruct f as [p cp dp s|p cp dp s]; cbn in Hf; subst cp; cbn [sib fr_addr fill] in *.
    all: eapply (recolour_spec _ _ _ _ _ _ _ _ _ _ _ _ _ false); [exact Hg|]; intros m' H'; do 2 eexists.
    all: split_and!; [exact H'|done|same_elems|exists (S n); split_and!; auto 6 with rbt|lia]. }
  assert (Hcu' : col u = BLACK) by (by destruct (col u)). clear Hcu. apply wp_bind.
  destruct f as [p cp dp s|p cp dp s]; cbn in Hf; subst cp; cbn [sib fr_addr fill rt] in *.
  - eapply wp_left; [by eapply rep_right|]. cbn [rt]. rewrite Z.eqb_refl. apply wp_bind, wp_bind.
    eapply wp_rotate_right; [by eapply rep_right|]. intros m1 H1. apply wp_ret, wp_bind. eapply wp_parent; [by eapply rep_right|]. cbn [up fr_addr].
    apply wp_bind. eapply wp_color; [exact H1|]. intros m2 H2. apply wp_bind. eapply wp_parent; [exact H2|]. cbn [up fr_addr].
    apply rep_up in H2. cbn [fill] in H2. apply wp_bind. eapply wp_color; [exact H2|]. intros m3 H3.
    apply wp_bind. eapply wp_rotate_left; [exact H3|]. intros m4 H4. apply wp_ret.
    exists (FR x BLACK dx (Nd g RED dg u a) :: k), (Nd p RED dp b s).
    split_and!; [by apply rep_right|done|same_elems|exists n; split_and!; auto 6 with rbt|cbn; lia].
  - eapply wp_left; [by eapply rep_right|]. rewrite (proj2 (Z.eqb_neq x (rt s))) by congruence. apply wp_bind, wp_ret, wp_bind.
    eapply wp_parent; [exact H|]. cbn [up fr_addr]. apply wp_bind. eapply wp_color; [by eapply rep_right|]. intros m1 H1.
    apply wp_bind. eapply wp_parent; [exact H1|]. cbn [up fr_addr]. apply rep_up in H1. cbn [fill] in H1.
    apply wp_bind. eapply wp_color; [exact H1|]. intros m2 H2. apply wp_bind. eapply wp_rotate_left; [exact H2|]. intros m3 H3.
    apply wp_ret. exists (FR p BLACK dp (Nd g RED dg u s) :: k), (Nd x RED dx a b).
    split_and!; [by apply rep_right|done|same_elems|exists n; split_and!; auto 6 with rbt|cbn; lia].
Qed.

(** The loop ends with a tree that is red-black once its root is black. *)
Lemma insert_loop_spec fuel m k t sp :
  rep m0 m k t sp -> ins_inv k t -> (length k <= fuel)%nat ->
  wp (insert_rebalance_loop fuel (rt t)) (fun _ m' => exists t' n, rep m0 m' [] t' sp /\
    elems t' = elems (plug k t) /\ rbt n (blacken t')) m.
Proof.
  revert m k t. induction fuel as [|fuel IH]; intros m k t H Hinv Hfuel; cbn [insert_rebalance_loop]; apply wp_bind, wp_gets.
  all: destruct k as [|f k]; [rewrite (rep_at_root _ _ _ _ H), Z.eqb_refl; apply wp_ret; destruct Hinv as (n & Ht & _);
    destruct (rbt_blacken _ _ Ht) as [n' ?]; by exists t, n'|].
  { cbn in Hfuel. lia. }
  rewrite (proj2 (Z.eqb_neq (rt t) (rm_root m))) by (apply not_eq_sym; by eapply rep_not_root).
  destruct t as [|x ct dx a b]; [by destruct Hinv as (? & _ & ? & _)|]. cbn [rt].
  apply wp_bind. eapply wp_parent; [exact H|]. cbn [up]. apply wp_bind.
  replace (fr_addr f) with (rt (fill f (Nd x ct dx a b))) by (by destruct f).
  eapply wp_red; [by eapply rep_up|]. replace (col (fill f (Nd x ct dx a b))) with (fr_color f) by (by destruct f).
  destruct Hinv as (n & Ht & Hct & Hk). destruct (bool_decide_reflect (fr_color f = RED)) as [Hf|Hf]; cbn [negb].
  2: { apply wp_ret. assert (Hfb : fr_color f = BLACK) by (by destruct (fr_color f)).
       pose proof (krbt_cons_inv _ _ _ _ Hk) as [Hs [[_ Hk']|(? & _)]]; [|congruence].
       destruct (rbt_plug n (f :: k) (Nd x ct dx a b)) as (n' & Hp & Hc); [done|apply krbt_black; [exact Hs|exact Hfb|exact Hk']|].
       exists (plug (f :: k) (Nd x ct dx a b)), n'. rewrite blacken_id by done. split_and!; [exact (proj1 (rep_plug _ _ _ _ _) H)|done|done]. }
  apply wp_bind. pose proof (krbt_cons_inv _ _ _ _ Hk) as [Hs [[? _]|(_ & _ & Hcs & Hk')]]; [congruence|].
  destruct k as [|g k]; [by inversion Hk'|]. pose proof (krbt_cons_inv _ _ _ _ Hk') as [Hu [[Hg _]|(_ & ? & _)]]; [|done].
  pose proof (rep_up _ _ _ _ _ _ H) as Hp. assert (Hinv : ins_inv (f :: g :: k) (Nd x ct dx a b)) by (by exists n).
  assert (Hpn : exists dp l r, fill f (Nd x ct dx a b) = Nd (fr_addr f) RED dp l r) by (destruct f; cbn in Hf |- *; subst; eauto).
  destruct Hpn as (dp & pl & pr & Hpn). rewrite Hpn in Hp |- *. cbn [rt]. eapply wp_parent; [exact Hp|]. cbn [up].
  pose proof (rep_distinct _ _ _ _ _ _ _ _ _ Hp _ _ eq_refl) as [Hd _]. pose proof (rep_up _ _ _ _ _ _ Hp) as Hgr.
  apply wp_bind. destruct g as [g cg dg u|g cg dg u]; cbn in Hg; subst cg; cbn [fill fr_addr sib] in *; (eapply wp_left; [exact Hgr|]); cbn [rt].
  - rewrite Z.eqb_refl. apply wp_bind. eapply wp_mono; [by apply (insert_fix_left_spec m k f g dg u (Nd x ct dx a b) sp)|].
    cbn beta. intros x' m1 (k1 & t1 & H1 & <- & <- & Hi1 & Hl1). eapply IH; [done|done|]. cbn in Hfuel. lia.
  - rewrite (proj2 (Z.eqb_neq (fr_addr f) (rt u))) by congruence.
    apply wp_bind. eapply wp_mono; [by apply (insert_fix_right_spec m k f g dg u (Nd x ct dx a b) sp)|].
    cbn beta. intros x' m1 (k1 & t1 & H1 & <- & <- & Hi1 & Hl1). eapply IH; [done|done|]. cbn in Hfuel. lia.
Qed.

Lemma insert_rebalance_spec m k t sp :
  rep m0 m k t sp -> ins_inv k t ->
  wp (ofi_insert_rebalance (rt t)) (fun _ m' => exists t' n, rep m0 m' [] t' sp /\
    elems t' = elems (plug k t) /\ rbt n t' /\ col t' = BLACK) m.
Proof.
  intros H Hinv. unfold ofi_insert_rebalance. apply wp_bind, wp_gets, wp_bind.
  eapply wp_mono; [apply (insert_loop_spec _ m k t sp H Hinv)|]; [pose proof (rep_depth _ _ _ _ _ H); lia|].
  cbn beta. intros _ m1 (t1 & n & H1 & He1 & Hb1). apply wp_bind, wp_gets. rewrite (rep_at_root _ _ _ _ H1).
  eapply wp_mono; [by apply set_black_spec|]. cbn beta. intros _ m2 H2. exists (blacken t1), n.
  rewrite blacken_elems. split_and!; try done. by destruct t1.
Qed.
End Insert.

(** ** Comparisons and order *)

(** Along the elements, a comparison with the key goes from [Gt] over [Eq]
    to [Lt]. *)
Definition cmp_mono (cmp : Z -> comparison) (l : list (Z * Z)) : Prop :=
  StronglySorted (fun x y : Z * Z => (cmp y.2 = Gt -> cmp x.2 = Gt) /\ (cmp x.2 = Lt -> cmp y.2 = Lt)) l.

Lemma sorted_app {A} (R : A -> A -> Prop) l1 l2 :
  StronglySorted R (l1 ++ l2) <-> StronglySorted R l1 /\ StronglySorted R l2 /\ forall x y, x ∈ l1 -> y ∈ l2 -> R x y.
Proof.
  induction l1 as [|x l1 IH]; cbn.
  - split; [|tauto]. intros H. split_and!; [constructor|done|]. by intros x y ?%elem_of_nil.
  - split.
    + intros [H Hx]%StronglySorted_inv. apply IH in H as (H1 & H2 & H3). apply Forall_app in Hx as [Hx1 Hx2].
      split_and!; [by constructor|done|]. intros a b [-> |Ha]%elem_of_cons Hb; [|auto]. rewrite Forall_forall in Hx2. auto.
    + intros (H1 & H2 & H3). apply StronglySorted_inv in H1 as [H1 Hx]. constructor.
      * apply IH. split_and!; auto. intros a b Ha. apply H3. by apply list_elem_of_further.
      * apply Forall_app. split; [done|]. apply Forall_forall. intros b Hb. apply H3; [apply list_elem_of_here|done].
Qed.

(** What lies to the left of a node that compares [Gt], and to the right of
    one that compares [Lt]. *)
Lemma cmp_mono_node cmp l a d r : cmp_mono cmp (l ++ (a, d) :: r) ->
  (cmp d = Gt -> Forall (fun x => cmp x.2 = Gt) l) /\ (cmp d = Lt -> Forall (fun x => cmp x.2 = Lt) r).
Proof.
  unfold cmp_mono. rewrite sorted_app. intros (_ & [_ Hr]%StronglySorted_inv & Hl). split; intros Hc.
  - apply Forall_forall. intros x Hx. by apply (Hl x (a, d) Hx (list_elem_of_here _ _)).
  - eapply Forall_impl; [exact Hr|]. cbn. intros x [_ Hx]. auto.
Qed.

(** The hole of [k] is where the key belongs. *)
Definition fits (cmp : Z -> comparison) (k : list frame) : Prop :=
  Forall (fun x => cmp x.2 = Gt) (before k) /\ Forall (fun x => cmp x.2 = Lt) (after k).

Lemma fits_left cmp k a c d l r :
  cmp_mono cmp (elems (plug k (Nd a c d l r))) -> cmp d = Lt -> fits cmp k -> fits cmp (FL a c d r :: k).
Proof.
  rewrite plug_elems. cbn [elems]. intros Hm Hc [Hb Ha]. rewrite <- app_assoc, app_assoc in Hm. cbn in Hm.
  apply cmp_mono_node in Hm as [_ Hm]. specialize (Hm Hc). split; [done|]. cbn. by constructor.
Qed.
Lemma fits_right cmp k a c d l r :
  cmp_mono cmp (elems (plug k (Nd a c d l r))) -> cmp d = Gt -> fits cmp k -> fits cmp (FR a c d l :: k).
Proof.
  rewrite plug_elems. cbn [elems]. intros Hm Hc [Hb Ha]. rewrite <- app_assoc, app_assoc in Hm. cbn in Hm.
  apply cmp_mono_node in Hm as [Hm _]. specialize (Hm Hc). split; [|done]. cbn.
  apply Forall_app in Hm as [_ Hl]. apply Forall_app. split; [done|]. apply Forall_app. split; [done|]. by constructor.
Qed.

Fixpoint height (t : tree) : nat := match t with Lf => 0 | Nd _ _ _ l r => S (height l `max` height r) end.
Lemma height_addrs t : (height t <= length (addrs t))%nat.
Proof. induction t as [|a c d l IHl r IHr]; cbn; [done|]. rewrite length_app. lia. Qed.

Section Descend.
Context (m0 : ofi_rbmap) (cmp : Z -> comparison).

Lemma insert_descend_spec fuel m k t sp :
  rep m0 m k t sp -> cmp_mono cmp (elems (plug k t)) -> fits cmp k -> (height t <= fuel)%nat ->
  wp (insert_descend fuel cmp (rt t) (up k)) (fun res m' => m' = m /\
    match res with
    | inl a => exists d, (a, d) ∈ elems t /\ cmp d = Eq
    | inr p => exists k', plug k' Lf = plug k t /\ p = up k' /\ fits cmp k' /\ (forall x, x ∈ elems t -> cmp x.2 <> Eq)
    end) m.
Proof.
  revert k t. induction fuel as [|fuel IH]; intros k t H Hm Hk Hfuel.
  all: destruct t as [|a c d l r]; cbn [insert_descend rt];
    [apply wp_ret; split; [done|]; exists k; split_and!; [done..|by intros x ?%elem_of_nil]|].
  { cbn in Hfuel. lia. }
  assert (Ha : 1 < a) by (apply (rp_real _ _ _ _ _ H); cbn; set_solver).
  rewrite (proj2 (Z.eqb_neq a SENTINEL)) by (unfold SENTINEL; lia). apply wp_bind. eapply wp_node; [by eapply rep_lookup|]. rb_simpl.
  pose proof Hm as Hm0. rewrite plug_elems in Hm0. cbn [elems] in Hm0. rewrite <- app_assoc, app_assoc in Hm0. cbn in Hm0.
  pose proof (cmp_mono_node _ _ _ _ _ Hm0) as [HG HL]. cbn in Hfuel. destruct (cmp d) eqn:Ec.
  - apply wp_ret. split; [done|]. exists d. split; [|done]. cbn. set_solver.
  - specialize (HL eq_refl). apply Forall_app in HL as [HL _]. rewrite Forall_forall in HL.
    eapply wp_mono; [apply (IH (FL a c d r :: k) l); [by apply rep_left|done|by eapply fits_left|lia]|]. cbn beta.
    intros res m' [-> Hres]. split; [done|]. destruct res as [b|p]; cbn [elems].
    + destruct Hres as (d' & Hin & ?). exists d'. split; [set_solver|done].
    + destruct Hres as (k' & Hp & ? & ? & Hno). exists k'. split_and!; [done..|]. intros x [Hx|[-> |Hx]%elem_of_cons]%elem_of_app; [auto|cbn; congruence|].
      rewrite (HL x Hx). done.
  - specialize (HG eq_refl). apply Forall_app in HG as [_ HG]. rewrite Forall_forall in HG.
    eapply wp_mono; [apply (IH (FR a c d l :: k) r); [by apply rep_right|done|by eapply fits_right|lia]|]. cbn beta.
    intros res m' [-> Hres]. split; [done|]. destruct res as [b|p]; cbn [elems].
    + destruct Hres as (d' & Hin & ?). exists d'. split; [set_solver|done].
    + destruct Hres as (k' & Hp & ? & ? & Hno). exists k'. split_and!; [done..|]. intros x [Hx|[-> |Hx]%elem_of_cons]%elem_of_app; [|cbn; congruence|auto].
      rewrite (HG x Hx). done.
Qed.

Lemma search_descend_spec fuel m k t sp :
  rep m0 m k t sp -> cmp_mono cmp (elems (plug k t)) -> (height t <= fuel)%nat ->
  wp (search_descend fuel cmp (rt t)) (fun a m' => m' = m /\
    ((exists d, (a, d) ∈ elems t /\ cmp d = Eq) \/ (a = NULL /\ forall x, x ∈ elems t -> cmp x.2 <> Eq))) m.
Proof.
  revert k t. induction fuel as [|fuel IH]; intros k t H Hm Hfuel.
  all: destruct t as [|a c d l r]; cbn [search_descend rt];
    [apply wp_ret; split; [done|]; right; split; [done|by intros x ?%elem_of_nil]|].
  { cbn in Hfuel. lia. }
  assert (Ha : 1 < a) by (apply (rp_real _ _ _ _ _ H); cbn; set_solver).
  rewrite (proj2 (Z.eqb_neq a SENTINEL)) by (unfold SENTINEL; lia). apply wp_bind. eapply wp_node; [by eapply rep_lookup|]. rb_simpl.
  pose proof Hm as Hm0. rewrite plug_elems in Hm0. cbn [elems] in Hm0. rewrite <- app_assoc, app_assoc in Hm0. cbn in Hm0.
  pose proof (cmp_mono_node _ _ _ _ _ Hm0) as [HG HL]. cbn in Hfuel. destruct (cmp d) eqn:Ec.
  - apply wp_ret. split; [done|]. left. exists d. split; [|done]. cbn. set_solver.
  - specialize (HL eq_refl). apply Forall_app in HL as [HL _]. rewrite Forall_forall in HL.
    eapply wp_mono; [apply (IH (FL a c d r :: k) l); [by apply rep_left|done|lia]|]. cbn beta.
    intros b m' [-> [(d' & Hin & ?)|[-> Hno]]]; split; [done|left|done|right]; cbn [elems].
    + exists d'. split; [set_solver|done].
    + split; [done|]. intros x [Hx|[-> |Hx]%elem_of_cons]%elem_of_app; [auto|cbn; congruence|]. rewrite (HL x Hx). done.
  - specialize (HG eq_refl). apply Forall_app in HG as [_ HG]. rewrite Forall_forall in HG.
    eapply wp_mono; [apply (IH (FR a c d l :: k) r); [by apply rep_right|done|lia]|]. cbn beta.
    intros b m' [-> [(d' & Hin & ?)|[-> Hno]]]; split; [done|left|done|right]; cbn [elems].
    + exists d'. split; [set_solver|done].
    + split; [done|]. intros x [Hx|[-> |Hx]%elem_of_cons]%elem_of_app; [|cbn; congruence|auto]. rewrite (HG x Hx). done.
Qed.
End Descend.

(** ** Insertion *)

Section InsertAt.
Context (m0 : ofi_rbmap) (cmp : Z -> comparison).

(** Linking the new node below its parent. *)
Lemma attach_spec m k sp x data :
  rep m0 m k Lf sp -> fits cmp k -> (x ∉ kaddrs k) -> 1 < x -> is_Some (rm_nodes m !! x) ->
  wp (insert_attach cmp data x (up k)) (fun _ m' => rep m0 m' k (Nd x RED data Lf Lf) sp) m.
Proof.
  intros H [Hb Ha] Hx Hx1 [n0 Hn0]. unfold insert_attach. apply wp_bind. eapply wp_node_upd; [exact Hn0|].
  set (m1 := m <| rm_nodes ::= _ |>). destruct H as [Hl Hk Hnd Hre Hro Hse Hou Hfr Hne]. cbn [rt addrs app] in *.
  assert (Hk1 : klinked (rm_nodes m1) k SENTINEL).
  { eapply klinked_ext; [|exact Hk]. intros a Hin. unfold m1. rb_simpl. rewrite lookup_insert_ne by (by intros ->). done. }
  apply wp_mono with (Q := fun _ m2 => relinked k x m1 m2).
  - destruct k as [|f k]; [apply relinked_root|]. cbn [up].
    assert (Hf1 : 1 < fr_addr f) by (apply Hre; destruct f; cbn; set_solver).
    rewrite (proj2 (Z.eqb_neq _ NULL)) by (unfold NULL; lia). apply wp_bind.
    destruct f as [a c d s|a c d s]; cbn [fr_addr] in *; pose proof Hk1 as (Hp & _); (eapply wp_node; [exact Hp|]); rb_simpl.
    + apply Forall_cons in Ha as [Ha _]. cbn in Ha. rewrite Ha. by eapply (relinked_upd k x SENTINEL m1 (FL a c d s)).
    + apply Forall_app in Hb as [_ Hb]. apply Forall_app in Hb as [_ Hb]. apply Forall_cons in Hb as [Hb _]. cbn in Hb. rewrite Hb.
      by eapply (relinked_upd k x SENTINEL m1 (FR a c d s)).
  - intros _ m2 (Hk2 & Hr2 & Ho2 & Hf2 & Hx2). assert (Hx2' : rm_nodes m2 !! x = Some (mkRbNode SENTINEL SENTINEL (up k) RED data)).
    { rewrite Ho2 by done. unfold m1. rb_simpl. by rewrite lookup_insert_eq. }
    split; cbn [linked rt addrs app]; try done.
    + by apply NoDup_cons.
    + intros a [-> |Hin]%elem_of_cons; [done|by apply Hre].
    + rewrite Ho2 by (intros Hin%Hre; unfold SENTINEL in Hin; lia). unfold m1. rb_simpl.
      rewrite lookup_insert_ne by (unfold SENTINEL; lia). done.
    + intros a [Hax Hak]%not_elem_of_cons Has. rewrite Ho2 by done. unfold m1. rb_simpl. rewrite lookup_insert_ne by done. by apply Hou.
    + by rewrite Hf2.
    + by rewrite Hx2.
Qed.

(** The new element goes between the smaller and the larger ones. *)
Definition inserted (E : list (Z * Z)) sp (x data : Z) (m' : ofi_rbmap) : Prop := exists t' n l1 l2,
  rep m0 m' [] t' sp /\ rbt n t' /\ col t' = BLACK /\ E = l1 ++ l2 /\ elems t' = l1 ++ (x, data) :: l2 /\
  Forall (fun e => cmp e.2 = Gt) l1 /\ Forall (fun e => cmp e.2 = Lt) l2.

Lemma attach_rebalance m k n sp x data :
  rep m0 m k Lf sp -> rbt n (plug k Lf) -> col (plug k Lf) = BLACK -> fits cmp k ->
  (x ∉ addrs (plug k Lf)) -> 1 < x -> is_Some (rm_nodes m !! x) ->
  wp (insert_attach cmp data x (up k) ;;; ofi_insert_rebalance x ;;; ret (0, Some x))
    (fun res m' => res = (0, Some x) /\ inserted (elems (plug k Lf)) sp x data m') m.
Proof.
  intros H Hrb Hcol Hf Hx Hx1 Hxn. rewrite plug_addrs in Hx.
  assert (Hkb : krbt 0 BLACK k) by (destruct (rbt_unplug _ _ _ Hrb Hcol) as (n0 & Hl & Hk); by inversion Hl; subst).
  apply wp_bind. eapply wp_mono; [by apply (attach_spec m k sp x data)|]. cbn beta. intros _ m2 H2.
  apply wp_bind. change x with (rt (Nd x RED data Lf Lf)) at 1. eapply wp_mono; [apply (insert_rebalance_spec m0 m2 k _ sp H2)|].
  { exists 0%nat. split_and!; auto with rbt. }
  cbn beta. intros _ m3 (t' & n' & H3 & He & Hrb3 & Hc3). apply wp_ret. split; [done|]. exists t', n', (before k), (after k).
  destruct Hf as [Hf1 Hf2]. split_and!; try done; [by rewrite plug_elems|]. rewrite He, plug_elems. done.
Qed.
End InsertAt.
