(* ===== verification/RbtDelete.v ===== *)
(** * Deletion from the red-black tree

    The loop of [ofi_delete_rebalance] restores the red-black property, and
    [ofi_rbmap_delete] takes exactly the given node out, whichever node it
    splices out on the way. *)

From S2P Require Import Prelude Rbt RbtRep RbtInsert.

Section Rebalance.
Context (m0 : ofi_rbmap).
Implicit Types (m : ofi_rbmap) (k : list frame) (t l r : tree) (sp : Z).

(** The focused tree is one black node short, or is red and needs only to
    become black. *)
Definition del_inv k t : Prop := exists n, krbt (S n) BLACK k /\
  ((col t = BLACK /\ rbt n t) \/ (col t = RED /\ rbt (S n) (blacken t))).

(** The state of the loop at [x], [E] being the elements. *)
Definition del_at (E : list (Z * Z)) (P : list frame -> tree -> Prop) sp (x : Z) m : Prop := exists k t,
  rep m0 m k t sp /\ rt t = x /\ t <> Lf /\ elems (plug k t) = E /\ del_inv k t /\ P k t.

Lemma del_at_mono E (P P' : list frame -> tree -> Prop) sp x m : (forall k t, P k t -> P' k t) -> del_at E P sp x m -> del_at E P' sp x m.
Proof. intros HP (k & t & ? & ? & ? & ? & ? & ?). exists k, t. split_and!; auto. Qed.

Lemma del_at_root E P sp m t n : rep m0 m [] t sp -> t <> Lf -> elems t = E -> rbt n t -> col t = BLACK ->
  P [] t -> del_at E P sp (rm_root m) m.
Proof.
  intros H Hne He Ht Hc HP. exists [], t. rewrite (rep_at_root _ _ _ _ H). split_and!; try done.
  exists n. split; [constructor|by left].
Qed.

(** The black height of a node of colour [cp] above a black tree of height
    [S n]. *)
Definition kheight (n : nat) (cp : ofi_node_color) : nat := match cp with BLACK => S (S n) | RED => S n end.

(** The loop moved to the root, or up to the parent. *)
Definition at_root_or k (cp : ofi_node_color) k2 t2 : Prop := k2 = [] \/ (k2 = k /\ col t2 = cp).

(** The last rotation, for a black sibling whose outer child is red. *)
Lemma delete_final_left_spec m k p cp dp t w dw wl z dz za zb n sp :
  rep m0 m k (Nd p cp dp t (Nd w BLACK dw wl (Nd z RED dz za zb))) sp ->
  rbt n t -> rbt n wl -> rbt n za -> rbt n zb -> krbt (kheight n cp) cp k ->
  wp (delete_final_left p w) (del_at (elems (plug k (Nd p cp dp t (Nd w BLACK dw wl (Nd z RED dz za zb))))) (at_root_or k cp) sp) m.
Proof.
  intros H Ht Hwl Hza Hzb Hk. unfold delete_final_left. apply wp_bind. eapply wp_node; [by eapply rep_lookup|]. rb_simpl.
  apply wp_bind. eapply wp_color; [by eapply rep_right|]. intros m1 H1%rep_up. cbn [fill] in H1.
  apply wp_bind. eapply wp_color; [exact H1|]. intros m2 H2.
  apply wp_bind. eapply wp_right; [by eapply rep_right|]. cbn [rt].
  apply wp_bind. eapply wp_color; [by eapply rep_right, rep_right|]. intros m3 H3%rep_up%rep_up. cbn [fill] in H3.
  apply wp_bind. eapply wp_rotate_left; [exact H3|]. intros m4 H4. apply wp_gets.
  set (t' := Nd w cp dw (Nd p BLACK dp t wl) (Nd z BLACK dz za zb)) in *.
  destruct (rbt_plug (kheight n cp) k t') as (n' & Hrb & Hc).
  { destruct cp; unfold t'; cbn [kheight]; auto with rbt. } { by destruct cp. }
  eapply del_at_root; [exact (proj1 (rep_plug _ _ _ _ _) H4)| | |exact Hrb|exact Hc|by left].
  - intros E. apply (f_equal elems) in E. rewrite plug_elems in E. cbn in E. apply app_eq_nil in E as [_ E].
    destruct (elems t ++ (p, dp) :: elems wl); done.
  - unfold t'. same_elems.
Qed.

(** The sibling is black. *)
Lemma delete_black_left_spec m k p cp dp t w dw wl wr n sp :
  rep m0 m k (Nd p cp dp t (Nd w BLACK dw wl wr)) sp ->
  rbt n t -> col t = BLACK -> rbt n wl -> rbt n wr -> krbt (kheight n cp) cp k ->
  wp (delete_black_left p w) (del_at (elems (plug k (Nd p cp dp t (Nd w BLACK dw wl wr)))) (at_root_or k cp) sp) m.
Proof.
  intros H Ht Hct Hwl Hwr Hk. unfold delete_black_left. pose proof (rep_right _ _ _ _ _ _ _ _ _ H) as Hw.
  apply wp_bind. eapply wp_left; [exact Hw|]. apply wp_bind. eapply wp_right; [exact Hw|].
  apply wp_bind. eapply wp_red; [by eapply rep_left|]. apply wp_bind. eapply wp_red; [by eapply rep_right|].
  destruct (bool_decide_reflect (col wr = RED)) as [Hcr|Hcr].
  { (* the outer child is red *)
    replace (negb _ && negb true) with false by (by rewrite andb_false_r). cbn [negb]. apply wp_bind, wp_ret.
    destruct wr as [|z cz dz za zb]; [done|]. cbn in Hcr. subst cz. apply rbt_node_inv in Hwr as [[? _]|(_ & ? & ? & _)]; [done|].
    by eapply delete_final_left_spec. }
  assert (Hcr' : col wr = BLACK) by (by destruct (col wr)). destruct (bool_decide_reflect (col wl = RED)) as [Hcl|Hcl]; cbn [negb andb].
  - (* only the inner child is red *)
    destruct wl as [|v cv dv va vb]; [done|]. cbn in Hcl. subst cv. apply rbt_node_inv in Hwl as [[? _]|(_ & Hva & Hvb & _)]; [done|]. cbn [rt].
    apply wp_bind, wp_bind. eapply wp_color; [by eapply rep_left|]. intros m1 H1%rep_up. cbn [fill] in H1.
    apply wp_bind. eapply wp_color; [exact H1|]. intros m2 H2. apply wp_bind. eapply wp_rotate_right; [exact H2|]. intros m3 H3%rep_up. cbn [fill] in H3.
    eapply wp_right; [exact H3|]. cbn [rt].
    replace (elems _) with (elems (plug k (Nd p cp dp t (Nd v BLACK dv va (Nd w RED dw vb wr))))) by same_elems.
    by eapply delete_final_left_spec.
  - (* both are black *)
    assert (Hcl' : col wl = BLACK) by (by destruct (col wl)).
    apply wp_bind. eapply wp_color; [exact Hw|]. intros m1 H1%rep_up. cbn [fill] in H1. apply wp_ret.
    exists k, (Nd p cp dp t (Nd w RED dw wl wr)). split_and!; [done|done|done|same_elems| |by right].
    destruct cp; cbn in *; [exists (S n)|exists n]; split.
    + done.
    + left. auto with rbt.
    + by eapply krbt_weaken.
    + right. cbn. auto with rbt.
Qed.

(** One round for a left child that is one black node short. *)
Lemma delete_fix_left_spec m k p cp dp w t n sp :
  rep m0 m (FL p cp dp w :: k) t sp -> rbt n t -> col t = BLACK -> krbt (S n) BLACK (FL p cp dp w :: k) ->
  wp (delete_fix_left p) (del_at (elems (plug (FL p cp dp w :: k) t)) (fun k2 t2 => (length k2 <= length k)%nat \/ col t2 = RED) sp) m.
Proof.
  intros H Ht Hct Hk. unfold delete_fix_left. pose proof (rep_up _ _ _ _ _ _ H) as Hp. cbn [fill] in Hp.
  apply wp_bind. eapply wp_right; [exact Hp|]. apply wp_bind. eapply wp_red; [by eapply rep_right|].
  pose proof (krbt_cons_inv _ _ _ _ Hk) as [Hw Hk']. cbn [sib fr_color] in Hw, Hk'. rewrite plug_cons. cbn [fill].
  destruct w as [|w cw dw wl wr]; [by inversion Hw|]. cbn [col rt]. destruct (bool_decide_reflect (cw = RED)) as [->|Hcw].
  - (* the sibling is red *)
    apply rbt_node_inv in Hw as [[? _]|(_ & Hwl & Hwr & Hcl & Hcr)]; [done|].
    destruct Hk' as [[-> Hk']|(_ & _ & ? & _)]; [|done]. apply wp_bind, wp_bind.
    eapply wp_color; [by eapply rep_right|]. intros m1 H1%rep_up. cbn [fill] in H1.
    apply wp_bind. eapply wp_color; [exact H1|]. intros m2 H2.
    apply wp_bind. eapply wp_rotate_left; [exact H2|]. intros m3 H3%rep_left. eapply wp_right; [exact H3|].
    destruct wl as [|v cv dv va vb]; [by inversion Hwl|]. cbn in Hcl. subst cv.
    apply rbt_node_inv in Hwl as [(_ & n1 & [= <-] & Hva & Hvb)|[? _]]; [|done].
    eapply wp_mono; [eapply (delete_black_left_spec m3 _ p RED dp t v dv va vb n sp H3); auto with rbt|].
    intros x m4 H4. rewrite plug_cons in H4. cbn [fill] in H4.
    replace (elems (plug k _)) with (elems (plug k (Nd w BLACK dw (Nd p RED dp t (Nd v BLACK dv va vb)) wr))) by same_elems.
    eapply del_at_mono; [|exact H4]. intros k2 t2 [-> |[_ ?]]; [left; cbn; lia|by right].
  - (* the sibling is black *)
    destruct cw; [|done]. apply rbt_node_inv in Hw as [(_ & n1 & [= <-] & Hwl & Hwr)|[? _]]; [|done]. apply wp_bind, wp_ret.
    eapply wp_mono; [apply (delete_black_left_spec m k p cp dp t w dw wl wr n sp Hp); auto|].
    + destruct cp; [by destruct Hk' as [[_ ?]|[? _]]|by destruct Hk' as [[? _]|(_ & _ & _ & ?)]].
    + intros x m1 H1. eapply del_at_mono; [|exact H1]. intros k2 t2 [-> |[-> ?]]; left; cbn; lia.
Qed.

(** The mirror images. *)
Lemma delete_final_right_spec m k p cp dp t w dw wr z dz za zb n sp :
  rep m0 m k (Nd p cp dp (Nd w BLACK dw (Nd z RED dz za zb) wr) t) sp ->
  rbt n t -> rbt n wr -> rbt n za -> rbt n zb -> krbt (kheight n cp) cp k ->
  wp (delete_final_right p w) (del_at (elems (plug k (Nd p cp dp (Nd w BLACK dw (Nd z RED dz za zb) wr) t))) (at_root_or k cp) sp) m.
Proof.
  intros H Ht Hwr Hza Hzb Hk. unfold delete_final_right. apply wp_bind. eapply wp_node; [by eapply rep_lookup|]. rb_simpl.
  apply wp_bind. eapply wp_color; [by eapply rep_left|]. intros m1 H1%rep_up. cbn [fill] in H1.
  apply wp_bind. eapply wp_color; [exact H1|]. intros m2 H2.
  apply wp_bind. eapply wp_left; [by eapply rep_left|]. cbn [rt].
  apply wp_bind. eapply wp_color; [by eapply rep_left, rep_left|]. intros m3 H3%rep_up%rep_up. cbn [fill] in H3.
  apply wp_bind. eapply wp_rotate_right; [exact H3|]. intros m4 H4. apply wp_gets.
  set (t' := Nd w cp dw (Nd z BLACK dz za zb) (Nd p BLACK dp wr t)) in *.
  destruct (rbt_plug (kheight n cp) k t') as (n' & Hrb & Hc).
  { destruct cp; unfold t'; cbn [kheight]; auto with rbt. } { by destruct cp. }
  eapply del_at_root; [exact (proj1 (rep_plug _ _ _ _ _) H4)| | |exact Hrb|exact Hc|by left].
  - intros E. apply (f_equal elems) in E. rewrite plug_elems in E. cbn in E. apply app_eq_nil in E as [_ E].
    destruct (elems za ++ (z, dz) :: elems zb); done.
  - unfold t'. same_elems.
Qed.

Lemma delete_black_right_spec m k p cp dp t w dw wl wr n sp :
  rep m0 m k (Nd p cp dp (Nd w BLACK dw wl wr) t) sp ->
  rbt n t -> col t = BLACK -> rbt n wl -> rbt n wr -> krbt (kheight n cp) cp k ->
  wp (delete_black_right p w) (del_at (elems (plug k (Nd p cp dp (Nd w BLACK dw wl wr) t))) (at_root_or k cp) sp) m.
Proof.
  intros H Ht Hct Hwl Hwr Hk. unfold delete_black_right. pose proof (rep_left _ _ _ _ _ _ _ _ _ H) as Hw.
  apply wp_bind. eapply wp_right; [exact Hw|]. apply wp_bind. eapply wp_left; [exact Hw|].
  apply wp_bind. eapply wp_red; [by eapply rep_right|]. apply wp_bind. eapply wp_red; [by eapply rep_left|].
  destruct (bool_decide_reflect (col wl = RED)) as [Hcl|Hcl].
  { (* the outer child is red *)
    replace (negb _ && negb true) with false by (by rewrite andb_false_r). cbn [negb]. apply wp_bind, wp_ret.
    destruct wl as [|z cz dz za zb]; [done|]. cbn in Hcl. subst cz. apply rbt_node_inv in Hwl as [[? _]|(_ & ? & ? & _)]; [done|].
    by eapply delete_final_right_spec. }
  assert (Hcl' : col wl = BLACK) by (by destruct (col wl)). destruct (bool_decide_reflect (col wr = RED)) as [Hcr|Hcr]; cbn [negb andb].
  - (* only the inner child is red *)
    destruct wr as [|v cv dv va vb]; [done|]. cbn in Hcr. subst cv. apply rbt_node_inv in Hwr as [[? _]|(_ & Hva & Hvb & _)]; [done|]. cbn [rt].
    apply wp_bind, wp_bind. eapply wp_color; [by eapply rep_right|]. intros m1 H1%rep_up. cbn [fill] in H1.
    apply wp_bind. eapply wp_color; [exact H1|]. intros m2 H2. apply wp_bind. eapply wp_rotate_left; [exact H2|]. intros m3 H3%rep_up. cbn [fill] in H3.
    eapply wp_left; [exact H3|]. cbn [rt].
    replace (elems _) with (elems (plug k (Nd p cp dp (Nd v BLACK dv (Nd w RED dw wl va) vb) t))) by same_elems.
    by eapply delete_final_right_spec.
  - (* both are black *)
    assert (Hcr' : col wr = BLACK) by (by destruct (col wr)).
    apply wp_bind. eapply wp_color; [exact Hw|]. intros m1 H1%rep_up. cbn [fill] in H1. apply wp_ret.
    exists k, (Nd p cp dp (Nd w RED dw wl wr) t). split_and!; [done|done|done|same_elems| |by right].
    destruct cp; cbn in *; [exists (S n)|exists n]; split.
    + done.
    + left. auto with rbt.
    + by eapply krbt_weaken.
    + right. cbn. auto with rbt.
Qed.

Lemma delete_fix_right_spec m k p cp dp w t n sp :
  rep m0 m (FR p cp dp w :: k) t sp -> rbt n t -> col t = BLACK -> krbt (S n) BLACK (FR p cp dp w :: k) ->
  wp (delete_fix_right p) (del_at (elems (plug (FR p cp dp w :: k) t)) (fun k2 t2 => (length k2 <= length k)%nat \/ col t2 = RED) sp) m.
Proof.
  intros H Ht Hct Hk. unfold delete_fix_right. pose proof (rep_up _ _ _ _ _ _ H) as Hp. cbn [fill] in Hp.
  apply wp_bind. eapply wp_left; [exact Hp|]. apply wp_bind. eapply wp_red; [by eapply rep_left|].
  pose proof (krbt_cons_inv _ _ _ _ Hk) as [Hw Hk']. cbn [sib fr_color] in Hw, Hk'. rewrite plug_cons. cbn [fill].
  destruct w as [|w cw dw wl wr]; [by inversion Hw|]. cbn [col rt]. destruct (bool_decide_reflect (cw = RED)) as [->|Hcw].
  - (* the sibling is red *)
    apply rbt_node_inv in Hw as [[? _]|(_ & Hwl & Hwr & Hcl & Hcr)]; [done|].
    destruct Hk' as [[-> Hk']|(_ & _ & ? & _)]; [|done]. apply wp_bind, wp_bind.
    eapply wp_color; [by eapply rep_left|]. intros m1 H1%rep_up. cbn [fill] in H1.
    apply wp_bind. eapply wp_color; [exact H1|]. intros m2 H2.
    apply wp_bind. eapply wp_rotate_right; [exact H2|]. intros m3 H3%rep_right. eapply wp_left; [exact H3|].
    destruct wr as [|v cv dv va vb]; [by inversion Hwr|]. cbn in Hcr. subst cv.
    apply rbt_node_inv in Hwr as [(_ & n1 & [= <-] & Hva & Hvb)|[? _]]; [|done].
    eapply wp_mono; [eapply (delete_black_right_spec m3 _ p RED dp t v dv va vb n sp H3); auto with rbt|].
    intros x m4 H4. rewrite plug_cons in H4. cbn [fill] in H4.
    replace (elems (plug k _)) with (elems (plug k (Nd w BLACK dw wl (Nd p RED dp (Nd v BLACK dv va vb) t)))) by same_elems.
    eapply del_at_mono; [|exact H4]. intros k2 t2 [-> |[_ ?]]; [left; cbn; lia|by right].
  - (* the sibling is black *)
    destruct cw; [|done]. apply rbt_node_inv in Hw as [(_ & n1 & [= <-] & Hwl & Hwr)|[? _]]; [|done]. apply wp_bind, wp_ret.
    eapply wp_mono; [apply (delete_black_right_spec m k p cp dp t w dw wl wr n sp Hp); auto|].
    + destruct cp; [by destruct Hk' as [[_ ?]|[? _]]|by destruct Hk' as [[? _]|(_ & _ & _ & ?)]].
    + intros x m1 H1. eapply del_at_mono; [|exact H1]. intros k2 t2 [-> |[-> ?]]; left; cbn; lia.
Qed.

(** ** The loop *)

Lemma wp_parent_any m k t sp Q : rep m0 m k t sp -> (t = Lf -> sp = up k) -> Q (up k) m -> wp (parent_of (rt t)) Q m.
Proof.
  intros H Hsp HQ. destruct t as [|a c d l r]; [|by eapply wp_parent].
  eapply wp_parent_of; [exact (rp_sent _ _ _ _ _ H)|]. rb_simpl. by rewrite Hsp.
Qed.

(** The sibling of a tree that is one black node short is a node. *)
Lemma short_sibling m f k t n sp : rep m0 m (f :: k) t sp -> krbt (S n) BLACK (f :: k) -> rt (sib f) <> rt t.
Proof.
  intros H [Hs _]%krbt_cons_inv E. pose proof (rp_nodup _ _ _ _ _ H) as Hnd. destruct (rt_in (sib f)) as [Hl|Hin].
  { rewrite Hl in Hs. inversion Hs. }
  destruct (rt_in t) as [-> |Hint].
  - pose proof (rp_real _ _ _ _ _ H (rt (sib f))) as Hre. rewrite E in Hre, Hin. cbn in Hre.
    assert (1 < SENTINEL) by (apply Hre; destruct f; cbn in *; set_solver). unfold SENTINEL in *. lia.
  - apply NoDup_app in Hnd as (_ & Hd & _). apply (Hd (rt t) Hint). rewrite <- E. destruct f; cbn in *; set_solver.
Qed.

Lemma delete_loop_spec fuel m k t sp :
  rep m0 m k t sp -> del_inv k t -> (t = Lf -> sp = up k) -> (length k <= fuel)%nat \/ col t = RED ->
  wp (delete_rebalance_loop fuel (rt t)) (fun x m' => exists k' t', rep m0 m' k' t' sp /\ rt t' = x /\
    elems (plug k' t') = elems (plug k t) /\ exists n, rbt n (plug k' (blacken t')) /\ col (plug k' (blacken t')) = BLACK) m.
Proof.
  revert m k t. induction fuel as [|fuel IH]; intros m k t H (n & Hk & Hn) Hsp Hfuel; cbn [delete_rebalance_loop]; apply wp_bind, wp_gets.
  all: destruct k as [|f k];
    [rewrite (rep_at_root _ _ _ _ H), Z.eqb_refl; apply wp_ret; exists [], t; split_and!; [done..|];
     destruct Hn as [[Hc Hn]|[Hc Hn]]; [exists n|exists (S n)]; (split; [|by destruct t]); [by rewrite blacken_id by done|done]|].
  all: rewrite (proj2 (Z.eqb_neq (rt t) (rm_root m))) by (apply not_eq_sym; by eapply rep_not_root).
  all: apply wp_bind; (eapply wp_red; [exact H|]).
  all: destruct Hn as [[Hc Hn]|[Hc Hn]]; rewrite Hc;
    [|rewrite bool_decide_eq_true_2 by done; apply wp_ret; exists (f :: k), t; split_and!; [done..|];
      apply (rbt_plug (S n)); [done|]; destruct t; [done|exact Hk]].
  { exfalso. destruct Hfuel as [Hfuel|]; [cbn in Hfuel; lia|congruence]. }
  rewrite bool_decide_eq_false_2 by done. apply wp_bind. eapply wp_parent_any; [exact H|exact Hsp|]. cbn [up].
  pose proof (short_sibling _ _ _ _ _ _ H Hk) as Hsib. destruct Hfuel as [Hfuel|]; [|congruence]. cbn in Hfuel.
  pose proof (rep_up _ _ _ _ _ _ H) as Hp. apply wp_bind.
  destruct f as [p cp dp w|p cp dp w]; cbn [fr_addr fill sib] in *; (eapply wp_left; [exact Hp|]).
  - rewrite Z.eqb_refl. apply wp_bind. eapply wp_mono; [by eapply delete_fix_left_spec|]. cbn beta.
    intros x' m1 (k1 & t1 & H1 & <- & Hne & He & Hi1 & Hl1). rewrite <- He. apply IH; [done|done|by intros|]. destruct Hl1; [left; lia|by right].
  - rewrite (proj2 (Z.eqb_neq (rt t) (rt w))) by congruence. apply wp_bind. eapply wp_mono; [by eapply delete_fix_right_spec|]. cbn beta.
    intros x' m1 (k1 & t1 & H1 & <- & Hne & He & Hi1 & Hl1). rewrite <- He. apply IH; [done|done|by intros|]. destruct Hl1; [left; lia|by right].
Qed.

Lemma delete_rebalance_spec m k t sp :
  rep m0 m k t sp -> del_inv k t -> (t = Lf -> sp = up k) ->
  wp (ofi_delete_rebalance (rt t)) (fun _ m' => exists t' n, rep m0 m' [] t' sp /\
    elems t' = elems (plug k t) /\ rbt n t' /\ col t' = BLACK) m.
Proof.
  intros H Hinv Hsp. unfold ofi_delete_rebalance. apply wp_bind, wp_gets, wp_bind.
  eapply wp_mono; [apply (delete_loop_spec _ m k t sp H Hinv Hsp)|]; [left; pose proof (rep_depth _ _ _ _ _ H); lia|].
  cbn beta. intros x m1 (k1 & t1 & H1 & <- & He1 & n & Hb1 & Hc1). eapply wp_mono; [by apply set_black_spec|].
  cbn beta. intros _ m2 H2. exists (plug k1 (blacken t1)), n. split_and!; try done.
  - exact (proj1 (rep_plug _ _ _ _ _) H2).
  - rewrite <- He1. apply plug_elems_ext, blacken_elems.
Qed.
End Rebalance.

(** ** Splicing a node out *)

Lemma plug_app k1 k2 t : plug (k1 ++ k2) t = plug k2 (plug k1 t).
Proof. unfold plug. apply foldl_app. Qed.

Lemma before_app k1 k2 : before (k1 ++ k2) = before k2 ++ before k1.
Proof.
  induction k1 as [|[a c d t|a c d t] k1 IH]; cbn; [by rewrite app_nil_r|done|]. by rewrite IH, <- app_assoc.
Qed.

Lemma krbt_data n c k1 z cz d d' l k2 : krbt n c (k1 ++ FR z cz d l :: k2) -> krbt n c (k1 ++ FR z cz d' l :: k2).
Proof.
  revert n c. induction k1 as [|f k1 IH]; intros n c [Hs [[Hc Hk]|(Hc & -> & Hcs & Hk)]]%krbt_cons_inv; cbn in *; subst; auto with rbt.
Qed.

Section Splice.
Context (m0 : ofi_rbmap).
Implicit Types (m : ofi_rbmap) (k : list frame) (t l r : tree) (sp : Z).

Lemma leftmost_spec fuel m k r sp :
  rep m0 m k r sp -> r <> Lf -> (length (addrs r) <= fuel)%nat ->
  wp (leftmost fuel (rt r)) (fun y m' => m' = m /\ exists kr cy dy ty, r = plug kr (Nd y cy dy Lf ty) /\ before kr = []) m.
Proof.
  revert k r. induction fuel as [|fuel IH]; intros k r H Hne Hfuel; (destruct r as [|a c d l r]; [done|]); cbn in Hfuel; [lia|].
  cbn [leftmost rt]. apply wp_bind. eapply wp_left; [exact H|]. destruct l as [|b cb db bl br].
  - rewrite Z.eqb_refl. apply wp_ret. split; [done|]. by exists [], c, d, r.
  - assert (Hb : 1 < b) by (apply (rp_real _ _ _ _ _ H); cbn; set_solver). cbn [rt].
    rewrite (proj2 (Z.eqb_neq b SENTINEL)) by (unfold SENTINEL; lia). cbn in Hfuel. rewrite !length_app in Hfuel.
    eapply wp_mono; [apply (IH (FL a c d r :: k) (Nd b cb db bl br)); [by apply rep_left|done|cbn; rewrite length_app; lia]|].
    cbn beta. intros y m' [-> (kr & cy & dy & ty & Hr & Hbk)]. split; [done|]. exists (kr ++ [FL a c d r]), cy, dy, ty.
    rewrite plug_app, <- Hr, before_app, Hbk. done.
Qed.

Definition spliced (k : list frame) (t : tree) (y : Z) (n : ofi_rbnode) m m' : Prop :=
  (exists sp, rep m' m' k t sp /\ (t = Lf -> sp = up k)) /\ rm_nodes m' !! y = Some n /\
  (forall a, a <> y -> (a ∉ addrs t ++ kaddrs k) -> a <> SENTINEL -> rm_nodes m' !! a = rm_nodes m !! a) /\
  rm_free_list m' = rm_free_list m /\ rm_next m' = rm_next m.

(** The parent pointer of the child, set without a test for the sentinel. *)
Lemma adopt_spec t par par' m sp :
  linked (rm_nodes m) par t -> NoDup (addrs t) -> (forall a, a ∈ addrs t -> 1 < a) ->
  rm_nodes m !! SENTINEL = Some (mkRbNode SENTINEL SENTINEL sp BLACK 0) ->
  wp (node_upd (rt t) (fun n => n <| rb_parent := par' |>)) (fun _ m' => linked (rm_nodes m') par' t /\
    same_off (SENTINEL :: addrs t) m m' /\
    rm_nodes m' !! SENTINEL = Some (mkRbNode SENTINEL SENTINEL (if bool_decide (rt t = SENTINEL) then par' else sp) BLACK 0)) m.
Proof.
  intros Hl Hnd Hre Hs. destruct t as [|a c d l r].
  - eapply wp_node_upd; [exact Hs|]. rb_simpl. split_and!; [done| |by rewrite lookup_insert_eq].
    split_and!; try done. intros a Ha. rb_simpl. rewrite lookup_insert_ne; [done|]. cbn. set_solver.
  - assert (Ha : 1 < a) by (apply Hre; cbn; set_solver).
    pose proof (reparent_spec (Nd a c d l r) par par' m Hl Hnd Hre) as Hr. cbn [rt] in *.
    rewrite (proj2 (Z.eqb_neq a SENTINEL)) in Hr by (unfold SENTINEL; lia). cbn [negb when] in Hr.
    eapply wp_mono; [exact Hr|]. cbn beta. intros _ m' (Hl' & Hr' & Ho' & Hf' & Hx'). split_and!; try done.
    + split_and!; try done. intros b [? Hb]%not_elem_of_cons. by apply Ho'.
    + rewrite bool_decide_eq_false_2 by (unfold SENTINEL; lia). rewrite Ho'; [done|]. intros Hin%Hre. unfold SENTINEL in Hin. lia.
Qed.

Lemma splice_spec m k y cy dy a b t sp :
  rep m0 m k (Nd y cy dy a b) sp -> (a = Lf /\ t = b) \/ (b = Lf /\ t = a) ->
  wp (node_upd (rt t) (fun n => n <| rb_parent := up k |>) ;;; relink (up k) y (rt t))
    (fun _ => spliced k t y (mkRbNode (rt a) (rt b) (up k) cy dy) m) m.
Proof.
  intros H Hab. pose proof (rep_distinct _ _ _ _ _ _ _ _ _ H) as Hdist.
  assert (Hadd : addrs (Nd y cy dy a b) = y :: addrs t) by (destruct Hab as [[-> ->]|[-> ->]]; cbn; by rewrite ?app_nil_r).
  assert (Hlt : linked (rm_nodes m) y t) by (destruct (rp_linked _ _ _ _ _ H) as (_ & ? & ?); by destruct Hab as [[_ ->]|[_ ->]]).
  pose proof (rep_lookup _ _ _ _ _ _ _ _ _ H) as Hy. destruct H as [_ Hk Hnd Hre Hro Hse Hou Hfr Hne].
  rewrite Hadd in *. cbn [app rt] in *. apply NoDup_cons in Hnd as [Hyn Hnd]. pose proof Hnd as Hnd0. apply NoDup_app in Hnd as (Hnt & Hdis & Hnk).
  assert (Hret : forall x, x ∈ addrs t -> 1 < x) by (intros; apply Hre; set_solver).
  assert (HsK : SENTINEL ∉ kaddrs k) by (intros Hin; specialize (Hre SENTINEL ltac:(set_solver)); unfold SENTINEL in Hre; lia).
  assert (Hys : y <> SENTINEL) by (specialize (Hre y (list_elem_of_here _ _)); unfold SENTINEL; lia).
  apply wp_bind. eapply wp_mono; [by apply (adopt_spec t y (up k) m sp)|]. cbn beta. intros _ m1 (Hl1 & (Hr1 & Ho1 & Hf1 & Hx1) & Hs1).
  eapply wp_mono; [apply (relink_spec k y (rt t) m1); [|done|by rewrite Hr1|exact Hdist]|].
  { eapply klinked_ext; [|exact Hk]. intros x Hx. apply Ho1. set_solver. }
  cbn beta. intros _ m2 (Hk2 & Hr2 & Ho2 & Hf2 & Hx2). split_and!.
  - exists (if bool_decide (rt t = SENTINEL) then up k else sp). split; [|by intros ->].
    split; try done.
    + eapply linked_ext; [|exact Hl1]. intros x Hx. apply Ho2. set_solver.
    + intros x Hx. apply Hre. set_solver.
    + by rewrite Ho2.
  - rewrite Ho2, Ho1 by set_solver. done.
  - intros x Hxy Hx Hxs. rewrite Ho2, Ho1 by set_solver. done.
  - congruence.
  - congruence.
Qed.

(** ** Putting the spliced node in the place of the deleted one *)

Lemma replace_spec m k z c d l r sp y :
  rep m0 m k (Nd z c d l r) sp -> (y ∉ addrs (Nd z c d l r) ++ kaddrs k) -> 1 < y -> is_Some (rm_nodes m !! y) ->
  wp (ofi_rbmap_replace_node_ptr z y) (fun _ m' => rep m' m' k (Nd y c d l r) sp /\ rm_nodes m' !! z = rm_nodes m !! z /\
    (forall a, a <> y -> (a ∉ addrs (Nd z c d l r) ++ kaddrs k) -> rm_nodes m' !! a = rm_nodes m !! a) /\
    rm_free_list m' = rm_free_list m /\ rm_next m' = rm_next m) m.
Proof.
  intros H Hy Hy1 [ny Hny]. pose proof (rep_distinct _ _ _ _ _ _ _ _ _ H) as Hdist. pose proof (rep_lookup _ _ _ _ _ _ _ _ _ H) as Hz.
  destruct H as [(_ & Hl & Hr) Hk Hnd Hre Hro Hse _ _ _]. fold linked in *. pose proof Hnd as Hnd0. split_nodup Hnd. cbn [addrs app] in Hy.
  assert (Hyz : y <> z) by addr_solver. unfold ofi_rbmap_replace_node_ptr. rewrite (proj2 (Z.eqb_neq y z)) by done.
  apply wp_bind. eapply wp_node; [exact Hz|]. apply wp_bind. eapply wp_node_upd; [exact Hny|]. rb_simpl. set (m1 := m <| rm_nodes ::= _ |>).
  assert (Ho1 : forall a, a <> y -> rm_nodes m1 !! a = rm_nodes m !! a) by (intros a Ha; unfold m1; rb_simpl; by rewrite lookup_insert_ne).
  apply wp_bind. eapply wp_mono; [apply (relink_spec k z y m1); [|done|done|exact Hdist]|].
  { eapply klinked_ext; [|exact Hk]. intros a Ha. apply Ho1. addr_solver. }
  cbn beta. intros _ m2 (Hk2 & Hr2 & Ho2 & Hf2 & Hx2). apply wp_bind. eapply wp_mono; [apply (reparent_spec l z y m2)|]; [|done|intros; apply Hre; addr_solver|].
  { eapply linked_ext; [|exact Hl]. intros a Ha. rewrite Ho2, Ho1 by addr_solver. done. }
  cbn beta. intros _ m3 (Hl3 & Hr3 & Ho3 & Hf3 & Hx3). eapply wp_mono; [apply (reparent_spec r z y m3)|]; [|done|intros; apply Hre; addr_solver|].
  { eapply linked_ext; [|exact Hr]. intros a Ha. rewrite Ho3, Ho2, Ho1 by addr_solver. done. }
  cbn beta. intros _ m4 (Hl4 & Hr4 & Ho4 & Hf4 & Hx4).
  assert (Hoth : forall a, (a ∉ addrs l) -> (a ∉ addrs r) -> (a ∉ kaddrs k) -> rm_nodes m4 !! a = rm_nodes m1 !! a) by (intros; by rewrite Ho4, Ho3, Ho2).
  assert (HsK : forall a, a ∈ addrs l ++ addrs r ++ kaddrs k -> a <> SENTINEL).
  { intros a Ha ->. specialize (Hre SENTINEL ltac:(cbn; set_solver)). unfold SENTINEL in Hre. lia. }
  split_and!; [|rewrite Hoth, Ho1 by addr_solver; done|intros a Ha1 Ha2; rewrite Hoth, Ho1 by addr_solver; done|by rewrite Hf4, Hf3, Hf2|by rewrite Hx4, Hx3, Hx2].
  split; try done.
  - cbn [linked]. split_and!; [rewrite Hoth by addr_solver; unfold m1; rb_simpl; by rewrite lookup_insert_eq| |done].
    eapply linked_ext; [|exact Hl3]. intros a Ha. apply Ho4. addr_solver.
  - cbn [rt]. eapply klinked_ext; [|exact Hk2]. intros a Ha. rewrite Ho4, Ho3 by addr_solver. done.
  - cbn [addrs app]. apply NoDup_cons. split; [addr_solver|]. cbn [addrs app] in Hnd0. by apply NoDup_cons in Hnd0 as [_ ?].
  - intros a Ha. cbn [addrs app] in Ha. apply elem_of_cons in Ha as [-> |Ha]; [done|]. apply Hre. cbn [addrs app]. by apply list_elem_of_further.
  - by rewrite Hr4, Hr3, Hr2.
  - rewrite Hoth, Ho1; [done|unfold SENTINEL; lia|intros Ha..]; apply (HsK SENTINEL); set_solver.
Qed.
End Splice.

(** ** Finding the focus *)

Lemma split_unique (l1 l2 l1' l2' : list (Z * Z)) z d d' :
  l1 ++ (z, d) :: l2 = l1' ++ (z, d') :: l2' -> NoDup ((l1 ++ (z, d) :: l2).*1) -> l1 = l1' /\ d = d' /\ l2 = l2'.
Proof.
  revert l1'. induction l1 as [|x l1 IH]; intros [|x' l1'] E Hnd; cbn in *.
  - by injection E as -> ->.
  - injection E as <- ->. apply NoDup_cons in Hnd as [Hnd _]. exfalso. apply Hnd. cbn. rewrite fmap_app, fmap_cons. set_solver.
  - injection E as -> <-. apply NoDup_cons in Hnd as [Hnd _]. exfalso. apply Hnd. cbn. rewrite fmap_app, fmap_cons. set_solver.
  - injection E as <- E. apply NoDup_cons in Hnd as [_ Hnd]. destruct (IH l1' E Hnd) as (-> & ? & ?). done.
Qed.

Lemma focus_in t z d : (z, d) ∈ elems t -> exists k c l r, t = plug k (Nd z c d l r).
Proof.
  induction t as [|a c b l IHl r IHr]; cbn [elems]; [by intros ?%elem_of_nil|].
  intros [Hl|[[= -> ->]|Hr]%elem_of_cons]%elem_of_app.
  - destruct (IHl Hl) as (k & c' & l' & r' & ->). exists (k ++ [FL a c b r]), c', l', r'. by rewrite plug_app.
  - by exists [], c, l, r.
  - destruct (IHr Hr) as (k & c' & l' & r' & ->). exists (k ++ [FR a c b l]), c', l', r'. by rewrite plug_app.
Qed.

Lemma rep_nodup_elems m0 m t sp : rep m0 m [] t sp -> NoDup (elems t).*1.
Proof. intros H. rewrite elems_addrs. pose proof (rp_nodup _ _ _ _ _ H) as Hnd. cbn in Hnd. by rewrite app_nil_r in Hnd. Qed.

Lemma focus_at m0 m t sp l1 l2 z d : rep m0 m [] t sp -> elems t = l1 ++ (z, d) :: l2 ->
  exists k c l r, t = plug k (Nd z c d l r) /\ l1 = before k ++ elems l /\ l2 = elems r ++ after k.
Proof.
  intros H He. destruct (focus_in t z d) as (k & c & l & r & ->); [rewrite He; set_solver|].
  exists k, c, l, r. split; [done|]. pose proof (rep_nodup_elems _ _ _ _ H) as Hnd. rewrite plug_elems in He, Hnd. cbn [elems] in He, Hnd.
  assert (E : before k ++ (elems l ++ (z, d) :: elems r) ++ after k = (before k ++ elems l) ++ (z, d) :: elems r ++ after k)
    by (by rewrite <- !app_assoc).
  rewrite E in He, Hnd. by destruct (split_unique _ _ _ _ _ _ _ He Hnd) as (-> & _ & ->).
Qed.

(** ** Deletion *)

Section Delete.
Implicit Types (m : ofi_rbmap) (k : list frame) (t l r : tree) (sp : Z).

(** The node to splice out: the deleted node itself, or the next one. *)
Definition target k z c d l r (y x : Z) : Prop := exists ky cy dy a b t,
  plug ky (Nd y cy dy a b) = plug k (Nd z c d l r) /\ ((a = Lf /\ t = b) \/ (b = Lf /\ t = a)) /\ x = rt t /\
  ((ky = k /\ Nd y cy dy a b = Nd z c d l r) \/
   (exists kr, ky = kr ++ FR z c d l :: k /\ before kr = [] /\ a = Lf /\ r = plug kr (Nd y cy dy Lf b))).

Lemma delete_target_spec m0 m k z c d l r sp :
  rep m0 m k (Nd z c d l r) sp -> wp (delete_target z) (fun yx m' => m' = m /\ target k z c d l r yx.1 yx.2) m.
Proof.
  intros H. unfold delete_target. apply wp_bind. eapply wp_node; [by eapply rep_lookup|]. rb_simpl.
  assert (Hreal : forall t, t = l \/ t = r -> rt t = SENTINEL -> t = Lf).
  { intros t Ht E. destruct (rt_in t) as [-> |Hin]; [done|]. exfalso. rewrite E in Hin.
    specialize (rp_real _ _ _ _ _ H SENTINEL). cbn. intros Hre. destruct Ht as [-> | ->]; specialize (Hre ltac:(set_solver)); unfold SENTINEL in Hre; lia. }
  destruct (Z.eqb_spec (rt l) SENTINEL) as [El|El].
  { apply wp_ret. split; [done|]. rewrite (Hreal l) in * by auto. exists k, c, d, Lf, r, r. split_and!; auto. }
  destruct (Z.eqb_spec (rt r) SENTINEL) as [Er|Er].
  { apply wp_ret. split; [done|]. rewrite (Hreal r) in * by auto. exists k, c, d, l, Lf, l. split_and!; auto. }
  apply wp_bind, wp_gets, wp_bind. eapply wp_mono; [eapply leftmost_spec; [by eapply rep_right|by intros ->|]|].
  { pose proof (rep_depth _ _ _ _ _ (rep_right _ _ _ _ _ _ _ _ _ H)). lia. }
  cbn beta. intros y m' [-> (kr & cy & dy & ty & Hr & Hb)]. apply wp_bind.
  assert (Hpl : plug (kr ++ FR z c d l :: k) (Nd y cy dy Lf ty) = plug k (Nd z c d l r)) by (by rewrite plug_app, <- Hr).
  eapply wp_right. { apply (proj2 (rep_plug _ _ _ _ _)). rewrite Hpl. exact (proj1 (rep_plug _ _ _ _ _) H). }
  apply wp_ret. split; [done|]. exists (kr ++ FR z c d l :: k), cy, dy, Lf, ty, ty. cbn [fst snd]. split_and!; auto. right. exists kr. auto.
Qed.

(** The balance of the parts around the spliced node. *)
Lemma splice_balance n ky y cy dy a b t :
  rbt n (plug ky (Nd y cy dy a b)) -> col (plug ky (Nd y cy dy a b)) = BLACK -> (a = Lf /\ t = b) \/ (b = Lf /\ t = a) ->
  exists ny, krbt ny cy ky /\
    match cy with BLACK => exists n1, ny = S n1 /\ rbt n1 t | RED => rbt ny t /\ col t = BLACK end.
Proof.
  intros Hrb Hc Hab. destruct (rbt_unplug _ _ _ Hrb Hc) as (ny & Hy & Hk). exists ny. split; [done|].
  apply rbt_node_inv in Hy as [(-> & n1 & -> & Ha & Hb)|(-> & Ha & Hb & Hca & Hcb)].
  - exists n1. by destruct Hab as [[_ ->]|[_ ->]].
  - by destruct Hab as [[_ ->]|[_ ->]].
Qed.

Lemma rebalance_phase m1 m2 ky t sp cy ny :
  rep m1 m2 ky t sp -> (t = Lf -> sp = up ky) -> krbt ny cy ky ->
  match cy with BLACK => exists n1, ny = S n1 /\ rbt n1 t | RED => rbt ny t /\ col t = BLACK end ->
  wp (when (bool_decide (cy = BLACK)) (ofi_delete_rebalance (rt t))) (fun _ m3 => exists t3 n3,
    rep m1 m3 [] t3 sp /\ elems t3 = elems (plug ky t) /\ rbt n3 t3 /\ col t3 = BLACK) m2.
Proof.
  intros H Hsp Hk Ht. destruct cy; cbn [when bool_decide].
  - rewrite bool_decide_eq_true_2 by done. cbn [when]. apply delete_rebalance_spec; [done| |done].
    destruct Ht as (n1 & -> & Ht). exists n1. split; [done|]. destruct (col t) eqn:Ec; [by left|right]. split; [done|].
    destruct t as [|a c d l r]; [done|]. cbn in Ec. subst c. apply rbt_node_inv in Ht as [[? _]|(_ & ? & ? & _)]; [done|]. cbn. auto with rbt.
  - rewrite bool_decide_eq_false_2 by done. cbn [when]. apply wp_ret. destruct Ht as [Ht Hc].
    destruct (rbt_plug ny ky t) as (n3 & Hrb & Hc3); [done|rewrite Hc; by eapply krbt_weaken|].
    exists (plug ky t), n3. split_and!; [exact (proj1 (rep_plug _ _ _ _ _) H)|done..].
Qed.

Lemma rep_self m0 m k t sp : rep m0 m k t sp -> rep m m k t sp.
Proof. intros []. by split. Qed.

(** Changes outside the tree. *)
Lemma rep_outside m m' t sp :
  rep m m [] t sp -> (forall a, a ∈ addrs t \/ a = SENTINEL -> rm_nodes m' !! a = rm_nodes m !! a) -> rm_root m' = rm_root m ->
  rep m' m' [] t sp.
Proof.
  intros [Hl Hk Hnd Hre Hro Hse Hou Hfr Hne] Ho Hr. split; try done.
  - eapply linked_ext; [|exact Hl]. auto.
  - by rewrite Hr.
  - rewrite Ho by auto. done.
Qed.

Lemma rbnode_free_rep m t sp z nz :
  rep m m [] t sp -> (z ∉ addrs t) -> z <> SENTINEL -> rm_nodes m !! z = Some nz ->
  wp (ofi_rbnode_free z) (fun _ m' => rep m' m' [] t sp /\
    rm_nodes m' = <[z := nz <| rb_right := rm_free_list m |>]> (rm_nodes m) /\ rm_free_list m' = z /\ rm_next m' = rm_next m) m.
Proof.
  intros H Hz Hzs Hnz. unfold ofi_rbnode_free. apply wp_bind, wp_gets, wp_bind. eapply wp_node_upd; [exact Hnz|]. apply wp_modify. rb_simpl.
  split_and!; try done. eapply rep_outside; [exact H| |done]. intros a Ha. rb_simpl. rewrite lookup_insert_ne; [done|].
  intros <-. by destruct Ha.
Qed.

(** [z] is on the free list, and the elements around it are the tree. *)
Definition deleted m (z : Z) (l1 l2 : list (Z * Z)) m' : Prop := exists t n sp,
  rep m' m' [] t sp /\ rbt n t /\ col t = BLACK /\ elems t = l1 ++ l2 /\
  (forall a, a <> z -> a <> SENTINEL -> (a ∉ (l1 ++ l2).*1) -> rm_nodes m' !! a = rm_nodes m !! a) /\
  (exists nz, rm_nodes m' !! z = Some nz /\ rb_right nz = rm_free_list m) /\
  rm_free_list m' = z /\ rm_next m' = rm_next m.

Lemma deleted_free m m4 t n sp z nz (l1 l2 : list (Z * Z)) :
  rep m4 m4 [] t sp -> rbt n t -> col t = BLACK -> elems t = l1 ++ l2 -> (z ∉ (l1 ++ l2).*1) -> z <> SENTINEL ->
  rm_nodes m4 !! z = Some nz -> rm_free_list m4 = rm_free_list m -> rm_next m4 = rm_next m ->
  (forall a, a <> z -> a <> SENTINEL -> (a ∉ (l1 ++ l2).*1) -> rm_nodes m4 !! a = rm_nodes m !! a) ->
  wp (ofi_rbnode_free z) (fun _ => deleted m z l1 l2) m4.
Proof.
  intros H Hrb Hc He Hz Hzs Hnz Hf Hn Ho. assert (Hza : z ∉ addrs t) by (by rewrite <- elems_addrs, He).
  eapply wp_mono; [by eapply rbnode_free_rep|]. cbn beta. intros _ m5 (H5 & E5 & Hf5 & Hn5).
  exists t, n, sp. split_and!; try done.
  - intros a Haz Has Ha. rewrite E5, lookup_insert_ne by done. by apply Ho.
  - rewrite E5, lookup_insert_eq. eexists. split; [done|]. exact Hf.
  - congruence.
Qed.

Lemma plug_addrs_elems k t : addrs t ++ kaddrs k ≡ₚ (elems (plug k t)).*1.
Proof. by rewrite elems_addrs, plug_addrs. Qed.

(** Deleting a node with at most one child. *)
Lemma delete_self m k z c d l r t n sp :
  rep m m k (Nd z c d l r) sp -> rbt n (plug k (Nd z c d l r)) -> col (plug k (Nd z c d l r)) = BLACK ->
  (l = Lf /\ t = r) \/ (r = Lf /\ t = l) ->
  wp (delete_splice z z (rt t)) (fun _ => deleted m z (before k ++ elems l) (elems r ++ after k)) m.
Proof.
  intros H Hrb Hc Hab. destruct (splice_balance _ _ _ _ _ _ _ _ Hrb Hc Hab) as (ny & Hk & Hcy).
  assert (Hz1 : z <> SENTINEL) by (pose proof (rp_real _ _ _ _ _ H z ltac:(cbn; set_solver)); unfold SENTINEL; lia).
  assert (He : elems (plug k t) = (before k ++ elems l) ++ elems r ++ after k).
  { rewrite plug_elems, <- app_assoc. by destruct Hab as [[-> ->]|[-> ->]]. }
  assert (Hz : z ∉ ((before k ++ elems l) ++ elems r ++ after k).*1).
  { rewrite <- He, <- plug_addrs_elems. pose proof (rp_nodup _ _ _ _ _ H) as Hnd. cbn in Hnd. apply NoDup_cons in Hnd as [Hnd _].
    destruct Hab as [[-> ->]|[-> ->]]; cbn in Hnd; by rewrite ?app_nil_r in Hnd. }
  unfold delete_splice. apply wp_bind. eapply wp_node; [by eapply rep_lookup|]. rb_simpl. rewrite Z.eqb_refl. cbn [negb when].
  pose proof (splice_spec _ _ _ _ _ _ _ _ _ _ H Hab) as Hsp. apply wp_bind_inv in Hsp. apply wp_bind. eapply wp_mono; [exact Hsp|].
  cbn beta. intros _ m1 Hsp1. apply wp_bind. eapply wp_mono; [exact Hsp1|]. cbn beta. clear Hsp Hsp1 m1.
  intros _ m1 ((sp1 & H1 & Hs1) & Hz1' & Ho1 & Hf1 & Hn1). apply wp_bind, wp_ret, wp_bind.
  eapply wp_mono; [by eapply (rebalance_phase m1 m1 k t sp1 c ny)|]. cbn beta. intros _ m3 (t3 & n3 & H3 & He3 & Hrb3 & Hc3).
  rewrite He in He3. unfold ofi_rbmap_replace_node_ptr. rewrite Z.eqb_refl. apply wp_bind, wp_ret.
  assert (Ho3 : forall a, a <> SENTINEL -> (a ∉ ((before k ++ elems l) ++ elems r ++ after k).*1) -> rm_nodes m3 !! a = rm_nodes m1 !! a).
  { intros a Has Ha. apply (rp_out _ _ _ _ _ H3); [|done]. cbn. rewrite app_nil_r, <- elems_addrs, He3. done. }
  eapply deleted_free; [by eapply rep_self|exact Hrb3|exact Hc3|exact He3|done|done|rewrite Ho3 by done; exact Hz1'| | |].
  - by rewrite (rp_free _ _ _ _ _ H3).
  - by rewrite (rp_next _ _ _ _ _ H3).
  - intros a Haz Has Ha. rewrite Ho3 by done. apply Ho1; [done| |done]. by rewrite plug_addrs_elems, He.
Qed.

Lemma rbt_rename n k z y c d l r : rbt n (plug k (Nd z c d l r)) -> col (plug k (Nd z c d l r)) = BLACK ->
  exists n', rbt n' (plug k (Nd y c d l r)) /\ col (plug k (Nd y c d l r)) = BLACK.
Proof.
  intros Hrb Hc. destruct (rbt_unplug _ _ _ Hrb Hc) as (n' & Hz & Hk). apply (rbt_plug n'); [|done].
  apply rbt_node_inv in Hz as [(-> & n1 & -> & ? & ?)|(-> & ? & ? & ? & ?)]; auto with rbt.
Qed.

(** From the rebalanced tree, which still has the node [z] with the data of
    [y], to the end. *)
Lemma delete_swap m m1 m3 t n sp z y dy (l1 l2 : list (Z * Z)) :
  rep m1 m3 [] t sp -> rbt n t -> col t = BLACK -> elems t = l1 ++ (z, dy) :: l2 ->
  y <> z -> 1 < y -> (y ∉ (l1 ++ l2).*1) -> is_Some (rm_nodes m1 !! y) ->
  (forall a, a <> z -> a <> SENTINEL -> (a ∉ (l1 ++ (y, dy) :: l2).*1) -> rm_nodes m1 !! a = rm_nodes m !! a) ->
  rm_free_list m1 = rm_free_list m -> rm_next m1 = rm_next m ->
  wp (ofi_rbmap_replace_node_ptr z y ;;; ofi_rbnode_free z) (fun _ => deleted m z l1 ((y, dy) :: l2)) m3.
Proof.
  intros H3 Hrb Hc He Hyz Hy1 Hy [ny Hny] Ho1 Hf1 Hn1.
  assert (Hadd : addrs t ≡ₚ z :: (l1 ++ l2).*1) by (rewrite <- elems_addrs, He, !fmap_app, fmap_cons; cbn; solve_Permutation).
  assert (Hya : y ∉ addrs t) by (rewrite Hadd; set_solver).
  pose proof (rp_nodup _ _ _ _ _ H3) as Hnd. cbn in Hnd. rewrite app_nil_r, Hadd in Hnd. apply NoDup_cons in Hnd as [Hzn _].
  assert (Hz1 : z <> SENTINEL) by (pose proof (rp_real _ _ _ _ _ H3 z ltac:(cbn; rewrite app_nil_r, Hadd; set_solver)); unfold SENTINEL; lia).
  assert (Hy3 : rm_nodes m3 !! y = Some ny).
  { rewrite (rp_out _ _ _ _ _ H3); [done|cbn; by rewrite app_nil_r|unfold SENTINEL; lia]. }
  destruct (focus_at _ _ _ _ _ _ _ _ H3 He) as (kz & cz & lz & rz & -> & -> & ->).
  pose proof (proj2 (rep_plug _ _ _ _ _) H3) as Hfz. apply wp_bind. eapply wp_mono; [eapply replace_spec; [exact Hfz|by rewrite <- plug_addrs|done|eauto]|].
  cbn beta. intros _ m4 (H4 & Hz4 & Ho4 & Hf4 & Hn4). destruct (rbt_rename _ _ _ y _ _ _ _ Hrb Hc) as (n4 & Hrb4 & Hc4).
  eapply (deleted_free m m4 _ n4 sp z); [exact (proj1 (rep_plug _ _ _ _ _) H4)|exact Hrb4|exact Hc4| | |done| | | |].
  - rewrite plug_elems. cbn [elems]. by rewrite <- !app_assoc.
  - rewrite ?fmap_app, ?fmap_cons, ?fmap_app in Hzn |- *. cbn. set_solver.
  - rewrite Hz4. by eapply rep_lookup.
  - by rewrite Hf4, (rp_free _ _ _ _ _ H3).
  - by rewrite Hn4, (rp_next _ _ _ _ _ H3).
  - intros a Haz Has Ha. assert (Hat : a ∉ addrs (plug kz (Nd z cz dy lz rz))) by (rewrite Hadd; rewrite fmap_app, fmap_cons in Ha; set_solver).
    rewrite Ho4 by (rewrite <- ?plug_addrs; rewrite ?fmap_app, ?fmap_cons in Ha; set_solver).
    rewrite (rp_out _ _ _ _ _ H3 a) by (cbn; rewrite ?app_nil_r; done). by apply Ho1.
Qed.

(** Deleting a node with two children. *)
Lemma delete_next m k z c d l kr y cy dy b n sp :
  let r := plug kr (Nd y cy dy Lf b) in
  rep m m k (Nd z c d l r) sp -> rbt n (plug k (Nd z c d l r)) -> col (plug k (Nd z c d l r)) = BLACK -> before kr = [] ->
  wp (delete_splice z y (rt b)) (fun _ => deleted m z (before k ++ elems l) (elems r ++ after k)) m.
Proof.
  intros r H Hrb Hc Hkr. set (ky := kr ++ FR z c d l :: k).
  assert (Hpl : forall t, plug ky t = plug k (Nd z c d l (plug kr t))) by (intros; unfold ky; by rewrite plug_app).
  assert (Her : elems r = (y, dy) :: elems (plug kr b)) by (unfold r; rewrite !plug_elems, Hkr; done).
  pose proof (rp_nodup _ _ _ _ _ H) as Hnd. rewrite plug_addrs_elems, plug_elems in Hnd. cbn [elems] in Hnd. rewrite Her in Hnd.
  assert (Hyz : y <> z /\ (y ∉ ((before k ++ elems l) ++ elems (plug kr b) ++ after k).*1)).
  { clear -Hnd. rewrite !fmap_app, ?fmap_cons in Hnd |- *. cbn in Hnd |- *. rewrite !NoDup_app, !NoDup_cons in Hnd. set_solver. }
  destruct Hyz as [Hyz Hyn]. pose proof (proj1 (rep_plug _ _ _ _ _) H) as Hw. unfold r in Hw, Hrb, Hc. rewrite <- Hpl in Hw, Hrb, Hc.
  apply (proj2 (rep_plug _ _ _ _ _)) in Hw. destruct (splice_balance _ _ _ _ _ _ _ b Hrb Hc) as (ny & Hk & Hcy); [by left|].
  assert (Hy1 : 1 < y) by (apply (rp_real _ _ _ _ _ Hw); cbn; set_solver).
  unfold delete_splice. apply wp_bind. eapply wp_node; [by eapply rep_lookup|]. rb_simpl. rewrite (proj2 (Z.eqb_neq y z)) by done. cbn [negb when].
  pose proof (splice_spec _ _ _ _ _ _ _ _ b _ Hw ltac:(by left)) as Hsp. apply wp_bind_inv in Hsp. apply wp_bind. eapply wp_mono; [exact Hsp|].
  cbn beta. intros _ m1 Hsp1. apply wp_bind. eapply wp_mono; [exact Hsp1|]. cbn beta. clear Hsp Hsp1 m1.
  intros _ m1 ((sp1 & H1 & Hs1) & Hy1' & Ho1 & Hf1 & Hn1). pose proof (proj1 (rep_plug _ _ _ _ _) H1) as H1'. rewrite Hpl in H1'.
  apply (proj2 (rep_plug _ _ _ _ _)) in H1'. apply wp_bind. eapply wp_mono; [by eapply (focus_upd_spec _ _ _ _ _ _ _ _ _ _ c dy)|].
  cbn beta. intros _ m2 H2. set (ky' := kr ++ FR z c dy l :: k). apply (proj1 (rep_plug _ _ _ _ _)) in H2.
  assert (Hpl' : plug ky' b = plug k (Nd z c dy l (plug kr b))) by (unfold ky'; by rewrite plug_app). rewrite <- Hpl' in H2.
  apply (proj2 (rep_plug _ _ _ _ _)) in H2. apply wp_bind. eapply wp_mono; [eapply (rebalance_phase m1 m2 ky' b sp1 cy ny); [done| |by eapply krbt_data|done]|].
  { intros Hb. rewrite (Hs1 Hb). unfold ky, ky'. by destruct kr. }
  cbn beta. intros _ m3 (t3 & n3 & H3 & He3 & Hrb3 & Hc3). rewrite Her. cbn [app].
  eapply (delete_swap m m1 m3 t3 n3 sp1); [exact H3|exact Hrb3|exact Hc3| |done|done|done|eauto| |done|done].
  - rewrite He3, Hpl', plug_elems. cbn [elems]. by rewrite <- !app_assoc.
  - intros a Haz Has Ha. apply Ho1; [|rewrite plug_addrs_elems, Hpl, plug_elems; cbn [elems]|done].
    + intros ->. rewrite fmap_app, fmap_cons in Ha. set_solver.
    + rewrite !fmap_app, ?fmap_cons, ?fmap_app in Ha |- *. cbn in Ha |- *. set_solver.
Qed.
End Delete.
