(* ===== verification/RbtSpec.v ===== *)
(** * The red-black map as an ordered list

    [rbmap_ok m l fl det]: the map [m] holds the elements [l] (node and data,
    in order) in a red-black tree, its free list is [fl], and the nodes [det]
    were allocated and not yet inserted; there is no other node.  Every
    operation of the map is specified on the list. *)

From stdpp Require Import sorting.
From S2P Require Import Prelude Rbt RbtRep RbtInsert RbtDelete.

(** ** The free list *)

Fixpoint chain (N : gmap Z ofi_rbnode) (p : Z) (l : list Z) : Prop :=
  match l with
  | [] => p = NULL
  | a :: l' => p = a /\ exists n, N !! a = Some n /\ chain N (rb_right n) l'
  end.

Lemma chain_ext N N' p l : (forall a, a ∈ l -> N' !! a = N !! a) -> chain N p l -> chain N' p l.
Proof.
  revert p. induction l as [|a l IH]; intros p Ho; cbn; [done|]. intros (-> & n & Hn & Hl). split; [done|]. exists n.
  rewrite Ho by (apply list_elem_of_here). split; [done|]. apply IH; [|done]. intros b Hb. apply Ho. by apply list_elem_of_further.
Qed.

Record rbmap_ok (m : ofi_rbmap) (l : list (Z * Z)) (fl det : list Z) : Prop := {
  ro_tree : exists t n sp, rep m m [] t sp /\ rbt n t /\ col t = BLACK /\ elems t = l;
  ro_chain : chain (rm_nodes m) (rm_free_list m) fl;
  ro_nodup : NoDup (l.*1 ++ fl ++ det);
  ro_real : forall a, a ∈ fl ++ det -> 1 < a;
  ro_dom : forall a, is_Some (rm_nodes m !! a) <-> a = SENTINEL \/ a ∈ l.*1 ++ fl ++ det;
  ro_next : 1 < rm_next m /\ forall a, is_Some (rm_nodes m !! a) -> a < rm_next m }.

Lemma addrs_top t : addrs t ++ kaddrs [] ≡ₚ (elems t).*1.
Proof. cbn. by rewrite app_nil_r, elems_addrs. Qed.

(** Elements are nodes. *)
Lemma rbmap_ok_real m l fl det a : rbmap_ok m l fl det -> a ∈ l.*1 ++ fl ++ det -> 1 < a.
Proof.
  intros [(t & n & sp & H & _ & _ & <-) _ _ Hre _ _]. rewrite elem_of_app. intros [Ha|Ha]; [|auto].
  apply (rp_real _ _ _ _ _ H). by rewrite addrs_top.
Qed.

Lemma rbmap_init_ok : rbmap_ok ofi_rbmap_init [] [] [].
Proof.
  unfold ofi_rbmap_init. split; rb_simpl; try done.
  - exists Lf, 0%nat, NULL. split_and!; try done; [|constructor]. split; cbn; try done; [apply NoDup_nil_2|by intros a ?%elem_of_nil].
  - apply NoDup_nil_2.
  - by intros a ?%elem_of_nil.
  - intros a. destruct (decide (a = SENTINEL)) as [->|Hne].
    + rewrite lookup_singleton_eq. split; eauto.
    + rewrite lookup_singleton_ne by congruence. split; [by intros [? ?]|]. intros [?|?%elem_of_nil]; done.
  - split; [done|]. intros a. destruct (decide (a = SENTINEL)) as [->|Hne]; [done|].
    rewrite lookup_singleton_ne by congruence. by intros [? ?].
Qed.

(** ** Search *)

Lemma rbmap_search_spec cmp m l fl det :
  rbmap_ok m l fl det -> cmp_mono cmp l ->
  wp (ofi_rbmap_search cmp) (fun a m' => m' = m /\
    ((exists d, (a, d) ∈ l /\ cmp d = Eq) \/ (a = NULL /\ forall x, x ∈ l -> cmp x.2 <> Eq))) m.
Proof.
  intros [(t & n & sp & H & _ & _ & <-) _ _ _ _ _] Hm. unfold ofi_rbmap_search. apply wp_bind, wp_gets, wp_bind, wp_gets.
  rewrite (rep_at_root _ _ _ _ H). eapply search_descend_spec; [exact H|exact Hm|]. pose proof (rep_depth _ _ _ _ _ H). pose proof (height_addrs t). lia.
Qed.

(** ** Node storage *)

(** A change of the storage that leaves the tree alone. *)
Lemma rbmap_tree_kept m m' t n sp :
  rep m m [] t sp -> rbt n t -> col t = BLACK ->
  (forall a, a ∈ (elems t).*1 \/ a = SENTINEL -> rm_nodes m' !! a = rm_nodes m !! a) -> rm_root m' = rm_root m ->
  exists t' n' sp', rep m' m' [] t' sp' /\ rbt n' t' /\ col t' = BLACK /\ elems t' = elems t.
Proof.
  intros H Hrb Hc Ho Hr. exists t, n, sp. split_and!; try done. eapply rep_outside; [exact H| |done].
  intros a [Ha| ->]; [|auto]. apply Ho. left. by rewrite elems_addrs.
Qed.

Lemma rbnode_malloc_spec m l fl det :
  rbmap_ok m l fl det -> wp rbnode_malloc (fun a m' => rbmap_ok m' l fl (a :: det)) m.
Proof.
  intros Hok. pose proof (rbmap_ok_real m l fl det) as Hreal. destruct Hok as [(t & n & sp & H & Hrb & Hc & <-) Hch Hnd Hre Hdom [Hx Hn]].
  unfold wp, rbnode_malloc. assert (Hfresh : rm_nodes m !! rm_next m = None).
  { apply eq_None_not_Some. intros Hs%Hn. lia. }
  assert (Hnot : rm_next m ∉ (elems t).*1 ++ fl ++ det).
  { intros Hin. assert (is_Some (rm_nodes m !! rm_next m)) as [? ?] by (apply Hdom; auto). congruence. }
  split; rb_simpl.
  - eapply rbmap_tree_kept; [exact H|done..| |done]. intros a Ha. rb_simpl. rewrite lookup_insert_ne; [done|]. intros <-.
    destruct Ha as [Ha|Ha]; [set_solver|unfold SENTINEL in Ha; lia].
  - eapply chain_ext; [|exact Hch]. intros a Ha. rewrite lookup_insert_ne; [done|]. set_solver.
  - rewrite !NoDup_app in *. rewrite NoDup_cons. set_solver.
  - intros a. rewrite elem_of_app, elem_of_cons. intros [?|[-> |?]]; [apply Hre; set_solver|done|apply Hre; set_solver].
  - intros a. rewrite lookup_insert_is_Some. rewrite Hdom. destruct (decide (rm_next m = a)); set_solver.
  - split; [lia|]. intros a. rewrite lookup_insert_is_Some. intros [->|[_ Ha%Hn]]; lia.
Qed.

Lemma rbnode_reuse_spec m l a fl det :
  rbmap_ok m l (a :: fl) det -> wp rbnode_reuse (fun x m' => x = a /\ rbmap_ok m' l fl (a :: det)) m.
Proof.
  intros [(t & n & sp & H & Hrb & Hc & <-) (Hf & na & Hna & Hch) Hnd Hre Hdom [Hx Hn]].
  unfold rbnode_reuse. apply wp_bind, wp_gets, wp_bind. rewrite Hf. eapply wp_right_of; [exact Hna|]. apply wp_bind, wp_modify, wp_ret.
  split; [done|]. split; rb_simpl; try done.
  - by eapply rbmap_tree_kept.
  - eapply NoDup_Permutation_proper; [|exact Hnd]. solve_Permutation.
  - intros b Hb. apply Hre. set_solver.
  - intros b. rewrite Hdom. set_solver.
Qed.

(** The very same tree is there afterwards. *)
Definition tree_kept (m m' : ofi_rbmap) : Prop := forall k t sp, rep m m k t sp -> rep m' m' k t sp.

Lemma rbnode_alloc_tree mem m : wlp (ofi_rbnode_alloc mem) (fun a m' => rm_nodes m !! rm_next m = None -> tree_kept m m') m.
Proof.
  unfold ofi_rbnode_alloc. apply wlp_bind, wlp_of_wp, wp_gets. destruct (_ =? NULL).
  - destruct mem; [|apply wlp_ret; by intros _ k t sp]. unfold wlp, rbnode_malloc. intros Hfresh k t sp H%rep_plug.
    apply rep_plug. eapply rep_outside; [exact H| |done]. intros a Ha. rb_simpl. rewrite lookup_insert_ne; [done|]. intros <-.
    destruct Ha as [Ha|Ha].
    + destruct (linked_dom _ _ _ _ (rp_linked _ _ _ _ _ H) Ha). congruence.
    + rewrite Ha, (rp_sent _ _ _ _ _ H) in Hfresh. done.
  - unfold rbnode_reuse, right_of. apply wlp_bind, wlp_of_wp, wp_gets, wlp_bind, wlp_bind.
    unfold wlp at 1, node. destruct (rm_nodes m !! _) as [n|]; [|done]. apply wlp_ret, wlp_bind, wlp_of_wp, wp_modify, wlp_ret.
    intros _ k t sp H%rep_plug. apply rep_plug. by eapply rep_outside.
Qed.

Lemma rbnode_alloc_spec m l fl det mem :
  rbmap_ok m l fl det -> wp (ofi_rbnode_alloc mem) (fun a m' =>
    (a = NULL /\ m' = m /\ mem = false) \/ (exists fl', rbmap_ok m' l fl' (a :: det) /\ tree_kept m m')) m.
Proof.
  intros Hok. assert (Hfresh : rm_nodes m !! rm_next m = None).
  { apply eq_None_not_Some. intros Hs. apply (proj2 (ro_next _ _ _ _ Hok)) in Hs. lia. }
  assert (Hw : wp (ofi_rbnode_alloc mem) (fun a m' =>
    (a = NULL /\ m' = m /\ mem = false) \/ (exists fl', rbmap_ok m' l fl' (a :: det))) m);
    [|eapply wp_mono; [exact (wp_wlp _ _ _ _ Hw (rbnode_alloc_tree mem m))|]; cbn beta; intros a m' [[?|[fl' Hok']] Hk]; eauto].
  unfold ofi_rbnode_alloc. apply wp_bind, wp_gets. destruct (Z.eqb_spec (rm_free_list m) NULL) as [E|E].
  - destruct mem; [|apply wp_ret; auto]. eapply wp_mono; [by apply rbnode_malloc_spec|]. cbn beta. eauto.
  - destruct fl as [|a fl]; [by destruct (E (ro_chain _ _ _ _ Hok))|]. eapply wp_mono; [by apply rbnode_reuse_spec|].
    cbn beta. intros x m' [-> Hok']. eauto.
Qed.

Lemma rbnode_free_spec m l fl x det :
  rbmap_ok m l fl (x :: det) -> wp (ofi_rbnode_free x) (fun _ m' => rbmap_ok m' l (x :: fl) det) m.
Proof.
  intros Hok. pose proof (rbmap_ok_real _ _ _ _ x Hok ltac:(set_solver)) as Hx1. destruct Hok as [(t & n & sp & H & Hrb & Hc & <-) Hch Hnd Hre Hdom [Hx Hn]].
  destruct (proj2 (Hdom x)) as [nx Hnx]; [set_solver|]. assert (Hxt : x ∉ (elems t).*1 ++ fl).
  { rewrite !NoDup_app, NoDup_cons in Hnd. set_solver. }
  eapply wp_mono; [eapply (rbnode_free_rep m t sp x nx); [done|rewrite <- elems_addrs; set_solver|unfold SENTINEL; lia|done]|].
  cbn beta. intros _ m' (H' & E & Hf & Hn'). split.
  - by exists t, n, sp.
  - rewrite Hf. cbn. split; [done|]. rewrite E, lookup_insert_eq. eexists. split; [done|]. rb_simpl.
    eapply chain_ext; [|exact Hch]. intros a Ha. rewrite lookup_insert_ne; [done|]. set_solver.
  - eapply NoDup_Permutation_proper; [|exact Hnd]. solve_Permutation.
  - intros b Hb. apply Hre. set_solver.
  - intros b. rewrite E, lookup_insert_is_Some, Hdom. destruct (decide (x = b)); set_solver.
  - rewrite Hn'. split; [done|]. intros a. rewrite E, lookup_insert_is_Some. intros [<- |[_ ?]]; apply Hn; eauto.
Qed.

(** ** Insertion *)

(** The detached node [x] took its place. *)
Definition rb_inserted (cmp : Z -> comparison) (l : list (Z * Z)) (x data : Z) (fl det : list Z) (m' : ofi_rbmap) : Prop :=
  exists l1 l2, l = l1 ++ l2 /\ Forall (fun e => cmp e.2 = Gt) l1 /\ Forall (fun e => cmp e.2 = Lt) l2 /\
    rbmap_ok m' (l1 ++ (x, data) :: l2) fl det.

Lemma insert_place cmp m l fl x det k data :
  rbmap_ok m l fl (x :: det) -> (exists sp, rep m m k Lf sp) -> elems (plug k Lf) = l ->
  (exists n, rbt n (plug k Lf)) -> col (plug k Lf) = BLACK -> fits cmp k ->
  wp (insert_attach cmp data x (up k) ;;; ofi_insert_rebalance x ;;; ret (0, Some x))
    (fun res m' => res = (0, Some x) /\ rb_inserted cmp l x data fl det m') m.
Proof.
  intros Hok [sp H] <- [n Hrb] Hcol Hf. pose proof (rbmap_ok_real _ _ _ _ x Hok ltac:(set_solver)) as Hx1.
  destruct Hok as [_ Hch Hnd Hre Hdom [Hx Hn]]. assert (Hxt : x ∉ (elems (plug k Lf)).*1) by (rewrite !NoDup_app in Hnd; set_solver).
  eapply wp_mono; [eapply (attach_rebalance m cmp m k n sp x data); try done|].
  { by rewrite <- elems_addrs. } { apply Hdom. set_solver. }
  cbn beta. intros res m' [-> (t' & n' & l1 & l2 & H' & Hrb' & Hc' & El & Et & HG & HL)]. split; [done|]. exists l1, l2. split_and!; try done.
  assert (Ho : forall a, a <> SENTINEL -> (a ∉ (l1 ++ (x, data) :: l2).*1) -> rm_nodes m' !! a = rm_nodes m !! a).
  { intros a Has Ha. apply (rp_out _ _ _ _ _ H'); [|done]. by rewrite addrs_top, Et. }
  assert (Hp : (l1 ++ (x, data) :: l2).*1 ≡ₚ x :: (elems (plug k Lf)).*1) by (rewrite El, !fmap_app, fmap_cons; cbn; solve_Permutation).
  assert (Hdom' : forall a, is_Some (rm_nodes m' !! a) <-> is_Some (rm_nodes m !! a)).
  { intros a. destruct (decide (a = SENTINEL)) as [->|Has].
    - rewrite (rp_sent _ _ _ _ _ H'), (rp_sent _ _ _ _ _ H). split; eauto.
    - destruct (decide (a ∈ (l1 ++ (x, data) :: l2).*1)) as [Ha|Ha]; [|by rewrite Ho].
      split; intros _; [apply Hdom; rewrite Hp in Ha; set_solver|]. eapply linked_dom; [exact (rp_linked _ _ _ _ _ H')|].
      by rewrite <- elems_addrs, Et. }
  split.
  - exists t', n', sp. split_and!; try done. by eapply rep_self.
  - rewrite (rp_free _ _ _ _ _ H'). eapply chain_ext; [|exact Hch]. intros a Ha. apply Ho.
    + pose proof (Hre a ltac:(set_solver)). unfold SENTINEL. lia.
    + rewrite Hp. rewrite !NoDup_app in Hnd. set_solver.
  - rewrite Hp. eapply NoDup_Permutation_proper; [|exact Hnd]. solve_Permutation.
  - intros a Ha. apply Hre. set_solver.
  - intros a. rewrite Hdom', Hdom, Hp. set_solver.
  - rewrite (rp_next _ _ _ _ _ H'). split; [done|]. intros a Ha%Hdom'. auto.
Qed.

(** Getting a node fails, or yields a detached node [x], [G x fl det] holding
    of it and the storage. *)
Definition yields_node (m : ofi_rbmap) (l : list (Z * Z)) (fail : Prop) (G : Z -> list Z -> list Z -> Prop)
    (x : Z) (m' : ofi_rbmap) : Prop :=
  (x = NULL /\ m' = m /\ fail) \/ exists fl det, G x fl det /\ rbmap_ok m' l fl (x :: det) /\ tree_kept m m'.

(** The outcomes of an insertion. *)
Definition insert_result cmp (m : ofi_rbmap) l data (fail : Prop) (G : Z -> list Z -> list Z -> Prop) (res : Z * option Z) (m' : ofi_rbmap) : Prop :=
  (exists a d, res = (- FI_EALREADY, Some a) /\ m' = m /\ (a, d) ∈ l /\ cmp d = Eq) \/
  (res = (- FI_ENOMEM, None) /\ m' = m /\ fail /\ forall e, e ∈ l -> cmp e.2 <> Eq) \/
  (exists x fl det, res = (0, Some x) /\ G x fl det /\ rb_inserted cmp l x data fl det m').

Lemma rbmap_insert_common_spec cmp m l fl det data prealloc mem fail G :
  rbmap_ok m l fl det -> cmp_mono cmp l ->
  wp (if negb (prealloc =? NULL) then ret prealloc else ofi_rbnode_alloc mem) (yields_node m l fail G) m ->
  wp (ofi_rbmap_insert_common cmp data prealloc mem) (insert_result cmp m l data fail G) m.
Proof.
  intros Hok Hm Hget. pose proof Hok as [(t & n & sp & H & Hrb & Hc & <-) _ _ _ _ _]. unfold ofi_rbmap_insert_common.
  apply wp_bind, wp_gets, wp_bind, wp_gets. rewrite (rep_at_root _ _ _ _ H). apply wp_bind.
  eapply wp_mono; [apply (insert_descend_spec m cmp _ m [] t sp); try done|].
  { pose proof (rep_depth _ _ _ _ _ H). pose proof (height_addrs t). lia. }
  cbn beta. intros [a|p] m1 [-> Hres].
  { apply wp_ret. left. destruct Hres as (d & ? & ?). eauto 6. }
  destruct Hres as (k & Hp & -> & Hf & Hno). cbn in Hp. apply wp_bind. eapply wp_mono; [exact Hget|].
  cbn beta. intros x m1 [(-> & -> & Hfail)|(fl' & det' & HG & Hok1 & Hk)]; [apply wp_ret; right; left; by split_and!|].
  pose proof (rbmap_ok_real _ _ _ _ x Hok1 ltac:(set_solver)) as Hx1. rewrite (proj2 (Z.eqb_neq x NULL)) by (unfold NULL; lia).
  rewrite <- Hp in *. eapply wp_mono; [eapply (insert_place cmp m1 _ fl' x det' k data Hok1); eauto|].
  { exists sp. apply Hk, rep_plug. exact H. }
  cbn beta. intros res m' [-> Hins]. right. right. by exists x, fl', det'.
Qed.

Lemma rbmap_insert_at_spec cmp m l fl x det data mem :
  rbmap_ok m l fl (x :: det) -> cmp_mono cmp l -> (forall e, e ∈ l -> cmp e.2 <> Eq) ->
  wp (ofi_rbmap_insert_at cmp data x mem) (fun res m' => res = (0, Some x) /\ rb_inserted cmp l x data fl det m') m.
Proof.
  intros Hok Hm Hno. eapply wp_mono; [eapply (rbmap_insert_common_spec cmp m l fl (x :: det) data _ _ False (fun y f d => y = x /\ f = fl /\ d = det))|].
  - done.
  - done.
  - pose proof (rbmap_ok_real _ _ _ _ x Hok ltac:(set_solver)) as Hx1. rewrite (proj2 (Z.eqb_neq x NULL)) by (unfold NULL; lia).
    apply wp_ret. right. exists fl, det. split_and!; try done. by intros k t sp.
  - cbn beta. intros res m' [(a & d & _ & _ & Hin & Heq)|[(_ & _ & [] & _)|(y & f & d & -> & (-> & -> & ->) & Hins)]]; [|done].
    by destruct (Hno _ Hin).
Qed.

Lemma rbmap_insert_spec cmp m l fl data mem :
  rbmap_ok m l fl [] -> cmp_mono cmp l ->
  wp (ofi_rbmap_insert cmp data mem) (insert_result cmp m l data (mem = false) (fun _ _ det => det = [])) m.
Proof.
  intros Hok Hm. eapply rbmap_insert_common_spec; [done|done|]. eapply wp_mono; [by apply (rbnode_alloc_spec m l fl [] mem)|].
  cbn beta. intros a m' [?|(fl' & Hok' & Hk)]; [by left|right]. by exists fl', [].
Qed.

(** ** Deletion *)

Lemma rbmap_delete_spec m l1 z d l2 fl det :
  rbmap_ok m (l1 ++ (z, d) :: l2) fl det ->
  wp (ofi_rbmap_delete z) (fun _ m' => rbmap_ok m' (l1 ++ l2) (z :: fl) det) m.
Proof.
  intros Hok. pose proof (rbmap_ok_real _ _ _ _ z Hok ltac:(rewrite fmap_app, fmap_cons; set_solver)) as Hz1.
  destruct Hok as [(t & n & sp & H & Hrb & Hc & Et) Hch Hnd Hre Hdom [Hx Hn]].
  assert (Hp : (l1 ++ (z, d) :: l2).*1 ≡ₚ z :: (l1 ++ l2).*1) by (rewrite !fmap_app, fmap_cons; cbn; solve_Permutation).
  apply wp_mono with (Q := fun _ => deleted m z l1 l2).
  { destruct (focus_at _ _ _ _ _ _ _ _ H Et) as (k & c & l & r & -> & -> & ->). apply rep_plug in H. unfold ofi_rbmap_delete.
    apply wp_bind. eapply wp_mono; [by eapply delete_target_spec|]. cbn beta.
    intros [y x] m' [-> (ky & cy & dy & a & b & t' & Hpl & Hab & -> & [[-> [= -> -> -> -> ->]]|(kr & -> & Hb & -> & ->)])]; cbn [fst snd].
    - by eapply delete_self.
    - assert (Hx' : t' = b) by (by destruct Hab as [[_ ?]|[-> ->]]). rewrite Hx'. by eapply delete_next. }
  cbn beta. intros _ m' (t' & n' & sp' & H' & Hrb' & Hc' & Et' & Ho & (nz & Hnz & Hfz) & Hf' & Hn').
  assert (Hdom' : forall a, is_Some (rm_nodes m' !! a) <-> is_Some (rm_nodes m !! a)).
  { intros a. destruct (decide (a = SENTINEL)) as [->|Has].
    - rewrite (rp_sent _ _ _ _ _ H'), (rp_sent _ _ _ _ _ H). split; eauto.
    - rewrite Hdom, Hp. destruct (decide (a = z)) as [->|Haz]; [rewrite Hnz; set_solver|].
      destruct (decide (a ∈ (l1 ++ l2).*1)) as [Ha|Ha]; [|rewrite Ho, Hdom, Hp by done; done].
      split; intros _; [set_solver|]. eapply linked_dom; [exact (rp_linked _ _ _ _ _ H')|]. by rewrite <- elems_addrs, Et'. }
  split.
  - by exists t', n', sp'.
  - rewrite Hf'. cbn. split; [done|]. exists nz. split; [done|]. rewrite Hfz. eapply chain_ext; [|exact Hch]. intros a Ha.
    pose proof (Hre a ltac:(set_solver)). rewrite Hp in Hnd. rewrite !NoDup_app, NoDup_cons in Hnd. apply Ho; [set_solver|unfold SENTINEL; lia|set_solver].
  - rewrite Hp in Hnd. eapply NoDup_Permutation_proper; [|exact Hnd]. solve_Permutation.
  - intros a. rewrite elem_of_app, elem_of_cons. intros [[-> |?]|?]; [done|apply Hre; set_solver|apply Hre; set_solver].
  - intros a. rewrite Hdom', Hdom, Hp. set_solver.
  - rewrite Hn'. split; [done|]. intros a Ha%Hdom'. auto.
Qed.

(** ** The contents *)

Lemma walk_elems fuel N par t :
  linked N par t -> (forall a, a ∈ addrs t -> 1 < a) -> (height t <= fuel)%nat -> walk fuel N (rt t) = elems t.
Proof.
  revert par t. induction fuel as [|fuel IH]; intros par t Hl Hre Hf; (destruct t as [|a c d l r]; [done|]); cbn in Hf; [lia|].
  cbn [walk rt]. rewrite (proj2 (Z.eqb_neq a SENTINEL)) by (specialize (Hre a ltac:(cbn; set_solver)); unfold SENTINEL; lia).
  destruct Hl as (Ha & Hl & Hr). rewrite Ha. rb_simpl. cbn [elems].
  rewrite (IH a l), (IH a r); [done|done|intros; apply Hre; cbn; set_solver|lia|done|intros; apply Hre; cbn; set_solver|lia].
Qed.

Lemma rb_list_ok m l fl det : rbmap_ok m l fl det -> rb_list m = l.
Proof.
  intros [(t & n & sp & H & _ & _ & <-) _ _ _ _ _]. unfold rb_list. rewrite (rep_at_root _ _ _ _ H).
  apply (walk_elems _ _ NULL); [exact (rp_linked _ _ _ _ _ H)| |].
  - intros a Ha. apply (rp_real _ _ _ _ _ H). set_solver.
  - pose proof (rep_depth _ _ _ _ _ H). pose proof (height_addrs t). lia.
Qed.

Lemma rbmap_ok_data_nodup m l fl det : rbmap_ok m l fl det -> NoDup l.*1.
Proof. intros H. pose proof (ro_nodup _ _ _ _ H) as Hnd. by apply NoDup_app in Hnd as [? _]. Qed.

(** The data of a node of the map. *)
Lemma rbmap_ok_node m l fl det a d : rbmap_ok m l fl det -> (a, d) ∈ l -> exists n, rm_nodes m !! a = Some n /\ rb_data n = d.
Proof.
  intros [(t & n & sp & H & _ & _ & <-) _ _ _ _ _] Hin. destruct (focus_in t a d Hin) as (k & c & l & r & ->).
  apply rep_plug in H. eexists. split; [by eapply rep_lookup|done].
Qed.

(** ** Balance *)

Lemma rbt_height n t : rbt n t -> (height t <= 2 * n + match col t with RED => 1 | BLACK => 0 end)%nat.
Proof.
  induction 1 as [|n a d l r Hl IHl Hr IHr|n a d l r Hl IHl Hr IHr Hcl Hcr]; cbn; [done| |].
  - destruct (col l), (col r); lia.
  - rewrite Hcl in IHl. rewrite Hcr in IHr. lia.
Qed.

Lemma rbt_size n t : rbt n t -> (2 ^ n <= S (length (elems t)))%nat.
Proof.
  induction 1 as [|n a d l r Hl IHl Hr IHr|n a d l r Hl IHl Hr IHr Hcl Hcr]; cbn [elems]; [done| |]; rewrite length_app; cbn in *; lia.
Qed.

Lemma rbt_depth n t : rbt n t -> col t = BLACK -> (height t <= 2 * Nat.log2 (S (length (elems t))))%nat.
Proof.
  intros Hrb Hc. pose proof (rbt_height _ _ Hrb) as Hh. rewrite Hc in Hh. pose proof (rbt_size _ _ Hrb) as Hs.
  apply Nat.log2_le_mono in Hs. rewrite Nat.log2_pow2 in Hs by lia. lia.
Qed.

(** ** Release *)

Lemma foreach_free_spec fuel m t par :
  linked (rm_nodes m) par t -> NoDup (addrs t) -> (forall a, a ∈ addrs t -> 1 < a) -> (height t <= fuel)%nat ->
  wp (ofi_rbmap_foreach fuel (rt t) (fun a => node_free a ;;; ret FI_SUCCESS)) (fun r m' => r = 0 /\
    (forall a, a ∈ addrs t -> rm_nodes m' !! a = None) /\ (forall a, (a ∉ addrs t) -> rm_nodes m' !! a = rm_nodes m !! a) /\
    rm_free_list m' = rm_free_list m) m.
Proof.
  revert m t par. induction fuel as [|fuel IH]; intros m t par Hl Hnd Hre Hf.
  all: destruct t as [|a c d l r]; [apply wp_ret; split_and!; try done; by intros a ?%elem_of_nil|]; cbn in Hf.
  { lia. }
  cbn [ofi_rbmap_foreach rt]. rewrite (proj2 (Z.eqb_neq a SENTINEL)) by (specialize (Hre a ltac:(cbn; set_solver)); unfold SENTINEL; lia).
  destruct Hl as (Ha & Hl & Hr). cbn [addrs] in Hnd, Hre |- *. rewrite NoDup_cons, NoDup_app in Hnd. destruct Hnd as (Hna & Hnl & Hdis & Hnr).
  apply wp_bind. eapply wp_left_of; [exact Ha|]. apply wp_bind. rb_simpl.
  eapply wp_mono; [apply (IH m l a); [done|done|intros; apply Hre; set_solver|lia]|].
  cbn beta. intros r1 m1 (-> & Hd1 & Ho1 & Hf1). cbn [Z.eqb negb]. apply wp_bind. eapply wp_right_of; [rewrite Ho1 by set_solver; exact Ha|].
  apply wp_bind. rb_simpl. eapply wp_mono; [apply (IH m1 r a); [|done|intros; apply Hre; set_solver|lia]|].
  { eapply linked_ext; [|exact Hr]. intros b Hb. apply Ho1. set_solver. }
  cbn beta. intros r2 m2 (-> & Hd2 & Ho2 & Hf2). cbn [Z.eqb negb]. unfold node_free. apply wp_bind, wp_bind.
  eapply wp_node; [rewrite Ho2, Ho1 by set_solver; exact Ha|]. apply wp_modify, wp_ret. rb_simpl. split_and!; [done| | |congruence].
  - intros b [-> |[Hb|Hb]%elem_of_app]%elem_of_cons; [by rewrite lookup_delete_eq| |]; rewrite lookup_delete_ne by set_solver; [|auto].
    rewrite Ho2 by set_solver. auto.
  - intros b [Hb1 [Hb2 Hb3]%not_elem_of_app]%not_elem_of_cons. rewrite lookup_delete_ne, Ho2, Ho1 by done. done.
Qed.

Lemma free_list_loop_spec fuel m fl :
  chain (rm_nodes m) (rm_free_list m) fl -> NoDup fl -> (forall a, a ∈ fl -> 1 < a) -> (length fl <= fuel)%nat ->
  wp (free_list_loop fuel) (fun _ m' => (forall a, a ∈ fl -> rm_nodes m' !! a = None) /\
    (forall a, (a ∉ fl) -> rm_nodes m' !! a = rm_nodes m !! a)) m.
Proof.
  revert m fl. induction fuel as [|fuel IH]; intros m fl Hc Hnd Hre Hf; cbn [free_list_loop]; apply wp_bind, wp_gets.
  all: destruct fl as [|a fl]; [cbn in Hc; rewrite Hc, Z.eqb_refl; apply wp_ret; split; [by intros a ?%elem_of_nil|done]|]; cbn in Hf.
  { lia. }
  destruct Hc as (Ea & n & Hn & Hc). rewrite Ea. pose proof (Hre a (list_elem_of_here _ _)) as Ha1. apply NoDup_cons in Hnd as [Hna Hnd].
  rewrite (proj2 (Z.eqb_neq a NULL)) by (unfold NULL; lia). apply wp_bind. eapply wp_right_of; [exact Hn|].
  apply wp_bind, wp_modify, wp_bind, wp_bind. eapply wp_node; [exact Hn|]. apply wp_modify. rb_simpl. cbn in Hf.
  eapply wp_mono; [apply (IH _ fl); rb_simpl; [|done|intros; apply Hre; set_solver|lia]|].
  { eapply chain_ext; [|exact Hc]. intros b Hb. rewrite lookup_delete_ne; [done|]. set_solver. }
  cbn beta. rb_simpl. intros _ m' [Hd Ho]. split.
  - intros b [-> |Hb]%elem_of_cons; [rewrite Ho by done; by rewrite lookup_delete_eq|auto].
  - intros b [Hb1 Hb2]%not_elem_of_cons. rewrite Ho by done. by rewrite lookup_delete_ne.
Qed.

(** Cleaning up frees every node, once. *)
Lemma rbmap_cleanup_spec m l fl :
  rbmap_ok m l fl [] -> wp ofi_rbmap_cleanup (fun _ m' => forall a, is_Some (rm_nodes m' !! a) <-> a = SENTINEL) m.
Proof.
  intros Hok. pose proof Hok as [(t & n & sp & H & _ & _ & <-) Hch Hnd Hre Hdom _]. unfold ofi_rbmap_cleanup.
  apply wp_bind, wp_gets, wp_bind, wp_gets. rewrite (rep_at_root _ _ _ _ H), app_nil_r in *.
  assert (Hsz : (height t <= size (rm_nodes m) /\ length fl <= size (rm_nodes m))%nat).
  { pose proof (rep_depth _ _ _ _ _ H). pose proof (height_addrs t). split; [lia|].
    assert (Hsub : list_to_set fl ⊆ dom (rm_nodes m)).
    { intros a. rewrite elem_of_list_to_set, elem_of_dom, Hdom. set_solver. }
    apply subseteq_size in Hsub. rewrite size_list_to_set, size_dom in Hsub; [lia|]. by apply NoDup_app in Hnd as (_ & _ & ?). }
  assert (Hdom' : forall a, is_Some (rm_nodes m !! a) <-> a = SENTINEL \/ a ∈ addrs t ++ fl) by (intros a; by rewrite Hdom, elems_addrs).
  rewrite elems_addrs in Hnd.
  pose proof Hnd as Hnd0. apply NoDup_app in Hnd0 as (Hnt & Hdis & Hnf). apply wp_bind.
  eapply wp_mono; [apply (foreach_free_spec _ m t NULL); [exact (rp_linked _ _ _ _ _ H)|done| |lia]|].
  { intros a Ha. apply (rp_real _ _ _ _ _ H). set_solver. }
  cbn beta. intros r m1 (_ & Hd1 & Ho1 & Hf1). eapply wp_mono; [apply (free_list_loop_spec _ m1 fl); [|done|intros; apply Hre; set_solver|lia]|].
  { rewrite Hf1. eapply chain_ext; [|exact Hch]. intros a Ha. apply Ho1. set_solver. }
  cbn beta. intros _ m2 [Hd2 Ho2] a. destruct (decide (a ∈ fl)) as [Ha|Ha].
  { rewrite Hd2 by done. split; [by intros [? ?]|]. intros ->. specialize (Hre SENTINEL ltac:(set_solver)). unfold SENTINEL in Hre. lia. }
  rewrite Ho2 by done. destruct (decide (a ∈ addrs t)) as [Hat|Hat].
  { rewrite Hd1 by done. split; [by intros [? ?]|]. intros ->. pose proof (rp_real _ _ _ _ _ H SENTINEL ltac:(set_solver)) as Hr. unfold SENTINEL in Hr. lia. }
  rewrite Ho1, Hdom' by done. set_solver.
Qed.
