(* ===== verification/RbtMap.v ===== *)
(** * The red-black map refines a sorted list

    Sequences of [ofi_rbmap_insert], [ofi_rbmap_find_delete] and
    [ofi_rbmap_find] on a map with any total order of keys behave as on a
    sorted list of elements; a search costs at most twice the logarithm of
    the number of elements; releasing the map frees every node once. *)

From stdpp Require Import sorting.
From S2P Require Import Prelude Rbt RbtRep RbtInsert RbtDelete RbtSpec.

(** ** Keys *)

(** A comparison of a key with the data of an element, both given by the
    value that carries the key. *)
Class KeyOrder (cmp : Z -> Z -> comparison) := {
  ko_opp : forall x y, cmp y x = CompOpp (cmp x y);
  ko_trans : forall x y z, cmp x y = Lt -> cmp y z = Lt -> cmp x z = Lt;
  ko_eq : forall x y z, cmp x y = Eq -> cmp x z = cmp y z }.

#[export] Instance Z_key_order : KeyOrder Z.compare.
Proof.
  split.
  - intros x y. apply Z.compare_antisym.
  - intros x y z. rewrite !Z.compare_lt_iff. lia.
  - intros x y z ->%Z.compare_eq_iff. done.
Qed.

Section Map.
Context (cmp : Z -> Z -> comparison) `{!KeyOrder cmp}.
Implicit Types (l : list (Z * Z)) (m : ofi_rbmap).

Definition key_sorted l : Prop := StronglySorted (fun a b : Z * Z => cmp a.2 b.2 = Lt) l.

Lemma ko_gt x y : cmp x y = Gt <-> cmp y x = Lt.
Proof. rewrite (ko_opp (cmp := cmp) x y). by destruct (cmp x y). Qed.

Lemma ko_gt_lt k x y : cmp x y = Lt -> (cmp k y = Gt -> cmp k x = Gt) /\ (cmp k x = Lt -> cmp k y = Lt).
Proof. intros Hxy. split; [rewrite !ko_gt|]; intros H; by eapply (ko_trans (cmp := cmp)). Qed.

Lemma key_sorted_mono k l : key_sorted l -> cmp_mono (cmp k) l.
Proof.
  unfold key_sorted, cmp_mono. induction 1 as [|a l Hs IH Ha]; constructor; [done|].
  eapply Forall_impl; [exact Ha|]. intros b. apply ko_gt_lt.
Qed.

Lemma key_sorted_insert k x l1 l2 :
  key_sorted (l1 ++ l2) -> Forall (fun e => cmp k e.2 = Gt) l1 -> Forall (fun e => cmp k e.2 = Lt) l2 -> key_sorted (l1 ++ (x, k) :: l2).
Proof.
  unfold key_sorted. rewrite !sorted_app. intros (H1 & H2 & H3) HG HL. rewrite !Forall_forall in *. split_and!; [done| |].
  - constructor; [done|]. apply Forall_forall. auto.
  - intros a b Ha [-> |Hb]%elem_of_cons; [|auto]. cbn. apply ko_gt. by apply HG.
Qed.

Lemma key_sorted_delete l1 e l2 : key_sorted (l1 ++ e :: l2) -> key_sorted (l1 ++ l2).
Proof.
  unfold key_sorted. rewrite !sorted_app. intros (H1 & H2 & H3). apply StronglySorted_inv in H2 as [H2 _].
  split_and!; try done. intros x y Hx Hy. apply H3; [done|]. by apply list_elem_of_further.
Qed.

(** ** Operations and their specification on sorted lists *)

Inductive rb_op := RbFind (k : Z) | RbInsert (k : Z) (mem : bool) | RbFindDelete (k : Z).

(** The code an operation returns, and the node it yields (in a variable that
    was NULL before). *)
Definition rb_exec (op : rb_op) : M ofi_rbmap (Z * Z) :=
  match op with
  | RbFind k => a <- ofi_rbmap_find (cmp k) ;; ret (0, a)
  | RbInsert k mem => r <- ofi_rbmap_insert (cmp k) k mem ;; ret (r.1, default NULL r.2)
  | RbFindDelete k => r <- ofi_rbmap_find_delete (cmp k) ;; ret (r, NULL)
  end.

Definition absent (k : Z) l : Prop := forall e, e ∈ l -> cmp k e.2 <> Eq.

Inductive rb_spec : rb_op -> list (Z * Z) -> Z * Z -> list (Z * Z) -> Prop :=
| spec_find k a d l : (a, d) ∈ l -> cmp k d = Eq -> rb_spec (RbFind k) l (0, a) l
| spec_find_none k l : absent k l -> rb_spec (RbFind k) l (0, NULL) l
| spec_insert_dup k mem a d l : (a, d) ∈ l -> cmp k d = Eq -> rb_spec (RbInsert k mem) l (- FI_EALREADY, a) l
| spec_insert_nomem k l : absent k l -> rb_spec (RbInsert k false) l (- FI_ENOMEM, NULL) l
| spec_insert k mem x l1 l2 :
    absent k (l1 ++ l2) -> (x ∉ (l1 ++ l2).*1) -> x <> NULL -> key_sorted (l1 ++ (x, k) :: l2) ->
    rb_spec (RbInsert k mem) (l1 ++ l2) (0, x) (l1 ++ (x, k) :: l2)
| spec_delete k a d l1 l2 : cmp k d = Eq -> rb_spec (RbFindDelete k) (l1 ++ (a, d) :: l2) (0, NULL) (l1 ++ l2)
| spec_delete_none k l : absent k l -> rb_spec (RbFindDelete k) l (- FI_ENODATA, NULL) l.

(** The representation of a list between operations. *)
Definition map_rep l m : Prop := key_sorted l /\ exists fl, rbmap_ok m l fl [].

Lemma rb_exec_find k l m : map_rep l m ->
  wp (rb_exec (RbFind k)) (fun r m' => exists l', rb_spec (RbFind k) l r l' /\ map_rep l' m') m.
Proof.
  intros [Hs [fl Hok]]. apply wp_bind. eapply wp_mono; [by eapply rbmap_search_spec, key_sorted_mono|].
  cbn beta. intros a m' [-> [(d & Hin & He)|[-> Hno]]]; apply wp_ret; exists l; (split; [|by split; eauto]); [by eapply spec_find|by apply spec_find_none].
Qed.

Lemma rb_exec_insert k mem l m : map_rep l m ->
  wp (rb_exec (RbInsert k mem)) (fun r m' => exists l', rb_spec (RbInsert k mem) l r l' /\ map_rep l' m') m.
Proof.
  intros [Hs [fl Hok]]. unfold rb_exec. apply wp_bind. eapply wp_mono; [by eapply rbmap_insert_spec, key_sorted_mono|]. cbn beta.
  intros res m' Hres. apply wp_ret. destruct Hres as [(a & d & -> & -> & Hin & He)|[(-> & -> & -> & Hno)|(x & fl' & det & -> & -> & l1 & l2 & -> & HG & HL & Hok')]].
  - exists l. split; [by eapply spec_insert_dup|by split; eauto].
  - exists l. split; [by apply spec_insert_nomem|by split; eauto].
  - assert (Hs' : key_sorted (l1 ++ (x, k) :: l2)) by (by apply key_sorted_insert). exists (l1 ++ (x, k) :: l2). split; [|by split; eauto].
    pose proof (rbmap_ok_data_nodup _ _ _ _ Hok') as Hnd. pose proof (rbmap_ok_real _ _ _ _ x Hok') as Hx1.
    rewrite !fmap_app, fmap_cons in Hnd, Hx1. cbn in Hnd, Hx1. apply spec_insert; [|rewrite fmap_app; rewrite !NoDup_app, NoDup_cons in Hnd; set_solver| |done].
    + rewrite Forall_forall in HG, HL. intros e [He|He]%elem_of_app; [rewrite (HG e He)|rewrite (HL e He)]; done.
    + specialize (Hx1 ltac:(set_solver)). unfold NULL. lia.
Qed.

Lemma rb_exec_delete k l m : map_rep l m ->
  wp (rb_exec (RbFindDelete k)) (fun r m' => exists l', rb_spec (RbFindDelete k) l r l' /\ map_rep l' m') m.
Proof.
  intros [Hs [fl Hok]]. unfold rb_exec, ofi_rbmap_find_delete. apply wp_bind, wp_bind.
  eapply wp_mono; [by eapply rbmap_search_spec, key_sorted_mono|]. cbn beta. intros a m' [-> [(d & Hin & He)|[-> Hno]]].
  - assert (Ha : 1 < a). { eapply rbmap_ok_real; [exact Hok|]. apply elem_of_app. left. apply (list_elem_of_fmap_2 fst) in Hin. exact Hin. }
    rewrite (proj2 (Z.eqb_neq a NULL)) by (unfold NULL; lia). apply list_elem_of_split in Hin as (l1 & l2 & ->). apply wp_bind.
    eapply wp_mono; [by eapply rbmap_delete_spec|]. cbn beta. intros _ m' Hok'. apply wp_ret, wp_ret. exists (l1 ++ l2).
    split; [by apply spec_delete|]. split; [by eapply key_sorted_delete|eauto].
  - rewrite Z.eqb_refl. apply wp_ret, wp_ret. exists l. split; [by apply spec_delete_none|by split; eauto].
Qed.

(** ** Sequences *)

Fixpoint rb_run (ops : list rb_op) : M ofi_rbmap (list (Z * Z)) :=
  match ops with
  | [] => ret []
  | op :: ops' => r <- rb_exec op ;; rs <- rb_run ops' ;; ret (r :: rs)
  end.

Inductive rb_trace : list (Z * Z) -> list rb_op -> list (Z * Z) -> list (Z * Z) -> Prop :=
| trace_nil l : rb_trace l [] [] l
| trace_cons l op r l1 ops rs l2 : rb_spec op l r l1 -> rb_trace l1 ops rs l2 -> rb_trace l (op :: ops) (r :: rs) l2.

Lemma rb_run_spec ops l m : map_rep l m ->
  wp (rb_run ops) (fun rs m' => exists l', rb_trace l ops rs l' /\ map_rep l' m') m.
Proof.
  revert l m. induction ops as [|op ops IH]; intros l m Hr; cbn [rb_run].
  { apply wp_ret. exists l. split; [constructor|done]. }
  apply wp_bind. apply wp_mono with (Q := fun r m' => exists l', rb_spec op l r l' /\ map_rep l' m').
  { destruct op; [by apply rb_exec_find|by apply rb_exec_insert|by apply rb_exec_delete]. }
  intros r m1 (l1 & Hs & Hr1). apply wp_bind. eapply wp_mono; [by eapply IH|]. cbn beta. intros rs m2 (l2 & Ht & Hr2).
  apply wp_ret. exists l2. split; [by econstructor|done].
Qed.

(** C11: The red-black tree of tree.c refines a sorted list: from an empty
    map, any sequence of finds, inserts (with or without memory for the new
    node) and deletes is defined and returns what the specification on the
    sorted list of elements allows, and the in-order walk of the pointer
    structure is that list, strictly sorted. *)
Theorem rbmap_refines_sorted_list ops :
  wp (rb_run ops) (fun rs m => exists l, rb_trace [] ops rs l /\ rb_list m = l /\ key_sorted l) ofi_rbmap_init.
Proof.
  eapply wp_mono; [apply (rb_run_spec ops []); split; [constructor|exists []; apply rbmap_init_ok]|].
  cbn beta. intros rs m (l & Ht & Hs & fl & Hok). exists l. split_and!; [done|by eapply rb_list_ok|done].
Qed.

(** C24: The tree stays balanced: after any sequence of operations, a search
    for any key ends within twice the binary logarithm of the number of
    elements plus one node visits, and it finds the key exactly when an
    element has it. *)
Theorem rbmap_search_logarithmic ops k :
  wp (rb_run ops) (fun _ m => wp (search_descend (2 * Nat.log2 (S (length (rb_list m)))) (cmp k) (rm_root m))
    (fun a m' => m' = m /\ (a <> NULL <-> exists e, e ∈ rb_list m /\ cmp k e.2 = Eq)) m) ofi_rbmap_init.
Proof.
  eapply wp_mono; [apply (rb_run_spec ops []); split; [constructor|exists []; apply rbmap_init_ok]|].
  cbn beta. intros rs m (l & _ & Hs & fl & Hok). rewrite (rb_list_ok _ _ _ _ Hok).
  pose proof Hok as [(t & n & sp & H & Hrb & Hc & El) _ _ _ _ _]. rewrite (rep_at_root _ _ _ _ H).
  eapply wp_mono; [eapply (search_descend_spec m); [exact H|cbn; rewrite El; by apply key_sorted_mono|rewrite <- El; by eapply rbt_depth]|].
  cbn beta. intros a m' [-> Ha]. rewrite El in Ha. split; [done|]. destruct Ha as [(d & Hin & He)|[-> Hno]].
  - split; [eauto|]. intros _ E. assert (1 < a); [|unfold NULL in E; lia]. eapply rbmap_ok_real; [exact Hok|].
    apply elem_of_app. left. exact (list_elem_of_fmap_2 fst _ _ Hin).
  - split; [done|]. intros (e & He & Heq). by destruct (Hno e He).
Qed.

(** C25: Releasing a map is safe and leaks nothing: after any sequence of
    operations, [ofi_rbmap_cleanup] frees every node of the tree and of the
    free list exactly once, and only the sentinel remains. *)
Theorem rbmap_cleanup_frees_all ops :
  wp (rb_run ops ;;; ofi_rbmap_cleanup) (fun _ m => forall a, is_Some (rm_nodes m !! a) <-> a = SENTINEL) ofi_rbmap_init.
Proof.
  apply wp_bind. eapply wp_mono; [apply (rb_run_spec ops []); split; [constructor|exists []; apply rbmap_init_ok]|].
  cbn beta. intros rs m (l & _ & _ & fl & Hok). by eapply rbmap_cleanup_spec.
Qed.
End Map.

(** ** Applied to integers *)

Definition demo_ops : list rb_op :=
  [RbInsert 5 true; RbInsert 3 true; RbInsert 8 true; RbInsert 1 true; RbInsert 3 true; RbInsert 9 false;
   RbFindDelete 5; RbFindDelete 7; RbFind 8; RbInsert 4 false; RbFindDelete 3; RbInsert 2 true].

Lemma rbmap_refines_sorted_list_witness :
  (fun r => (rb_list r.2).*2) <$> rb_run Z.compare demo_ops ofi_rbmap_init = Some [1; 2; 4; 8] /\
  wp (rb_run Z.compare demo_ops) (fun rs m => exists l, rb_trace Z.compare [] demo_ops rs l /\ rb_list m = l /\ key_sorted Z.compare l) ofi_rbmap_init.
Proof. split; [vm_compute; reflexivity|]. exact (rbmap_refines_sorted_list Z.compare demo_ops). Defined.

Lemma rbmap_search_logarithmic_witness :
  wp (rb_run Z.compare demo_ops) (fun _ m => wp (search_descend (2 * Nat.log2 (S (length (rb_list m)))) (Z.compare 4) (rm_root m))
    (fun a m' => m' = m /\ (a <> NULL <-> exists e, e ∈ rb_list m /\ Z.compare 4 e.2 = Eq)) m) ofi_rbmap_init.
Proof. exact (rbmap_search_logarithmic Z.compare demo_ops 4). Defined.

Lemma rbmap_cleanup_frees_all_witness :
  wp (rb_run Z.compare demo_ops ;;; ofi_rbmap_cleanup) (fun _ m => forall a, is_Some (rm_nodes m !! a) <-> a = SENTINEL) ofi_rbmap_init.
Proof. exact (rbmap_cleanup_frees_all Z.compare demo_ops). Defined.
