(* ===== verification/MrCache.v ===== *)
(** * The registration cache

    [prov/util/src/util_mr_cache.c] as the provider uses it (system memory,
    peer id 0, one domain lock, so one thread at a time).  The cache is
    generic in the provider's [add_region]/[delete_region] callbacks and in
    the state they run on, as the C code is.

    The cached entries are in the red-black tree of [src/tree.c] (file
    [Rbt]), ordered by [util_mr_find_within]; that is a total order on the
    entries the cache keeps, because it never keeps one region inside
    another. *)

From S2P Require Import Prelude Iov Wire Config Kernel Rbt.

(** ** Interval comparisons of ofi_iov.h *)

Definition ofi_iov_end (v : iovec) : Z := iov_base v + iov_len v - 1.
Definition ofi_iov_left (a b : iovec) : bool := ofi_iov_end a <? iov_base b.
Definition ofi_iov_right (a b : iovec) : bool := iov_base a >? ofi_iov_end b.
Definition ofi_iov_shifted_left (a b : iovec) : bool :=
  (iov_base a <? iov_base b) && (ofi_iov_end a <? ofi_iov_end b).
Definition ofi_iov_shifted_right (a b : iovec) : bool :=
  (iov_base a >? iov_base b) && (ofi_iov_end a >? ofi_iov_end b).
Definition ofi_iov_within (a b : iovec) : bool :=
  (iov_base a >=? iov_base b) && (ofi_iov_end a <=? ofi_iov_end b).

(** The two tree comparisons, key first. *)
Definition util_mr_find_within (info entry : iovec) : comparison :=
  if ofi_iov_shifted_left info entry then Lt
  else if ofi_iov_shifted_right info entry then Gt
  else Eq.

Definition util_mr_find_overlap (info entry : iovec) : comparison :=
  if ofi_iov_left info entry then Lt
  else if ofi_iov_right info entry then Gt
  else Eq.

(** ** Data *)

(** [struct rds_cached_mr], the per-entry payload. *)
Record rds_cached_mr := mkCached { cm_cookie : Z; cm_offset : Z }.

(** [struct ofi_mr_entry]; [me_node] is its node in the tree, or [NULL]. *)
Record ofi_mr_entry := mkMrEntry {
  me_iov : iovec; me_node : Z; me_use_cnt : Z; me_data : rds_cached_mr }.

#[export] Instance ofi_mr_entry_eta : Settable ofi_mr_entry := fun e =>
  mkMrEntry (me_iov e) (me_node e) (me_use_cnt e) (me_data e).

(** [struct ofi_mr_cache].  Entries live in a pool that recycles them without
    clearing their contents: [mc_entries] keeps what every pool entry holds,
    [mc_free] is the pool's LIFO free list. *)
Record ofi_mr_cache := mkCache {
  mc_monitor : bool;                     (* monitors[FI_HMEM_SYSTEM] is set *)
  mc_tree : ofi_rbmap;                   (* its data are entries *)
  mc_lru_list : list Z;
  mc_dead_region_list : list Z;
  mc_cached_cnt : Z; mc_cached_size : Z;
  mc_cached_max_cnt : Z; mc_cached_max_size : Z;
  mc_uncached_cnt : Z; mc_uncached_size : Z;
  mc_search_cnt : Z; mc_delete_cnt : Z; mc_hit_cnt : Z; mc_notify_cnt : Z;
  mc_entries : gmap Z ofi_mr_entry;
  mc_free : list Z;
  mc_pool_cnt : Z                        (* entries the pool has handed out or holds *)
}.

#[export] Instance ofi_mr_cache_eta : Settable ofi_mr_cache := fun c =>
  mkCache (mc_monitor c) (mc_tree c) (mc_lru_list c) (mc_dead_region_list c)
    (mc_cached_cnt c) (mc_cached_size c) (mc_cached_max_cnt c) (mc_cached_max_size c)
    (mc_uncached_cnt c) (mc_uncached_size c) (mc_search_cnt c) (mc_delete_cnt c)
    (mc_hit_cnt c) (mc_notify_cnt c) (mc_entries c) (mc_free c) (mc_pool_cnt c).

(** Entries per pool region: the entry is smaller than a page. *)
Definition POOL_CHUNK : Z := 64.

(** [ofi_mr_cache_init] with the limits of [cache_params]. *)
Definition ofi_mr_cache_init (monitor : bool) (max_cnt max_size : Z) : Z + ofi_mr_cache :=
  if (max_cnt =? 0) || (max_size =? 0) then inl (- FI_ENOSPC)
  else inr (mkCache monitor ofi_rbmap_init [] [] 0 0 max_cnt max_size 0 0 0 0 0 0 ∅ [] 0).

Definition ofi_mr_cache_full (c : ofi_mr_cache) : bool :=
  (mc_cached_cnt c >=? mc_cached_max_cnt c) || (mc_cached_size c >=? mc_cached_max_size c).

(** The entries in the tree, in key order. *)
Definition tree_of (c : ofi_mr_cache) : list Z := (rb_list (mc_tree c)).*2.

(** [dlist_remove] from one of the lists. *)
Definition dlist_remove (h : Z) (l : list Z) : list Z := filter (fun x => x <> h) l.

(** ** The owner of a cache

    What the cache calls back into, over the state [S] that contains it: the
    provider's two callbacks, the allocator and the memory monitor. *)
Class CacheOwner (S : Type) := {
  co_get : S -> ofi_mr_cache;
  co_upd : (ofi_mr_cache -> ofi_mr_cache) -> S -> S;
  co_add_region : Z -> M S Z;
  co_delete_region : Z -> M S unit;
  co_alloc : Z -> M S (option Z);
  co_mon_valid : iovec -> iovec -> S -> bool;
  co_mon_subscribe : iovec -> M S Z;
  co_mon_unsubscribe : iovec -> M S unit;
  (** How often [co_add_region] may still ask for a retry (fuel only). *)
  co_patience : S -> nat
}.

Section Operations.
Context {S : Type} `{!CacheOwner S}.

Definition upd (f : ofi_mr_cache -> ofi_mr_cache) : M S unit := modify (co_upd f).

Definition entry_of (h : Z) : M S ofi_mr_entry :=
  c <- gets co_get ;; of_opt (mc_entries c !! h).

Definition set_entry (h : Z) (f : ofi_mr_entry -> ofi_mr_entry) : M S unit :=
  upd (fun c => c <| mc_entries ::= alter f h |>).

(** An operation on the tree. *)
Definition on_tree {A} (op : M ofi_rbmap A) : M S A := fun s =>
  match op (mc_tree (co_get s)) with
  | Some (a, t) => Some (a, co_upd (fun c => c <| mc_tree := t |>) s)
  | None => None
  end.

(** *** Entries *)

Definition zero_entry : ofi_mr_entry := mkMrEntry (mkIov 0 0) NULL 0 (mkCached 0 0).

(** [ofi_bufpool_grow]: a region of zeroed entries behind the free list. *)
Definition pool_grow (c : ofi_mr_cache) : ofi_mr_cache :=
  let fresh := seqZ (mc_pool_cnt c) POOL_CHUNK in
  c <| mc_free ::= fun l => l ++ fresh |>
    <| mc_entries ::= fun m => foldr (fun h m => <[h := zero_entry]> m) m fresh |>
    <| mc_pool_cnt ::= Z.add POOL_CHUNK |>.

Definition util_mr_entry_alloc : M S (option Z) :=
  c <- gets co_get ;;
  ok <- match mc_free c with
        | [] => r <- co_alloc (POOL_CHUNK * 128) ;;
                match r with
                | None => ret false
                | Some _ => upd pool_grow ;;; ret true
                end
        | _ => ret true
        end ;;
  if negb ok then ret None
  else
    c <- gets co_get ;;
    match mc_free c with
    | [] => ret None
    | h :: rest => upd (fun c => c <| mc_free := rest |>) ;;; ret (Some h)
    end.

Definition util_mr_entry_free (h : Z) : M S unit :=
  upd (fun c => c <| mc_free ::= cons h |>).

(** The entry is in no tree, as C asserts. *)
Definition util_mr_free_entry (h : Z) : M S unit :=
  e <- entry_of h ;;
  if negb (me_node e =? NULL) then ub
  else co_delete_region h ;;; util_mr_entry_free h.

Definition util_mr_uncache_entry_storage (h : Z) : M S unit :=
  e <- entry_of h ;;
  on_tree (ofi_rbmap_delete (me_node e)) ;;;
  set_entry h (fun e => e <| me_node := NULL |>) ;;;
  co_mon_unsubscribe (me_iov e) ;;;
  upd (fun c => c <| mc_cached_cnt ::= fun n => u64 (n - 1) |>
                  <| mc_cached_size ::= fun n => u64 (n - iov_len (me_iov e)) |>).

Definition util_mr_uncache_entry (h : Z) : M S unit :=
  util_mr_uncache_entry_storage h ;;;
  e <- entry_of h ;;
  if me_use_cnt e =? 0 then
    upd (fun c => c <| mc_lru_list ::= dlist_remove h |>
                    <| mc_dead_region_list ::= fun l => l ++ [h] |>)
  else
    upd (fun c => c <| mc_uncached_cnt ::= fun n => u64 (n + 1) |>
                    <| mc_uncached_size ::= fun n => u64 (n + iov_len (me_iov e)) |>).

(** *** Lookups in the tree *)

Definition tree_cmp (cmp : iovec -> iovec -> comparison) (key : iovec) (c : ofi_mr_cache)
    (h : Z) : comparison :=
  match mc_entries c !! h with Some e => cmp key (me_iov e) | None => Gt end.

(** The data of the node a search returns. *)
Definition rbt_data (node_ : Z) : M S (option Z) :=
  if node_ =? NULL then ret None
  else n <- on_tree (node node_) ;; ret (Some (rb_data n)).

Definition ofi_mr_rbt_find (key : iovec) : M S (option Z) :=
  c <- gets co_get ;;
  node_ <- on_tree (ofi_rbmap_search (tree_cmp util_mr_find_within key c)) ;;
  rbt_data node_.

Definition ofi_mr_rbt_overlap (key : iovec) : M S (option Z) :=
  c <- gets co_get ;;
  node_ <- on_tree (ofi_rbmap_search (tree_cmp util_mr_find_overlap key c)) ;;
  rbt_data node_.

(** *** Invalidation *)

Fixpoint notify_loop (fuel : nat) (iov : iovec) : M S unit :=
  entry <- ofi_mr_rbt_overlap iov ;;
  match entry, fuel with
  | None, _ => ret tt
  | Some h, Datatypes.S fuel' => util_mr_uncache_entry h ;;; notify_loop fuel' iov
  | Some _, O => ub
  end.

(** One entry leaves the tree per round. *)
Definition ofi_mr_cache_notify (addr len : Z) : M S unit :=
  upd (fun c => c <| mc_notify_cnt ::= fun n => u64 (n + 1) |>) ;;;
  c <- gets co_get ;;
  notify_loop (length (tree_of c)) (mkIov addr len).

(** The [while (flush_lru && !dlist_empty(lru_list))] loop: the entries
    moved to the local free list, in order. *)
Fixpoint flush_lru_loop (lru : list Z) (flush : bool) (free_list : list Z) : M S (list Z) :=
  match lru with
  | h :: lru' =>
      if flush then
        upd (fun c => c <| mc_lru_list := lru' |>) ;;;
        util_mr_uncache_entry_storage h ;;;
        c <- gets co_get ;;
        flush_lru_loop lru' (ofi_mr_cache_full c) (free_list ++ [h])
      else ret free_list
  | [] => ret free_list
  end.

Fixpoint free_entries (l : list Z) : M S unit :=
  match l with
  | [] => ret tt
  | h :: l' => util_mr_free_entry h ;;; free_entries l'
  end.

Definition ofi_mr_cache_flush (flush_lru : bool) : M S bool :=
  c <- gets co_get ;;
  upd (fun c => c <| mc_dead_region_list := [] |>) ;;;
  free_list <- flush_lru_loop (mc_lru_list c) flush_lru (mc_dead_region_list c) ;;
  free_entries free_list ;;;
  ret (negb (length free_list =? 0)%nat).

(** *** Release, creation, search *)

Definition ofi_mr_cache_delete (h : Z) : M S unit :=
  upd (fun c => c <| mc_delete_cnt ::= fun n => u64 (n + 1) |>) ;;;
  set_entry h (fun e => e <| me_use_cnt ::= fun n => n - 1 |>) ;;;
  e <- entry_of h ;;
  if me_use_cnt e =? 0 then
    if me_node e =? NULL then
      upd (fun c => c <| mc_uncached_cnt ::= fun n => u64 (n - 1) |>
                      <| mc_uncached_size ::= fun n => u64 (n - iov_len (me_iov e)) |>) ;;;
      util_mr_free_entry h
    else upd (fun c => c <| mc_lru_list ::= fun l => l ++ [h] |>)
  else ret tt.

(** [ofi_rbnode_alloc] on the tree of the cache. *)
Definition cache_rbnode_alloc : M S Z :=
  c <- gets co_get ;;
  mem <- (if rm_free_list (mc_tree c) =? NULL
          then r <- co_alloc 40 ;; ret (match r with Some _ => true | None => false end)
          else ret true) ;;
  on_tree (ofi_rbnode_alloc mem).

(** The part of [util_mr_cache_create] that adds the entry to the tree; with a
    node at hand the insertion does not ask for memory. *)
Definition create_insert (info : iovec) (h rbnode : Z) : M S (Z * Z) :=
  c <- gets co_get ;;
  rn <- on_tree (ofi_rbmap_insert_at (tree_cmp util_mr_find_within info c) h rbnode true) ;;
  (match rn.2 with Some a => set_entry h (fun e => e <| me_node := a |>) | None => ret tt end) ;;;
  if negb (rn.1 =? 0) then
    on_tree (ofi_rbnode_free rbnode) ;;; util_mr_free_entry h ;;; ret (rn.1, h)
  else
    upd (fun c => c <| mc_cached_cnt ::= fun n => u64 (n + 1) |>
                    <| mc_cached_size ::= fun n => u64 (n + iov_len info) |>) ;;;
    s <- co_mon_subscribe info ;;
    (if negb (s =? 0) then
       util_mr_uncache_entry_storage h ;;;
       upd (fun c => c <| mc_uncached_cnt ::= fun n => u64 (n + 1) |>
                       <| mc_uncached_size ::= fun n => u64 (n + iov_len info) |>)
     else ret tt) ;;;
    ret (0, h).

(** [util_mr_cache_create] once the region is registered. *)
Definition create_cached (info : iovec) (h : Z) : M S (Z * Z) :=
  rbnode <- cache_rbnode_alloc ;;
  if rbnode =? NULL then util_mr_free_entry h ;;; ret (- FI_ENOMEM, h)
  else
    cur <- ofi_mr_rbt_find info ;;
    match cur with
    | Some _ => on_tree (ofi_rbnode_free rbnode) ;;; util_mr_free_entry h ;;; ret (- FI_EAGAIN, h)
    | None =>
        c <- gets co_get ;;
        if ofi_mr_cache_full c then
          upd (fun c => c <| mc_uncached_cnt ::= fun n => u64 (n + 1) |>
                          <| mc_uncached_size ::= fun n => u64 (n + iov_len info) |>) ;;;
          on_tree (ofi_rbnode_free rbnode) ;;; ret (0, h)
        else create_insert info h rbnode
    end.

Definition util_mr_cache_create (info : iovec) : M S (Z * Z) :=
  entry <- util_mr_entry_alloc ;;
  match entry with
  | None => ret (- FI_ENOMEM, 0)
  | Some h =>
      set_entry h (fun e => e <| me_node := NULL |> <| me_iov := info |> <| me_use_cnt := 1 |>) ;;;
      r <- co_add_region h ;;
      if negb (r =? 0) then util_mr_free_entry h ;;; ret (r, h)
      else create_cached info h
  end.

(** The [while ( *entry )] purge of the regions that overlap a new one. *)
Fixpoint purge_loop (fuel : nat) (info : iovec) (entry : option Z) : M S unit :=
  match entry, fuel with
  | None, _ => ret tt
  | Some h, Datatypes.S fuel' =>
      util_mr_uncache_entry h ;;; next <- ofi_mr_rbt_find info ;; purge_loop fuel' info next
  | Some _, O => ub
  end.

(** A cached entry that encloses the request and whose mapping still holds. *)
Definition is_hit (info : iovec) (entry : option Z) (s : S) : bool :=
  match entry with
  | Some h =>
      match mc_entries (co_get s) !! h with
      | Some e => ofi_iov_within info (me_iov e) && co_mon_valid info (me_iov e) s
      | None => false
      end
  | None => false
  end.

(** The retry loop of [ofi_mr_cache_search]; a round that fails frees an
    entry, was asked by the callback to try again, or is the last one. *)
Fixpoint search_loop (fuel : nat) (info : iovec) : M S (Z * Z) :=
  c <- gets co_get ;;
  let flush_lru := ofi_mr_cache_full c in
  (if flush_lru || negb (length (mc_dead_region_list c) =? 0)%nat
   then ofi_mr_cache_flush flush_lru ;;; ret tt else ret tt) ;;;
  upd (fun c => c <| mc_search_cnt ::= fun n => u64 (n + 1) |>) ;;;
  entry <- ofi_mr_rbt_find info ;;
  hit <- gets (is_hit info entry) ;;
  match hit, entry with
  | true, Some h =>
      upd (fun c => c <| mc_hit_cnt ::= fun n => u64 (n + 1) |>) ;;;
      e <- entry_of h ;;
      set_entry h (fun e => e <| me_use_cnt ::= Z.add 1 |>) ;;;
      (if me_use_cnt e =? 0 then upd (fun c => c <| mc_lru_list ::= dlist_remove h |>) else ret tt) ;;;
      ret (0, h)
  | _, _ =>
      c <- gets co_get ;;
      purge_loop (length (tree_of c)) info entry ;;;
      rh <- util_mr_cache_create info ;;
      let '(r, h) := rh in
      again <- (if negb (r =? 0) && negb (r =? - FI_EAGAIN)
                then freed <- ofi_mr_cache_flush true ;; ret freed
                else ret (r =? - FI_EAGAIN)) ;;
      if again then
        match fuel with Datatypes.S fuel' => search_loop fuel' info | O => ub end
      else ret (r, h)
  end.

Definition ofi_mr_cache_search (info : iovec) : M S (Z * Z) :=
  c <- gets co_get ;;
  if negb (mc_monitor c) then ret (- FI_ENOSYS, 0)
  else
    p <- gets co_patience ;;
    search_loop (length (tree_of c) + length (mc_dead_region_list c) + 2 + p) info.

(** [ofi_mr_cache_cleanup]: flush until nothing is left, then release the
    tree and the pool of entries.  The assertions at its end, that nothing is
    cached or in use any more, are left to the theorems: a build without
    assertions goes on when an entry is still in use. *)
Fixpoint cleanup_loop (fuel : nat) : M S unit :=
  freed <- ofi_mr_cache_flush true ;;
  if freed then match fuel with Datatypes.S fuel' => cleanup_loop fuel' | O => ub end
  else ret tt.

Definition ofi_mr_cache_cleanup : M S unit :=
  c <- gets co_get ;;
  cleanup_loop (length (mc_lru_list c) + length (mc_dead_region_list c) + 1) ;;;
  on_tree ofi_rbmap_cleanup ;;;
  upd (fun c => c <| mc_entries := ∅ |> <| mc_free := [] |> <| mc_pool_cnt := 0 |>).
End Operations.
