(* ===== verification/MrCacheInv.v ===== *)
(** * Correctness of the registration cache

    The cache invariant (who is in the tree, on the LRU list, dead, free or
    held, with exact use counts; no cached region inside another), the laws
    the owner of a cache must satisfy, and the proofs that every cache
    operation preserves the invariant, terminates, and hands out an entry
    that covers the requested buffer. *)

From stdpp Require Import sorting.
From S2P Require Import Prelude Iov Wire Config Kernel Rbt RbtInsert RbtSpec MrCache.

(** ** Lists of handles *)

(** How many times [h] is held. *)
Definition cnt (h : Z) (l : list Z) : Z := Z.of_nat (length (filter (fun x => x = h) l)).

Lemma cnt_nil h : cnt h [] = 0.
Proof. done. Qed.

Lemma cnt_cons h x l : cnt h (x :: l) = cnt h l + (if decide (x = h) then 1 else 0).
Proof. unfold cnt. rewrite filter_cons. destruct (decide (x = h)); cbn; lia. Qed.

Lemma cnt_app h l1 l2 : cnt h (l1 ++ l2) = cnt h l1 + cnt h l2.
Proof. unfold cnt. rewrite filter_app, length_app. lia. Qed.

Lemma cnt_nonneg h l : 0 <= cnt h l.
Proof. unfold cnt. lia. Qed.

Lemma cnt_zero h l : cnt h l = 0 <-> h ∉ l.
Proof.
  induction l as [|x l IH]; [split; [intros _; apply not_elem_of_nil|done]|].
  rewrite cnt_cons, not_elem_of_cons, <- IH. pose proof (cnt_nonneg h l).
  destruct (decide (x = h)) as [->|]; split; intros; try lia; destruct_and?; try done; try lia.
Qed.

Lemma cnt_pos h l : 0 < cnt h l <-> h ∈ l.
Proof.
  pose proof (cnt_zero h l). pose proof (cnt_nonneg h l). destruct (decide (h ∈ l)); split; intros; try done; try lia.
  - assert (cnt h l <> 0) by tauto. lia.
  - assert (cnt h l = 0) by tauto. lia.
Qed.

#[export] Instance cnt_perm h : Proper ((≡ₚ) ==> eq) (cnt h).
Proof. intros l1 l2 Hl. unfold cnt. by rewrite Hl. Qed.

Lemma elem_of_dlist_remove x h l : x ∈ dlist_remove h l <-> x <> h /\ x ∈ l.
Proof. unfold dlist_remove. by rewrite list_elem_of_filter. Qed.

Lemma dlist_remove_NoDup h l : NoDup l -> NoDup (dlist_remove h l).
Proof. apply NoDup_filter. Qed.

Lemma dlist_remove_notin h l : h ∉ l -> dlist_remove h l = l.
Proof.
  induction l as [|x l IH]; [done|]. intros [Hx Hl]%not_elem_of_cons.
  unfold dlist_remove in *. rewrite filter_cons, decide_True by done. by rewrite IH.
Qed.

Lemma dlist_remove_length h l : NoDup l -> h ∈ l -> length l = S (length (dlist_remove h l)).
Proof.
  induction l as [|x l IH]; [by intros _ ?%elem_of_nil|]. intros [Hx Hn]%NoDup_cons [->|Hl]%elem_of_cons.
  - unfold dlist_remove. rewrite filter_cons, decide_False by tauto.
    fold (dlist_remove x l). by rewrite dlist_remove_notin.
  - unfold dlist_remove. rewrite filter_cons. destruct (decide (x <> h)) as [_|Hxh].
    + cbn. f_equal. apply (IH Hn Hl).
    + exfalso. apply Hx. destruct (Z.eq_dec x h); [by subst|tauto].
Qed.

Lemma dlist_remove_sum {f : Z -> Z} h l : NoDup l -> h ∈ l -> sumZ (f <$> dlist_remove h l) = sumZ (f <$> l) - f h.
Proof.
  unfold sumZ. induction l as [|x l IH]; [by intros _ ?%elem_of_nil|].
  intros [Hx Hn]%NoDup_cons [->|Hl]%elem_of_cons.
  - unfold dlist_remove. rewrite filter_cons, decide_False by tauto.
    fold (dlist_remove x l). rewrite dlist_remove_notin by done. cbn. lia.
  - unfold dlist_remove. rewrite filter_cons. destruct (decide (x <> h)) as [_|Hxh].
    + cbn. fold (dlist_remove h l). rewrite IH by done. lia.
    + exfalso. apply Hx. destruct (Z.eq_dec x h); [by subst|tauto].
Qed.

(** ** Interval order *)

Definition iov_lt (a b : iovec) : Prop := ofi_iov_shifted_left a b = true.

Lemma iov_lt_spec a b : iov_lt a b <-> iov_base a < iov_base b /\ ofi_iov_end a < ofi_iov_end b.
Proof. unfold iov_lt, ofi_iov_shifted_left. rewrite andb_true_iff, !Z.ltb_lt. done. Qed.

#[export] Instance iov_lt_trans : Transitive iov_lt.
Proof. intros a b c. rewrite !iov_lt_spec. lia. Qed.

Lemma find_within_Lt a b : util_mr_find_within a b = Lt <-> iov_lt a b.
Proof.
  unfold util_mr_find_within, iov_lt. destruct (ofi_iov_shifted_left a b); [done|].
  by destruct (ofi_iov_shifted_right a b).
Qed.

Lemma find_within_Gt a b : util_mr_find_within a b = Gt <-> iov_lt b a.
Proof.
  unfold util_mr_find_within. rewrite iov_lt_spec.
  destruct (ofi_iov_shifted_left a b) eqn:E.
  - split; [done|]. apply iov_lt_spec in E. lia.
  - unfold ofi_iov_shifted_right. destruct (_ && _) eqn:E2.
    + split; [|done]. lia.
    + split; [done|]. lia.
Qed.

(** Neither region is shifted: one lies within the other. *)
Lemma find_within_Eq a b : util_mr_find_within a b = Eq <->
  ofi_iov_within a b = true \/ ofi_iov_within b a = true.
Proof.
  pose proof (find_within_Lt a b) as HL. pose proof (find_within_Gt a b) as HG.
  rewrite iov_lt_spec in HL, HG. unfold ofi_iov_within.
  destruct (util_mr_find_within a b); split; intros; try done; try lia.
  - destruct (decide (iov_base a >= iov_base b /\ ofi_iov_end a <= ofi_iov_end b)); [left; lia|right].
    assert (~ (iov_base a < iov_base b /\ ofi_iov_end a < ofi_iov_end b)) by (intros ?; by apply HL in H0).
    assert (~ (iov_base b < iov_base a /\ ofi_iov_end b < ofi_iov_end a)) by (intros ?; by apply HG in H1). lia.
  - destruct HL as [HL _]. specialize (HL eq_refl). lia.
  - destruct HG as [HG _]. specialize (HG eq_refl). lia.
Qed.

(** ** The invariant *)

Definition iov_of (c : ofi_mr_cache) (h : Z) : iovec :=
  match mc_entries c !! h with Some e => me_iov e | None => mkIov 0 0 end.

(** An entry outside the tree. *)
Definition unlinked (c : ofi_mr_cache) (h : Z) : Prop := exists e, mc_entries c !! h = Some e /\ me_node e = NULL.

(** The pointer structure is a red-black tree, with no node astray. *)
Definition tree_ok (t : ofi_rbmap) : Prop := exists fl, rbmap_ok t (rb_list t) fl [].

(** [cache_ok c held]: [held] lists the entries callers hold, with
    repetitions.  Entries on no list are in the hands of an operation. *)
Record cache_ok (c : ofi_mr_cache) (held : list Z) : Prop := {
  ck_rb : tree_ok (mc_tree c);
  ck_nodup_tree : NoDup (tree_of c);
  ck_nodup_lru : NoDup (mc_lru_list c);
  ck_nodup_dead : NoDup (mc_dead_region_list c);
  ck_nodup_free : NoDup (mc_free c);
  ck_tree : forall h, h ∈ tree_of c -> exists e,
    mc_entries c !! h = Some e /\ (me_node e, h) ∈ rb_list (mc_tree c) /\ me_use_cnt e = cnt h held;
  ck_lru : forall h, h ∈ mc_lru_list c <-> h ∈ tree_of c /\ (h ∉ held);
  ck_dead : forall h, h ∈ mc_dead_region_list c ->
    unlinked c h /\ (h ∉ tree_of c) /\ (h ∉ held);
  ck_held : forall h, h ∈ held -> h ∉ tree_of c -> exists e,
    mc_entries c !! h = Some e /\ me_node e = NULL /\ me_use_cnt e = cnt h held;
  ck_free : forall h, h ∈ mc_free c ->
    unlinked c h /\ (h ∉ tree_of c) /\ (h ∉ mc_dead_region_list c) /\ (h ∉ held);
  ck_pool : 0 <= mc_pool_cnt c /\ forall h, is_Some (mc_entries c !! h) <-> 0 <= h < mc_pool_cnt c;
  ck_cnt : mc_cached_cnt c = u64 (Z.of_nat (length (tree_of c)));
  ck_size : mc_cached_size c = u64 (sumZ ((fun h => iov_len (iov_of c h)) <$> tree_of c));
  ck_sorted : StronglySorted (fun a b => iov_lt (iov_of c a) (iov_of c b)) (tree_of c)
}.

#[export] Instance cache_ok_perm c : Proper ((≡ₚ) ==> iff) (cache_ok c).
Proof.
  assert (H : forall l1 l2, l1 ≡ₚ l2 -> cache_ok c l1 -> cache_ok c l2).
  { intros l1 l2 Hp [H0 H1 H2 H3 H4 H5 H6 H7 H8 H9 H10 H11 H12 H13].
    split; try done.
    - intros h Hh. destruct (H5 h Hh) as (e & ? & ? & ?). exists e. by rewrite <- Hp.
    - intros h. by rewrite H6, Hp.
    - intros h Hh. rewrite <- Hp. by apply H7.
    - intros h Hh Ht. rewrite <- Hp in Hh. destruct (H8 h Hh Ht) as (e & ? & ? & ?). exists e. by rewrite <- Hp.
    - intros h Hh. rewrite <- Hp. by apply H9. }
  intros l1 l2 Hp. split; apply H; done.
Qed.

(** Updates that touch neither the lists nor the entries keep the invariant. *)
Lemma cache_ok_counters c c' held :
  mc_tree c' = mc_tree c -> mc_lru_list c' = mc_lru_list c ->
  mc_dead_region_list c' = mc_dead_region_list c -> mc_free c' = mc_free c ->
  mc_entries c' = mc_entries c -> mc_pool_cnt c' = mc_pool_cnt c ->
  mc_cached_cnt c' = mc_cached_cnt c -> mc_cached_size c' = mc_cached_size c ->
  cache_ok c held -> cache_ok c' held.
Proof.
  intros E1 E2 E3 E4 E5 E6 E7 E8 [H0 H1 H2 H3 H4 H5 H6 H7 H8 H9 H10 H11 H12 H13].
  split; unfold tree_of, unlinked, iov_of in *; rewrite ?E1, ?E2, ?E3, ?E4, ?E5, ?E6, ?E7, ?E8; done.
Qed.

(** The invariant reads the entries' regions only through [iov_of]. *)
Lemma sorted_iov_ext c c' (l : list Z) :
  (forall h, h ∈ l -> iov_of c' h = iov_of c h) ->
  StronglySorted (fun a b => iov_lt (iov_of c a) (iov_of c b)) l ->
  StronglySorted (fun a b => iov_lt (iov_of c' a) (iov_of c' b)) l.
Proof.
  induction l as [|x l IH]; intros Hf Hs; [constructor|].
  apply StronglySorted_inv in Hs as [Hs Hx]. constructor.
  - apply IH; [|done]. intros h Hh. apply Hf. by apply list_elem_of_further.
  - rewrite Forall_forall in Hx |- *. intros y Hy.
    rewrite (Hf x (list_elem_of_here _ _)), (Hf y (list_elem_of_further _ _ _ Hy)). by apply Hx.
Qed.

Lemma sum_iov_ext c c' (l : list Z) :
  (forall h, h ∈ l -> iov_of c' h = iov_of c h) ->
  (fun h => iov_len (iov_of c' h)) <$> l = (fun h => iov_len (iov_of c h)) <$> l.
Proof. intros H. apply list_fmap_ext. intros i x Hx. cbn. rewrite H; [done|]. by eapply list_elem_of_lookup_2. Qed.

Lemma sorted_sublist {A} (R : A -> A -> Prop) (P : A -> Prop) `{!forall x, Decision (P x)} l :
  StronglySorted R l -> StronglySorted R (filter P l).
Proof.
  induction 1 as [|x l Hs IH Hx]; [constructor|]. rewrite filter_cons. destruct (decide (P x)); [|done].
  constructor; [done|]. rewrite Forall_forall in Hx |- *. intros y [_ Hy]%list_elem_of_filter. by apply Hx.
Qed.

(** ** What the owner promises *)

(** No more retries are due than before. *)
Definition calmer {S : Type} `{!CacheOwner S} (s s' : S) : Prop := (co_patience s' <= co_patience s)%nat.

Class CacheLaws (S : Type) `{!CacheOwner S} (ok : S -> Prop) := {
  cl_get_upd : forall f s, co_get (co_upd f s) = f (co_get s);
  cl_upd_ok : forall f s, ok s -> ok (co_upd f s);
  cl_upd_patience : forall f s, co_patience (co_upd f s) = co_patience s;
  (** [add_region] fills the payload of the entry; when it asks for a retry,
      the patience of the owner has gone down. *)
  cl_add : forall h s, ok s -> is_Some (mc_entries (co_get s) !! h) ->
    wp (co_add_region h) (fun r s' => ok s' /\ calmer s s' /\ (r = - FI_EAGAIN -> (co_patience s' < co_patience s)%nat) /\ exists d,
      co_get s' = (co_get s) <| mc_entries ::= alter (fun e => e <| me_data := d |>) h |>) s;
  cl_delete : forall h s, ok s -> is_Some (mc_entries (co_get s) !! h) ->
    wp (co_delete_region h) (fun _ s' => ok s' /\ calmer s s' /\ co_get s' = co_get s) s;
  cl_alloc : forall n s, ok s -> wp (co_alloc n) (fun _ s' => ok s' /\ calmer s s' /\ co_get s' = co_get s) s;
  cl_sub : forall v s, ok s -> wp (co_mon_subscribe v) (fun _ s' => ok s' /\ calmer s s' /\ co_get s' = co_get s) s;
  cl_unsub : forall v s, ok s -> wp (co_mon_unsubscribe v) (fun _ s' => ok s' /\ calmer s s' /\ co_get s' = co_get s) s
}.

(** The states that need no more than [n] further retries: the laws hold for
    them too, so whatever is proved of the owner's states from the laws holds
    of these. *)
Definition within {S : Type} `{!CacheOwner S} (ok : S -> Prop) (n : nat) (s : S) : Prop := ok s /\ (co_patience s <= n)%nat.

#[export] Instance within_laws {S : Type} `{!CacheOwner S} (ok : S -> Prop) `{!CacheLaws S ok} n : CacheLaws S (within ok n).
Proof.
  split; unfold within, calmer.
  - apply cl_get_upd.
  - intros f s [Hok Hn]. split; [by apply cl_upd_ok|]. by rewrite cl_upd_patience.
  - apply cl_upd_patience.
  - intros h s [Hok Hn] He. eapply wp_mono; [by apply cl_add|]. cbn beta. intros r s' (? & Hc & ? & ?). unfold calmer in Hc. split_and!; auto; lia.
  - intros h s [Hok Hn] He. eapply wp_mono; [by apply cl_delete|]. cbn beta. intros r s' (? & Hc & ?). unfold calmer in Hc. split_and!; auto; lia.
  - intros m s [Hok Hn]. eapply wp_mono; [by apply cl_alloc|]. cbn beta. intros r s' (? & Hc & ?). unfold calmer in Hc. split_and!; auto; lia.
  - intros v s [Hok Hn]. eapply wp_mono; [by apply cl_sub|]. cbn beta. intros r s' (? & Hc & ?). unfold calmer in Hc. split_and!; auto; lia.
  - intros v s [Hok Hn]. eapply wp_mono; [by apply cl_unsub|]. cbn beta. intros r s' (? & Hc & ?). unfold calmer in Hc. split_and!; auto; lia.
Qed.

Ltac mc_simpl :=
  unfold tree_of in *;
  cbn [set_field mc_monitor mc_tree mc_lru_list mc_dead_region_list mc_cached_cnt
       mc_cached_size mc_cached_max_cnt mc_cached_max_size mc_uncached_cnt mc_uncached_size
       mc_search_cnt mc_delete_cnt mc_hit_cnt mc_notify_cnt mc_entries mc_free mc_pool_cnt
       me_iov me_node me_use_cnt me_data] in *.

(** ** Pure effects of the tree operations *)

(** The region of an entry survives updates of its other fields. *)
Lemma iov_of_alter f h c x :
  (forall e, me_iov (f e) = me_iov e) ->
  iov_of (c <| mc_entries ::= alter f h |>) x = iov_of c x.
Proof.
  intros Hf. unfold iov_of. mc_simpl. destruct (decide (x = h)) as [->|].
  - rewrite lookup_alter_eq. by destruct (mc_entries c !! h) as [e|]; cbn; rewrite ?Hf.
  - by rewrite lookup_alter_ne.
Qed.

(** What [util_mr_uncache_entry_storage] does to the cache, [t] being the
    tree after the deletion. *)
Definition storage_fn (h : Z) (v : iovec) (t : ofi_rbmap) (c : ofi_mr_cache) : ofi_mr_cache :=
  c <| mc_tree := t |>
    <| mc_entries ::= alter (fun e => e <| me_node := NULL |>) h |>
    <| mc_cached_cnt ::= fun n => u64 (n - 1) |>
    <| mc_cached_size ::= fun n => u64 (n - iov_len v) |>.

(** [t] is the tree of [c] without [h]. *)
Definition unlinks (c : ofi_mr_cache) (h : Z) (t : ofi_rbmap) : Prop :=
  tree_ok t /\ rb_list t = filter (fun x => x.2 <> h) (rb_list (mc_tree c)).

Lemma filter_snd h (l : list (Z * Z)) : (filter (fun x => x.2 <> h) l).*2 = dlist_remove h l.*2.
Proof.
  induction l as [|[a d] l IH]; [done|]. unfold dlist_remove in *. rewrite fmap_cons, !filter_cons. cbn [snd].
  destruct (decide (d <> h)); cbn; by rewrite IH.
Qed.

Lemma unlinks_tree c h t : unlinks c h t -> (rb_list t).*2 = dlist_remove h (tree_of c).
Proof. intros [_ ->]. apply filter_snd. Qed.

Lemma u64_sub_idemp a b : u64 (u64 a - b) = u64 (a - b).
Proof. unfold u64. by rewrite Zminus_mod_idemp_l. Qed.
Lemma u64_add_idemp a b : u64 (u64 a + b) = u64 (a + b).
Proof. unfold u64. by rewrite Zplus_mod_idemp_l. Qed.

Lemma storage_ok c held h e t :
  cache_ok c held -> h ∈ tree_of c -> mc_entries c !! h = Some e -> unlinks c h t ->
  cache_ok (storage_fn h (me_iov e) t c <| mc_lru_list ::= dlist_remove h |>) held.
Proof.
  intros [H0 H1 H2 H3 H4 H5 H6 H7 H8 H9 H10 H11 H12 H13] Ht He Hun. pose proof (unlinks_tree _ _ _ Hun) as Hlt. destruct Hun as [Hok Hli].
  assert (Hio : forall x, iov_of (storage_fn h (me_iov e) t c <| mc_lru_list ::= dlist_remove h |>) x = iov_of c x).
  { intros x. unfold storage_fn. rewrite <- (iov_of_alter (fun e => e <| me_node := NULL |>) h c x); done. }
  assert (Hen : forall x, is_Some (alter (fun e => e <| me_node := NULL |>) h (mc_entries c) !! x)
                 <-> is_Some (mc_entries c !! x)) by (intros; apply lookup_alter_is_Some).
  assert (Hul : forall x, unlinked c x -> exists e, alter (fun e => e <| me_node := NULL |>) h (mc_entries c) !! x = Some e /\ me_node e = NULL).
  { intros x (ex & Hx & Hn). destruct (decide (x = h)) as [->|Hne]; [rewrite lookup_alter_eq, Hx; by eexists|rewrite lookup_alter_ne by done; eauto]. }
  split; unfold storage_fn, unlinked in *; mc_simpl; rewrite ?Hlt; auto using dlist_remove_NoDup.
  - intros x [Hx Hxt]%elem_of_dlist_remove. rewrite lookup_alter_ne by done. destruct (H5 x Hxt) as (ex & ? & ? & ?).
    exists ex. split_and!; try done. rewrite Hli. by apply list_elem_of_filter.
  - intros x. rewrite !elem_of_dlist_remove, H6. tauto.
  - intros x Hx. destruct (H7 x Hx) as (? & ? & ?). rewrite elem_of_dlist_remove. split_and!; [by apply Hul|tauto|done].
  - intros x Hx Hxt. destruct (decide (x = h)) as [->|Hne].
    + destruct (H5 h Ht) as (e' & He' & _ & Hu). simplify_eq.
      rewrite lookup_alter_eq, He. eexists. split_and!; [done..|]. exact Hu.
    + rewrite lookup_alter_ne by done. apply H8; [done|]. intros ?. apply Hxt. by apply elem_of_dlist_remove.
  - intros x Hx. destruct (H9 x Hx) as (? & ? & ? & ?). rewrite elem_of_dlist_remove. split_and!; [by apply Hul|tauto|done|done].
  - split; [apply (proj1 H10)|]. intros x. rewrite Hen. apply (proj2 H10).
  - rewrite H11, u64_sub_idemp. erewrite (dlist_remove_length h (rb_list (mc_tree c)).*2) by done. f_equal. lia.
  - erewrite (sum_iov_ext c) by (intros; apply Hio).
    rewrite H12, u64_sub_idemp, (dlist_remove_sum h) by done. do 2 f_equal. unfold iov_of. by rewrite He.
  - eapply sorted_iov_ext; [intros; apply Hio|]. by apply sorted_sublist.
Qed.

(** An entry on no list may be declared dead or returned to the pool. *)
Definition loose (c : ofi_mr_cache) (held : list Z) (h : Z) : Prop :=
  unlinked c h /\ (h ∉ tree_of c) /\ (h ∉ mc_dead_region_list c) /\
  (h ∉ mc_free c) /\ (h ∉ held).

Lemma dead_ok c held h :
  cache_ok c held -> loose c held h ->
  cache_ok (c <| mc_dead_region_list ::= fun l => l ++ [h] |>) held.
Proof.
  intros [H0 H1 H2 H3 H4 H5 H6 H7 H8 H9 H10 H11 H12 H13] (Hs & Ht & Hd & Hf & Hh).
  split; mc_simpl; auto.
  - apply NoDup_app. split_and!; [done| |apply NoDup_singleton]. intros x Hx ->%list_elem_of_singleton. done.
  - intros x [Hx| ->%list_elem_of_singleton]%elem_of_app; [by apply H7|done].
  - intros x Hx. destruct (H9 x Hx) as (? & ? & ? & ?). split_and!; auto.
    rewrite not_elem_of_app, not_elem_of_cons. split_and!; auto; [by intros ->|apply not_elem_of_nil].
Qed.

Lemma free_ok c held h :
  cache_ok c held -> loose c held h -> cache_ok (c <| mc_free ::= cons h |>) held.
Proof.
  intros [H0 H1 H2 H3 H4 H5 H6 H7 H8 H9 H10 H11 H12 H13] (Hs & Ht & Hd & Hf & Hh).
  split; mc_simpl; auto.
  - by apply NoDup_cons.
  - intros x [->|Hx]%elem_of_cons; [by split_and!|by apply H9].
Qed.

(** Taking a free entry off the list leaves it loose. *)
Lemma unfree_ok c held h rest :
  cache_ok c held -> mc_free c = h :: rest ->
  cache_ok (c <| mc_free := rest |>) held /\ loose (c <| mc_free := rest |>) held h.
Proof.
  intros [H0 H1 H2 H3 H4 H5 H6 H7 H8 H9 H10 H11 H12 H13] Ef. rewrite Ef in *. apply NoDup_cons in H4 as [Hn H4].
  destruct (H9 h (list_elem_of_here _ _)) as (? & ? & ? & ?).
  split; [|unfold loose; mc_simpl; tauto].
  split; mc_simpl; auto. intros x Hx. apply H9. by apply list_elem_of_further.
Qed.

Lemma unlinked_alter_ne c h f x : x <> h -> unlinked c x -> unlinked (c <| mc_entries ::= alter f h |>) x.
Proof. intros Hx (e & He & Hn). exists e. mc_simpl. by rewrite lookup_alter_ne. Qed.

(** Changing a loose entry is invisible to the invariant. *)
Lemma loose_alter_ok c held h f :
  cache_ok c held -> loose c held h -> cache_ok (c <| mc_entries ::= alter f h |>) held.
Proof.
  intros [H0 H1 H2 H3 H4 H5 H6 H7 H8 H9 H10 H11 H12 H13] (Hs & Ht & Hd & Hf & Hh).
  assert (Hio : forall x, x ∈ tree_of c -> iov_of (c <| mc_entries ::= alter f h |>) x = iov_of c x).
  { intros x Hx. unfold iov_of. mc_simpl. rewrite lookup_alter_ne; [done|]. by intros ->. }
  assert (Hen : forall x, is_Some (alter f h (mc_entries c) !! x) <-> is_Some (mc_entries c !! x))
    by (intros; apply lookup_alter_is_Some).
  split; mc_simpl; auto.
  - intros x Hx. rewrite lookup_alter_ne by (by intros ->). by apply H5.
  - intros x Hx. destruct (H7 x Hx) as (? & ? & ?). split_and!; try done. apply unlinked_alter_ne; [by intros ->|done].
  - intros x Hx Hxt. rewrite lookup_alter_ne by (by intros ->). by apply H8.
  - intros x Hx. destruct (H9 x Hx) as (? & ? & ? & ?). split_and!; try done. apply unlinked_alter_ne; [by intros ->|done].
  - split; [apply (proj1 H10)|]. intros x. rewrite Hen. apply (proj2 H10).
  - by erewrite (sum_iov_ext c).
  - by eapply sorted_iov_ext.
Qed.

(** Handing a loose entry to a caller. *)
Lemma hold_ok c held h e :
  cache_ok c held -> loose c held h -> mc_entries c !! h = Some e ->
  me_node e = NULL -> me_use_cnt e = 1 -> cache_ok c (h :: held).
Proof.
  intros [H0 H1 H2 H3 H4 H5 H6 H7 H8 H9 H10 H11 H12 H13] (Hs & Ht & Hd & Hf & Hh) He Hn Hu.
  assert (Hc : forall x, x <> h -> cnt x (h :: held) = cnt x held).
  { intros x Hx. rewrite cnt_cons, decide_False by done. lia. }
  split; auto.
  - intros x Hx. rewrite Hc by (by intros ->). by apply H5.
  - intros x. rewrite H6, not_elem_of_cons. split; [|tauto]. intros [? ?]. split_and!; auto. by intros ->.
  - intros x Hx. rewrite not_elem_of_cons. destruct (H7 x Hx) as (? & ? & ?). split_and!; auto. by intros ->.
  - intros x Hx Hxt. destruct (decide (x = h)) as [->|].
    + exists e. rewrite cnt_cons, decide_True by done. rewrite (proj2 (cnt_zero h held) Hh). auto.
    + rewrite Hc by done. apply elem_of_cons in Hx as [|]; [done|]. by apply H8.
  - intros x Hx. rewrite not_elem_of_cons. destruct (H9 x Hx) as (? & ? & ? & ?). split_and!; auto. by intros ->.
Qed.

(** Changing the use count of a held or cached entry together with the list
    of holders. *)
Lemma rehold_ok c held held2 h f lru' :
  cache_ok c held -> (forall x, x <> h -> cnt x held2 = cnt x held) ->
  (h ∉ mc_dead_region_list c) -> (h ∉ mc_free c) ->
  (forall e, mc_entries c !! h = Some e ->
     me_iov (f e) = me_iov e /\ me_node (f e) = me_node e /\ me_use_cnt (f e) = cnt h held2) ->
  (h ∈ held2 -> h ∉ tree_of c -> h ∈ held) ->
  NoDup lru' ->
  (forall x, x ∈ lru' <-> if decide (x = h) then h ∈ tree_of c /\ (h ∉ held2) else x ∈ mc_lru_list c) ->
  cache_ok (c <| mc_entries ::= alter f h |> <| mc_lru_list := lru' |>) held2.
Proof.
  intros [H0 H1 H2 H3 H4 H5 H6 H7 H8 H9 H10 H11 H12 H13] Hc Hd Hf Hfe Hh Hnl Hl.
  assert (Hin : forall x, x <> h -> x ∈ held2 <-> x ∈ held).
  { intros x Hx. by rewrite <- !cnt_pos, Hc. }
  assert (Hio : forall x, iov_of (c <| mc_entries ::= alter f h |> <| mc_lru_list := lru' |>) x = iov_of c x).
  { intros x. unfold iov_of. mc_simpl. destruct (decide (x = h)) as [->|]; [|by rewrite lookup_alter_ne].
    rewrite lookup_alter_eq. destruct (mc_entries c !! h) as [e|] eqn:E; [|done]. cbn. by destruct (Hfe e). }
  assert (Hen : forall x, is_Some (alter f h (mc_entries c) !! x) <-> is_Some (mc_entries c !! x))
    by (intros; apply lookup_alter_is_Some).
  split; mc_simpl; auto.
  - intros x Hx. destruct (H5 x Hx) as (e & He & Hn & Hu). destruct (decide (x = h)) as [->|Hne].
    + rewrite lookup_alter_eq, He. destruct (Hfe e He) as (? & ? & ?). eexists. split_and!; [done|congruence|done].
    + rewrite lookup_alter_ne, Hc by done. eauto.
  - intros x. rewrite Hl. destruct (decide (x = h)) as [->|Hne]; [done|]. by rewrite H6, Hin.
  - intros x Hx. destruct (H7 x Hx) as (? & ? & ?). rewrite Hin by (by intros ->). split_and!; try done.
    apply (unlinked_alter_ne c h f x); [by intros ->|done].
  - intros x Hx Hxt. destruct (decide (x = h)) as [->|Hne].
    + destruct (H8 h (Hh Hx Hxt) Hxt) as (e & He & Hn & Hu). rewrite lookup_alter_eq, He.
      destruct (Hfe e He) as (? & ? & ?). eexists. split_and!; [done|congruence|done].
    + rewrite lookup_alter_ne, Hc by done. rewrite Hin in Hx by done. by apply H8.
  - intros x Hx. destruct (H9 x Hx) as (? & ? & ? & ?). rewrite Hin by (by intros ->). split_and!; try done.
    apply (unlinked_alter_ne c h f x); [by intros ->|done].
  - split; [apply (proj1 H10)|]. intros x. rewrite Hen. apply (proj2 H10).
  - by erewrite (sum_iov_ext c) by (intros; apply Hio).
  - eapply sorted_iov_ext; [intros; apply Hio|done].
Qed.

Lemma node_not_null c held a h : cache_ok c held -> (a, h) ∈ rb_list (mc_tree c) -> a <> NULL.
Proof.
  intros Hc Hin. destruct (ck_rb _ _ Hc) as [fl Hok]. assert (1 < a); [|unfold NULL; lia].
  eapply rbmap_ok_real; [exact Hok|]. apply elem_of_app. left. exact (list_elem_of_fmap_2 fst _ _ Hin).
Qed.

(** A held entry exists, counts its holders, and is neither dead nor free. *)
Lemma held_entry c held h :
  cache_ok c held -> h ∈ held -> exists e, mc_entries c !! h = Some e /\ me_use_cnt e = cnt h held /\
  (me_node e <> NULL <-> h ∈ tree_of c) /\ (h ∉ mc_dead_region_list c) /\ (h ∉ mc_free c).
Proof.
  intros Hc Hh.
  assert (Hd : h ∉ mc_dead_region_list c) by (intros Hd; by destruct (ck_dead _ _ Hc h Hd) as (_ & _ & ?)).
  assert (Hf : h ∉ mc_free c) by (intros Hf; by destruct (ck_free _ _ Hc h Hf) as (_ & _ & _ & ?)).
  destruct (decide (h ∈ tree_of c)) as [Ht|Ht].
  - destruct (ck_tree _ _ Hc h Ht) as (e & ? & Hn & ?). exists e. pose proof (node_not_null _ _ _ _ Hc Hn). split_and!; done.
  - destruct (ck_held _ _ Hc h Hh Ht) as (e & ? & Hn & ?). exists e. rewrite Hn. split_and!; done.
Qed.

(** Another tree with the same elements. *)
Lemma retree_ok c held t :
  cache_ok c held -> tree_ok t -> rb_list t = rb_list (mc_tree c) -> cache_ok (c <| mc_tree := t |>) held.
Proof.
  intros [H0 H1 H2 H3 H4 H5 H6 H7 H8 H9 H10 H11 H12 H13] Ht El. unfold tree_of, unlinked in *. split; unfold unlinked; mc_simpl; rewrite ?El; done.
Qed.

(** *** Growth of the entry pool *)

Lemma lookup_fresh_insert (l : list Z) (m : gmap Z ofi_mr_entry) h :
  foldr (fun h m => <[h := zero_entry]> m) m l !! h = if decide (h ∈ l) then Some zero_entry else m !! h.
Proof.
  induction l as [|x l IH]; cbn; [by rewrite decide_False by apply not_elem_of_nil|].
  destruct (decide (x = h)) as [->|].
  - rewrite lookup_insert_eq, decide_True; [done|]. apply list_elem_of_here.
  - rewrite lookup_insert_ne by done. rewrite IH. apply decide_ext. rewrite elem_of_cons. split; [auto|]. intros [|]; congruence.
Qed.

Lemma elem_of_seqZ_chunk m x : x ∈ seqZ m POOL_CHUNK <-> m <= x < m + POOL_CHUNK.
Proof. apply elem_of_seqZ. Qed.

Lemma pool_grow_ok c held : cache_ok c held -> cache_ok (pool_grow c) held.
Proof.
  intros [H0 H1 H2 H3 H4 H5 H6 H7 H8 H9 [Hp H10] H11 H12 H13].
  assert (Hold : forall x, is_Some (mc_entries c !! x) -> mc_entries (pool_grow c) !! x = mc_entries c !! x).
  { intros x Hx. unfold pool_grow. mc_simpl. rewrite lookup_fresh_insert, decide_False; [done|].
    rewrite elem_of_seqZ_chunk. apply H10 in Hx. lia. }
  assert (Hio : forall x, x ∈ tree_of c -> iov_of (pool_grow c) x = iov_of c x).
  { intros x Hx. unfold iov_of. destruct (H5 x Hx) as (e & He & _). rewrite Hold, He by eauto. done. }
  assert (Hen : forall x, is_Some (mc_entries c !! x) -> is_Some (mc_entries (pool_grow c) !! x))
    by (intros x Hx; by rewrite Hold).
  assert (Hfr : forall x, x ∈ seqZ (mc_pool_cnt c) POOL_CHUNK -> ~ is_Some (mc_entries c !! x)).
  { intros x Hx%elem_of_seqZ_chunk. rewrite H10. lia. }
  assert (Hul : forall x, unlinked c x -> unlinked (pool_grow c) x).
  { intros x (e & He & Hn). exists e. by rewrite Hold by eauto. }
  split; auto.
  - unfold pool_grow. mc_simpl. apply NoDup_app. split_and!; [done| |apply NoDup_seqZ].
    intros x Hx Hs. destruct (H9 x Hx) as [(? & ? & _) _]. eapply Hfr; eauto.
  - intros x Hx. destruct (H5 x Hx) as (e & He & ?). exists e. by rewrite Hold by eauto.
  - intros x Hx. destruct (H7 x Hx) as (? & ? & ?). auto.
  - intros x Hx Ht. destruct (H8 x Hx Ht) as (e & He & ?). exists e. by rewrite Hold by eauto.
  - intros x. unfold pool_grow at 1. mc_simpl. intros [Hx|Hx]%elem_of_app.
    + destruct (H9 x Hx) as (? & ? & ? & ?). auto.
    + pose proof (Hfr x Hx) as Hno. split_and!.
      * exists zero_entry. unfold pool_grow. mc_simpl. by rewrite lookup_fresh_insert, decide_True.
      * intros Ht. apply Hno. destruct (H5 x Ht) as (? & -> & _). eauto.
      * intros Ht. apply Hno. destruct (H7 x Ht) as [(? & ? & _) _]. eauto.
      * intros Ht. apply Hno. destruct (decide (x ∈ tree_of c)) as [Ht'|Ht'].
        -- destruct (H5 x Ht') as (? & -> & _). eauto.
        -- destruct (H8 x Ht Ht') as (? & -> & _). eauto.
  - unfold pool_grow. mc_simpl. split; [unfold POOL_CHUNK; lia|]. intros x.
    rewrite lookup_fresh_insert. specialize (H10 x). pose proof (elem_of_seqZ_chunk (mc_pool_cnt c) x) as Hse.
    unfold POOL_CHUNK in *. destruct (decide _) as [Hx|Hx].
    + apply Hse in Hx. split; [lia|eauto].
    + rewrite H10. split; [lia|]. intros ?. assert (~ (mc_pool_cnt c <= x < mc_pool_cnt c + 64)) by tauto. lia.
  - by rewrite (sum_iov_ext c).
  - by eapply sorted_iov_ext.
Qed.

(** *** Insertion into the tree *)

(** What the insertion of [h] does, [t] being the tree with its node [a]. *)
Definition insert_fn (h : Z) (info : iovec) (t : ofi_rbmap) (a : Z) (c : ofi_mr_cache) : ofi_mr_cache :=
  c <| mc_tree := t |>
    <| mc_entries ::= alter (fun e => e <| me_node := a |>) h |>
    <| mc_cached_cnt ::= fun n => u64 (n + 1) |>
    <| mc_cached_size ::= fun n => u64 (n + iov_len info) |>.

Lemma sumZ_perm (l1 l2 : list Z) : l1 ≡ₚ l2 -> sumZ l1 = sumZ l2.
Proof. unfold sumZ. induction 1; cbn; lia. Qed.

(** A place between the regions to its left and to its right. *)
Lemma insert_sorted (f : Z -> iovec) h l1 l2 :
  StronglySorted (fun a b => iov_lt (f a) (f b)) (l1 ++ l2) ->
  (forall x, x ∈ l1 -> iov_lt (f x) (f h)) -> (forall x, x ∈ l2 -> iov_lt (f h) (f x)) ->
  StronglySorted (fun a b => iov_lt (f a) (f b)) (l1 ++ h :: l2).
Proof.
  rewrite !sorted_app. intros (Hs1 & Hs2 & H12) Hl Hr. split_and!; [done| |].
  - constructor; [done|]. by apply Forall_forall.
  - intros x y Hx [-> |Hy]%elem_of_cons; auto.
Qed.

Lemma insert_ok c held h e t a l1 l2 :
  cache_ok c held -> h ∈ held -> (h ∉ tree_of c) -> mc_entries c !! h = Some e ->
  tree_ok t -> rb_list (mc_tree c) = l1 ++ l2 -> rb_list t = l1 ++ (a, h) :: l2 ->
  (forall x, x ∈ l1.*2 -> iov_lt (iov_of c x) (me_iov e)) -> (forall x, x ∈ l2.*2 -> iov_lt (me_iov e) (iov_of c x)) ->
  cache_ok (insert_fn h (me_iov e) t a c) held.
Proof.
  intros [H0 H1 H2 H3 H4 H5 H6 H7 H8 H9 H10 H11 H12 H13] Hh Ht He Hok El Et Hl Hr.
  assert (Hp : (rb_list t).*2 ≡ₚ h :: tree_of c) by (unfold tree_of; rewrite Et, El, !fmap_app, fmap_cons; cbn; solve_Permutation).
  assert (Hio : forall x, iov_of (insert_fn h (me_iov e) t a c) x = iov_of c x).
  { intros x. unfold insert_fn. rewrite <- (iov_of_alter (fun e => e <| me_node := a |>) h c x); done. }
  assert (Hen : forall x, is_Some (alter (fun e => e <| me_node := a |>) h (mc_entries c) !! x)
                 <-> is_Some (mc_entries c !! x)) by (intros; apply lookup_alter_is_Some).
  assert (Hiv : iov_of c h = me_iov e) by (unfold iov_of; by rewrite He).
  split; unfold insert_fn in *; mc_simpl; auto.
  - rewrite Hp. by apply NoDup_cons.
  - intros x. rewrite Hp. intros [->|Hx]%elem_of_cons.
    + destruct (H8 h Hh Ht) as (e' & He' & _ & Hu). rewrite lookup_alter_eq, He'. eexists. split_and!; [done| |exact Hu].
      cbn. rewrite Et. set_solver.
    + rewrite lookup_alter_ne by (by intros ->). destruct (H5 x Hx) as (ex & ? & Hin & ?). exists ex. split_and!; try done.
      rewrite Et. rewrite El in Hin. set_solver.
  - intros x. rewrite H6, Hp, elem_of_cons. split; [tauto|]. intros [[->|?] ?]; [done|tauto].
  - intros x Hx. destruct (H7 x Hx) as (? & ? & ?). rewrite Hp, not_elem_of_cons.
    split_and!; auto; [|by intros ->]. apply (unlinked_alter_ne c); [by intros ->|done].
  - intros x Hx. rewrite Hp, not_elem_of_cons. intros [Hxh Hxt]. rewrite lookup_alter_ne by done. by apply H8.
  - intros x Hx. destruct (H9 x Hx) as (? & ? & ? & ?). rewrite Hp, not_elem_of_cons.
    split_and!; auto; [|by intros ->]. apply (unlinked_alter_ne c); [by intros ->|done].
  - split; [apply (proj1 H10)|]. intros x. rewrite Hen. apply (proj2 H10).
  - rewrite H11, u64_add_idemp, Hp. cbn. f_equal. lia.
  - erewrite (sum_iov_ext c) by (intros; apply Hio). rewrite H12, u64_add_idemp. f_equal.
    erewrite (sumZ_perm (_ <$> (rb_list t).*2)) by (by rewrite Hp). cbn. rewrite Hiv. unfold sumZ. lia.
  - eapply sorted_iov_ext; [intros; apply Hio|]. rewrite Et, fmap_app, fmap_cons. cbn. rewrite El, fmap_app in H13.
    apply insert_sorted; [done|..]; rewrite Hiv; auto.
Qed.

(** ** Specifications of the operations *)

(** The registration an entry stands for. *)
Definition region (c : ofi_mr_cache) (h : Z) : option (iovec * rds_cached_mr) :=
  (fun e => (me_iov e, me_data e)) <$> mc_entries c !! h.

(** [c'] keeps the registrations of the entries in [P] and the settings. *)
Definition keeps (P : Z -> Prop) (c c' : ofi_mr_cache) : Prop :=
  mc_monitor c' = mc_monitor c /\ forall x, P x -> region c' x = region c x.

Lemma keeps_refl P c : keeps P c c.
Proof. done. Qed.
Lemma keeps_trans P c1 c2 c3 : keeps P c1 c2 -> keeps P c2 c3 -> keeps P c1 c3.
Proof. intros [E1 H1] [E2 H2]. split; [congruence|]. intros x Hx. by rewrite H2, H1. Qed.
Lemma keeps_weaken (P P' : Z -> Prop) c c' : keeps P c c' -> (forall x, P' x -> P x) -> keeps P' c c'.
Proof. intros [E H] HP. split; auto. Qed.

Lemma region_alter f h c x :
  (forall e, me_iov (f e) = me_iov e /\ me_data (f e) = me_data e) ->
  region (c <| mc_entries ::= alter f h |>) x = region c x.
Proof.
  intros Hf. unfold region. mc_simpl. destruct (decide (x = h)) as [->|]; [|by rewrite lookup_alter_ne].
  rewrite lookup_alter_eq. destruct (mc_entries c !! h) as [e|]; [|done]. cbn. destruct (Hf e). congruence.
Qed.

Lemma iov_of_region c c' h : region c' h = region c h -> iov_of c' h = iov_of c h.
Proof.
  unfold region, iov_of. destruct (mc_entries c !! h), (mc_entries c' !! h); cbn; intros; simplify_eq; congruence.
Qed.

(** Entries waiting to be freed. *)
Definition mu (c : ofi_mr_cache) : nat := length (mc_lru_list c) + length (mc_dead_region_list c).

(** *** Tree searches *)

Lemma tree_cmp_iov cmp key c held h :
  cache_ok c held -> h ∈ tree_of c -> tree_cmp cmp key c h = cmp key (iov_of c h).
Proof. intros Hc Ht. unfold tree_cmp, iov_of. by destruct (ck_tree _ _ Hc h Ht) as (e & -> & _). Qed.

(** A comparison that is monotone along the interval order. *)
Class IovMono (cmp : iovec -> iovec -> comparison) := iov_mono key a b :
  iov_lt a b -> (cmp key b = Gt -> cmp key a = Gt) /\ (cmp key a = Lt -> cmp key b = Lt).

#[export] Instance find_within_mono : IovMono util_mr_find_within.
Proof. intros key a b Hab. rewrite !find_within_Gt, !find_within_Lt. split; intros Hk; by etrans. Qed.

#[export] Instance find_overlap_mono : IovMono util_mr_find_overlap.
Proof.
  intros key a b [Hb He]%iov_lt_spec. unfold util_mr_find_overlap, ofi_iov_left, ofi_iov_right.
  destruct (ofi_iov_end key <? iov_base b) eqn:E1, (iov_base key >? ofi_iov_end b) eqn:E2,
    (ofi_iov_end key <? iov_base a) eqn:E3, (iov_base key >? ofi_iov_end a) eqn:E4; split; try done; intros _; lia.
Qed.

Lemma sorted_map_in {A B} (f : A -> B) (R : B -> B -> Prop) (R' : A -> A -> Prop) (l : list A) :
  (forall x y, x ∈ l -> y ∈ l -> R (f x) (f y) -> R' x y) -> StronglySorted R (f <$> l) -> StronglySorted R' l.
Proof.
  induction l as [|x l IH]; intros Himp Hs; [constructor|]. apply StronglySorted_inv in Hs as [Hs Hx]. constructor.
  - apply IH; [|done]. intros y z Hy Hz. apply Himp; by apply list_elem_of_further.
  - apply List.Forall_forall. intros y Hy%list_elem_of_In. apply Himp; [apply list_elem_of_here|by apply list_elem_of_further|].
    apply (proj1 (List.Forall_forall _ _) Hx), list_elem_of_In. by apply list_elem_of_fmap_2.
Qed.

Lemma tree_mono cmp `{!IovMono cmp} key c held :
  cache_ok c held -> cmp_mono (tree_cmp cmp key c) (rb_list (mc_tree c)).
Proof.
  intros Hc. eapply (sorted_map_in snd); [|exact (ck_sorted _ _ Hc)]. cbn. intros x y Hx Hy Hlt.
  rewrite !(tree_cmp_iov _ _ _ _ _ Hc) by (exact (list_elem_of_fmap_2 snd _ _ Hx) || exact (list_elem_of_fmap_2 snd _ _ Hy)).
  by apply iov_mono.
Qed.

Lemma sorted_two {A} (R : A -> A -> Prop) (l : list A) x y : StronglySorted R l -> x ∈ l -> y ∈ l -> x = y \/ R x y \/ R y x.
Proof.
  induction 1 as [|z l Hs IH Hz]; [by intros ?%elem_of_nil|]. rewrite !elem_of_cons. rewrite Forall_forall in Hz.
  intros [->|Hx] [->|Hy]; auto.
Qed.

(** The answer of a search. *)
Definition found (cmp : iovec -> iovec -> comparison) (key : iovec) (c : ofi_mr_cache) (r : option Z) : Prop :=
  match r with
  | Some h => h ∈ tree_of c /\ cmp key (iov_of c h) = Eq
  | None => forall h, h ∈ tree_of c -> cmp key (iov_of c h) <> Eq
  end.

(** When a cached region encloses the key, the one found does. *)
Lemma found_encloses info c held x r :
  cache_ok c held -> x ∈ tree_of c -> ofi_iov_within info (iov_of c x) = true -> found util_mr_find_within info c r ->
  exists h, r = Some h /\ h ∈ tree_of c /\ ofi_iov_within info (iov_of c h) = true.
Proof.
  intros Hc Hx Hin Hf. destruct r as [h|]; [|exfalso; apply (Hf x Hx), find_within_Eq; by left].
  destruct Hf as [Hh [H|H]%find_within_Eq]; [by exists h|]. exists h. split_and!; [done..|].
  destruct (sorted_two _ _ x h (ck_sorted _ _ Hc) Hx Hh) as [<-|[Hl%iov_lt_spec|Hl%iov_lt_spec]]; [done|..]; unfold ofi_iov_within in *; lia.
Qed.

Lemma filter_dlist_remove (P : Z -> Prop) `{!forall x, Decision (P x)} h l :
  ~ P h -> filter P (dlist_remove h l) = filter P l.
Proof.
  intros HP. induction l as [|x l IH]; [done|]. unfold dlist_remove in *. rewrite (filter_cons _ x).
  destruct (decide (x <> h)) as [Hx|Hx]; rewrite !(filter_cons P), IH; [done|].
  rewrite (decide_False (P := P x)); [done|]. destruct (Z.eq_dec x h); [by subst|tauto].
Qed.

(** The entries [ofi_mr_cache_notify] leaves in the tree. *)
Definition outside (v : iovec) (c : ofi_mr_cache) (h : Z) : Prop :=
  util_mr_find_overlap v (iov_of c h) <> Eq.

#[export] Instance outside_dec v c h : Decision (outside v c h).
Proof. unfold outside. apply _. Defined.

Lemma filter_ext_in {A} (P Q : A -> Prop) `{!forall x, Decision (P x)} `{!forall x, Decision (Q x)} (l : list A) :
  (forall x, x ∈ l -> P x <-> Q x) -> filter P l = filter Q l.
Proof.
  induction l as [|x l IH]; [done|]. intros Hl. rewrite !filter_cons.
  rewrite IH by (intros y Hy; apply Hl; by apply list_elem_of_further).
  by rewrite (decide_ext (P x) (Q x)) by (apply Hl, list_elem_of_here).
Qed.

Lemma filter_all {A} (P : A -> Prop) `{!forall x, Decision (P x)} (l : list A) :
  (forall x, x ∈ l -> P x) -> filter P l = l.
Proof.
  induction l as [|x l IH]; [done|]. intros Hl.
  rewrite filter_cons, decide_True by (apply Hl, list_elem_of_here).
  rewrite IH; [done|]. intros y Hy. apply Hl. by apply list_elem_of_further.
Qed.

Section Specs.
Context {S : Type} `{!CacheOwner S} (ok : S -> Prop) `{!CacheLaws S ok}.
Implicit Types (s : S) (c : ofi_mr_cache) (h : Z) (held : list Z).

Lemma wp_upd f (Q : unit -> S -> Prop) s :
  ok s -> (forall s', ok s' -> co_get s' = f (co_get s) -> Q tt s') -> wp (upd f) Q s.
Proof. intros Hok HQ. apply wp_modify, HQ; [by apply cl_upd_ok|apply cl_get_upd]. Qed.

Lemma wp_entry_of h e (Q : ofi_mr_entry -> S -> Prop) s :
  mc_entries (co_get s) !! h = Some e -> Q e s -> wp (entry_of h) Q s.
Proof. intros He HQ. unfold entry_of. wp_pure. by eapply wp_of_opt. Qed.

Lemma wp_on_tree {A} (op : M ofi_rbmap A) (Q : A -> S -> Prop) s :
  ok s -> wp op (fun a t => forall s', ok s' -> co_get s' = (co_get s) <| mc_tree := t |> -> Q a s') (mc_tree (co_get s)) ->
  wp (on_tree op) Q s.
Proof.
  intros Hok Hop. unfold wp, on_tree in *. destruct (op _) as [[a t]|]; [|done]. apply Hop; [by apply cl_upd_ok|apply cl_get_upd].
Qed.

Lemma same_tree c : c <| mc_tree := mc_tree c |> = c.
Proof. by destruct c. Qed.

(** Searching leaves the cache alone. *)
Lemma wp_rbt_search cmp key l fl det s :
  ok s -> rbmap_ok (mc_tree (co_get s)) l fl det -> cmp_mono (tree_cmp cmp key (co_get s)) l ->
  wp (c <- gets co_get ;; node_ <- on_tree (ofi_rbmap_search (tree_cmp cmp key c)) ;; rbt_data node_)
    (fun r s' => ok s' /\ co_get s' = co_get s /\
       match r with
       | Some h => h ∈ l.*2 /\ tree_cmp cmp key (co_get s) h = Eq
       | None => forall h, h ∈ l.*2 -> tree_cmp cmp key (co_get s) h <> Eq
       end) s.
Proof.
  intros Hok Hrb Hm. apply wp_bind, wp_gets, wp_bind, wp_on_tree; [done|]. eapply wp_mono; [by eapply rbmap_search_spec|].
  cbn beta. intros a t [-> Ha] s1 Hok1 E1. rewrite same_tree in E1. unfold rbt_data. destruct Ha as [(d & Hin & He)|[-> Hno]].
  - assert (Ha1 : 1 < a). { eapply rbmap_ok_real; [exact Hrb|]. apply elem_of_app. left. exact (list_elem_of_fmap_2 fst _ _ Hin). }
    rewrite (proj2 (Z.eqb_neq a NULL)) by (unfold NULL; lia). destruct (rbmap_ok_node _ _ _ _ _ _ Hrb Hin) as (n & Hn & Hd).
    apply wp_bind, wp_on_tree; [done|]. unfold wp, node. rewrite E1, Hn. intros s2 Hok2 E2. rewrite same_tree in E2. cbn.
    split_and!; [done|done| |by rewrite Hd]. rewrite Hd. exact (list_elem_of_fmap_2 snd _ _ Hin).
  - rewrite Z.eqb_refl. apply wp_ret. split_and!; [done..|]. intros h (x & -> & Hx)%list_elem_of_fmap. by apply Hno.
Qed.

Lemma wp_rbt_found cmp `{!IovMono cmp} key s held :
  ok s -> cache_ok (co_get s) held ->
  wp (c <- gets co_get ;; node_ <- on_tree (ofi_rbmap_search (tree_cmp cmp key c)) ;; rbt_data node_)
    (fun r s' => ok s' /\ co_get s' = co_get s /\ found cmp key (co_get s) r) s.
Proof.
  intros Hok Hc. destruct (ck_rb _ _ Hc) as [fl Hrb]. eapply wp_mono; [eapply wp_rbt_search; [done|exact Hrb|by eapply tree_mono]|].
  cbn beta. intros r s' (Hok' & E & Hr). split_and!; [done..|]. destruct r as [h|]; cbn.
  - destruct Hr as [Hin Hcmp]. split; [done|]. by rewrite <- (tree_cmp_iov _ _ _ _ _ Hc).
  - intros h Hh. rewrite <- (tree_cmp_iov _ _ _ _ _ Hc) by done. by apply Hr.
Qed.

Lemma rbt_find_spec key s held :
  ok s -> cache_ok (co_get s) held ->
  wp (ofi_mr_rbt_find key) (fun r s' => ok s' /\ co_get s' = co_get s /\ found util_mr_find_within key (co_get s) r) s.
Proof. apply (wp_rbt_found util_mr_find_within key). Qed.

Lemma rbt_overlap_spec key s held :
  ok s -> cache_ok (co_get s) held ->
  wp (ofi_mr_rbt_overlap key) (fun r s' => ok s' /\ co_get s' = co_get s /\ found util_mr_find_overlap key (co_get s) r) s.
Proof. apply (wp_rbt_found util_mr_find_overlap key). Qed.

(** An entry with its node in a well-formed tree. *)
Definition cached c h (e : ofi_mr_entry) : Prop :=
  mc_entries c !! h = Some e /\ (me_node e, h) ∈ rb_list (mc_tree c) /\ NoDup (tree_of c) /\ tree_ok (mc_tree c).

Lemma cached_in c held h e : cache_ok c held -> h ∈ tree_of c -> mc_entries c !! h = Some e -> cached c h e.
Proof.
  intros Hc Ht He. destruct (ck_tree _ _ Hc h Ht) as (e' & He' & Hn & _). simplify_eq. split_and!; [done|done|apply Hc|apply Hc].
Qed.

Lemma wp_storage h e s :
  ok s -> cached (co_get s) h e ->
  wp (util_mr_uncache_entry_storage h)
     (fun _ s' => ok s' /\ exists t, unlinks (co_get s) h t /\ co_get s' = storage_fn h (me_iov e) t (co_get s)) s.
Proof.
  intros Hok (He & Hn & Hnd & fl & Hrb). unfold util_mr_uncache_entry_storage. apply wp_bind. eapply wp_entry_of; [done|].
  apply list_elem_of_split in Hn as (l1 & l2 & El). rewrite El in Hrb. apply wp_bind, wp_on_tree; [done|].
  eapply wp_mono; [by eapply rbmap_delete_spec|]. cbn beta. intros _ t Hrb1 s1 Hok1 E1.
  assert (Hun : unlinks (co_get s) h t).
  { pose proof (rb_list_ok _ _ _ _ Hrb1) as Et. split; [exists (me_node e :: fl); by rewrite Et|]. rewrite Et, El, filter_app, filter_cons.
    cbn [snd]. rewrite decide_False by tauto. unfold tree_of in Hnd. rewrite El, fmap_app, fmap_cons in Hnd. cbn in Hnd.
    apply NoDup_app in Hnd as (_ & Hd & Hnd). apply NoDup_cons in Hnd as [Hh _].
    rewrite !filter_all; [done|intros x Hx Ex..].
    - apply Hh. rewrite <- Ex. exact (list_elem_of_fmap_2 snd _ _ Hx).
    - apply (Hd x.2); [exact (list_elem_of_fmap_2 snd _ _ Hx)|rewrite Ex; apply list_elem_of_here]. }
  apply wp_bind. unfold set_entry. apply wp_upd; [done|]. intros s2 Hok2 E2.
  apply wp_bind. eapply wp_mono; [by apply cl_unsub|]. cbn beta. intros _ s3 (Hok3 & _ & E3).
  apply wp_upd; [done|]. intros s4 Hok4 E4. split; [done|]. exists t. split; [done|]. by rewrite E4, E3, E2, E1.
Qed.

Lemma storage_keeps P h v t c : keeps P c (storage_fn h v t c).
Proof.
  split; [done|]. intros x _. rewrite <- (region_alter (fun e => e <| me_node := NULL |>) h c x); done.
Qed.

(** Uncaching an entry takes exactly it out of the tree, and keeps the
    registrations of all others. *)
Lemma wp_uncache_entry h s held :
  ok s -> cache_ok (co_get s) held -> h ∈ tree_of (co_get s) ->
  wp (util_mr_uncache_entry h) (fun _ s' => ok s' /\ cache_ok (co_get s') held /\
    tree_of (co_get s') = dlist_remove h (tree_of (co_get s)) /\
    mu (co_get s') = mu (co_get s) /\ keeps (fun _ => True) (co_get s) (co_get s')) s.
Proof.
  intros Hok Hc Ht. set (c := co_get s) in *. destruct (ck_tree _ _ Hc h Ht) as (e & He & Hn & Hu).
  unfold util_mr_uncache_entry. apply wp_bind. eapply wp_mono; [apply (wp_storage h e); [done|by eapply cached_in]|].
  cbn beta. fold c. intros _ s1 (Hok1 & t & Hun & E1). pose proof (storage_ok _ _ _ _ _ Hc Ht He Hun) as Hst.
  pose proof (unlinks_tree _ _ _ Hun) as Hlt.
  assert (Hk : keeps (fun _ => True) c (co_get s1)) by (rewrite E1; apply storage_keeps).
  apply wp_bind. eapply wp_entry_of.
  { rewrite E1. unfold storage_fn. mc_simpl. by rewrite lookup_alter_eq, He. }
  mc_simpl. destruct (me_use_cnt e =? 0) eqn:Eu.
  - assert (Hnh : h ∉ held) by (apply cnt_zero; lia).
    apply wp_upd; [done|]. intros s2 Hok2 E2. split_and!; [done| | | |].
    + rewrite E2, E1. apply (dead_ok _ _ _ Hst).
      unfold loose, unlinked, storage_fn. mc_simpl. rewrite Hlt. split_and!; [..|done].
      * rewrite lookup_alter_eq, He. by eexists.
      * rewrite elem_of_dlist_remove. tauto.
      * intros Hd. by destruct (ck_dead _ _ Hc h Hd) as (_ & ? & _).
      * intros Hf. by destruct (ck_free _ _ Hc h Hf) as (_ & ? & _).
    + by rewrite E2, E1.
    + rewrite E2, E1. unfold mu, storage_fn. mc_simpl. rewrite length_app. cbn.
      rewrite (dlist_remove_length h (mc_lru_list c)); [lia|apply Hc|]. by apply (ck_lru _ _ Hc).
    + eapply keeps_trans; [exact Hk|]. by rewrite E2.
  - assert (Hnl : h ∉ mc_lru_list c).
    { intros [_ ?%cnt_zero]%(ck_lru _ _ Hc). lia. }
    apply wp_upd; [done|]. intros s2 Hok2 E2. split_and!; [done| | | |].
    + rewrite E2, E1. eapply cache_ok_counters; [..|exact Hst]; unfold storage_fn; mc_simpl; auto.
      by rewrite dlist_remove_notin.
    + by rewrite E2, E1.
    + by rewrite E2, E1.
    + eapply keeps_trans; [exact Hk|]. by rewrite E2.
Qed.

Lemma notify_loop_spec n v s held :
  ok s -> cache_ok (co_get s) held -> (length (tree_of (co_get s)) <= n)%nat ->
  wp (notify_loop n v) (fun _ s' => ok s' /\ cache_ok (co_get s') held /\
    tree_of (co_get s') = filter (outside v (co_get s)) (tree_of (co_get s)) /\
    mu (co_get s') = mu (co_get s) /\ keeps (fun _ => True) (co_get s) (co_get s')) s.
Proof.
  revert s. induction n as [|n IH]; intros s0 Hok0 Hc0 Hn; cbn [notify_loop]; apply wp_bind.
  all: eapply wp_mono; [by apply (rbt_overlap_spec v s0 held)|]; cbn beta; intros [h|] s (Hok & Es & Hf).
  all: rewrite <- Es in Hc0, Hn, Hf |- *; rename Hc0 into Hc; clear s0 Es Hok0.
  2,4: apply wp_ret; split_and!; auto using keeps_refl;
       symmetry; apply filter_all; intros x Hx; unfold outside; by apply Hf.
  - destruct Hf as [Ht _]. destruct (tree_of (co_get s)); [by apply elem_of_nil in Ht|cbn in Hn; lia].
  - destruct Hf as [Ht Hcmp].
    apply wp_bind. eapply wp_mono; [by apply (wp_uncache_entry h s held)|].
    cbn beta. intros _ s1 (Hok1 & Hc1 & Ht1 & Hm1 & Hk1).
    eapply wp_mono; [apply IH; [done..|]|].
    { rewrite Ht1. rewrite (dlist_remove_length h) in Hn; [lia|apply Hc|done]. }
    cbn beta. intros _ s2 (Hok2 & Hc2 & Ht2 & Hm2 & Hk2). split_and!; [done|done| |lia|by eapply keeps_trans].
    rewrite Ht2, Ht1. rewrite <- (filter_dlist_remove (outside v (co_get s)) h) by (unfold outside; tauto).
    apply filter_ext_in. intros x _. unfold outside. by rewrite (iov_of_region _ _ _ (proj2 Hk1 x I)).
Qed.

(** *** Freeing entries *)

Lemma free_entry_spec h s held :
  ok s -> cache_ok (co_get s) held -> loose (co_get s) held h ->
  wp (util_mr_free_entry h) (fun _ s' => ok s' /\ cache_ok (co_get s') held /\
    co_get s' = (co_get s) <| mc_free ::= cons h |>) s.
Proof.
  intros Hok Hc Hl. pose proof Hl as [(e & He & Hn) _]. unfold util_mr_free_entry, util_mr_entry_free. apply wp_bind.
  eapply wp_entry_of; [done|]. rewrite Hn, Z.eqb_refl. cbn [negb]. apply wp_bind.
  eapply wp_mono; [apply cl_delete; [done|by exists e]|]. cbn beta. intros _ s1 (Hok1 & _ & E1).
  apply wp_upd; [done|]. intros s2 Hok2 E2. rewrite E1 in E2. split_and!; [done| |done].
  rewrite E2. by apply free_ok.
Qed.

Lemma free_entries_spec l s held :
  ok s -> cache_ok (co_get s) held -> NoDup l -> Forall (loose (co_get s) held) l ->
  wp (free_entries l) (fun _ s' => ok s' /\ cache_ok (co_get s') held /\
    co_get s' = (co_get s) <| mc_free ::= fun f => reverse l ++ f |>) s.
Proof.
  revert s. induction l as [|h l IH]; intros s Hok Hc Hnd Hl; cbn [free_entries].
  { wp_pure. split_and!; [done..|]. by destruct (co_get s). }
  apply NoDup_cons in Hnd as [Hh Hnd]. apply Forall_cons in Hl as [Hlh Hl].
  apply wp_bind. eapply wp_mono; [by apply (free_entry_spec h s held)|]. cbn beta. intros _ s2 (Hok2 & Hc2 & E2).
  eapply wp_mono; [apply IH; [done|done|done|]|].
  - rewrite E2. rewrite Forall_forall in Hl |- *. intros x Hx.
    destruct (Hl x Hx) as (? & ? & ? & ? & ?). unfold loose. mc_simpl. rewrite not_elem_of_cons. split_and!; auto.
    by intros ->.
  - cbn beta. intros _ s3 (? & ? & E3). split_and!; [done..|]. rewrite E3, E2. destruct (co_get s). mc_simpl.
    rewrite reverse_cons. unfold set_field. mc_simpl. by rewrite <- app_assoc.
Qed.

(** *** Flushing *)

(** Emptying the dead list leaves its entries loose. *)
Lemma take_dead_ok c held :
  cache_ok c held -> cache_ok (c <| mc_dead_region_list := [] |>) held /\
  Forall (loose (c <| mc_dead_region_list := [] |>) held) (mc_dead_region_list c).
Proof.
  intros Hc. split.
  - destruct Hc as [H0 H1 H2 H3 H4 H5 H6 H7 H8 H9 H10 H11 H12 H13]. split; mc_simpl; auto.
    + apply NoDup_nil_2.
    + by intros x ?%elem_of_nil.
    + intros x Hx. destruct (H9 x Hx) as (? & ? & ? & ?). split_and!; auto. apply not_elem_of_nil.
  - apply Forall_forall. intros x Hx. destruct (ck_dead _ _ Hc x Hx) as (? & ? & ?).
    unfold loose. mc_simpl. split_and!; auto; [apply not_elem_of_nil|].
    intros Hf. by destruct (ck_free _ _ Hc x Hf) as (_ & _ & ? & _).
Qed.

(** Evicting the first idle entry. *)
Lemma evict_ok c held h lru' :
  cache_ok c held -> mc_lru_list c = h :: lru' -> exists e, cached (c <| mc_lru_list := lru' |>) h e /\
  forall t, unlinks c h t -> let c' := storage_fn h (me_iov e) t (c <| mc_lru_list := lru' |>) in
  cache_ok c' held /\ (mc_dead_region_list c = [] -> loose c' held h) /\
  (forall x, loose c held x -> loose c' held x /\ x <> h).
Proof.
  intros Hc El. assert (Hl : h ∈ mc_lru_list c) by (rewrite El; apply list_elem_of_here).
  apply (ck_lru _ _ Hc) in Hl as [Ht Hh]. destruct (ck_tree _ _ Hc h Ht) as (e & He & _).
  pose proof (ck_nodup_lru _ _ Hc) as Hnd. rewrite El in Hnd. apply NoDup_cons in Hnd as [Hnl Hnd].
  exists e. split; [by apply (cached_in c held)|]. intros t Hun. pose proof (unlinks_tree _ _ _ Hun) as Hlt. cbn zeta. split_and!.
  - eapply cache_ok_counters; [..|exact (storage_ok _ _ _ _ _ Hc Ht He Hun)]; try done.
    unfold storage_fn. mc_simpl. rewrite El. unfold dlist_remove. rewrite filter_cons, decide_False by tauto.
    symmetry. by apply dlist_remove_notin.
  - intros Hd. unfold loose, unlinked, storage_fn. mc_simpl. rewrite Hd, Hlt. split_and!; [..|done].
    + rewrite lookup_alter_eq, He. by eexists.
    + rewrite elem_of_dlist_remove. tauto.
    + apply not_elem_of_nil.
    + intros Hf. by destruct (ck_free _ _ Hc h Hf) as (_ & ? & _).
  - intros x ((ex & Hx & Hn) & ? & ? & ? & ?). assert (x <> h) by (by intros ->). split; [|done].
    unfold loose, unlinked, storage_fn. mc_simpl. rewrite Hlt, lookup_alter_ne by done.
    split_and!; eauto. rewrite elem_of_dlist_remove. tauto.
Qed.

Lemma flush_lru_spec lru flush fl s held :
  ok s -> cache_ok (co_get s) held -> mc_lru_list (co_get s) = lru ->
  mc_dead_region_list (co_get s) = [] -> NoDup fl -> Forall (loose (co_get s) held) fl ->
  wp (flush_lru_loop lru flush fl) (fun fl' s' => ok s' /\ cache_ok (co_get s') held /\
    NoDup fl' /\ Forall (loose (co_get s') held) fl' /\ mc_dead_region_list (co_get s') = [] /\
    (length fl' + length (mc_lru_list (co_get s')) = length fl + length lru)%nat /\
    (flush = true -> lru <> [] -> fl' <> []) /\ (fl <> [] -> fl' <> []) /\
    tree_of (co_get s') ⊆ tree_of (co_get s) /\
    keeps (fun _ => True) (co_get s) (co_get s')) s.
Proof.
  revert flush fl s. induction lru as [|h lru IH]; intros flush fl s Hok Hc El Ed Hnd Hfl; cbn [flush_lru_loop].
  { wp_pure. rewrite El. split_and!; auto using keeps_refl. }
  destruct flush; [|wp_pure; rewrite El; split_and!; auto using keeps_refl].
  destruct (evict_ok _ _ _ _ Hc El) as (e & He & Hev).
  apply wp_bind, wp_upd; [done|]. intros s1 Hok1 E1. apply wp_bind. eapply wp_mono.
  { apply (wp_storage h e); [done|]. by rewrite E1. }
  cbn beta. intros _ s2 (Hok2 & t & Hun & E2). rewrite E1 in E2, Hun. destruct (Hev t Hun) as (Hc' & Hlo & Hoth).
  pose proof (unlinks_tree _ _ _ Hun) as Hlt. change (tree_of _) with (tree_of (co_get s)) in Hlt. rewrite <- E2 in Hc', Hlo, Hoth.
  apply wp_bind, wp_gets. eapply wp_mono; [apply IH; [done|done| | | |]|].
  - by rewrite E2.
  - by rewrite E2.
  - apply NoDup_app. split_and!; [done| |apply NoDup_singleton].
    rewrite Forall_forall in Hfl. intros x Hx ->%list_elem_of_singleton. by destruct (Hoth h (Hfl h Hx)).
  - apply Forall_app. split; [|apply Forall_singleton; by apply Hlo].
    eapply Forall_impl; [exact Hfl|]. intros x Hx. by apply Hoth.
  - cbn beta. intros fl' s' (? & ? & ? & ? & ? & Hlen & _ & Hne & Hsub & Hk). split_and!; try done.
    + rewrite length_app in Hlen. cbn in Hlen |- *. lia.
    + intros _ _. apply Hne. by destruct fl.
    + intros _. apply Hne. by destruct fl.
    + etrans; [exact Hsub|]. rewrite E2. unfold tree_of at 1, storage_fn. mc_simpl. rewrite Hlt. intros x [_ ?]%elem_of_dlist_remove. done.
    + eapply keeps_trans; [|exact Hk]. rewrite E2. eapply keeps_trans; [|apply storage_keeps]. by split.
Qed.

(** Flushing frees every dead entry and, when asked to, idle entries until
    the cache is no longer full; it reports whether it freed any. *)
Lemma flush_spec flush s held :
  ok s -> cache_ok (co_get s) held ->
  wp (ofi_mr_cache_flush flush) (fun freed s' => ok s' /\ cache_ok (co_get s') held /\
    mc_dead_region_list (co_get s') = [] /\ tree_of (co_get s') ⊆ tree_of (co_get s) /\
    keeps (fun _ => True) (co_get s) (co_get s') /\
    (if freed then mu (co_get s') < mu (co_get s) else mu (co_get s') = mu (co_get s) /\
       (flush = true -> mc_lru_list (co_get s') = []))%nat) s.
Proof.
  intros Hok Hc. destruct (take_dead_ok _ _ Hc) as [Hc1 Hl1].
  unfold ofi_mr_cache_flush. apply wp_bind, wp_gets, wp_bind, wp_upd; [done|]. intros s1 Hok1 E1.
  apply wp_bind. eapply wp_mono.
  { apply (flush_lru_spec _ _ _ s1 held); rewrite ?E1; [done..|apply Hc|done]. }
  cbn beta. intros fl s2 (Hok2 & Hc2 & Hnd & Hfl & Hd & Hlen & Hne & Hne2 & Hsub & Hk).
  apply wp_bind. eapply wp_mono; [by apply (free_entries_spec fl s2 held)|].
  cbn beta. intros _ s3 (Hok3 & Hc3 & E3). apply wp_ret.
  assert (Hk3 : keeps (fun _ => True) (co_get s) (co_get s3)).
  { eapply (keeps_trans _ _ (co_get s1)); [by rewrite E1|]. eapply keeps_trans; [exact Hk|]. by rewrite E3. }
  rewrite E3. rewrite E3 in Hc3, Hk3. mc_simpl. rewrite E1 in Hsub. split_and!; try done.
  unfold mu. mc_simpl. rewrite Hd. destruct fl as [|h fl]; cbn in *.
  - destruct (mc_dead_region_list (co_get s)) eqn:Ed; [|exfalso; by apply Hne2].
    cbn in Hlen |- *. split; [lia|]. intros ->. destruct (mc_lru_list (co_get s)) eqn:El; [|exfalso; by apply Hne].
    apply nil_length_inv. cbn in Hlen. lia.
  - lia.
Qed.

(** *** Releasing and creating entries *)

(** Releasing one hold on an entry.  The last release of a cached entry
    makes it idle, of an uncached one frees it. *)
Lemma delete_spec h s held :
  ok s -> cache_ok (co_get s) (h :: held) ->
  wp (ofi_mr_cache_delete h) (fun _ s' => ok s' /\ cache_ok (co_get s') held /\
    keeps (fun _ => True) (co_get s) (co_get s')) s.
Proof.
  intros Hok Hc. set (c := co_get s) in *. set (f := fun e : ofi_mr_entry => e <| me_use_cnt ::= fun n => n - 1 |>).
  assert (Hh : h ∈ h :: held) by apply list_elem_of_here.
  destruct (held_entry _ _ _ Hc Hh) as (e & He & Hu & Hn & Hd & Hf). rewrite cnt_cons, decide_True in Hu by done.
  assert (Hre : forall lru', NoDup lru' ->
    (forall x, x ∈ lru' <-> if decide (x = h) then h ∈ tree_of c /\ (h ∉ held) else x ∈ mc_lru_list c) ->
    cache_ok (c <| mc_entries ::= alter f h |> <| mc_lru_list := lru' |>) held).
  { intros lru'. apply (rehold_ok c (h :: held) held h f); auto.
    - intros x Hx. rewrite cnt_cons, decide_False by done. lia.
    - intros e' He'. simplify_eq. unfold f. mc_simpl. split_and!; [done..|]. lia. }
  assert (Hnl : h ∉ mc_lru_list c) by (intros [_ ?]%(ck_lru _ _ Hc); done).
  unfold ofi_mr_cache_delete. apply wp_bind, wp_upd; [done|]. intros s1 Hok1 E1.
  apply wp_bind. unfold set_entry. apply wp_upd; [done|]. intros s2 Hok2 E2. rewrite E1 in E2. fold c f in E2.
  assert (Hk : keeps (fun _ => True) c (co_get s2)).
  { rewrite E2. split; [done|]. intros x _. rewrite <- (region_alter f h c x); done. }
  apply wp_bind. eapply wp_entry_of; [rewrite E2; mc_simpl; by rewrite lookup_alter_eq, He|]. cbn [fmap option_fmap option_map].
  change (me_use_cnt (f e)) with (me_use_cnt e - 1). change (me_node (f e)) with (me_node e).
  assert (Hkeep : me_use_cnt e - 1 <> 0 \/ (h ∉ tree_of c) -> forall x, x ∈ mc_lru_list c <->
     if decide (x = h) then h ∈ tree_of c /\ (h ∉ held) else x ∈ mc_lru_list c).
  { intros Hor x. destruct (decide (x = h)) as [->|]; [|done]. split; [done|]. intros [Ht Hh'].
    apply cnt_zero in Hh'. destruct Hor; [lia|done]. }
  destruct (me_use_cnt e - 1 =? 0) eqn:Eu.
  - assert (Hnh : h ∉ held) by (apply cnt_zero; lia). destruct (me_node e =? NULL) eqn:En.
    2: { apply wp_upd; [done|]. intros s3 Hok3 E3. split_and!; [done| |by rewrite E3].
      rewrite E3, E2. eapply cache_ok_counters; [..|apply (Hre (mc_lru_list c ++ [h]))]; try done.
      * apply NoDup_app. split_and!; [apply Hc| |apply NoDup_singleton]. intros x Hx ->%list_elem_of_singleton. done.
      * intros x. rewrite elem_of_app, list_elem_of_singleton. destruct (decide (x = h)) as [->|]; [|tauto].
        split; [|auto]. intros _. split; [apply Hn; by apply Z.eqb_neq|done]. }
    assert (Ht : h ∉ tree_of c) by (intros Ht%Hn; by apply Z.eqb_eq in En).
    + apply wp_bind, wp_upd; [done|]. intros s3 Hok3 E3. eapply wp_mono; [apply (free_entry_spec h s3 held); [done|..]|].
      * rewrite E3, E2. eapply cache_ok_counters; [..|apply (Hre (mc_lru_list c)); [apply Hc|auto]]; done.
      * rewrite E3, E2. unfold loose, unlinked. mc_simpl. split_and!; [|done..]. rewrite lookup_alter_eq, He. eexists.
        split; [done|]. by apply Z.eqb_eq in En.
      * cbn beta. intros _ s4 (? & ? & E4). split_and!; [done..|]. by rewrite E4, E3.
  - apply wp_ret. split_and!; [done| |done]. rewrite E2.
    eapply cache_ok_counters; [..|apply (Hre (mc_lru_list c)); [apply Hc|apply Hkeep; left; lia]]; done.
Qed.

Lemma entry_alloc_spec s held :
  ok s -> cache_ok (co_get s) held ->
  wp util_mr_entry_alloc (fun r s' => ok s' /\ cache_ok (co_get s') held /\
    tree_of (co_get s') = tree_of (co_get s) /\ mu (co_get s') = mu (co_get s) /\
    keeps (fun x => is_Some (mc_entries (co_get s) !! x)) (co_get s) (co_get s') /\
    match r with Some h => loose (co_get s') held h | None => True end) s.
Proof.
  intros Hok Hc. unfold util_mr_entry_alloc. apply wp_bind, wp_gets, wp_bind.
  assert (Hfin : forall s1, ok s1 -> cache_ok (co_get s1) held -> tree_of (co_get s1) = tree_of (co_get s) ->
    mu (co_get s1) = mu (co_get s) -> keeps (fun x => is_Some (mc_entries (co_get s) !! x)) (co_get s) (co_get s1) ->
    wp (c <- gets co_get ;;
        match mc_free c with
        | [] => ret None
        | h :: rest => upd (fun c => c <| mc_free := rest |>) ;;; ret (Some h)
        end) (fun r s' => ok s' /\ cache_ok (co_get s') held /\
      tree_of (co_get s') = tree_of (co_get s) /\ mu (co_get s') = mu (co_get s) /\
      keeps (fun x => is_Some (mc_entries (co_get s) !! x)) (co_get s) (co_get s') /\
      match r with Some h => loose (co_get s') held h | None => True end) s1).
  { intros s1 Hok1 Hc1 Ht1 Hm1 Hk1. apply wp_bind, wp_gets. destruct (mc_free (co_get s1)) as [|h rest] eqn:Ef.
    { by apply wp_ret. }
    apply wp_bind, wp_upd; [done|]. intros s2 Hok2 E2. apply wp_ret.
    destruct (unfree_ok _ _ _ _ Hc1 Ef). rewrite E2. by split_and!. }
  destruct (mc_free (co_get s)) as [|h rest] eqn:Ef.
  - apply wp_bind. eapply wp_mono; [by apply cl_alloc|]. cbn beta. intros [a|] s1 (Hok1 & _ & E1).
    + apply wp_bind, wp_upd; [done|]. intros s2 Hok2 E2. apply wp_ret. rewrite E1 in E2. cbn [negb].
      apply Hfin; [done|rewrite E2; by apply pool_grow_ok|by rewrite E2|by rewrite E2|].
      rewrite E2. split; [done|]. intros x Hx. unfold region, pool_grow. mc_simpl.
      rewrite lookup_fresh_insert, decide_False; [done|]. rewrite elem_of_seqZ_chunk.
      apply (ck_pool _ _ Hc) in Hx. lia.
    + apply wp_ret. cbn [negb]. apply wp_ret. rewrite E1. by split_and!.
  - apply wp_ret. cbn [negb]. by apply Hfin.
Qed.

(** The cache while a node is out of its tree. *)
Definition node_out (c : ofi_mr_cache) (a : Z) (s : S) : Prop :=
  ok s /\ exists t fl, rbmap_ok t (rb_list (mc_tree c)) fl [a] /\ co_get s = c <| mc_tree := t |>.

Lemma cache_rbnode_alloc_spec s :
  ok s -> tree_ok (mc_tree (co_get s)) ->
  wp cache_rbnode_alloc (fun a s' => (a = NULL /\ ok s' /\ co_get s' = co_get s) \/ (1 < a /\ node_out (co_get s) a s')) s.
Proof.
  intros Hok [fl Hrb]. unfold cache_rbnode_alloc. apply wp_bind, wp_gets, wp_bind.
  apply wp_mono with (Q := fun _ s1 => ok s1 /\ co_get s1 = co_get s).
  { destruct (_ =? NULL); [|by apply wp_ret]. apply wp_bind. eapply wp_mono; [by apply cl_alloc|]. cbn beta. intros r s1 (? & _ & ?). by apply wp_ret. }
  intros mem s1 [Hok1 E1]. apply wp_on_tree; [done|]. rewrite E1. eapply wp_mono; [by eapply rbnode_alloc_spec|].
  cbn beta. intros a t [(-> & -> & _)|(fl' & Hrb' & _)] s2 Hok2 E2; [left; by rewrite same_tree in E2|right].
  split; [|by split; eauto]. eapply rbmap_ok_real; [exact Hrb'|]. rewrite !elem_of_app. right. right. apply list_elem_of_here.
Qed.

(** The node goes back to the tree of the cache. *)
Lemma node_back_spec c a s held :
  cache_ok c held -> node_out c a s ->
  wp (on_tree (ofi_rbnode_free a)) (fun _ s' => ok s' /\ cache_ok (co_get s') held /\
    exists t, co_get s' = c <| mc_tree := t |> /\ rb_list t = rb_list (mc_tree c)) s.
Proof.
  intros Hc (Hok & t & fl & Hrb & E). apply wp_on_tree; [done|]. rewrite E. mc_simpl. eapply wp_mono; [by eapply rbnode_free_spec|].
  cbn beta. intros _ t' Hrb' s1 Hok1 E1. pose proof (rb_list_ok _ _ _ _ Hrb') as El. split_and!; [done| |].
  - rewrite E1. apply (retree_ok c); [done| |done]. exists (a :: fl). by rewrite El.
  - exists t'. split; [by rewrite E1|done].
Qed.

Lemma loose_alter c held h x f :
  (forall e, me_node e = NULL -> me_node (f e) = NULL) -> loose c held x -> loose (c <| mc_entries ::= alter f h |>) held x.
Proof.
  intros Hf ((e & He & Hn) & ? & ? & ? & ?). unfold loose, unlinked. mc_simpl. split_and!; auto.
  destruct (decide (x = h)) as [->|]; [rewrite lookup_alter_eq, He|rewrite lookup_alter_ne by done]; eexists; split; eauto.
Qed.

(** The insertion itself. *)
Lemma insert_at_spec c h e a s held :
  cache_ok c held -> h ∈ held -> (h ∉ tree_of c) -> mc_entries c !! h = Some e ->
  (forall x, x ∈ tree_of c -> util_mr_find_within (me_iov e) (iov_of c x) <> Eq) -> node_out c a s ->
  wp (on_tree (ofi_rbmap_insert_at (tree_cmp util_mr_find_within (me_iov e) (co_get s)) h a true)) (fun rn s' => rn = (0, Some a) /\ ok s' /\
    exists t, co_get s' = c <| mc_tree := t |> /\ cache_ok (insert_fn h (me_iov e) t a c) held /\
      cached (insert_fn h (me_iov e) t a c) h (e <| me_node := a |>)) s.
Proof.
  intros Hc Hh Ht He Hne (Hok & t & fl & Hrb & E). apply wp_on_tree; [done|]. rewrite E.
  change (tree_cmp util_mr_find_within (me_iov e) (c <| mc_tree := t |>)) with (tree_cmp util_mr_find_within (me_iov e) c). mc_simpl.
  assert (Hcmp : forall x, x ∈ rb_list (mc_tree c) -> tree_cmp util_mr_find_within (me_iov e) c x.2 = util_mr_find_within (me_iov e) (iov_of c x.2)).
  { intros x Hx. eapply tree_cmp_iov; [exact Hc|]. exact (list_elem_of_fmap_2 snd _ _ Hx). }
  eapply wp_mono; [eapply rbmap_insert_at_spec; [exact Hrb|exact (tree_mono util_mr_find_within _ _ _ Hc)|]|].
  { intros x Hx. rewrite Hcmp by done. apply Hne. exact (list_elem_of_fmap_2 snd _ _ Hx). }
  cbn beta. intros rn t' (-> & l1 & l2 & El & Hl & Hr & Hrb') s1 Hok1 E1. pose proof (rb_list_ok _ _ _ _ Hrb') as Et.
  assert (Hok' : tree_ok t') by (exists fl; by rewrite Et). rewrite Forall_forall in Hl, Hr.
  assert (Hi : cache_ok (insert_fn h (me_iov e) t' a c) held).
  { eapply insert_ok; [done..|exact El|exact Et| |]; intros x (y & -> & Hy)%list_elem_of_fmap.
    - apply find_within_Gt. rewrite <- Hcmp by (rewrite El; set_solver). by apply Hl.
    - apply find_within_Lt. rewrite <- Hcmp by (rewrite El; set_solver). by apply Hr. }
  split_and!; [done..|]. exists t'. split_and!; [by rewrite E1|done|]. eapply cached_in; [exact Hi| |].
  - unfold insert_fn. mc_simpl. rewrite Et, fmap_app, fmap_cons. set_solver.
  - unfold insert_fn. mc_simpl. by rewrite lookup_alter_eq, He.
Qed.

(** The insertion branch of [util_mr_cache_create], for a held entry that
    overlaps nothing in the tree. *)
Lemma create_insert_spec c h e a s held :
  cache_ok c (h :: held) -> (h ∉ tree_of c) -> mc_entries c !! h = Some e ->
  (forall x, x ∈ tree_of c -> util_mr_find_within (me_iov e) (iov_of c x) <> Eq) -> node_out c a s ->
  wp (create_insert (me_iov e) h a) (fun r s' => r = (0, h) /\ ok s' /\ cache_ok (co_get s') (h :: held) /\
    mu (co_get s') = mu c /\ keeps (fun _ => True) c (co_get s')) s.
Proof.
  intros Hc Ht He Hne Hout. unfold create_insert. apply wp_bind, wp_gets, wp_bind.
  eapply wp_mono; [by apply (insert_at_spec c h e a s (h :: held)); [|apply list_elem_of_here|..]|].
  cbn beta. intros rn s1 (-> & Hok1 & t & E1 & Hi & Hca). cbn [fst snd]. apply wp_bind. unfold set_entry. apply wp_upd; [done|].
  intros s2 Hok2 E2. rewrite Z.eqb_refl. cbn [negb]. apply wp_bind, wp_upd; [done|]. intros s3 Hok3 E3.
  set (c2 := insert_fn h (me_iov e) t a c) in *. assert (E3' : co_get s3 = c2) by (by rewrite E3, E2, E1). clear E1 E2 E3.
  apply wp_bind. eapply wp_mono; [by apply cl_sub|]. cbn beta. intros r s4 (Hok4 & _ & E4). rewrite E3' in E4.
  assert (Hk : keeps (fun _ => True) c c2).
  { split; [done|]. intros x _. unfold c2, insert_fn. rewrite <- (region_alter (fun e => e <| me_node := a |>) h c x); done. }
  assert (Hm : mu c2 = mu c) by done. apply wp_bind. destruct (r =? 0); cbn [negb].
  { wp_pure. rewrite E4. split_and!; done. }
  clearbody c2. apply wp_bind. eapply wp_mono; [apply (wp_storage h (e <| me_node := a |>)); [done|by rewrite E4]|].
  cbn beta. rewrite E4. intros _ s5 (Hok5 & t5 & Hun & E5). apply wp_upd; [done|]. intros s6 Hok6 E6. wp_pure.
  rewrite E6, E5. split_and!; [done|done| |exact Hm|eapply keeps_trans; [exact Hk|apply storage_keeps]].
  destruct Hca as (He2 & Hin & _).
  eapply cache_ok_counters; [..|exact (storage_ok _ _ _ _ _ Hi (list_elem_of_fmap_2 snd _ _ Hin) He2 Hun)]; try done.
  unfold storage_fn. mc_simpl. symmetry. apply dlist_remove_notin. intros [_ Hn]%(ck_lru _ _ Hi).
  apply Hn, list_elem_of_here.
Qed.

(** What a creation or a search promises: on success the caller holds an
    entry that covers its buffer, on failure nothing changed hands. *)
Definition grants (covers : iovec -> Prop) (c : ofi_mr_cache) (held : list Z) (r h : Z) : Prop :=
  if r =? 0 then cache_ok c (h :: held) /\ covers (iov_of c h) /\ is_Some (mc_entries c !! h)
  else cache_ok c held.

(** An entry filled in by [util_mr_cache_create] but not yet handed out. *)
Definition fresh_entry (c : ofi_mr_cache) (held : list Z) (h : Z) (v : iovec) : Prop :=
  loose c held h /\ exists e, mc_entries c !! h = Some e /\
    me_iov e = v /\ me_node e = NULL /\ me_use_cnt e = 1.

Lemma keeps_alter_ne (P : Z -> Prop) h f c : ~ P h -> keeps P c (c <| mc_entries ::= alter f h |>).
Proof.
  intros HP. split; [done|]. intros x Hx. unfold region. mc_simpl.
  rewrite lookup_alter_ne; [done|]. by intros ->.
Qed.

(** Allocation, set-up and registration of a new entry. *)
Lemma fresh_entry_spec info h s held :
  ok s -> cache_ok (co_get s) held -> loose (co_get s) held h ->
  wp (set_entry h (fun e => e <| me_node := NULL |> <| me_iov := info |> <| me_use_cnt := 1 |>) ;;;
      co_add_region h) (fun r s' => ok s' /\ cache_ok (co_get s') held /\ (r = - FI_EAGAIN -> (co_patience s' < co_patience s)%nat) /\
    fresh_entry (co_get s') held h info /\ tree_of (co_get s') = tree_of (co_get s) /\
    mu (co_get s') = mu (co_get s) /\ keeps (fun x => x <> h) (co_get s) (co_get s')) s.
Proof.
  intros Hok Hc Hl. unfold set_entry, upd. apply wp_bind, wp_modify. match goal with |- wp _ _ (co_upd ?f s) =>
    set (s1 := co_upd f s); assert (E1 : co_get s1 = f (co_get s)) by apply cl_get_upd; assert (Hok1 : ok s1) by (by apply cl_upd_ok);
    assert (Ep : co_patience s1 = co_patience s) by apply cl_upd_patience end. clearbody s1.
  assert (Hc1 : cache_ok (co_get s1) held) by (rewrite E1; by apply loose_alter_ok).
  assert (Hl1 : loose (co_get s1) held h) by (rewrite E1; by apply loose_alter).
  destruct Hl as ((e & He & _) & _). pose proof Hl1 as ((e1 & He1' & _) & _).
  eapply wp_mono; [apply cl_add; [done|by exists e1]|]. clear e1 He1'.
  cbn beta. intros r s2 (Hok2 & _ & Hr & d & E2). rewrite Ep in Hr.
  assert (He1 : mc_entries (co_get s1) !! h = Some (e <| me_node := NULL |> <| me_iov := info |> <| me_use_cnt := 1 |>)).
  { rewrite E1. mc_simpl. by rewrite lookup_alter_eq, He. }
  split_and!; [done| |done| | | |].
  - rewrite E2. by apply loose_alter_ok.
  - rewrite E2. split; [by apply loose_alter|]. mc_simpl. rewrite lookup_alter_eq, He1. eexists. split_and!; done.
  - by rewrite E2, E1.
  - by rewrite E2, E1.
  - eapply keeps_trans; [|rewrite E2; apply keeps_alter_ne; tauto]. rewrite E1. apply keeps_alter_ne. tauto.
Qed.

(** The contract of a creation that started from the cache [c0], with [n]
    retries to go. *)
Definition create_post (n : nat) (info : iovec) (c0 : ofi_mr_cache) (held : list Z) (rh : Z * Z) (s : S) : Prop :=
  ok s /\ (rh.1 = - FI_EAGAIN -> (co_patience s < n)%nat) /\ grants (eq info) (co_get s) held rh.1 rh.2 /\
  mu (co_get s) = mu c0 /\ keeps (fun x => x ∈ held) c0 (co_get s).

(** Freeing an entry asks for no retry. *)
Lemma free_entry_calm h s held :
  ok s -> loose (co_get s) held h -> wp (util_mr_free_entry h) (fun _ s' => calmer s s') s.
Proof.
  intros Hok [(e & He & Hn) _]. unfold util_mr_free_entry, util_mr_entry_free, upd. apply wp_bind.
  eapply wp_entry_of; [done|]. rewrite Hn, Z.eqb_refl. cbn [negb]. apply wp_bind.
  eapply wp_mono; [apply cl_delete; [done|by exists e]|]. cbn beta. intros _ s1 (_ & Hc & _).
  apply wp_modify. unfold calmer in *. by rewrite cl_upd_patience.
Qed.

Lemma create_fail n info c0 r h s held :
  ok s -> cache_ok (co_get s) held -> loose (co_get s) held h -> r <> 0 -> (r = - FI_EAGAIN -> (co_patience s < n)%nat) ->
  mu (co_get s) = mu c0 -> keeps (fun x => x ∈ held) c0 (co_get s) ->
  wp (util_mr_free_entry h ;;; ret (r, h)) (create_post n info c0 held) s.
Proof.
  intros Hok Hc Hl Hr Hr' Hm Hk. apply wp_bind. eapply wp_mono; [apply wp_and; [by apply (free_entry_spec h s held)|by eapply free_entry_calm]|].
  cbn beta. intros _ s1 [(Hok1 & Hc1 & E1) Hcm]. unfold calmer in Hcm. apply wp_ret. split_and!; try done; [cbn; intros ?%Hr'; lia|..].
  - unfold grants. cbn. by rewrite (proj2 (Z.eqb_neq r 0)).
  - by rewrite E1.
  - by rewrite E1.
Qed.

(** [util_mr_cache_create] from the allocation of the tree node on. *)
Lemma create_cached_spec n info c0 h s held :
  ok s -> cache_ok (co_get s) held -> fresh_entry (co_get s) held h info ->
  (forall x, x ∈ tree_of (co_get s) -> util_mr_find_within info (iov_of (co_get s) x) <> Eq) ->
  mu (co_get s) = mu c0 -> keeps (fun x => x ∈ held) c0 (co_get s) ->
  wp (create_cached info h) (create_post n info c0 held) s.
Proof.
  intros Hok Hc (Hl & e & He & Hi & Hn & Hu) Hno Hm Hk. set (c := co_get s) in *. pose proof (ck_rb _ _ Hc) as Hrb.
  assert (Hh : cache_ok c (h :: held)) by (by eapply hold_ok). unfold create_cached.
  apply wp_bind. eapply wp_mono; [by apply cache_rbnode_alloc_spec|]. cbn beta. fold c.
  intros a s1 [(-> & Hok1 & E1)|(Ha & Hout)].
  { rewrite Z.eqb_refl. rewrite <- E1 in *. by apply create_fail. }
  rewrite (proj2 (Z.eqb_neq a NULL)) by (unfold NULL; lia). apply wp_bind. pose proof Hout as (Hok1 & t & fl & Hrb1 & E1).
  eapply wp_mono; [apply (wp_rbt_search util_mr_find_within info (rb_list (mc_tree c)) fl [a] s1); [done|by rewrite E1|]|].
  { rewrite E1. exact (tree_mono util_mr_find_within info c held Hc). }
  cbn beta. intros cur s2 (Hok2 & E2 & Hcur).
  assert (Hio : forall x, x ∈ (rb_list (mc_tree c)).*2 -> tree_cmp util_mr_find_within info (co_get s1) x <> Eq).
  { intros x Hx. rewrite E1. change (tree_cmp util_mr_find_within info c x <> Eq). rewrite (tree_cmp_iov _ _ _ _ _ Hc) by done. by apply Hno. }
  destruct cur as [x|]; [by destruct (Hio x (proj1 Hcur) (proj2 Hcur))|].
  assert (Hout2 : node_out c a s2) by (split; [done|]; rewrite E2; by exists t, fl). clear Hcur Hio E1 E2 Hrb1 s1 Hok1 Hout t fl.
  assert (Hiv : iov_of c h = info) by (unfold iov_of; by rewrite He).
  apply wp_bind, wp_gets. destruct (ofi_mr_cache_full _).
  - apply wp_bind, wp_upd; [done|]. intros s3 Hok3 E3. destruct Hout2 as (_ & t & fl & Hrb2 & E2). rewrite E2 in E3.
    set (c' := c <| mc_uncached_cnt ::= fun n => u64 (n + 1) |> <| mc_uncached_size ::= fun n => u64 (n + iov_len info) |>).
    assert (Hh' : cache_ok c' (h :: held)) by (by eapply cache_ok_counters; [..|exact Hh]).
    apply wp_bind. eapply wp_mono; [apply (node_back_spec c' a s3 (h :: held)); [done|]|].
    { split; [done|]. exists t, fl. split; [done|]. by rewrite E3. }
    cbn beta. intros _ s4 (Hok4 & Hc4 & t4 & E4 & El). apply wp_ret. split_and!; [done|done| |by rewrite E4|by rewrite E4].
    unfold grants. cbn. split_and!; [done|rewrite E4; by rewrite <- Hiv|rewrite E4; by exists e].
  - subst info. eapply wp_mono; [by apply (create_insert_spec c h e a s2 held); [|apply Hl|..]|].
    cbn beta. intros rh s3 (-> & Hok3 & Hc3 & Hm3 & Hk3). split_and!; [done|done| |cbn; congruence|].
    + unfold grants. cbn. split_and!; [done| |].
      * rewrite (iov_of_region c); [done|]. by apply Hk3.
      * destruct (held_entry _ _ _ Hc3 (list_elem_of_here _ _)) as (? & -> & _). eauto.
    + eapply keeps_trans; [exact Hk|]. by eapply keeps_weaken; [exact Hk3|].
Qed.

Lemma create_spec n info s held :
  (forall s, ok s -> (co_patience s <= n)%nat) -> ok s -> cache_ok (co_get s) held ->
  (forall x, x ∈ tree_of (co_get s) -> util_mr_find_within info (iov_of (co_get s) x) <> Eq) ->
  wp (util_mr_cache_create info) (create_post n info (co_get s) held) s.
Proof.
  intros Hpat Hok Hc Hno. unfold util_mr_cache_create. apply wp_bind. eapply wp_mono; [by apply entry_alloc_spec|].
  cbn beta. intros [h|] s1 (Hok1 & Hc1 & Ht1 & Hm1 & Hk1 & Hl1).
  2: { apply wp_ret. split_and!; try done. eapply keeps_weaken; [exact Hk1|]. cbn.
       intros x Hx. destruct (held_entry _ _ _ Hc Hx) as (? & -> & _). eauto. }
  pose proof (fresh_entry_spec info h s1 held Hok1 Hc1 Hl1) as Hfr. apply wp_bind_inv in Hfr.
  apply wp_bind. eapply wp_mono; [exact Hfr|]. cbn beta. intros _ s2 Hfr2. apply wp_bind.
  eapply wp_mono; [exact Hfr2|]. cbn beta. clear Hfr Hfr2 s2.
  intros r s3 (Hok3 & Hc3 & Hr & Hfe & Ht3 & Hm3 & Hk3).
  assert (Hk : keeps (fun x => x ∈ held \/ x ∈ tree_of (co_get s)) (co_get s) (co_get s3)).
  { eapply keeps_trans; [eapply keeps_weaken; [exact Hk1|]|eapply keeps_weaken; [exact Hk3|]].
    - intros x [Hx|Hx]; [destruct (held_entry _ _ _ Hc Hx) as (? & -> & _); eauto|].
      destruct (ck_tree _ _ Hc x Hx) as (? & -> & _). eauto.
    - destruct Hl1 as (_ & Hlt & _ & _ & Hlh). intros x [Hx|Hx] ->; [done|]. by rewrite <- Ht1 in Hx. }
  assert (Hkh : keeps (fun x => x ∈ held) (co_get s) (co_get s3)) by (eapply keeps_weaken; [exact Hk|cbn; auto]).
  destruct (r =? 0) eqn:Er; cbn [negb].
  - apply create_cached_spec; auto; [|congruence].
    intros x Hx. rewrite Ht3, Ht1 in Hx. rewrite (iov_of_region (co_get s)); [by apply Hno|]. apply Hk. auto.
  - apply create_fail; auto; [apply Hfe|lia| |congruence]. intros ?%Hr. specialize (Hpat _ Hok1). lia.
Qed.

(** *** Search *)

(** Purging removes every region nested with the request, in either
    direction. *)
Lemma purge_spec n info entry s held :
  ok s -> cache_ok (co_get s) held -> (length (tree_of (co_get s)) <= n)%nat ->
  found util_mr_find_within info (co_get s) entry ->
  wp (purge_loop n info entry) (fun _ s' => ok s' /\ cache_ok (co_get s') held /\
    (forall x, x ∈ tree_of (co_get s') -> util_mr_find_within info (iov_of (co_get s') x) <> Eq) /\
    mu (co_get s') = mu (co_get s) /\ keeps (fun _ => True) (co_get s) (co_get s')) s.
Proof.
  revert entry s. induction n as [|n IH]; intros entry s Hok Hc Hn Hf; cbn [purge_loop].
  all: destruct entry as [h|].
  2,4: apply wp_ret; split_and!; auto using keeps_refl.
  - destruct Hf as [Ht _]. destruct (tree_of (co_get s)); [by apply elem_of_nil in Ht|cbn in Hn; lia].
  - destruct Hf as [Ht Hcmp].
    apply wp_bind. eapply wp_mono; [by apply (wp_uncache_entry h s held)|].
    cbn beta. intros _ s1' (Hok1' & Hc1 & Ht1 & Hm1 & Hk1). apply wp_bind. eapply wp_mono; [by apply (rbt_find_spec info s1' held)|].
    cbn beta. intros next s1 (Hok1 & E1 & Hf1). rewrite <- E1 in Hc1, Ht1, Hm1, Hk1, Hf1.
    eapply wp_mono; [apply IH; [done..| |done]|].
    { rewrite Ht1. rewrite (dlist_remove_length h) in Hn; [lia|apply Hc|done]. }
    cbn beta. intros _ s2 (Hok2 & Hc2 & Ht2 & Hm2 & Hk2). split_and!; [done..|lia|by eapply keeps_trans].
Qed.


Lemma ofi_iov_within_refl v : ofi_iov_within v v = true.
Proof. unfold ofi_iov_within. lia. Qed.

(** A hit: one more holder of a cached entry. *)
Lemma hit_spec h s held :
  ok s -> cache_ok (co_get s) held -> h ∈ tree_of (co_get s) ->
  wp (upd (fun c => c <| mc_hit_cnt ::= fun n => u64 (n + 1) |>) ;;;
      e <- entry_of h ;;
      set_entry h (fun e => e <| me_use_cnt ::= Z.add 1 |>) ;;;
      (if me_use_cnt e =? 0 then upd (fun c => c <| mc_lru_list ::= dlist_remove h |>) else ret tt) ;;;
      ret (0, h)) (fun r s' => r = (0, h) /\ ok s' /\ cache_ok (co_get s') (h :: held) /\
    keeps (fun _ => True) (co_get s) (co_get s')) s.
Proof.
  intros Hok Hc Ht. set (c := co_get s) in *. destruct (ck_tree _ _ Hc h Ht) as (e & He & Hn & Hu).
  set (f := fun e : ofi_mr_entry => e <| me_use_cnt ::= Z.add 1 |>).
  assert (Hre : cache_ok (c <| mc_entries ::= alter f h |> <| mc_lru_list := dlist_remove h (mc_lru_list c) |>) (h :: held)).
  { apply (rehold_ok c held); auto.
    - intros x Hx. rewrite cnt_cons, decide_False by done. lia.
    - intros Hd. by destruct (ck_dead _ _ Hc h Hd) as (_ & ? & _).
    - intros Hd. by destruct (ck_free _ _ Hc h Hd) as (_ & ? & _).
    - intros e' He'. simplify_eq. unfold f. mc_simpl. rewrite cnt_cons, decide_True by done. split_and!; [done..|lia].
    - done.
    - apply dlist_remove_NoDup, Hc.
    - intros x. rewrite elem_of_dlist_remove. destruct (decide (x = h)); [|tauto]. split; [tauto|].
      rewrite not_elem_of_cons. tauto. }
  apply wp_bind, wp_upd; [done|]. intros s1 Hok1 E1. apply wp_bind.
  eapply wp_entry_of; [by rewrite E1|]. unfold set_entry. apply wp_bind, wp_upd; [done|]. intros s2 Hok2 E2.
  rewrite E1 in E2. fold c f in E2.
  assert (Hk : keeps (fun _ => True) c (co_get s2)).
  { rewrite E2. split; [done|]. intros x _. rewrite <- (region_alter f h c x); done. }
  apply wp_bind. destruct (me_use_cnt e =? 0) eqn:Eu.
  - apply wp_upd; [done|]. intros s3 Hok3 E3. wp_pure. split_and!; [done|done| |by rewrite E3].
    rewrite E3, E2. by eapply cache_ok_counters; [..|exact Hre].
  - wp_pure. split_and!; [done|done| |done]. rewrite E2. eapply cache_ok_counters; [..|exact Hre]; try done.
    mc_simpl. symmetry. apply dlist_remove_notin. intros [_ ?%cnt_zero]%(ck_lru _ _ Hc). lia.
Qed.

End Specs.

Section Search.
Context {S : Type} `{!CacheOwner S} (ok : S -> Prop) `{!CacheLaws S ok}.
Implicit Types (s : S) (c : ofi_mr_cache) (h : Z) (held : list Z).

(** The contract of a search that started from the cache [c0]. *)
Definition search_post (info : iovec) (c0 : ofi_mr_cache) (held : list Z) (rh : Z * Z) (s : S) : Prop :=
  ok s /\ grants (fun v => ofi_iov_within info v = true) (co_get s) held rh.1 rh.2 /\
  keeps (fun x => x ∈ held) c0 (co_get s).

Lemma create_search_post n info c0 c1 held rh s :
  keeps (fun x => x ∈ held) c0 c1 -> create_post (within ok n) n info c1 held rh s -> search_post info c0 held rh s.
Proof.
  intros Hk ([Hok _] & _ & Hg & _ & Hk1). split_and!; [done| |by eapply keeps_trans].
  unfold grants in *. destruct (rh.1 =? 0); [|done]. destruct Hg as (? & <- & ?).
  split_and!; auto using ofi_iov_within_refl.
Qed.

(** One round of the search loop, [k] being the next one. *)
Definition search_round (info : iovec) (k : M S (Z * Z)) : M S (Z * Z) :=
  c <- gets co_get ;;
  let flush_lru := ofi_mr_cache_full c in
  (if flush_lru || negb (length (mc_dead_region_list c) =? 0)%nat
   then ofi_mr_cache_flush flush_lru ;;; ret tt else ret tt) ;;;
  upd (fun c => c <| mc_search_cnt ::= fun n => u64 (n + 1) |>) ;;;
  entry <- ofi_mr_rbt_find info ;;
  hit <- gets (is_hit info entry) ;;
  match hit, entry with
  | true, Some h =>
      upd (fun c => c <| mc_hit_cnt ::= fun n => u64 (n + 1) |>) ;;;
      e <- entry_of h ;;
      set_entry h (fun e => e <| me_use_cnt ::= Z.add 1 |>) ;;;
      (if me_use_cnt e =? 0 then upd (fun c => c <| mc_lru_list ::= dlist_remove h |>) else ret tt) ;;;
      ret (0, h)
  | _, _ =>
      c <- gets co_get ;;
      purge_loop (length (tree_of c)) info entry ;;;
      rh <- util_mr_cache_create info ;;
      let '(r, h) := rh in
      again <- (if negb (r =? 0) && negb (r =? - FI_EAGAIN)
                then freed <- ofi_mr_cache_flush true ;; ret freed
                else ret (r =? - FI_EAGAIN)) ;;
      if again then k else ret (r, h)
  end.

Lemma search_loop_round n info :
  search_loop n info = search_round info (match n with Datatypes.S n' => search_loop n' info | O => ub end).
Proof. by destruct n. Qed.

(** What a search uses up: an idle or dead entry, or a retry that the owner
    was asked for. *)
Definition budget s : nat := mu (co_get s) + co_patience s.

(** The miss branch: purge, create, and on failure flush and go again. *)
Lemma search_miss info k c0 s held entry :
  ok s -> cache_ok (co_get s) held -> keeps (fun x => x ∈ held) c0 (co_get s) ->
  found util_mr_find_within info (co_get s) entry ->
  (forall s', ok s' -> cache_ok (co_get s') held -> (budget s' < budget s)%nat ->
     keeps (fun x => x ∈ held) c0 (co_get s') -> wp k (search_post info c0 held) s') ->
  wp (c <- gets co_get ;;
      purge_loop (length (tree_of c)) info entry ;;;
      rh <- util_mr_cache_create info ;;
      let '(r, h) := rh in
      again <- (if negb (r =? 0) && negb (r =? - FI_EAGAIN)
                then freed <- ofi_mr_cache_flush true ;; ret freed
                else ret (r =? - FI_EAGAIN)) ;;
      if again then k else ret (r, h)) (search_post info c0 held) s.
Proof.
  intros Hok Hc Hk He Hagain. set (n := co_patience s). assert (Hin : within ok n s) by (by split). apply wp_bind, wp_gets, wp_bind.
  eapply wp_mono; [by apply (purge_spec (within ok n) _ _ _ s held)|]. cbn beta. intros _ s1 (Hok1 & Hc1 & Hno & Hm1 & Hk1).
  assert (Hk01 : keeps (fun x => x ∈ held) c0 (co_get s1)).
  { eapply keeps_trans; [exact Hk|]. by eapply keeps_weaken; [exact Hk1|]. }
  apply wp_bind. eapply wp_mono; [apply (create_spec (within ok n) n info s1 held); [by intros ? []|done..]|].
  cbn beta. intros [r h] s2 Hp. pose proof (create_search_post _ _ _ _ _ _ _ Hk01 Hp) as Hsp.
  destruct Hp as (Hok2 & Hr & Hg & Hm2 & Hk2). cbn [fst snd] in *. apply wp_bind. unfold budget in Hagain. fold n in Hagain.
  assert (Hk02 : keeps (fun x => x ∈ held) c0 (co_get s2)) by (by eapply keeps_trans).
  destruct (Z.eqb_spec r (- FI_EAGAIN)) as [->|Hne].
  { cbn [Z.eqb negb andb Z.opp FI_EAGAIN]. apply wp_ret. specialize (Hr eq_refl). apply Hagain; [apply Hok2|exact Hg|lia|done]. }
  rewrite andb_true_r. destruct (r =? 0) eqn:Er; cbn [negb].
  { by wp_pure. }
  unfold grants in Hg. rewrite Er in Hg. apply wp_bind. eapply wp_mono; [by apply (flush_spec (within ok n) true s2 held)|].
  cbn beta. intros freed s3 (Hok3 & Hc3 & _ & _ & Hk3 & Hmu). apply wp_ret.
  assert (Hk03 : keeps (fun x => x ∈ held) c0 (co_get s3)).
  { eapply keeps_trans; [exact Hk02|]. by eapply keeps_weaken; [exact Hk3|]. }
  destruct Hok3 as [Hok3 Hn3]. destruct freed; [apply Hagain; auto; lia|]. apply wp_ret. split_and!; [done| |done].
  unfold grants. cbn. by rewrite Er.
Qed.

Lemma search_round_spec info k s held :
  ok s -> cache_ok (co_get s) held ->
  (forall s', ok s' -> cache_ok (co_get s') held -> (budget s' < budget s)%nat ->
     keeps (fun x => x ∈ held) (co_get s) (co_get s') -> wp k (search_post info (co_get s) held) s') ->
  wp (search_round info k) (search_post info (co_get s) held) s.
Proof.
  intros Hok Hc Hagain. set (n := co_patience s). assert (Hin : within ok n s) by (by split).
  unfold search_round. apply wp_bind, wp_gets, wp_bind. cbn zeta.
  apply wp_mono with (Q := fun _ s' => within ok n s' /\ cache_ok (co_get s') held /\
    (mu (co_get s') <= mu (co_get s))%nat /\ keeps (fun x => x ∈ held) (co_get s) (co_get s')).
  { destruct (_ || _); [|by wp_pure]. apply wp_bind. eapply wp_mono; [by apply (flush_spec (within ok n))|].
    cbn beta. intros fr s1 (? & ? & _ & _ & Hk & Hmu). apply wp_ret.
    split_and!; [done|done|destruct fr; lia|by eapply keeps_weaken; [exact Hk|]]. }
  intros _ s1 (Hok1 & Hc1 & Hm1 & Hk1). apply wp_bind, (wp_upd (within ok n)); [done|]. intros s2 Hok2 E2.
  assert (Hc2 : cache_ok (co_get s2) held) by (rewrite E2; by eapply cache_ok_counters; [..|exact Hc1]).
  assert (Hk2 : keeps (fun x => x ∈ held) (co_get s) (co_get s2)) by (by rewrite E2).
  assert (Hm2 : (mu (co_get s2) <= mu (co_get s))%nat) by (by rewrite E2).
  clear s1 Hok1 Hc1 Hm1 Hk1 E2. apply wp_bind. eapply wp_mono; [by apply (rbt_find_spec (within ok n) info s2 held)|].
  cbn beta. intros entry s1 ([Hok1 Hn1] & E1 & Hf). rewrite <- E1 in Hc2, Hk2, Hm2, Hf. clear s2 Hok2 E1. rename s1 into s2.
  apply wp_bind, wp_gets. cbn zeta.
  assert (Hmiss : wp _ (search_post info (co_get s) held) s2) by
    (apply (search_miss info k (co_get s) s2 held entry); auto; unfold budget in *; intros; apply Hagain; auto; lia).
  destruct (is_hit info entry s2) eqn:Eh; [|exact Hmiss].
  destruct entry as [h|]; [|exact Hmiss]. clear Hmiss. destruct Hf as [Ht _].
  eapply wp_mono; [by apply (hit_spec ok h s2 held)|]. cbn beta. intros rh s3 (-> & Hok3 & Hc3 & Hk3).
  split_and!; [done| |]; cbn [fst snd].
  - unfold grants. rewrite Z.eqb_refl. rewrite (iov_of_region (co_get s2)) by (by apply Hk3).
    destruct (held_entry _ _ _ Hc3 (list_elem_of_here _ _)) as (e & He & _).
    split_and!; [done| |by exists e]. unfold is_hit in Eh. unfold iov_of.
    destruct (mc_entries (co_get s2) !! h); [|done]. by apply andb_true_iff in Eh as [? _].
  - eapply keeps_trans; [exact Hk2|]. by eapply keeps_weaken; [exact Hk3|].
Qed.

Lemma search_loop_spec n info s held c0 :
  ok s -> cache_ok (co_get s) held -> (budget s <= n)%nat -> keeps (fun x => x ∈ held) c0 (co_get s) ->
  wp (search_loop n info) (search_post info c0 held) s.
Proof.
  revert s c0. induction n as [|n IH]; intros s c0 Hok Hc Hn Hk; rewrite search_loop_round.
  all: eapply wp_mono; [apply (search_round_spec _ _ s held); [done..|]|].
  - intros. lia.
  - intros rh s' (? & ? & ?). split_and!; auto. by eapply keeps_trans.
  - intros s' Hok' Hc' Hm' Hk'. apply IH; auto. lia.
  - intros rh s' (? & ? & ?). split_and!; auto. by eapply keeps_trans.
Qed.

(** A search in a cache that has a region enclosing the request, nothing to
    flush and a monitor that vouches for its mappings registers nothing. *)
Lemma search_hit info s held x :
  ok s -> cache_ok (co_get s) held -> ofi_mr_cache_full (co_get s) = false -> mc_dead_region_list (co_get s) = [] ->
  x ∈ tree_of (co_get s) -> ofi_iov_within info (iov_of (co_get s) x) = true -> (forall v s', co_mon_valid info v s' = true) ->
  wp (ofi_mr_cache_search info) (fun '(r, h) s' => ok s' /\ keeps (fun _ => True) (co_get s) (co_get s') /\
    (r = 0 -> h ∈ tree_of (co_get s) /\ ofi_iov_within info (iov_of (co_get s) h) = true)) s.
Proof.
  intros Hok Hc Hf Hd Hx Hin Hv. unfold ofi_mr_cache_search. apply wp_bind, wp_gets. destruct (negb _); [by apply wp_ret|].
  apply wp_bind, wp_gets. rewrite search_loop_round. unfold search_round. apply wp_bind, wp_gets, wp_bind. cbn zeta. rewrite Hf, Hd. apply wp_ret.
  apply wp_bind, (wp_upd ok); [done|]. intros s1 Hok1 E1.
  assert (Hc1 : cache_ok (co_get s1) held) by (rewrite E1; by eapply cache_ok_counters; [..|exact Hc]).
  apply wp_bind. eapply wp_mono; [by apply (rbt_find_spec ok info s1 held)|]. cbn beta. intros r s2 (Hok2 & E2 & Hr).
  rewrite <- E2 in Hc1, Hr. assert (E3 : tree_of (co_get s2) = tree_of (co_get s) /\ mc_entries (co_get s2) = mc_entries (co_get s)) by (by rewrite E2, E1).
  destruct E3 as [Et Ee]. assert (Ei : forall h, iov_of (co_get s2) h = iov_of (co_get s) h) by (intros h; unfold iov_of; by rewrite Ee).
  destruct (found_encloses info _ held x r Hc1) as (h & -> & Hh & Hw); [by rewrite Et|by rewrite Ei|exact Hr|].
  apply wp_bind, wp_gets. destruct (ck_tree _ _ Hc1 h Hh) as (e & He & _). unfold is_hit. rewrite He, Hv.
  assert (ofi_iov_within info (me_iov e) = true) as -> by (unfold iov_of in Hw; by rewrite He in Hw). cbn [andb].
  eapply wp_mono; [by apply (hit_spec ok h s2 held)|]. cbn beta. intros [? ?] s3 ([= -> ->] & Hok3 & _ & Hk). rewrite <- Et, <- Ei.
  split_and!; [done| |done]. eapply keeps_trans; [|exact Hk]. by rewrite E2, E1.
Qed.

Lemma lru_le_tree c held : cache_ok c held -> (length (mc_lru_list c) <= length (tree_of c))%nat.
Proof.
  intros Hc. apply submseteq_length, NoDup_submseteq; [apply Hc|]. intros x Hx. by apply (ck_lru _ _ Hc).
Qed.

Lemma cleanup_loop_spec n s held :
  ok s -> cache_ok (co_get s) held -> (mu (co_get s) <= n)%nat ->
  wp (cleanup_loop n) (fun _ s' => ok s' /\ cache_ok (co_get s') held /\
    mc_dead_region_list (co_get s') = [] /\ mc_lru_list (co_get s') = [] /\
    keeps (fun _ => True) (co_get s) (co_get s')) s.
Proof.
  revert s. induction n as [|n IH]; intros s Hok Hc Hn; cbn [cleanup_loop]; apply wp_bind.
  all: eapply wp_mono; [by apply (flush_spec ok true s held)|]; cbn beta;
       intros freed s1 (Hok1 & Hc1 & Hd & _ & Hk & Hmu).
  all: destruct freed; [|wp_pure; split_and!; auto; by apply Hmu].
  - lia.
  - eapply wp_mono; [apply IH; auto; lia|]. cbn beta. intros _ s2 (? & ? & ? & ? & ?).
    split_and!; auto. by eapply keeps_trans.
Qed.

End Search.
