(* ===== verification/State.v ===== *)
(** * Endpoint, domain and world

    The objects of [rds.h] and the state every data-path operation runs on:
    one endpoint with its domain, completion queues, address vector and
    process memory, and the environment of [Kernel].  The endpoint lock is
    held by every entry point and by the progress engine, so an operation is
    an atomic state transformer.

    Objects the C code links by pointer are identified by a handle (memory
    regions, peers, cache entries) or by the id the code itself uses
    (pending operations); linked lists are lists in link order. *)

From stdpp Require Import strings.
From S2P Require Import Prelude Iov Wire Config Kernel Attr Cq Av MrCache.

(** ** Receive side *)

Record rds_rx_entry := mkRx {
  rx_context : Z; rx_iov : list iovec; rx_total_len : Z;
  rx_tag : Z; rx_ignore : Z; rx_addr : Z; rx_flags : Z }.

Record rds_unexp := mkUnexp {
  ux_hdr : rds_hdr; ux_addr : Z; ux_src : list Z;
  ux_seg_cnt : Z; ux_segs : list rds_rndzv_seg;
  ux_len : Z; ux_data : list Z }.

(** ** Deferred completions *)

Inductive rds_pend_type := RDS_PEND_RNDZV_TX | RDS_PEND_RNDZV_RX | RDS_PEND_RMA.

#[export] Instance rds_pend_type_eq_dec : EqDecision rds_pend_type.
Proof. solve_decision. Defined.

Record rds_pending := mkPending {
  p_id : Z; p_type : rds_pend_type; p_context : Z; p_flags : Z; p_len : Z;
  p_addr : Z; p_data : Z; p_tag : Z; p_error : Z;
  p_seg_remaining : Z; p_seg_deferred : Z; p_seg_total : Z;
  p_peer : list Z;
  p_mrs : option (list Z);              (* handles of uncached source regions *)
  p_cmrs : option (list Z);             (* handles of cache entries *)
  p_mr_cnt : Z; p_peer_id : Z;
  p_bounce : option Z; p_no_comp : bool
}.

#[export] Instance rds_pending_eta : Settable rds_pending := fun p =>
  mkPending (p_id p) (p_type p) (p_context p) (p_flags p) (p_len p) (p_addr p) (p_data p)
    (p_tag p) (p_error p) (p_seg_remaining p) (p_seg_deferred p) (p_seg_total p) (p_peer p)
    (p_mrs p) (p_cmrs p) (p_mr_cnt p) (p_peer_id p) (p_bounce p) (p_no_comp p).

Inductive rds_deferred_type := RDS_DEFERRED_FIN | RDS_DEFERRED_READ.

Record rds_deferred := mkDeferred {
  df_type : rds_deferred_type; df_peer : list Z; df_peerlen : Z; df_id : Z;
  df_cookie : Z; df_remote_off : Z; df_liov : list iovec }.

(** ** Memory regions *)

(** [struct rds_mr]; [mr_ep] is the endpoint whose socket registered it. *)
Record rds_mr := mkMr {
  mr_ep : Z; mr_cookie : Z; mr_offset : Z; mr_buf : Z; mr_len : Z; mr_access : Z;
  mr_ref : Z; mr_key : Z }.

#[export] Instance rds_mr_eta : Settable rds_mr := fun m =>
  mkMr (mr_ep m) (mr_cookie m) (mr_offset m) (mr_buf m) (mr_len m) (mr_access m)
    (mr_ref m) (mr_key m).

(** ** Eager-ring peers *)

Inductive rds_peer_state := RDS_PEER_NONE | RDS_PEER_CONNECTING | RDS_PEER_READY | RDS_PEER_DISABLED.

#[export] Instance rds_peer_state_eq_dec : EqDecision rds_peer_state.
Proof. solve_decision. Defined.

(** Rings, staging area and cells are addresses in process memory;
    [pe_credit_tx_addr] is the address of the [credit_tx] member. *)
Record rds_peer := mkPeer {
  pe_addr : Z; pe_sa : list Z; pe_state : rds_peer_state; pe_connect_start_ms : Z;
  pe_rx_ring : Z; pe_rx_ring_mr : option Z; pe_rx_head : Z; pe_rx_credit_sent : Z;
  pe_credit_cell : Z; pe_credit_mr : option Z;
  pe_rem_ring_cookie : Z; pe_rem_credit_cookie : Z; pe_rem_slots : Z; pe_rem_slot_size : Z;
  pe_tx_head : Z; pe_tx_tail : Z; pe_tx_stage : Z; pe_credit_tx_addr : Z }.

#[export] Instance rds_peer_eta : Settable rds_peer := fun p =>
  mkPeer (pe_addr p) (pe_sa p) (pe_state p) (pe_connect_start_ms p)
    (pe_rx_ring p) (pe_rx_ring_mr p) (pe_rx_head p) (pe_rx_credit_sent p)
    (pe_credit_cell p) (pe_credit_mr p) (pe_rem_ring_cookie p) (pe_rem_credit_cookie p)
    (pe_rem_slots p) (pe_rem_slot_size p) (pe_tx_head p) (pe_tx_tail p) (pe_tx_stage p)
    (pe_credit_tx_addr p).

(** ** The endpoint *)

Record rds_ep := mkEp {
  e_self : Z;                            (* the endpoint's identity *)
  e_sock : Z; e_is_bound : bool; e_transport : Z;
  e_caps : Z; e_tx_op_flags : Z; e_rx_op_flags : Z;
  e_tx_cq : option Z; e_rx_cq : option Z;
  e_cq_lists : list Z;                   (* queues whose ep_list holds the endpoint *)
  e_cntrs : gmap Z Z;                    (* counter bound to each index of cntrs[] *)
  e_cntr_lists : list Z;                 (* counters whose ep_list holds the endpoint *)
  e_av : bool; e_ref : Z;
  e_rx_posted_msg : list rds_rx_entry; e_rx_posted_tag : list rds_rx_entry;
  e_rx_unexp_msg : list rds_unexp; e_rx_unexp_tag : list rds_unexp;
  e_pending : list rds_pending; e_deferred : list rds_deferred;
  e_rndzv_tx_inflight : Z; e_op_id : Z;
  e_rx_buf_size : Z; e_cmsg_size : Z;
  e_eager_rdma : bool; e_ring_slots : Z; e_ring_slot_size : Z; e_ring_max_peers : Z;
  e_ring_payload : Z;
  e_peers : gmap Z rds_peer;             (* every live peer object *)
  e_peer_hash : gmap Z (list Z);         (* bucket -> chain; absent is empty *)
  e_peer_lru : list Z; e_peer_cnt : Z;
  e_next_peer : Z                        (* next peer handle *)
}.

#[export] Instance rds_ep_eta : Settable rds_ep := fun e =>
  mkEp (e_self e) (e_sock e) (e_is_bound e) (e_transport e) (e_caps e) (e_tx_op_flags e)
    (e_rx_op_flags e) (e_tx_cq e) (e_rx_cq e) (e_cq_lists e) (e_cntrs e) (e_cntr_lists e) (e_av e) (e_ref e) (e_rx_posted_msg e)
    (e_rx_posted_tag e) (e_rx_unexp_msg e) (e_rx_unexp_tag e) (e_pending e) (e_deferred e)
    (e_rndzv_tx_inflight e) (e_op_id e) (e_rx_buf_size e) (e_cmsg_size e) (e_eager_rdma e)
    (e_ring_slots e) (e_ring_slot_size e) (e_ring_max_peers e) (e_ring_payload e)
    (e_peers e) (e_peer_hash e) (e_peer_lru e) (e_peer_cnt e) (e_next_peer e).

(** ** The domain *)

Record rds_domain := mkDomain {
  d_reg_ep : option Z;                   (* endpoint lent for registration *)
  d_mr_cache : ofi_mr_cache; d_cache_enabled : bool;
  d_reg_dest : option (list Z); d_reg_dest_len : Z;
  d_mrs : gmap Z rds_mr;                 (* live struct rds_mr objects *)
  d_next_mr : Z;                         (* next region handle *)
  d_eps : gmap Z Z                       (* the domain's other live endpoints: their sockets *)
}.

#[export] Instance rds_domain_eta : Settable rds_domain := fun d =>
  mkDomain (d_reg_ep d) (d_mr_cache d) (d_cache_enabled d) (d_reg_dest d) (d_reg_dest_len d)
    (d_mrs d) (d_next_mr d) (d_eps d).

(** ** Counters (util_cntr.c)

    The operations a counter has depend on how it was opened: plain, without
    a wait object, or imported from another provider. *)

Inductive cntr_ops := UTIL_CNTR_OPS | UTIL_CNTR_NO_WAIT_OPS | UTIL_PEER_CNTR_OPS.

Record util_cntr := mkCntr {
  cn_cnt : Z; cn_err : Z; cn_ref : Z; cn_flags : Z; cn_ops : cntr_ops; cn_wait : bool; cn_internal_wait : bool }.

#[export] Instance util_cntr_eta : Settable util_cntr := fun c =>
  mkCntr (cn_cnt c) (cn_err c) (cn_ref c) (cn_flags c) (cn_ops c) (cn_wait c) (cn_internal_wait c).

(** ** Objects and references (util_fabric.c, util_domain.c)

    The fabric, and the part of the domain all providers share.  The member
    [ref] of the address vector, when there is one, and of every open
    completion queue is kept here as well. *)

Record util_fabric := mkFabric { uf_ref : Z; uf_name : string; uf_domain_list : list Z }.

#[export] Instance util_fabric_eta : Settable util_fabric := fun f => mkFabric (uf_ref f) (uf_name f) (uf_domain_list f).

Record util_domain := mkUtilDomain {
  ud_self : Z; ud_ref : Z; ud_name : string; ud_caps : Z; ud_mode : Z; ud_mr_mode : Z;
  ud_addr_format : fi_addr_format; ud_av_type : fi_av_type }.

#[export] Instance util_domain_eta : Settable util_domain := fun d =>
  mkUtilDomain (ud_self d) (ud_ref d) (ud_name d) (ud_caps d) (ud_mode d) (ud_mr_mode d) (ud_addr_format d) (ud_av_type d).

Record objects := mkObjects {
  ob_fabric : util_fabric; ob_domain : util_domain;
  ob_av : option Z; ob_cq_refs : gmap Z Z }.

#[export] Instance objects_eta : Settable objects := fun o =>
  mkObjects (ob_fabric o) (ob_domain o) (ob_av o) (ob_cq_refs o).

(** ** The world *)

(** History of what the endpoint handed to the socket: destination, bytes,
    RDMA arguments and the errno of the call. *)
Record sent := mkSent {
  sn_name : list Z; sn_payload : list Z; sn_rdma : option rds_rdma_args; sn_errno : Z }.

Record world {K : Type} := mkWorld {
  w_cfg : rds_config;
  w_ep : rds_ep;
  w_live : bool;                         (* the endpoint object still exists *)
  w_dom : rds_domain;
  w_cqs : gmap Z util_cq;
  w_cntrs : gmap Z util_cntr;
  w_avec : util_av;
  w_mem : mem;
  w_k : K;
  w_log : list sent;
  w_obj : objects
}.
Arguments world : clear implicits.

#[export] Instance world_eta K : Settable (world K) := fun w =>
  mkWorld K (w_cfg w) (w_ep w) (w_live w) (w_dom w) (w_cqs w) (w_cntrs w) (w_avec w) (w_mem w) (w_k w) (w_log w) (w_obj w).

Definition St (K A : Type) : Type := M (world K) A.

(** Reduce projections of updated records. *)
Ltac w_simpl :=
  cbn [set_field w_cfg w_ep w_live w_dom w_cqs w_cntrs w_avec w_mem w_k w_log w_obj
       e_self e_sock e_is_bound e_transport e_caps e_tx_op_flags e_rx_op_flags e_tx_cq e_rx_cq
       e_cq_lists e_cntrs e_cntr_lists e_av e_ref e_rx_posted_msg e_rx_posted_tag e_rx_unexp_msg e_rx_unexp_tag e_pending e_deferred
       e_rndzv_tx_inflight e_op_id e_rx_buf_size e_cmsg_size e_eager_rdma e_ring_slots
       e_ring_slot_size e_ring_max_peers e_ring_payload e_peers e_peer_hash e_peer_lru e_peer_cnt
       e_next_peer d_reg_ep d_mr_cache d_cache_enabled d_reg_dest d_reg_dest_len d_mrs d_next_mr d_eps
       p_id p_type p_context p_flags p_len p_addr p_data p_tag p_error p_seg_remaining p_seg_deferred
       p_seg_total p_peer p_mrs p_cmrs p_mr_cnt p_peer_id p_bounce p_no_comp
       pe_addr pe_sa pe_state pe_connect_start_ms pe_rx_ring pe_rx_ring_mr pe_rx_head
       pe_rx_credit_sent pe_credit_cell pe_credit_mr pe_rem_ring_cookie pe_rem_credit_cookie
       pe_rem_slots pe_rem_slot_size pe_tx_head pe_tx_tail pe_tx_stage pe_credit_tx_addr
       mr_ep mr_cookie mr_offset mr_buf mr_len mr_access mr_ref mr_key] in *.

(** ** Calls into the environment *)

Section Sys.
Context {K : Type} `{!Kernel K}.

Definition ep_get {A} (f : rds_ep -> A) : St K A := gets (fun w => f (w_ep w)).
Definition ep_upd (f : rds_ep -> rds_ep) : St K unit := modify (fun w => w <| w_ep ::= f |>).
Definition dom_upd (f : rds_domain -> rds_domain) : St K unit := modify (fun w => w <| w_dom ::= f |>).

(** One reference more or less to the domain, the address vector, a queue. *)
Definition obj_upd (f : objects -> objects) : St K unit := modify (fun w => w <| w_obj ::= f |>).
Definition dom_ref (n : Z) : St K unit := obj_upd (fun o => o <| ob_domain ::= fun d => d <| ud_ref ::= Z.add n |> |>).
Definition av_ref (n : Z) : St K unit := obj_upd (fun o => o <| ob_av ::= fmap (Z.add n) |>).
Definition cq_ref (n id : Z) : St K unit := obj_upd (fun o => o <| ob_cq_refs ::= alter (Z.add n) id |>).

Definition sys_alloc (n : Z) : St K (option Z) := fun w =>
  let '(r, k') := k_alloc n (w_k w) in Some (r, w <| w_k := k' |>).

(** [sendmsg] on the endpoint's socket; the result is the errno. *)
Definition sys_sendmsg (name payload : list Z) (ra : option rds_rdma_args) : St K Z := fun w =>
  let '(errno, k') := k_sendmsg (e_sock (w_ep w)) name payload ra (w_k w) in
  Some (errno, w <| w_k := k' |> <| w_log ::= fun l => l ++ [mkSent name payload ra errno] |>).

Definition sys_time : St K Z := fun w =>
  let '(t, k') := k_gettime_ms (w_k w) in Some (t, w <| w_k := k' |>).

Definition sys_recvmsg (bufsize cmsgsize : Z) : St K recv_result := fun w =>
  let '(r, k') := k_recvmsg (e_sock (w_ep w)) bufsize cmsgsize (w_k w) in Some (r, w <| w_k := k' |>).

(** The cookie lands in a 64-bit variable. *)
Definition sys_get_mr (sock : Z) (args : rds_mr_args) : St K (Z + Z) := fun w =>
  let '(r, k') := k_get_mr sock args (w_k w) in
  Some (match r with inl e => inl e | inr c => inr (u64 c) end, w <| w_k := k' |>).

Definition sys_free_mr (sock cookie : Z) : St K unit :=
  modify (fun w => w <| w_k ::= k_free_mr sock cookie |>).

(** Run a completion-queue operation on queue [id]. *)
Definition cq_run {A} (id : Z) (op : CQ (K := K) A) : St K A := fun w =>
  match w_cqs w !! id with
  | None => None
  | Some q =>
      match op (q, w_k w) with
      | None => None
      | Some (a, (q', k')) => Some (a, w <| w_cqs ::= insert id q' |> <| w_k := k' |>)
      end
  end.

(** The socket of the endpoint an object points to; undefined when that
    endpoint has been freed. *)
Definition ep_sock_of (w : world K) (ep : Z) : option Z :=
  if ep =? e_self (w_ep w) then (if w_live w then Some (e_sock (w_ep w)) else None)
  else d_eps (w_dom w) !! ep.

Definition sock_of (ep : Z) : St K Z := fun w =>
  match ep_sock_of w ep with Some s => Some (s, w) | None => None end.

(** [rds_av_addr]: undefined without a bound address vector. *)
Definition rds_av_addr (fi_addr : Z) : St K (option (list Z)) :=
  b <- ep_get e_av ;;
  if b then gets (fun w => ofi_av_get_addr (w_avec w) fi_addr) else ub.

Definition av_addrlen_get : St K Z :=
  b <- ep_get e_av ;;
  if b then gets (fun w => av_addrlen (w_avec w)) else ub.

Definition read_mem (a n : Z) : St K (list Z) := gets (fun w => mem_read (w_mem w) a n).
Definition write_mem (a : Z) (bs : list Z) : St K unit :=
  modify (fun w => w <| w_mem ::= fun m => mem_write m a bs |>).

(** *** Specifications *)

Lemma wp_ep_get {A} (f : rds_ep -> A) Q w : Q (f (w_ep w)) w -> wp (ep_get f) Q w.
Proof. exact (fun H => H). Qed.
Lemma wp_ep_upd f Q w : Q tt (w <| w_ep ::= f |>) -> wp (ep_upd f) Q w.
Proof. exact (fun H => H). Qed.
Lemma wp_dom_upd f Q w : Q tt (w <| w_dom ::= f |>) -> wp (dom_upd f) Q w.
Proof. exact (fun H => H). Qed.

Lemma wp_sys_alloc n Q w : (forall r k', Q r (w <| w_k := k' |>)) -> wp (sys_alloc n) Q w.
Proof. intros H. unfold wp, sys_alloc. destruct (k_alloc n (w_k w)). apply H. Qed.

Lemma wp_sys_sendmsg name payload ra Q w :
  (forall errno k', Q errno (w <| w_k := k' |>
                               <| w_log ::= fun l => l ++ [mkSent name payload ra errno] |>)) ->
  wp (sys_sendmsg name payload ra) Q w.
Proof. intros H. unfold wp, sys_sendmsg. destruct (k_sendmsg _ name payload ra (w_k w)). apply H. Qed.

Lemma wp_sys_time Q w : (forall t k', Q t (w <| w_k := k' |>)) -> wp sys_time Q w.
Proof. intros H. unfold wp, sys_time. destruct (k_gettime_ms (w_k w)). apply H. Qed.

Lemma wp_sys_recvmsg n c Q w : (forall r k', Q r (w <| w_k := k' |>)) -> wp (sys_recvmsg n c) Q w.
Proof. intros H. unfold wp, sys_recvmsg. destruct (k_recvmsg _ n c (w_k w)). apply H. Qed.

Lemma wp_sys_get_mr s a Q w :
  (forall r k', match r with inl _ => True | inr c => 0 <= c < 2 ^ 64 end -> Q r (w <| w_k := k' |>)) -> wp (sys_get_mr s a) Q w.
Proof.
  intros H. unfold wp, sys_get_mr. destruct (k_get_mr s a (w_k w)) as [[e|c] k']; apply H; [done|apply u64_range].
Qed.

Lemma wp_sys_free_mr s c Q w : (forall k', Q tt (w <| w_k := k' |>)) -> wp (sys_free_mr s c) Q w.
Proof. intros H. apply H. Qed.

Lemma wp_sock_of ep s Q w : ep_sock_of w ep = Some s -> Q s w -> wp (sock_of ep) Q w.
Proof. intros H HQ. unfold wp, sock_of. by rewrite H. Qed.
End Sys.

(** One administrative step of a world program; environment calls introduce
    their outcome. *)
Ltac st_step :=
  first
    [ apply wp_bind | apply wp_ret | apply wp_ep_get | apply wp_ep_upd | apply wp_dom_upd
    | apply wp_gets | apply wp_modify
    | apply wp_sys_alloc; intros ? ? | apply wp_sys_sendmsg; intros ? ?
    | apply wp_sys_time; intros ? ? | apply wp_sys_recvmsg; intros ? ?
    | apply wp_sys_get_mr; intros ? ? | apply wp_sys_free_mr; intros ?
    | progress cbn beta iota ].
Ltac st_pure := repeat st_step.
