(* ===== verification/Mr.v ===== *)
(** * Memory registration

    [prov/rds/src/rds_mr.c]: kernel registration, reference-counted regions,
    the callbacks and entry points of the registration cache, and the
    [fi_ops_mr] operations. *)

From S2P Require Import Prelude Iov Wire Config Kernel Cq Av MrCache State.

Definition RDS_RDMA_READWRITE : Z := 1.
Definition RDS_RDMA_NOTIFY_ME : Z := 0x20.

Section Mr.
Context {K : Type} `{!Kernel K}.

(** ** Kernel registration *)

(** [rds_kernel_reg]: an error or the cookie. *)
Definition rds_kernel_reg (sock buf len access : Z) (dest : option (list Z)) : St K (Z + Z) :=
  if len >? RDS_KERNEL_SEG_MAX then ret (inl (- FI_EINVAL))
  else
    let flags :=
      if has access (Z.lor (Z.lor FI_REMOTE_WRITE FI_REMOTE_READ) (Z.lor FI_WRITE FI_READ))
      then RDS_RDMA_READWRITE else 0 in
    r <- sys_get_mr sock (mkMrArgs buf len flags (take 16 <$> dest)) ;;
    match r with
    | inl err => ret (inl (- err))
    | inr cookie => ret (inr cookie)
    end.

Definition rds_kernel_free (sock cookie : Z) : St K unit := sys_free_mr sock cookie.

(** ** Regions *)

Definition MR_SIZE : Z := 120.

(** [rds_reg_internal]: the error stored through [err_out], or the handle
    of the new region. *)
Definition rds_reg_internal (ep buf len access : Z) (dest : option (list Z)) : St K (Z + Z) :=
  sock <- sock_of ep ;;
  r <- rds_kernel_reg sock buf len access dest ;;
  match r with
  | inl err => ret (inl err)
  | inr cookie =>
      p <- sys_alloc MR_SIZE ;;
      match p with
      | None =>
          sock <- sock_of ep ;;
          rds_kernel_free sock cookie ;;; ret (inl (- FI_ENOMEM))
      | Some _ =>
          h <- gets (fun w => d_next_mr (w_dom w)) ;;
          dom_upd (fun d => d <| d_mrs ::= insert h (mkMr ep cookie (rds_cookie_off cookie) buf len access 1 0) |>
                              <| d_next_mr ::= Z.add 1 |>) ;;;
          ret (inr h)
      end
  end.

(** [rds_mr_put]: NULL is ignored; the last reference frees the region in
    the kernel through the socket of its endpoint. *)
Definition rds_mr_put (mr : option Z) : St K unit :=
  match mr with
  | None => ret tt
  | Some h =>
      m <- gets (fun w => d_mrs (w_dom w) !! h) ;;
      m <- of_opt m ;;
      let ref := mr_ref m - 1 in
      dom_upd (fun d => d <| d_mrs ::= insert h (m <| mr_ref := ref |>) |>) ;;;
      if negb (ref =? 0) then ret tt
      else
        sock <- sock_of (mr_ep m) ;;
        rds_kernel_free sock (mr_cookie m) ;;;
        dom_upd (fun d => d <| d_mrs ::= delete h |>)
  end.

Fixpoint rds_mr_put_all (l : list Z) : St K unit :=
  match l with
  | [] => ret tt
  | h :: l' => rds_mr_put (Some h) ;;; rds_mr_put_all l'
  end.

(** ** Cache callbacks *)

Definition cache_entry (w : world K) (h : Z) : option ofi_mr_entry :=
  mc_entries (d_mr_cache (w_dom w)) !! h.

Definition rds_cache_add_region (h : Z) : St K Z :=
  reg <- gets (fun w => d_reg_ep (w_dom w)) ;;
  match reg with
  | None => ret (- FI_EOPBADSTATE)
  | Some ep =>
      sock <- sock_of ep ;;
      e <- gets (fun w => cache_entry w h) ;;
      e <- of_opt e ;;
      dest <- gets (fun w => d_reg_dest (w_dom w)) ;;
      r <- rds_kernel_reg sock (iov_base (me_iov e)) (iov_len (me_iov e))
             (Z.lor FI_REMOTE_READ FI_REMOTE_WRITE) dest ;;
      match r with
      | inl err => ret err
      | inr cookie =>
          dom_upd (fun d => d <| d_mr_cache ::= fun c =>
            c <| mc_entries ::= alter (fun e => e <| me_data := mkCached cookie (rds_cookie_off cookie) |>) h |> |>) ;;;
          ret 0
      end
  end.

Definition rds_cache_delete_region (h : Z) : St K unit :=
  reg <- gets (fun w => d_reg_ep (w_dom w)) ;;
  match reg with
  | None => ret tt
  | Some ep =>
      sock <- sock_of ep ;;
      e <- gets (fun w => cache_entry w h) ;;
      e <- of_opt e ;;
      rds_kernel_free sock (cm_cookie (me_data e))
  end.

(** The domain owns the cache. *)
#[global] Instance rds_cache_owner : CacheOwner (world K) := {
  co_get w := d_mr_cache (w_dom w);
  co_upd f w := w <| w_dom ::= fun d => d <| d_mr_cache ::= f |> |>;
  co_add_region := rds_cache_add_region;
  co_delete_region := rds_cache_delete_region;
  co_alloc := sys_alloc;
  co_mon_valid info e w := k_mon_valid info e (w_k w);
  co_mon_subscribe iov := fun w =>
    let '(r, k') := k_mon_subscribe iov (w_k w) in Some (r, w <| w_k := k' |>);
  co_mon_unsubscribe iov := modify (fun w => w <| w_k ::= k_mon_unsubscribe iov |>);
  co_patience w := k_patience (w_k w)
}.

(** [rds_mr_cache_open].  The cache refers to its domain.  [max_cnt]/[max_size] are the process-wide cache
    limits, [monitor] whether a default memory monitor exists, [setup] the
    result of attaching the monitor and creating the entry pool. *)
Definition rds_mr_cache_open (monitor : bool) (max_cnt max_size setup : Z) : St K Z :=
  cfg <- gets w_cfg ;;
  if negb (rds_mr_cache_enable cfg) then
    dom_upd (fun d => d <| d_cache_enabled := false |>) ;;; ret 0
  else
    let r := match ofi_mr_cache_init monitor max_cnt max_size with
             | inl e => inl e
             | inr c => if negb (setup =? 0) then inl setup else inr c
             end in
    match r with
    | inl e => dom_upd (fun d => d <| d_cache_enabled := false |>) ;;; ret e
    | inr c =>
        let c := if mc_cached_max_size c =? SIZE_MAX
                 then c <| mc_cached_max_size := 256 * 1024 * 1024 |> else c in
        dom_ref 1 ;;;
        dom_upd (fun d => d <| d_mr_cache := c |> <| d_cache_enabled := true |>) ;;; ret 0
    end.

Definition rds_mr_cache_close : St K unit :=
  b <- gets (fun w => d_cache_enabled (w_dom w)) ;;
  if b then
    ofi_mr_cache_cleanup ;;; dom_ref (-1) ;;; dom_upd (fun d => d <| d_cache_enabled := false |>)
  else ret tt.

(** [rds_reg_cache_get]: an error, or the cookie and the entry. *)
Definition rds_reg_cache_get (buf len : Z) (dest : list Z) (dest_len : Z) : St K (Z + Z * Z) :=
  b <- gets (fun w => d_cache_enabled (w_dom w)) ;;
  if negb b then ret (inl (- FI_ENOSYS))
  else
    dom_upd (fun d => d <| d_reg_dest := Some dest |> <| d_reg_dest_len := dest_len |>) ;;;
    r <- ofi_mr_cache_search (mkIov buf len) ;;
    dom_upd (fun d => d <| d_reg_dest := None |> <| d_reg_dest_len := 0 |>) ;;;
    let '(err, h) := r in
    if negb (err =? 0) then ret (inl err)
    else
      e <- gets (fun w => cache_entry w h) ;;
      e <- of_opt e ;;
      ret (inr (cm_cookie (me_data e), h)).

Definition rds_reg_cache_put (h : Z) : St K unit := ofi_mr_cache_delete h.

Fixpoint rds_reg_cache_put_all (l : list Z) : St K unit :=
  match l with
  | [] => ret tt
  | h :: l' => rds_reg_cache_put h ;;; rds_reg_cache_put_all l'
  end.

(** ** fi_ops_mr *)

(** [struct fi_mr_attr]: the fields the provider reads. *)
Record fi_mr_attr := mkMrAttr { at_iov : list iovec; at_access : Z }.

(** [rds_mr_regattr]: the result and, on success, the region's handle.  The
    registered region belongs to the endpoint lent to the domain. *)
Definition rds_mr_regattr (attr : option fi_mr_attr) : St K (Z * option Z) :=
  match attr with
  | Some (mkMrAttr [v] access) =>
      reg <- gets (fun w => d_reg_ep (w_dom w)) ;;
      match reg with
      | None => ret (- FI_EOPBADSTATE, None)
      | Some ep =>
          r <- rds_reg_internal ep (iov_base v) (iov_len v) access None ;;
          match r with
          | inl _ => ret (- FI_ENOMEM, None)
          | inr h =>
              dom_upd (fun d => d <| d_mrs ::= alter (fun m => m <| mr_key := mr_cookie m |>) h |>) ;;;
              ret (0, Some h)
          end
      end
  | _ => ret (- FI_EINVAL, None)
  end.

Definition rds_mr_regv (iov : list iovec) (access : Z) : St K (Z * option Z) :=
  rds_mr_regattr (Some (mkMrAttr iov access)).

Definition rds_mr_reg (buf len access : Z) : St K (Z * option Z) :=
  rds_mr_regv [mkIov buf len] access.

Definition rds_mr_close (h : Z) : St K Z := rds_mr_put (Some h) ;;; ret 0.
End Mr.
