(* ===== verification/MrInv.v ===== *)
(** * Correctness of memory registration

    The provider's callbacks keep the promises the registration cache relies
    on, so the contracts of the cache hold for the domain of the endpoint;
    the reference-counted regions of [rds_mr.c] are freed exactly once. *)

From stdpp Require Import sorting.
From S2P Require Import Prelude Iov Wire Config Kernel Cq Av Rbt RbtSpec MrCache MrCacheInv State Mr.

(** The kernel does not put a registration off for ever.  [RDS_GET_MR] may
    answer [EAGAIN], which the cache reads as "search again at once"; each
    time it does so the patience of the environment goes down, and the other
    calls a lookup makes do not bring it back.  (What happens when the kernel
    never answers otherwise is the subject of the file [Again].) *)
Class MrAgainEnds (K : Type) `{!Kernel K} : Prop := {
  mra_get : forall sock args (k : K), (k_patience (k_get_mr sock args k).2 <= k_patience k)%nat;
  mra_again : forall sock args (k : K), (k_get_mr sock args k).1 = inl FI_EAGAIN -> (k_patience (k_get_mr sock args k).2 < k_patience k)%nat;
  mra_free : forall sock cookie (k : K), (k_patience (k_free_mr sock cookie k) <= k_patience k)%nat;
  mra_alloc : forall n (k : K), (k_patience (k_alloc n k).2 <= k_patience k)%nat;
  mra_sub : forall v (k : K), (k_patience (k_mon_subscribe v k).2 <= k_patience k)%nat;
  mra_unsub : forall v (k : K), (k_patience (k_mon_unsubscribe v k) <= k_patience k)%nat }.

#[export] Instance quiet_again_ends : MrAgainEnds quiet_state.
Proof. by split. Qed.

(** The cache of a domain that uses it; without it nobody holds an entry. *)
Definition cache_on (on : bool) (c : ofi_mr_cache) (held : list Z) : Prop := if on then cache_ok c held else held = [].

#[export] Instance cache_on_perm on c : Proper ((≡ₚ) ==> iff) (cache_on on c).
Proof.
  intros l1 l2 E. destruct on; [by apply cache_ok_perm|]. unfold cache_on. split; intros ->; [by apply Permutation_nil|by apply Permutation_nil_r].
Qed.

Section MrInv.
Context {K : Type} `{!Kernel K}.
Implicit Types w : world K.

Definition caching w : bool := d_cache_enabled (w_dom w).
Definition the_cache w : ofi_mr_cache := d_mr_cache (w_dom w).

(** The endpoint lent to the domain exists. *)
Definition reg_ok w : Prop :=
  forall ep, d_reg_ep (w_dom w) = Some ep -> is_Some (ep_sock_of w ep).

(** [w'] differs from [w] in the cache and the environment only. *)
Definition set_cache w (c : ofi_mr_cache) (k : K) : world K :=
  w <| w_dom ::= fun d => d <| d_mr_cache := c |> |> <| w_k := k |>.

Definition cache_only w w' : Prop := exists c k, w' = set_cache w c k.

Lemma set_cache_id w : set_cache w (the_cache w) (w_k w) = w.
Proof. by destruct w as [? ? ? [] ? ? ? ? ?]. Qed.

Lemma set_cache_twice w c k c' k' : set_cache (set_cache w c k) c' k' = set_cache w c' k'.
Proof. done. Qed.

Lemma cache_only_refl w : cache_only w w.
Proof. exists (the_cache w), (w_k w). symmetry. apply set_cache_id. Qed.

Lemma cache_only_env w w' k : cache_only w w' -> cache_only w (w' <| w_k := k |>).
Proof. intros (c & k0 & ->). by exists c, k. Qed.

(** The state predicate the cache runs under. *)
Definition owner_ok w0 w : Prop := reg_ok w0 /\ cache_only w0 w.

Lemma owner_ok_refl w : reg_ok w -> owner_ok w w.
Proof. split; [done|apply cache_only_refl]. Qed.

(** The environment after a registration. *)
Definition calmed (again : bool) w (k' : K) : Prop :=
  if again then (k_patience k' < k_patience (w_k w))%nat else (k_patience k' <= k_patience (w_k w))%nat.

Lemma wp_kernel_reg `{!MrAgainEnds K} sock buf len access dest (Q : Z + Z -> world K -> Prop) w :
  (forall r k', calmed (bool_decide (r = inl (- FI_EAGAIN))) w k' -> Q r (w <| w_k := k' |>)) ->
  wp (rds_kernel_reg sock buf len access dest) Q w.
Proof.
  intros HQ. unfold rds_kernel_reg. destruct (len >? _).
  { apply wp_ret. replace w with (w <| w_k := w_k w |>) by (by destruct w). apply HQ. unfold calmed. rewrite bool_decide_eq_false_2 by done. done. }
  apply wp_bind. unfold sys_get_mr, wp. match goal with |- context [k_get_mr ?s ?a ?k] =>
    pose proof (mra_get s a k) as Hle; pose proof (mra_again s a k) as Hlt; destruct (k_get_mr s a k) as [[err|cookie] k'] end.
  all: cbn in *; apply HQ; unfold calmed.
  2: by rewrite bool_decide_eq_false_2 by done.
  case_bool_decide as E; [|done]. injection E as E. apply Hlt. f_equal. lia.
Qed.

Lemma rds_cache_add_region_law `{!MrAgainEnds K} w0 h w :
  owner_ok w0 w -> is_Some (mc_entries (the_cache w) !! h) ->
  wp (rds_cache_add_region h) (fun r w' => owner_ok w0 w' /\ calmer w w' /\ (r = - FI_EAGAIN -> (co_patience w' < co_patience w)%nat) /\ exists d,
    the_cache w' = (the_cache w) <| mc_entries ::= alter (fun e => e <| me_data := d |>) h |>) w.
Proof.
  intros [Hr (c & k & ->)] [e He]. unfold rds_cache_add_region. cbn in He. apply wp_bind, wp_gets.
  assert (Hsame : forall k', exists d, the_cache (set_cache w0 c k') = c <| mc_entries ::= alter (fun e => e <| me_data := d |>) h |>).
  { intros k'. exists (me_data e). cbn. unfold set_field. rewrite alter_id; [by destruct c|].
    intros e' He'. simplify_eq. by destruct e. }
  destruct (d_reg_ep _) as [ep|] eqn:Ereg.
  2: { apply wp_ret. split_and!; [split; [done|by exists c, k]|unfold calmer; lia|done|apply Hsame]. }
  destruct (Hr ep Ereg) as [s Hs].
  apply wp_bind. eapply wp_sock_of; [exact Hs|]. apply wp_bind, wp_gets, wp_bind. eapply wp_of_opt; [exact He|].
  apply wp_bind, wp_gets, wp_bind. apply wp_kernel_reg. unfold calmed, calmer. cbn [w_k set_cache set_field]. intros [err|cookie] k' Hne.
  - apply wp_ret. split_and!; [split; [done|by exists c, k']| | |apply Hsame]; cbn; case_bool_decide; lia || congruence.
  - rewrite bool_decide_eq_false_2 in Hne by done. apply wp_bind, wp_dom_upd, wp_ret. split_and!; [split; [done|by eexists _, k']|exact Hne|done|]. by eexists.
Qed.

#[global] Instance rds_cache_laws `{!MrAgainEnds K} w0 : CacheLaws (world K) (owner_ok w0).
Proof.
  split.
  - done.
  - intros f w [Hr (c & k & ->)]. split; [done|]. by exists (f c), k.
  - done.
  - intros h w Hok He. by apply rds_cache_add_region_law.
  - intros h w [Hr (c & k & ->)] [e He]. cbn in He. cbn [co_delete_region rds_cache_owner]. unfold calmer.
    unfold rds_cache_delete_region. apply wp_bind, wp_gets. destruct (d_reg_ep _) as [ep|] eqn:Ereg.
    + destruct (Hr ep Ereg) as [s Hs]. apply wp_bind. eapply wp_sock_of; [exact Hs|].
      apply wp_bind, wp_gets, wp_bind. eapply wp_of_opt; [exact He|].
      apply wp_modify. split_and!; [split; [done|by eexists c, _]|apply mra_free|done].
    + apply wp_ret. split_and!; [split; [done|by exists c, k]|done|done].
  - intros n w [Hr (c & k & ->)]. cbn [co_alloc rds_cache_owner]. unfold calmer, sys_alloc, wp. pose proof (mra_alloc n k) as Ha. cbn.
    destruct (k_alloc n k) as [r k']. split_and!; [split; [done|by exists c, k']|done|done].
  - intros v w [Hr (c & k & ->)]. cbn [co_mon_subscribe rds_cache_owner]. unfold calmer, wp. pose proof (mra_sub v k) as Ha. cbn.
    destruct (k_mon_subscribe v k) as [r k']. split_and!; [split; [done|by exists c, k']|done|done].
  - intros v w [Hr (c & k & ->)]. apply wp_modify. split_and!; [split; [done|by eexists c, _]|apply mra_unsub|done].
Qed.

End MrInv.

(** ** The contract of the registration cache *)

(** What the users of a cache do with it; [held] lists the entries they
    hold, and a release names one of them by position. *)
Inductive cache_call :=
| CSearch (info : iovec) | CRelease (i : nat) | CNotify (addr len : Z) | CFlush (lru : bool).

Section Contract.
Context {S : Type} `{!CacheOwner S} (ok : S -> Prop) `{!CacheLaws S ok}.
Implicit Types s : S.

Fixpoint cache_calls (ops : list cache_call) (held : list Z) : M S (list Z) :=
  match ops with
  | [] => ret held
  | CSearch v :: ops' =>
      rh <- ofi_mr_cache_search v ;;
      cache_calls ops' (if rh.1 =? 0 then rh.2 :: held else held)
  | CRelease i :: ops' =>
      match held !! i with
      | Some h => ofi_mr_cache_delete h ;;; cache_calls ops' (delete i held)
      | None => cache_calls ops' held
      end
  | CNotify a n :: ops' => ofi_mr_cache_notify a n ;;; cache_calls ops' held
  | CFlush b :: ops' => ofi_mr_cache_flush b ;;; cache_calls ops' held
  end.

Lemma search_spec info s held :
  ok s -> cache_ok (co_get s) held ->
  wp (ofi_mr_cache_search info) (search_post ok info (co_get s) held) s.
Proof.
  intros Hok Hc. unfold ofi_mr_cache_search. apply wp_bind, wp_gets. destruct (negb _).
  - apply wp_ret. split_and!; auto using keeps_refl.
  - apply wp_bind, wp_gets. apply search_loop_spec; auto using keeps_refl.
    unfold budget, mu. pose proof (lru_le_tree _ _ Hc). lia.
Qed.

Lemma notify_spec addr len s held :
  ok s -> cache_ok (co_get s) held ->
  wp (ofi_mr_cache_notify addr len) (fun _ s' => ok s' /\ cache_ok (co_get s') held /\
    tree_of (co_get s') = filter (outside (mkIov addr len) (co_get s)) (tree_of (co_get s)) /\
    keeps (fun _ => True) (co_get s) (co_get s')) s.
Proof.
  intros Hok Hc. unfold ofi_mr_cache_notify. apply wp_bind, (wp_upd ok); [done|]. intros s1 Hok1 E1.
  apply wp_bind, wp_gets. eapply wp_mono; [apply (notify_loop_spec ok _ _ s1 held); [done| |done]|].
  - rewrite E1. by eapply cache_ok_counters; [..|exact Hc].
  - cbn beta. intros _ s2 (? & ? & Ht & _ & Hk). rewrite E1 in Ht, Hk. by split_and!.
Qed.

Lemma cache_calls_spec ops s held :
  ok s -> cache_ok (co_get s) held ->
  wp (cache_calls ops held) (fun held' s' => ok s' /\ cache_ok (co_get s') held') s.
Proof.
  revert s held. induction ops as [|[v|i|a n|b] ops IH]; intros s held Hok Hc; cbn [cache_calls].
  - by apply wp_ret.
  - apply wp_bind. eapply wp_mono; [by apply search_spec|]. intros [r h] s' (Hok' & Hg & _). cbn in *.
    unfold grants in Hg. destruct (r =? 0); apply IH; auto. by destruct Hg.
  - destruct (held !! i) as [h|] eqn:Ei; [|by apply IH]. apply wp_bind.
    rewrite (delete_Permutation _ _ _ Ei) in Hc.
    eapply wp_mono; [by apply (delete_spec ok)|]. intros _ s' (? & ? & _). by apply IH.
  - apply wp_bind. eapply wp_mono; [by apply notify_spec|]. intros _ s' (? & ? & _). by apply IH.
  - apply wp_bind. eapply wp_mono; [by apply (flush_spec ok)|]. intros _ s' (? & ? & _). by apply IH.
Qed.

Lemma init_ok mon max_cnt max_size c : ofi_mr_cache_init mon max_cnt max_size = inr c -> cache_ok c [].
Proof.
  unfold ofi_mr_cache_init. destruct (_ || _); intros [= <-].
  split; cbn; try (intros h Hh; by apply elem_of_nil in Hh); try apply NoDup_nil_2; try done.
  - exists []. exact rbmap_init_ok.
  - intros h. split; [by intros ?%elem_of_nil|by intros [?%elem_of_nil _]].
  - split; [lia|]. intros h. rewrite lookup_empty. split; [by intros [? ?]|lia].
  - constructor.
Qed.

Lemma cleanup_spec s held :
  ok s -> cache_ok (co_get s) held ->
  wp ofi_mr_cache_cleanup (fun _ s' => ok s' /\ mc_entries (co_get s') = ∅ /\
    mc_lru_list (co_get s') = [] /\ mc_dead_region_list (co_get s') = [] /\
    (forall a, is_Some (rm_nodes (mc_tree (co_get s')) !! a) <-> a = SENTINEL) /\
    (held = [] -> mc_cached_cnt (co_get s') = 0 /\ mc_cached_size (co_get s') = 0)) s.
Proof.
  intros Hok1 Hc1. unfold ofi_mr_cache_cleanup. apply wp_bind, wp_gets, wp_bind.
  eapply wp_mono; [apply (cleanup_loop_spec ok _ s held); auto; unfold mu; lia|].
  cbn beta. intros _ s2 (Hok2 & Hc2 & Hd & Hl & _). apply wp_bind, (wp_on_tree ok); [done|].
  destruct (ck_rb _ _ Hc2) as [fl Hrb]. eapply wp_mono; [by eapply rbmap_cleanup_spec|].
  cbn beta. intros _ t Hno s3 Hok3 E3. apply (wp_upd ok); [done|]. intros s4 Hok4 E4. rewrite E4, E3. split_and!; [done..|exact Hno|]. intros ->.
  assert (Ht : tree_of (co_get s2) = []).
  { destruct (tree_of (co_get s2)) as [|h l] eqn:Et; [done|]. exfalso. apply (not_elem_of_nil h).
    rewrite <- Hl. apply (ck_lru _ _ Hc2). rewrite Et. split; [apply list_elem_of_here|apply not_elem_of_nil]. }
  change (mc_cached_cnt (co_get s2) = 0 /\ mc_cached_size (co_get s2) = 0). by rewrite (ck_cnt _ _ Hc2), (ck_size _ _ Hc2), Ht.
Qed.

End Contract.

Section Promises.
Context {S : Type} `{!CacheOwner S} (ok : S -> Prop).
Implicit Types s : S.

(** C21: A lookup in the registration cache always returns, for an owner that
    keeps [CacheLaws]: its callbacks are defined, and [add_region] asks for a
    retry (-FI_EAGAIN) only finitely often, each time using up some of the
    owner's patience.  (Without this bound the lookup may never return, see
    Again.search_eagain_never_returns; [rds_cache_laws] shows the laws for the
    domain of this provider.)  On success the
    caller holds an entry whose registered region encloses the requested
    buffer; on failure nothing changed hands.  In both cases every
    registration already held by someone keeps its region and its cookie. *)
Theorem ofi_mr_cache_search_spec (Hlaws : CacheLaws S ok) info s held :
  ok s -> cache_ok (co_get s) held ->
  wp (ofi_mr_cache_search info) (fun '(r, h) s' =>
    (if r =? 0 then cache_ok (co_get s') (h :: held) /\ ofi_iov_within info (iov_of (co_get s') h) = true
     else cache_ok (co_get s') held) /\
    forall x, x ∈ held -> region (co_get s') x = region (co_get s) x) s.
Proof.
  intros Hok Hc. eapply wp_mono; [by apply search_spec|]. intros [r h] s' (_ & Hg & _ & Hk). cbn in *.
  split; [|exact Hk]. unfold grants in Hg. destruct (r =? 0); [|done]. by destruct Hg as (? & ? & _).
Qed.


End Promises.
