(* ===== verification/Pending.v ===== *)
(** * Completions, pending operations and parked socket operations

    The bookkeeping part of [rds_msg.c] (completion writers, the pending
    list, FIN and READ parking) and the one-sided RDMA primitive
    [rds_post_rdma] of [rds_rma.c] that messaging, RMA and the eager ring
    share. *)

From S2P Require Import Prelude Iov Wire Config Kernel Cq Av MrCache State Mr.

Section Pending.
Context {K : Type} `{!Kernel K}.

(** ** Completion writers *)

Definition abs_err (err : Z) : Z := if err <? 0 then - err else err.

Definition rds_cq_write_tx (context flags len err : Z) : St K unit :=
  cq <- ep_get e_tx_cq ;;
  match cq with
  | None => ret tt
  | Some id =>
      if negb (err =? 0) then
        cq_run id (ofi_cq_write_error
          (mkErr (mkEntry context flags len 0 0 0) 0 (abs_err err) 0 [])) ;;; ret tt
      else
        cq_run id (ofi_cq_write (mkEntry context flags len 0 0 0)) ;;; ret tt
  end.

Definition rds_cq_write_rx (context flags len data tag src err : Z) : St K unit :=
  cq <- ep_get e_rx_cq ;;
  match cq with
  | None => ret tt
  | Some id =>
      caps <- ep_get e_caps ;;
      if negb (err =? 0) then
        cq_run id (ofi_cq_write_error
          (mkErr (mkEntry context flags len 0 data tag) 0 (abs_err err) 0 [])) ;;; ret tt
      else if has caps FI_SOURCE then
        cq_run id (ofi_cq_write_src (mkEntry context flags len 0 data tag) src) ;;; ret tt
      else
        cq_run id (ofi_cq_write (mkEntry context flags len 0 data tag)) ;;; ret tt
  end.

(** ** Pending operations *)

(** [rds_next_id]: id 0 is reserved, so a wrap skips it. *)
Definition rds_next_id : St K Z :=
  ep_upd (fun e => e <| e_op_id ::= fun n => u64 (n + 1) |>) ;;;
  id <- ep_get e_op_id ;;
  if negb (id =? 0) then ret id
  else
    ep_upd (fun e => e <| e_op_id ::= fun n => u64 (n + 1) |>) ;;;
    ep_get e_op_id.

Definition PENDING_SIZE : Z := 216.

(** A zeroed [struct rds_pending] with the fields the allocator sets. *)
Definition pending_init (id : Z) (type : rds_pend_type) (context flags : Z) : rds_pending :=
  mkPending id type context flags 0 0 0 0 0 0 0 0 [] None None 0 0 None false.

(** [rds_pending_alloc]: the id stands for the pointer. *)
Definition rds_pending_alloc (type : rds_pend_type) (context flags : Z) : St K (option Z) :=
  p <- sys_alloc PENDING_SIZE ;;
  match p with
  | None => ret None
  | Some _ =>
      id <- rds_next_id ;;
      ep_upd (fun e => e <| e_pending ::= fun l => l ++ [pending_init id type context flags] |>) ;;;
      ret (Some id)
  end.

Definition pending_lookup (id : Z) (l : list rds_pending) : option rds_pending :=
  match find_split (fun p => p_id p =? id) l with
  | Some (_, p, _) => Some p
  | None => None
  end.

Definition pending_update (id : Z) (f : rds_pending -> rds_pending) (l : list rds_pending) :
    list rds_pending :=
  match find_split (fun p => p_id p =? id) l with
  | Some (l1, p, l2) => l1 ++ f p :: l2
  | None => l
  end.

Definition pending_delete (id : Z) (l : list rds_pending) : list rds_pending :=
  match find_split (fun p => p_id p =? id) l with
  | Some (l1, _, l2) => l1 ++ l2
  | None => l
  end.

Definition rds_pending_find (id : Z) : St K (option rds_pending) :=
  ep_get (fun e => pending_lookup id (e_pending e)).

(** Dereference, field updates through the pointer, and
    [dlist_remove(&pend->entry); free(pend)]. *)
Definition pend_deref (id : Z) : St K rds_pending :=
  p <- rds_pending_find id ;; of_opt p.

Definition pend_upd (id : Z) (f : rds_pending -> rds_pending) : St K unit :=
  ep_upd (fun e => e <| e_pending ::= pending_update id f |>).

Definition pend_remove (id : Z) : St K unit :=
  ep_upd (fun e => e <| e_pending ::= pending_delete id |>).

Definition rds_pending_release_mrs (id : Z) : St K unit :=
  p <- pend_deref id ;;
  match p_cmrs p, p_mrs p with
  | Some l, _ =>
      rds_reg_cache_put_all (take (Z.to_nat (p_mr_cnt p)) l) ;;;
      pend_upd id (fun p => p <| p_cmrs := None |>)
  | None, Some l =>
      rds_mr_put_all (take (Z.to_nat (p_mr_cnt p)) l) ;;;
      pend_upd id (fun p => p <| p_mrs := None |>)
  | None, None => ret tt
  end.

Definition is_tx_or_rma (t : rds_pend_type) : bool :=
  match t with RDS_PEND_RNDZV_TX | RDS_PEND_RMA => true | RDS_PEND_RNDZV_RX => false end.

Definition is_rndzv_tx (t : rds_pend_type) : bool :=
  match t with RDS_PEND_RNDZV_TX => true | _ => false end.

Definition rds_pending_complete (id : Z) : St K unit :=
  p <- pend_deref id ;;
  (if is_tx_or_rma (p_type p) && negb (p_no_comp p)
   then rds_cq_write_tx (p_context p) (p_flags p) (p_len p) (p_error p) else ret tt) ;;;
  inflight <- ep_get e_rndzv_tx_inflight ;;
  (if is_rndzv_tx (p_type p) && negb (inflight =? 0)
   then ep_upd (fun e => e <| e_rndzv_tx_inflight ::= fun n => n - 1 |>) else ret tt) ;;;
  rds_pending_release_mrs id ;;;
  pend_remove id.

(** ** One-sided RDMA *)

Definition rds_post_rdma (dest : list Z) (dest_addrlen cookie remote_off : Z)
    (local_iov : list iovec) (is_write notify : bool) (token : Z) : St K Z :=
  if (length local_iov =? 0)%nat || (RDS_IOV_LIMIT <? length local_iov)%nat
  then ret (- FI_EINVAL)
  else
    let args := mkRdmaArgs cookie remote_off (rds_iov_len local_iov) local_iov
      (Z.lor (if is_write then RDS_RDMA_READWRITE else 0) (if notify then RDS_RDMA_NOTIFY_ME else 0))
      (if notify then token else 0) in
    errno <- sys_sendmsg (sa_name dest dest_addrlen) [] (Some args) ;;
    ret (send_status errno).

(** ** FIN and parked operations *)

(** The header of a FIN. *)
Definition fin_hdr (id : Z) : rds_hdr :=
  rds_hdr_zero <| h_magic := RDS_HDR_MAGIC |> <| h_op := RDS_OP_FIN |> <| h_id := id |>.

Definition rds_send_fin_raw (peer : list Z) (id : Z) : St K Z :=
  errno <- sys_sendmsg (sa_name peer (ofi_sizeofaddr peer)) (rds_hdr_bytes (fin_hdr id)) None ;;
  ret (send_status errno).

Definition DEFERRED_SIZE : Z := 248.

Definition rds_defer_enqueue (d : rds_deferred) : St K Z :=
  ep_upd (fun e => e <| e_deferred ::= fun l => l ++ [d] |>) ;;; ret 0.

Definition rds_defer_fin (peer : list Z) (id : Z) : St K unit :=
  d <- sys_alloc DEFERRED_SIZE ;;
  match d with
  | None => ret tt
  | Some _ =>
      rds_defer_enqueue (mkDeferred RDS_DEFERRED_FIN peer (ofi_sizeofaddr peer) id 0 0 []) ;;; ret tt
  end.

Definition rds_defer_read (peer : list Z) (cookie remote_off : Z) (liov : list iovec) (token : Z) :
    St K Z :=
  d <- sys_alloc DEFERRED_SIZE ;;
  match d with
  | None => ret (- FI_ENOMEM)
  | Some _ =>
      rds_defer_enqueue (mkDeferred RDS_DEFERRED_READ peer (ofi_sizeofaddr peer) token cookie remote_off liov)
  end.

Definition rds_send_fin (peer : list Z) (id : Z) : St K unit :=
  r <- rds_send_fin_raw peer id ;;
  if r =? - FI_EAGAIN then rds_defer_fin peer id else ret tt.

End Pending.
