(* ===== verification/Ring.v ===== *)
(** * The eager ring: peers, handshake and sending

    The first half of [rds_eager.c]: the peer table, ring allocation and
    registration, the RING_REQ/RING_ACK handshake and [rds_ring_send].
    Polling the rings is in [RingRx], because it feeds the matching engine. *)

From S2P Require Import Prelude Iov Wire Config Kernel Cq Av MrCache State Mr Pending.

(** [rds_peer_hash]: 64-bit product, truncated to [unsigned]. *)
Definition rds_peer_hash (addr : Z) : Z :=
  Z.land (u32 (u64 (addr * 2654435761))) (RDS_PEER_HASH_SIZE - 1).

(** What a ring write carries: the caller's scatter list, or a control
    datagram the caller has built ([rds_hdr] and descriptor). *)
Inductive ring_src := SrcIov (iov : list iovec) | SrcBytes (bs : list Z).

Definition ring_src_len (s : ring_src) : Z :=
  match s with
  | SrcIov iov => ofi_total_iov_len iov
  | SrcBytes bs => Z.of_nat (length bs)
  end.

Definition ring_src_bytes (s : ring_src) (total : Z) (m : mem) : list Z :=
  match s with
  | SrcIov iov => ofi_copy_from_iov total iov 0 m
  | SrcBytes bs => bs
  end.

(** The RDS_HF_* flags of an outgoing message. *)
Definition hf_flags (tagged : bool) (flags : Z) : Z :=
  Z.lor (if tagged then RDS_HF_TAGGED else 0)
        (if has flags FI_REMOTE_CQ_DATA then RDS_HF_CQ_DATA else 0).

(** The completion flags of a send. *)
Definition tx_comp_flags (tagged : bool) : Z := Z.lor FI_SEND (if tagged then FI_TAGGED else FI_MSG).

Section Ring.
Context {K : Type} `{!Kernel K}.

(** ** Peer table *)

Definition peer_deref (h : Z) : St K rds_peer :=
  p <- ep_get (fun e => e_peers e !! h) ;; of_opt p.

Definition peer_upd (h : Z) (f : rds_peer -> rds_peer) : St K unit :=
  ep_upd (fun e => e <| e_peers ::= alter f h |>).

(** The chain of a bucket. *)
Definition bucket (e : rds_ep) (b : Z) : list Z := default [] (e_peer_hash e !! b).

(** Walk a chain: [None] when it links a freed peer. *)
Fixpoint chain_find (peers : gmap Z rds_peer) (chain : list Z) (addr : Z) : option (option Z) :=
  match chain with
  | [] => Some None
  | h :: chain' =>
      match peers !! h with
      | None => None
      | Some p => if pe_addr p =? addr then Some (Some h) else chain_find peers chain' addr
      end
  end.

Definition rds_peer_find (addr : Z) : St K (option Z) :=
  r <- ep_get (fun e => chain_find (e_peers e) (bucket e (rds_peer_hash addr)) addr) ;;
  of_opt r.

Definition rds_peer_free (h : Z) : St K unit :=
  p <- peer_deref h ;;
  ep_upd (fun e => e <| e_peer_hash ::= alter (fun l => dlist_remove h l) (rds_peer_hash (pe_addr p)) |>
                     <| e_peer_lru ::= dlist_remove h |>
                     <| e_peer_cnt ::= fun n => u32 (n - 1) |>) ;;;
  rds_mr_put (pe_rx_ring_mr p) ;;;
  rds_mr_put (pe_credit_mr p) ;;;
  ep_upd (fun e => e <| e_peers ::= delete h |>).

Definition rds_ep_ring_init : St K unit :=
  cfg <- gets w_cfg ;;
  ep_upd (fun e => e <| e_eager_rdma := rds_eager_rdma cfg |>
                     <| e_ring_slots := u32 (rds_ring_slots cfg) |>
                     <| e_ring_slot_size := u32 (rds_ring_slot_size cfg) |>
                     <| e_ring_max_peers := u32 (rds_ring_max_peers cfg) |>
                     <| e_ring_payload := rds_ring_payload_max (u32 (rds_ring_slot_size cfg)) |>
                     <| e_peer_hash := ∅ |> <| e_peer_lru := [] |> <| e_peer_cnt := 0 |>).

Fixpoint rds_peer_free_all (l : list Z) : St K unit :=
  match l with
  | [] => ret tt
  | h :: l' => rds_peer_free h ;;; rds_peer_free_all l'
  end.

Definition rds_ep_ring_cleanup : St K unit :=
  lru <- ep_get e_peer_lru ;; rds_peer_free_all lru.

Definition PEER_SIZE : Z := 208.
Definition PEER_CREDIT_TX_OFF : Z := 200.     (* offsetof(struct rds_peer, credit_tx) *)

(** The [union ofi_sock_ip] a [memcpy] of [len] address bytes leaves. *)
Definition sock_ip (sa : list Z) (len : Z) : list Z :=
  let a := take (Z.to_nat len) sa in a ++ replicate (48 - length a) 0.

(** Register one area of a new peer's ring. *)
Definition ring_reg (addr len : Z) (sa : list Z) : St K (option Z) :=
  self <- ep_get e_self ;;
  r <- rds_reg_internal self addr len FI_REMOTE_WRITE (Some sa) ;;
  ret (match r with inr h => Some h | inl _ => None end).

Definition rds_peer_create (addr : Z) : St K (option Z) :=
  cnt <- ep_get e_peer_cnt ;;
  cap <- ep_get e_ring_max_peers ;;
  if cnt >=? cap then ret None
  else
    sa <- rds_av_addr addr ;;
    match sa with
    | None => ret None
    | Some sa =>
        p <- sys_alloc PEER_SIZE ;;
        match p with
        | None => ret None
        | Some p =>
            write_mem p (replicate (Z.to_nat PEER_SIZE) 0) ;;;
            addrlen <- av_addrlen_get ;;
            slots <- ep_get e_ring_slots ;;
            slot_size <- ep_get e_ring_slot_size ;;
            let ring_bytes := u64 (slots * slot_size) in
            rx_ring <- sys_alloc ring_bytes ;;
            match rx_ring with
            | None => ret None
            | Some rx_ring =>
                write_mem rx_ring (replicate (Z.to_nat ring_bytes) 0) ;;;
                tx_stage <- sys_alloc ring_bytes ;;
                match tx_stage with
                | None => ret None
                | Some tx_stage =>
                    cell <- sys_alloc 8 ;;
                    match cell with
                    | None => ret None
                    | Some cell =>
                        write_mem cell (le_enc 8 0) ;;;
                        ring_mr <- ring_reg rx_ring ring_bytes sa ;;
                        credit_mr <- ring_reg cell 8 sa ;;
                        let ok := match ring_mr, credit_mr with Some _, Some _ => true | _, _ => false end in
                        (if ok then ret tt else rds_mr_put ring_mr ;;; rds_mr_put credit_mr) ;;;
                        h <- ep_get e_next_peer ;;
                        let peer := mkPeer addr (sock_ip sa addrlen)
                          (if ok then RDS_PEER_NONE else RDS_PEER_DISABLED) 0
                          rx_ring (if ok then ring_mr else None) 0 0
                          cell (if ok then credit_mr else None) 0 0 0 0 0 0
                          tx_stage (p + PEER_CREDIT_TX_OFF) in
                        ep_upd (fun e =>
                          e <| e_peers ::= insert h peer |> <| e_next_peer ::= Z.add 1 |>
                            <| e_peer_hash ::= insert (rds_peer_hash addr) (h :: bucket e (rds_peer_hash addr)) |>
                            <| e_peer_lru ::= cons h |>
                            <| e_peer_cnt ::= fun n => u32 (n + 1) |>) ;;;
                        ret (Some h)
                    end
                end
            end
        end
    end.

(** ** Handshake *)

(** The cookie of the region behind a peer's MR pointer; undefined for NULL. *)
Definition mr_cookie_of (mr : option Z) : St K Z :=
  h <- of_opt mr ;;
  m <- gets (fun w => d_mrs (w_dom w) !! h) ;;
  m <- of_opt m ;;
  ret (mr_cookie m).

Definition ctrl_hdr (op : Z) : rds_hdr :=
  rds_hdr_zero <| h_magic := RDS_HDR_MAGIC |> <| h_op := op |> <| h_size := RDS_RING_INFO_SIZE |>.

Definition rds_ring_send_ctrl (h op : Z) : St K unit :=
  p <- peer_deref h ;;
  ring_cookie <- mr_cookie_of (pe_rx_ring_mr p) ;;
  credit_cookie <- mr_cookie_of (pe_credit_mr p) ;;
  slots <- ep_get e_ring_slots ;;
  slot_size <- ep_get e_ring_slot_size ;;
  let info := mkRingInfo ring_cookie credit_cookie slots slot_size in
  sys_sendmsg (sa_name (pe_sa p) (ofi_sizeofaddr (pe_sa p)))
    (rds_hdr_bytes (ctrl_hdr op) ++ rds_ring_info_bytes info) None ;;;
  ret tt.

Definition rds_ring_adopt (h : Z) (info : rds_ring_info) : St K Z :=
  slots <- ep_get e_ring_slots ;;
  slot_size <- ep_get e_ring_slot_size ;;
  if negb (ri_slots info =? slots) || negb (ri_slot_size info =? slot_size)
  then ret (- FI_EINVAL)
  else
    peer_upd h (fun p => p <| pe_rem_ring_cookie := ri_ring_cookie info |>
                           <| pe_rem_credit_cookie := ri_credit_cookie info |>
                           <| pe_rem_slots := ri_slots info |>
                           <| pe_rem_slot_size := ri_slot_size info |>) ;;;
    ret 0.

Definition mr_null (mr : option Z) : bool := match mr with None => true | Some _ => false end.

Definition rds_ring_handle_ctrl (hdr : rds_hdr) (payload : list Z) (src_fi : Z) : St K unit :=
  rdma <- ep_get e_eager_rdma ;;
  if negb rdma || (Z.of_nat (length payload) <? RDS_RING_INFO_SIZE) || (src_fi =? FI_ADDR_NOTAVAIL)
  then ret tt
  else
    let info := rds_ring_info_of_bytes payload in
    found <- rds_peer_find src_fi ;;
    peer <- match found with Some h => ret (Some h) | None => rds_peer_create src_fi end ;;
    match peer with
    | None => ret tt
    | Some h =>
        p <- peer_deref h ;;
        if bool_decide (pe_state p = RDS_PEER_DISABLED) || mr_null (pe_rx_ring_mr p) || mr_null (pe_credit_mr p)
        then ret tt
        else
          r <- rds_ring_adopt h info ;;
          if negb (r =? 0) then peer_upd h (fun p => p <| pe_state := RDS_PEER_DISABLED |>)
          else
            (if h_op hdr =? RDS_OP_RING_REQ then rds_ring_send_ctrl h RDS_OP_RING_ACK else ret tt) ;;;
            peer_upd h (fun p => p <| pe_state := RDS_PEER_READY |>)
    end.

(** ** Sending *)

Definition rds_ring_refresh_credit (h : Z) : St K unit :=
  p <- peer_deref h ;;
  cell <- read_mem (pe_credit_cell p) 8 ;;
  let c := le_dec cell in
  if c >? pe_tx_tail p then peer_upd h (fun p => p <| pe_tx_tail := c |>) else ret tt.

(** The tail of [rds_ring_send] for a READY peer: flow control, staging, the
    RDMA write and the completion. *)
Definition ring_send_ready (h : Z) (src : ring_src) (total tag data context flags : Z)
    (tagged gen_comp : bool) (op : Z) : St K Z :=
  rds_ring_refresh_credit h ;;;
  p <- peer_deref h ;;
  if u64 (pe_tx_head p - pe_tx_tail p) >=? pe_rem_slots p then ret (- FI_EAGAIN)
  else if pe_rem_slots p =? 0 then ub
  else
    slot_size <- ep_get e_ring_slot_size ;;
    let idx := pe_tx_head p mod pe_rem_slots p in
    let gen := u32 (u32 (pe_tx_head p / pe_rem_slots p) + 1) in
    let remote_off := u64 (idx * pe_rem_slot_size p) in
    let stage := pe_tx_stage p + idx * slot_size in
    resv <- read_mem (stage + 6) 2 ;;
    write_mem stage (rds_ring_slot_bytes
      (mkSlot (u32 total) (hf_flags tagged flags) op (le_dec resv) tag data (pe_rx_head p))) ;;;
    payload <- gets (fun w => ring_src_bytes src total (w_mem w)) ;;
    write_mem (rds_slot_payload stage) payload ;;;
    write_mem (rds_slot_gen stage slot_size) (le_enc 4 gen) ;;;
    r <- rds_post_rdma (pe_sa p) (ofi_sizeofaddr (pe_sa p)) (pe_rem_ring_cookie p) remote_off
           [mkIov stage slot_size] true false 0 ;;
    if negb (r =? 0) then ret r
    else
      peer_upd h (fun p => p <| pe_tx_head ::= fun n => u64 (n + 1) |>) ;;;
      (if gen_comp then rds_cq_write_tx context (tx_comp_flags tagged) total 0 else ret tt) ;;;
      ret 0.

(** The handshake branch: start it, give up after the deadline, else wait. *)
Definition ring_send_connect (h : Z) : St K Z :=
  p <- peer_deref h ;;
  match pe_state p with
  | RDS_PEER_DISABLED => ret (- FI_ENOSYS)
  | _ =>
      (if bool_decide (pe_state p = RDS_PEER_NONE) then
         rds_ring_send_ctrl h RDS_OP_RING_REQ ;;;
         t <- sys_time ;;
         peer_upd h (fun p => p <| pe_state := RDS_PEER_CONNECTING |> <| pe_connect_start_ms := t |>)
       else ret tt) ;;;
      now <- sys_time ;;
      p <- peer_deref h ;;
      if u64 (now - pe_connect_start_ms p) >? RDS_RING_CONNECT_TIMEOUT_MS
      then peer_upd h (fun p => p <| pe_state := RDS_PEER_DISABLED |>) ;;; ret (- FI_ENOSYS)
      else ret (- FI_EAGAIN)
  end.

Definition rds_ring_send (src : ring_src) (dest tag data context flags : Z)
    (tagged gen_comp : bool) (op : Z) : St K Z :=
  rdma <- ep_get e_eager_rdma ;;
  if negb rdma then ret (- FI_ENOSYS)
  else
    let total := ring_src_len src in
    cap <- ep_get e_ring_payload ;;
    if total >? cap then ret (- FI_ENOSYS)
    else
      found <- rds_peer_find dest ;;
      peer <- match found with Some h => ret (Some h) | None => rds_peer_create dest end ;;
      match peer with
      | None => ret (- FI_ENOSYS)
      | Some h =>
          ep_upd (fun e => e <| e_peer_lru ::= fun l => h :: dlist_remove h l |>) ;;;
          p <- peer_deref h ;;
          if bool_decide (pe_state p = RDS_PEER_READY)
          then ring_send_ready h src total tag data context flags tagged gen_comp op
          else ring_send_connect h
      end.

End Ring.
