(* ===== verification/Msg.v ===== *)
(** * Messaging

    The data path of [rds_msg.c]: matching, delivery, the rendezvous
    receiver, inbound dispatch, RDMA notifications, the retry of parked
    operations, posting receives and the eager and rendezvous senders, up to
    the [fi_ops_msg] and [fi_ops_tagged] entry points. *)

From S2P Require Import Prelude Iov Wire Config Kernel Cq Av MrCache State Mr Pending Ring.

(** ** Matching *)

Definition rds_tag_match (rx_tag ignore msg_tag : Z) : bool :=
  Z.land (Z.lxor rx_tag msg_tag) (Z.lxor ignore (2 ^ 64 - 1)) =? 0.

Definition rds_addr_match (rx_addr src : Z) : bool :=
  (rx_addr =? FI_ADDR_UNSPEC) || (rx_addr =? src).

(** Does a posted receive take a message with this header tag and source? *)
Definition posted_match (tagged : bool) (msg_tag src : Z) (rx : rds_rx_entry) : bool :=
  rds_addr_match (rx_addr rx) src &&
  (negb tagged || rds_tag_match (rx_tag rx) (rx_ignore rx) msg_tag).

(** Does an unexpected message satisfy a receive being posted? *)
Definition unexp_match (tagged : bool) (addr tag ignore : Z) (ux : rds_unexp) : bool :=
  rds_addr_match addr (ux_addr ux) &&
  (negb tagged || rds_tag_match tag ignore (h_tag (ux_hdr ux))).

Definition posted_list (tagged : bool) (e : rds_ep) : list rds_rx_entry :=
  if tagged then e_rx_posted_tag e else e_rx_posted_msg e.
Definition set_posted (tagged : bool) (l : list rds_rx_entry) (e : rds_ep) : rds_ep :=
  if tagged then e <| e_rx_posted_tag := l |> else e <| e_rx_posted_msg := l |>.
Definition unexp_list (tagged : bool) (e : rds_ep) : list rds_unexp :=
  if tagged then e_rx_unexp_tag e else e_rx_unexp_msg e.
Definition set_unexp (tagged : bool) (l : list rds_unexp) (e : rds_ep) : rds_ep :=
  if tagged then e <| e_rx_unexp_tag := l |> else e <| e_rx_unexp_msg := l |>.

(** ** Pure helpers *)

Definition hdr_tagged (hdr : rds_hdr) : bool := has (h_flags hdr) RDS_HF_TAGGED.

Definition rds_rx_flags (hdr : rds_hdr) (tagged : bool) : Z :=
  Z.lor (Z.lor FI_RECV (if tagged then FI_TAGGED else FI_MSG))
        (if has (h_flags hdr) RDS_HF_CQ_DATA then FI_REMOTE_CQ_DATA else 0).

(** Record a failure unless one is recorded already. *)
Definition set_error (err : Z) (p : rds_pending) : rds_pending :=
  if p_error p =? 0 then p <| p_error := err |> else p.

Definition incr32 (n : Z) : Z := u32 (n + 1).
Definition decr32 (n : Z) : Z := u32 (n - 1).

(** The segments a payload holds in full, in order. *)
Fixpoint payload_segs (n : nat) (bs : list Z) : list rds_rndzv_seg :=
  match n with
  | O => []
  | S n' => if (length bs <? 24)%nat then [] else rds_seg_of_bytes bs :: payload_segs n' (drop 24 bs)
  end.

(** Number of <= 1 MiB chunks of one source buffer. *)
Definition seg_count (len : Z) : Z := (len + RDS_KERNEL_SEG_MAX - 1) / RDS_KERNEL_SEG_MAX.

(** The chunks the [while (left)] loop of [rds_send_rndzv] registers. *)
Fixpoint chunk_loop (fuel : nat) (base left : Z) : list iovec :=
  match fuel with
  | O => []
  | S fuel' =>
      if left =? 0 then []
      else
        let clen := Z.min left RDS_KERNEL_SEG_MAX in
        mkIov base clen :: chunk_loop fuel' (base + clen) (left - clen)
  end.

Definition iov_chunks (v : iovec) : list iovec :=
  chunk_loop (Z.to_nat (seg_count (iov_len v))) (iov_base v) (iov_len v).

Definition rndzv_chunks (iov : list iovec) : list iovec := mjoin (iov_chunks <$> iov).

Definition rndzv_nseg (iov : list iovec) : Z := sumZ ((fun v => seg_count (iov_len v)) <$> iov).

(** Bytes gathered by [sendmsg] from a scatter list. *)
Definition iov_gather (m : mem) (iov : list iovec) : list Z := m <$> iov_addrs iov.

Definition eager_hdr (tagged : bool) (flags tag data size : Z) : rds_hdr :=
  rds_hdr_zero <| h_magic := RDS_HDR_MAGIC |> <| h_op := RDS_OP_EAGER |>
    <| h_flags := hf_flags tagged flags |> <| h_tag := tag |> <| h_data := data |> <| h_size := size |>.

Definition rts_hdr (tagged : bool) (flags tag data size nseg id : Z) : rds_hdr :=
  rds_hdr_zero <| h_magic := RDS_HDR_MAGIC |> <| h_op := RDS_OP_RTS |>
    <| h_flags := hf_flags tagged flags |> <| h_seg_cnt := u16 nseg |> <| h_tag := tag |>
    <| h_data := data |> <| h_size := size |> <| h_id := id |>.

Section Msg.
Context {K : Type} `{!Kernel K}.

(** Find and remove a posted receive matching an arrived message. *)
Definition rds_match_posted (hdr : rds_hdr) (src : Z) (tagged : bool) : St K (option rds_rx_entry) :=
  l <- ep_get (posted_list tagged) ;;
  match find_split (posted_match tagged (h_tag hdr) src) l with
  | Some (l1, rx, l2) => ep_upd (set_posted tagged (l1 ++ l2)) ;;; ret (Some rx)
  | None => ret None
  end.

(** Find and remove an unexpected message matching a new receive. *)
Definition rds_match_unexp (addr tag ignore : Z) (tagged : bool) : St K (option rds_unexp) :=
  l <- ep_get (unexp_list tagged) ;;
  match find_split (unexp_match tagged addr tag ignore) l with
  | Some (l1, ux, l2) => ep_upd (set_unexp tagged (l1 ++ l2)) ;;; ret (Some ux)
  | None => ret None
  end.

(** ** Delivery *)

(** Does the receive ask for a completion? *)
Definition rx_reports (rx : rds_rx_entry) (e : rds_ep) : bool :=
  has (Z.lor (rx_flags rx) (e_rx_op_flags e)) FI_COMPLETION.

Definition rds_deliver_eager (rx : rds_rx_entry) (hdr : rds_hdr) (payload : list Z) (src : Z) :
    St K unit :=
  let plen := Z.of_nat (length payload) in
  m <- gets w_mem ;;
  let '(m', copied) := ofi_copy_to_iov (rx_iov rx) 0 payload plen m in
  modify (fun w => w <| w_mem := m' |>) ;;;
  let err := if plen >? rx_total_len rx then FI_ETRUNC else 0 in
  report <- ep_get (rx_reports rx) ;;
  if report || negb (err =? 0) then
    rds_cq_write_rx (rx_context rx) (rds_rx_flags hdr (hdr_tagged hdr)) copied
      (h_data hdr) (h_tag hdr) src err
  else ret tt.

Definition rds_rndzv_rx_finalize (id : Z) : St K unit :=
  p <- pend_deref id ;;
  rds_send_fin (p_peer p) (p_peer_id p) ;;;
  (if negb (p_no_comp p) || negb (p_error p =? 0)
   then rds_cq_write_rx (p_context p) (p_flags p) (p_len p) (p_data p) (p_tag p) (p_addr p) (p_error p)
   else ret tt) ;;;
  pend_remove id.

(** The segment loop of [rds_start_rndzv_read]: [n] segments left of the
    descriptor, [off] bytes of [effective] already assigned.  Undefined when
    the descriptor has fewer segments than its header announced. *)
Fixpoint rndzv_read_loop (n : nat) (segs : list rds_rndzv_seg) (id : Z) (iov : list iovec)
    (off effective : Z) (peer : list Z) : St K unit :=
  match n with
  | O => ret tt
  | S n' =>
      if negb (off <? effective) then ret tt
      else
        match segs with
        | [] => ub
        | seg :: segs' =>
            let this_len := Z.min (seg_len seg) (effective - off) in
            let '(liov, _) := rds_iov_slice iov off this_len in
            r <- rds_post_rdma peer (ofi_sizeofaddr peer) (seg_cookie seg) (seg_off seg) liov
                   false true id ;;
            (if r =? 0 then
               pend_upd id (fun p => p <| p_seg_remaining ::= incr32 |> <| p_seg_total ::= incr32 |>)
             else if r =? - FI_EAGAIN then
               d <- rds_defer_read peer (seg_cookie seg) (seg_off seg) liov id ;;
               if d =? 0 then
                 pend_upd id (fun p => p <| p_seg_deferred ::= incr32 |> <| p_seg_total ::= incr32 |>)
               else pend_upd id (set_error FI_ENOMEM)
             else pend_upd id (set_error (- r))) ;;;
            rndzv_read_loop n' segs' id iov (off + this_len) effective peer
        end
  end.

Definition rds_start_rndzv_read (rx : rds_rx_entry) (hdr : rds_hdr) (segs : list rds_rndzv_seg)
    (seg_cnt : nat) (peer : list Z) (src : Z) : St K unit :=
  let flags := rds_rx_flags hdr (hdr_tagged hdr) in
  pend <- rds_pending_alloc RDS_PEND_RNDZV_RX (rx_context rx) flags ;;
  match pend with
  | None =>
      rds_send_fin peer (h_id hdr) ;;;
      rds_cq_write_rx (rx_context rx) flags 0 (h_data hdr) (h_tag hdr) src FI_ENOMEM
  | Some id =>
      let effective := Z.min (h_size hdr) (rx_total_len rx) in
      report <- ep_get (rx_reports rx) ;;
      pend_upd id (fun p =>
        p <| p_len := effective |> <| p_addr := src |> <| p_data := h_data hdr |>
          <| p_tag := h_tag hdr |> <| p_peer := peer |> <| p_peer_id := h_id hdr |>
          <| p_error := if h_size hdr >? rx_total_len rx then FI_ETRUNC else 0 |>
          <| p_no_comp := negb report |>) ;;;
      rndzv_read_loop seg_cnt segs id (rx_iov rx) 0 effective peer ;;;
      p <- pend_deref id ;;
      if (p_seg_remaining p =? 0) && (p_seg_deferred p =? 0)
      then rds_rndzv_rx_finalize id else ret tt
  end.

(** ** Inbound dispatch *)

Definition UNEXP_SIZE : Z := 144.

Definition rds_enqueue_unexp (hdr : rds_hdr) (payload : list Z) (src : list Z) (src_fi : Z)
    (tagged : bool) : St K unit :=
  let plen := Z.of_nat (length payload) in
  let copy := if h_op hdr =? RDS_OP_EAGER then plen else 0 in
  p <- sys_alloc (UNEXP_SIZE + copy) ;;
  match p with
  | None => if h_op hdr =? RDS_OP_RTS then rds_send_fin src (h_id hdr) else ret tt
  | Some _ =>
      if h_op hdr =? RDS_OP_EAGER then
        ep_upd (fun e => set_unexp tagged
          (unexp_list tagged e ++ [mkUnexp hdr src_fi src 0 [] plen payload]) e)
      else
        s <- sys_alloc (h_seg_cnt hdr * RDS_SEG_SIZE) ;;
        match s with
        | None => rds_send_fin src (h_id hdr)
        | Some _ =>
            segs <- of_opt (rds_segs_of_bytes (Z.to_nat (h_seg_cnt hdr)) payload) ;;
            ep_upd (fun e => set_unexp tagged
              (unexp_list tagged e ++ [mkUnexp hdr src_fi src (h_seg_cnt hdr) segs 0 []]) e)
        end
  end.

Definition rds_handle_inbound (hdr : rds_hdr) (payload : list Z) (src : list Z) (src_fi : Z) :
    St K unit :=
  let plen := Z.of_nat (length payload) in
  if negb (h_magic hdr =? RDS_HDR_MAGIC) then ret tt
  else if h_op hdr =? RDS_OP_FIN then
    pend <- rds_pending_find (h_id hdr) ;;
    match pend with
    | Some p => if is_rndzv_tx (p_type p) then rds_pending_complete (h_id hdr) else ret tt
    | None => ret tt
    end
  else if (h_op hdr =? RDS_OP_RING_REQ) || (h_op hdr =? RDS_OP_RING_ACK) then
    rds_ring_handle_ctrl hdr payload src_fi
  else if (h_op hdr =? RDS_OP_RTS) && (plen <? h_seg_cnt hdr * RDS_SEG_SIZE) then ret tt
  else
    let tagged := hdr_tagged hdr in
    rx <- rds_match_posted hdr src_fi tagged ;;
    match rx with
    | Some rx =>
        if h_op hdr =? RDS_OP_EAGER then rds_deliver_eager rx hdr payload src_fi
        else
          let n := Z.to_nat (h_seg_cnt hdr) in
          rds_start_rndzv_read rx hdr (payload_segs n payload) n src src_fi
    | None => rds_enqueue_unexp hdr payload src src_fi tagged
    end.

Definition rds_handle_rdma_notify (token status : Z) : St K unit :=
  pend <- rds_pending_find token ;;
  match pend with
  | None => ret tt
  | Some p =>
      (if negb (status =? 0) then pend_upd token (set_error (abs_err status)) else ret tt) ;;;
      if p_seg_remaining p =? 0 then ret tt
      else
        let remaining := decr32 (p_seg_remaining p) in
        pend_upd token (fun p => p <| p_seg_remaining := remaining |>) ;;;
        if negb (remaining =? 0) then ret tt
        else
          match p_type p with
          | RDS_PEND_RMA => rds_pending_complete token
          | RDS_PEND_RNDZV_RX =>
              if p_seg_deferred p =? 0 then rds_rndzv_rx_finalize token else ret tt
          | RDS_PEND_RNDZV_TX => ret tt
          end
  end.

(** ** Parked operations *)

(** Unlink the parked operation at position [i]. *)
Definition deferred_remove (i : nat) : St K unit :=
  ep_upd (fun e => e <| e_deferred ::= fun l => take i l ++ drop (S i) l |>).

(** The body of the loop for the parked operation [d] at position [i]: was
    it unlinked, and is it still blocked? *)
Definition deferred_body (i : nat) (d : rds_deferred) : St K (bool * bool) :=
  match df_type d with
  | RDS_DEFERRED_FIN =>
      r <- rds_send_fin_raw (df_peer d) (df_id d) ;;
      if r =? - FI_EAGAIN then ret (false, true)
      else deferred_remove i ;;; ret (true, false)
  | RDS_DEFERRED_READ =>
      pend <- rds_pending_find (df_id d) ;;
      match pend with
      | None => deferred_remove i ;;; ret (true, false)
      | Some _ =>
          r <- rds_post_rdma (df_peer d) (df_peerlen d) (df_cookie d) (df_remote_off d) (df_liov d)
                 false true (df_id d) ;;
          if r =? - FI_EAGAIN then ret (false, true)
          else
            deferred_remove i ;;;
            pend_upd (df_id d) (fun p => p <| p_seg_deferred ::= decr32 |>) ;;;
            (if r =? 0
             then pend_upd (df_id d) (fun p => p <| p_seg_remaining ::= incr32 |>)
             else pend_upd (df_id d) (set_error (abs_err r))) ;;;
            p <- pend_deref (df_id d) ;;
            (if (p_seg_remaining p =? 0) && (p_seg_deferred p =? 0)
             then rds_rndzv_rx_finalize (df_id d) else ret tt) ;;;
            ret (true, false)
      end
  end.

(** [dlist_foreach_safe]: the successor is read before the body runs, so the
    walk ends when the current entry was last at that moment, and an entry
    appended by an earlier body is visited. *)
Fixpoint deferred_loop (fuel : nat) (i : nat) (blocked : bool) : St K bool :=
  q <- ep_get e_deferred ;;
  match q !! i with
  | None => ret blocked
  | Some d =>
      match fuel with
      | O => ub
      | S fuel' =>
          let last := (S i =? length q)%nat in
          res <- deferred_body i d ;;
          let '(removed, b) := res in
          if last then ret (blocked || b)
          else deferred_loop fuel' (if removed then i else S i) (blocked || b)
      end
  end.

(** Every parked READ can append at most one FIN. *)
Definition rds_progress_deferred : St K Z :=
  q <- ep_get e_deferred ;;
  blocked <- deferred_loop (2 * length q) 0 false ;;
  ret (if (blocked : bool) then - FI_EAGAIN else 0).

Definition rds_ep_flush_deferred : St K unit := ep_upd (fun e => e <| e_deferred := [] |>).

(** ** Posting receives *)

Definition RX_ENTRY_SIZE : Z := 200.

Definition rx_of (iov : list iovec) (addr tag ignore context flags : Z) (tagged : bool) : rds_rx_entry :=
  mkRx context iov (ofi_total_iov_len iov) tag ignore addr (Z.lor flags (if tagged then FI_TAGGED else 0)).

Definition rds_post_recv (iov : list iovec) (addr tag ignore context flags : Z) (tagged : bool) : St K Z :=
  if (RDS_IOV_LIMIT <? length iov)%nat then ret (- FI_EINVAL)
  else
    let rx := rx_of iov addr tag ignore context flags tagged in
    ux <- rds_match_unexp addr tag ignore tagged ;;
    match ux with
    | Some ux =>
        (if h_op (ux_hdr ux) =? RDS_OP_EAGER
         then rds_deliver_eager rx (ux_hdr ux) (ux_data ux) (ux_addr ux)
         else rds_start_rndzv_read rx (ux_hdr ux) (ux_segs ux) (Z.to_nat (ux_seg_cnt ux))
                (ux_src ux) (ux_addr ux)) ;;;
        ret 0
    | None =>
        p <- sys_alloc RX_ENTRY_SIZE ;;
        match p with
        | None => ret (- FI_ENOMEM)
        | Some _ => ep_upd (fun e => set_posted tagged (posted_list tagged e ++ [rx]) e) ;;; ret 0
        end
    end.

(** ** Sending *)

Definition rds_send_eager (iov : list iovec) (dest : list Z) (destlen tag data context flags : Z)
    (tagged gen_comp : bool) : St K Z :=
  let total := ofi_total_iov_len iov in
  m <- gets w_mem ;;
  errno <- sys_sendmsg (sa_name dest destlen)
    (rds_hdr_bytes (eager_hdr tagged flags tag data total) ++ iov_gather m iov) None ;;
  if negb (errno =? 0) then ret (send_status errno)
  else
    (if gen_comp then rds_cq_write_tx context (tx_comp_flags tagged) total 0 else ret tt) ;;;
    ret 0.

(** Register (or look up) the chunks in order: the first error, with the
    regions registered so far, or all the segments. *)
Fixpoint rndzv_register (cached : bool) (chunks : list iovec) (dest : list Z) (destlen : Z)
    (segs : list rds_rndzv_seg) (mrs : list Z) : St K (Z * list rds_rndzv_seg * list Z) :=
  match chunks with
  | [] => ret (0, segs, mrs)
  | c :: chunks' =>
      self <- ep_get e_self ;;
      r <- (if cached then rds_reg_cache_get (iov_base c) (iov_len c) dest destlen
            else
              r <- rds_reg_internal self (iov_base c) (iov_len c) FI_REMOTE_READ (Some dest) ;;
              match r with
              | inl err => ret (inl (if err =? 0 then - FI_ENOMEM else err))
              | inr h => cookie <- mr_cookie_of (Some h) ;; ret (inr (cookie, h))
              end) ;;
      match r with
      | inl err => ret (err, segs, mrs)
      | inr (cookie, h) =>
          rndzv_register cached chunks' dest destlen
            (segs ++ [mkSeg cookie 0 (iov_len c)]) (mrs ++ [h])
      end
  end.

(** [err_unreg]. *)
Definition rndzv_unregister (cached : bool) (mrs : list Z) : St K unit :=
  if cached then rds_reg_cache_put_all mrs else rds_mr_put_all mrs.

(** Hand the RTS to the ring, or to the socket when the ring is not usable. *)
Definition rndzv_send_rts (rts dest : list Z) (destlen dest_addr : Z) : St K Z :=
  rdma <- ep_get e_eager_rdma ;;
  r <- (if (rdma : bool) then rds_ring_send (SrcBytes rts) dest_addr 0 0 0 0 false false RDS_OP_RTS
        else ret (- FI_ENOSYS)) ;;
  if negb (r =? - FI_ENOSYS) then ret r
  else
    errno <- sys_sendmsg (sa_name dest destlen) rts None ;;
    ret (send_status errno).

Definition rds_send_rndzv (iov : list iovec) (dest : list Z) (destlen tag data context flags : Z)
    (tagged gen_comp : bool) (dest_addr : Z) : St K Z :=
  inflight <- ep_get e_rndzv_tx_inflight ;;
  cfg <- gets w_cfg ;;
  if inflight >=? rds_rndzv_max_inflight cfg then ret (- FI_EAGAIN)
  else
    cached <- gets (fun w => d_cache_enabled (w_dom w)) ;;
    let total := ofi_total_iov_len iov in
    let nseg := u64 (rndzv_nseg iov) in
    if u64 (nseg * RDS_SEG_SIZE) >? RDS_MAX_EAGER_SIZE then ret (- FI_EMSGSIZE)
    else
      a1 <- sys_alloc (nseg * 8) ;;
      a2 <- sys_alloc (nseg * RDS_SEG_SIZE) ;;
      match a1, a2 with
      | Some _, Some _ =>
          res <- rndzv_register cached (rndzv_chunks iov) dest destlen [] [] ;;
          let '(err, segs, mrs) := res in
          if negb (err =? 0) then rndzv_unregister cached mrs ;;; ret err
          else
            pend <- rds_pending_alloc RDS_PEND_RNDZV_TX context (tx_comp_flags tagged) ;;
            match pend with
            | None => rndzv_unregister cached mrs ;;; ret (- FI_ENOMEM)
            | Some id =>
                pend_upd id (fun p =>
                  p <| p_len := total |>
                    <| p_mrs := if (cached : bool) then None else Some mrs |>
                    <| p_cmrs := if cached then Some mrs else None |>
                    <| p_mr_cnt := nseg |> <| p_no_comp := negb gen_comp |>) ;;;
                let rts := rds_hdr_bytes (rts_hdr tagged flags tag data total nseg id) ++ rds_segs_bytes segs in
                r <- rndzv_send_rts rts dest destlen dest_addr ;;
                if negb (r =? 0) then
                  pend_remove id ;;; rndzv_unregister cached mrs ;;; ret r
                else
                  ep_upd (fun e => e <| e_rndzv_tx_inflight ::= incr32 |>) ;;; ret 0
            end
      | _, _ => ret (- FI_ENOMEM)
      end.

Definition rds_generic_send (iov : list iovec) (dest_addr tag data context flags : Z) (tagged : bool) :
    St K Z :=
  if (RDS_IOV_LIMIT <? length iov)%nat then ret (- FI_EINVAL)
  else
    let total := ofi_total_iov_len iov in
    if total >? RDS_MAX_MSG_SIZE then ret (- FI_EMSGSIZE)
    else
      dest <- rds_av_addr dest_addr ;;
      match dest with
      | None => ret (- FI_EINVAL)
      | Some dest =>
          destlen <- av_addrlen_get ;;
          op_flags <- ep_get e_tx_op_flags ;;
          let gen_comp := has (Z.lor op_flags flags) FI_COMPLETION in
          rdma <- ep_get e_eager_rdma ;;
          ring_payload <- ep_get e_ring_payload ;;
          cfg <- gets w_cfg ;;
          r <- (if (rdma : bool) && (total <=? ring_payload)
                then rds_ring_send (SrcIov iov) dest_addr tag data context flags tagged gen_comp RDS_OP_EAGER
                else ret (- FI_ENOSYS)) ;;
          if negb (r =? - FI_ENOSYS) then ret r
          else if total <=? (if rdma then ring_payload else rds_eager_size cfg)
          then rds_send_eager iov dest destlen tag data context flags tagged gen_comp
          else rds_send_rndzv iov dest destlen tag data context flags tagged gen_comp dest_addr
      end.

Definition rds_generic_inject (buf len dest_addr tag : Z) (tagged : bool) : St K Z :=
  cfg <- gets w_cfg ;;
  if len >? rds_eager_size cfg then ret (- FI_EMSGSIZE)
  else
    dest <- rds_av_addr dest_addr ;;
    match dest with
    | None => ret (- FI_EINVAL)
    | Some dest =>
        rdma <- ep_get e_eager_rdma ;;
        ring_payload <- ep_get e_ring_payload ;;
        r <- (if (rdma : bool) && (len <=? ring_payload)
              then rds_ring_send (SrcIov [mkIov buf len]) dest_addr tag 0 0 0 tagged false RDS_OP_EAGER
              else ret (- FI_ENOSYS)) ;;
        if negb (r =? - FI_ENOSYS) then ret r
        else
          destlen <- av_addrlen_get ;;
          rds_send_eager [mkIov buf len] dest destlen tag 0 0 0 tagged false
    end.

(** ** fi_ops_msg and fi_ops_tagged *)

Record fi_msg := mkMsg { msg_iov : list iovec; msg_addr : Z; msg_context : Z; msg_data : Z }.
Record fi_msg_tagged := mkMsgTagged {
  mt_iov : list iovec; mt_addr : Z; mt_tag : Z; mt_ignore : Z; mt_context : Z; mt_data : Z }.

Definition rds_recv (buf len src_addr context : Z) : St K Z :=
  rds_post_recv [mkIov buf len] src_addr 0 0 context 0 false.
Definition rds_recvv (iov : list iovec) (src_addr context : Z) : St K Z :=
  rds_post_recv iov src_addr 0 0 context 0 false.
Definition rds_recvmsg (msg : fi_msg) (flags : Z) : St K Z :=
  rds_post_recv (msg_iov msg) (msg_addr msg) 0 0 (msg_context msg) flags false.
Definition rds_send (buf len dest_addr context : Z) : St K Z :=
  rds_generic_send [mkIov buf len] dest_addr 0 0 context 0 false.
Definition rds_sendv (iov : list iovec) (dest_addr context : Z) : St K Z :=
  rds_generic_send iov dest_addr 0 0 context 0 false.
Definition rds_sendmsg (msg : fi_msg) (flags : Z) : St K Z :=
  rds_generic_send (msg_iov msg) (msg_addr msg) 0 (msg_data msg) (msg_context msg) flags false.
Definition rds_inject (buf len dest_addr : Z) : St K Z :=
  rds_generic_inject buf len dest_addr 0 false.
Definition rds_senddata (buf len data dest_addr context : Z) : St K Z :=
  rds_generic_send [mkIov buf len] dest_addr 0 data context FI_REMOTE_CQ_DATA false.

Definition rds_trecv (buf len src_addr tag ignore context : Z) : St K Z :=
  rds_post_recv [mkIov buf len] src_addr tag ignore context 0 true.
Definition rds_trecvv (iov : list iovec) (src_addr tag ignore context : Z) : St K Z :=
  rds_post_recv iov src_addr tag ignore context 0 true.
Definition rds_trecvmsg (msg : fi_msg_tagged) (flags : Z) : St K Z :=
  rds_post_recv (mt_iov msg) (mt_addr msg) (mt_tag msg) (mt_ignore msg) (mt_context msg) flags true.
Definition rds_tsend (buf len dest_addr tag context : Z) : St K Z :=
  rds_generic_send [mkIov buf len] dest_addr tag 0 context 0 true.
Definition rds_tsendv (iov : list iovec) (dest_addr tag context : Z) : St K Z :=
  rds_generic_send iov dest_addr tag 0 context 0 true.
Definition rds_tsendmsg (msg : fi_msg_tagged) (flags : Z) : St K Z :=
  rds_generic_send (mt_iov msg) (mt_addr msg) (mt_tag msg) (mt_data msg) (mt_context msg) flags true.
Definition rds_tinject (buf len dest_addr tag : Z) : St K Z :=
  rds_generic_inject buf len dest_addr tag true.
Definition rds_tsenddata (buf len data dest_addr tag context : Z) : St K Z :=
  rds_generic_send [mkIov buf len] dest_addr tag data context FI_REMOTE_CQ_DATA true.

End Msg.
