(* ===== verification/Rma.v ===== *)
(** * One-sided RMA

    [rds_rma.c]: reads and writes split into chunks of at most one kernel
    segment under one pending operation, and the injected write through a
    bounce buffer. *)

From S2P Require Import Prelude Iov Wire Config Kernel Cq Av MrCache State Mr Pending.

Definition rma_comp_flags (is_write : bool) : Z := Z.lor FI_RMA (if is_write then FI_WRITE else FI_READ).

Section Rma.
Context {K : Type} `{!Kernel K}.

(** The [while (off < total)] loop: the last result.  Every chunk maps at
    least one byte, so [total - off] rounds are enough. *)
Fixpoint rma_loop (fuel : nat) (id : Z) (iov : list iovec) (dest : list Z)
    (addrlen key remote_off : Z) (is_write : bool) (off total : Z) : St K Z :=
  if negb (off <? total) then ret 0
  else
    match fuel with
    | O => ub
    | S fuel' =>
        let clen := Z.min (total - off) RDS_KERNEL_SEG_MAX in
        let '(liov, got) := rds_iov_slice iov off clen in
        if got =? 0 then ret (- FI_EINVAL)
        else
          r <- rds_post_rdma dest addrlen key (u64 (remote_off + off)) liov is_write true id ;;
          if negb (r =? 0) then ret r
          else
            pend_upd id (fun p => p <| p_seg_remaining ::= fun n => u32 (n + 1) |>) ;;;
            rma_loop fuel' id iov dest addrlen key remote_off is_write (off + got) total
    end.

Definition rds_rma_common (iov : list iovec) (remote_fi remote_off key : Z) (is_write : bool)
    (context flags : Z) : St K Z :=
  let total := rds_iov_len iov in
  if total >? RDS_MAX_MSG_SIZE then ret (- FI_EMSGSIZE)
  else
    dest <- rds_av_addr remote_fi ;;
    match dest with
    | None => ret (- FI_EINVAL)
    | Some dest =>
        addrlen <- av_addrlen_get ;;
        pend <- rds_pending_alloc RDS_PEND_RMA context (rma_comp_flags is_write) ;;
        match pend with
        | None => ret (- FI_ENOMEM)
        | Some id =>
            op_flags <- ep_get e_tx_op_flags ;;
            pend_upd id (fun p =>
              p <| p_len := total |> <| p_addr := remote_fi |>
                <| p_no_comp := negb (has (Z.lor op_flags flags) FI_COMPLETION) |>) ;;;
            r <- rma_loop (Z.to_nat total) id iov dest addrlen key remote_off is_write 0 total ;;
            p <- pend_deref id ;;
            if p_seg_remaining p =? 0 then pend_remove id ;;; ret r
            else
              (if negb (r =? 0) then pend_upd id (fun p => p <| p_error := - r |>) else ret tt) ;;;
              ret 0
        end
    end.

(** [struct fi_msg_rma]: the target list is (address, key) pairs. *)
Record fi_msg_rma := mkMsgRma {
  mr_msg_iov : list iovec; mr_msg_addr : Z; mr_rma_iov : list (Z * Z); mr_msg_context : Z }.

Definition rds_write (buf len dest_addr addr key context : Z) : St K Z :=
  rds_rma_common [mkIov buf len] dest_addr addr key true context 0.
Definition rds_writev (iov : list iovec) (dest_addr addr key context : Z) : St K Z :=
  rds_rma_common iov dest_addr addr key true context 0.
Definition rds_writemsg (msg : fi_msg_rma) (flags : Z) : St K Z :=
  match mr_rma_iov msg with
  | [(addr, key)] => rds_rma_common (mr_msg_iov msg) (mr_msg_addr msg) addr key true (mr_msg_context msg) flags
  | _ => ret (- FI_EINVAL)
  end.
Definition rds_read (buf len src_addr addr key context : Z) : St K Z :=
  rds_rma_common [mkIov buf len] src_addr addr key false context 0.
Definition rds_readv (iov : list iovec) (src_addr addr key context : Z) : St K Z :=
  rds_rma_common iov src_addr addr key false context 0.
Definition rds_readmsg (msg : fi_msg_rma) (flags : Z) : St K Z :=
  match mr_rma_iov msg with
  | [(addr, key)] => rds_rma_common (mr_msg_iov msg) (mr_msg_addr msg) addr key false (mr_msg_context msg) flags
  | _ => ret (- FI_EINVAL)
  end.

Definition rds_inject_write (buf len dest_addr addr key : Z) : St K Z :=
  cfg <- gets w_cfg ;;
  if len >? rds_eager_size cfg then ret (- FI_EMSGSIZE)
  else
    bounce <- sys_alloc len ;;
    match bounce with
    | None => ret (- FI_ENOMEM)
    | Some bounce =>
        src <- read_mem buf len ;;
        write_mem bounce src ;;;
        dest <- rds_av_addr dest_addr ;;
        match dest with
        | None => ret (- FI_EINVAL)
        | Some dest =>
            pend <- rds_pending_alloc RDS_PEND_RMA 0 (Z.lor FI_RMA FI_WRITE) ;;
            match pend with
            | None => ret (- FI_ENOMEM)
            | Some id =>
                pend_upd id (fun p => p <| p_no_comp := true |> <| p_bounce := Some bounce |>
                                        <| p_seg_remaining := 1 |>) ;;;
                addrlen <- av_addrlen_get ;;
                r <- rds_post_rdma dest addrlen key addr [mkIov bounce len] true true id ;;
                if negb (r =? 0) then pend_remove id ;;; ret r
                else ret 0
            end
        end
    end.

End Rma.
