(* ===== verification/RingRx.v ===== *)
(** * The eager ring: polling and delivery

    The second half of [rds_eager.c]: the receiver polls the trailing
    generation word of the next slot in memory, absorbs the piggybacked
    credit, feeds the slot to the matching engine and returns credit. *)

From S2P Require Import Prelude Iov Wire Config Kernel Cq Av MrCache State Mr Pending Ring Msg.

Section RingRx.
Context {K : Type} `{!Kernel K}.

Definition rds_ring_return_credit (h : Z) : St K unit :=
  p <- peer_deref h ;;
  write_mem (pe_credit_tx_addr p) (le_enc 8 (pe_rx_head p)) ;;;
  r <- rds_post_rdma (pe_sa p) (ofi_sizeofaddr (pe_sa p)) (pe_rem_credit_cookie p) 0
         [mkIov (pe_credit_tx_addr p) 8] true false 0 ;;
  if r =? 0 then peer_upd h (fun p => p <| pe_rx_credit_sent := pe_rx_head p |>) else ret tt.

(** The header an eager datagram would have carried. *)
Definition slot_eager_hdr (s : rds_ring_slot) : rds_hdr :=
  rds_hdr_zero <| h_magic := RDS_HDR_MAGIC |> <| h_op := RDS_OP_EAGER |>
    <| h_flags := sl_flags s |> <| h_tag := sl_tag s |> <| h_data := sl_data s |> <| h_size := sl_len s |>.

(** [payload] is the address of the slot's payload; the handlers read
    [sl_len] bytes from it. *)
Definition rds_ring_deliver (h : Z) (s : rds_ring_slot) (payload : Z) : St K unit :=
  p <- peer_deref h ;;
  if sl_op s =? RDS_OP_EAGER then
    bs <- read_mem payload (sl_len s) ;;
    rds_handle_inbound (slot_eager_hdr s) bs (pe_sa p) (pe_addr p)
  else if sl_len s <? RDS_HDR_SIZE then ret tt
  else
    hd <- read_mem payload RDS_HDR_SIZE ;;
    bs <- read_mem (payload + RDS_HDR_SIZE) (sl_len s - RDS_HDR_SIZE) ;;
    rds_handle_inbound (rds_hdr_of_bytes hd) bs (pe_sa p) (pe_addr p).

(** The body of the loop of [rds_ring_poll_peer] for a slot that has fully
    arrived at [slotp]: absorb the credit, deliver, advance, and return
    credit when half the ring has been consumed. *)
Definition poll_slot (h : Z) (p : rds_peer) (slotp slots : Z) : St K unit :=
  sb <- read_mem slotp RDS_RING_HDR_SIZE ;;
  let s := rds_ring_slot_of_bytes sb in
  (if sl_ack s >? pe_tx_tail p then peer_upd h (fun p => p <| pe_tx_tail := sl_ack s |>) else ret tt) ;;;
  rds_ring_deliver h s (rds_slot_payload slotp) ;;;
  peer_upd h (fun p => p <| pe_rx_head ::= fun n => u64 (n + 1) |>) ;;;
  p <- peer_deref h ;;
  if u64 (pe_rx_head p - pe_rx_credit_sent p) >=? slots / 2 then rds_ring_return_credit h else ret tt.

(** The [for (;;)] loop of [rds_ring_poll_peer]: whether anything was
    drained.  A slot holds one generation at a time, so a lap of the ring
    bounds the walk. *)
Fixpoint poll_loop (fuel : nat) (h : Z) (drained : bool) : St K bool :=
  p <- peer_deref h ;;
  slots <- ep_get e_ring_slots ;;
  slot_size <- ep_get e_ring_slot_size ;;
  if slots =? 0 then ub
  else
    let idx := u32 (pe_rx_head p mod slots) in
    let want := u32 (u32 (pe_rx_head p / slots) + 1) in
    let slotp := pe_rx_ring p + idx * slot_size in
    gen <- read_mem (rds_slot_gen slotp slot_size) 4 ;;
    if negb (le_dec gen =? want) then ret drained
    else
      match fuel with
      | O => ub
      | S fuel' => poll_slot h p slotp slots ;;; poll_loop fuel' h true
      end.

Definition rds_ring_poll_peer (h : Z) : St K unit :=
  slots <- ep_get e_ring_slots ;;
  drained <- poll_loop (Z.to_nat slots) h false ;;
  p <- peer_deref h ;;
  if (drained : bool) && negb (pe_rx_head p =? pe_rx_credit_sent p)
  then rds_ring_return_credit h else ret tt.

(** [dlist_foreach] over the LRU list.  Handling a RING_REQ that travelled in
    a slot could add a peer at the head of the list; the walk goes on from
    the current entry, so it visits the entries that follow it. *)
Fixpoint ring_progress_loop (l : list Z) : St K unit :=
  match l with
  | [] => ret tt
  | h :: l' =>
      p <- peer_deref h ;;
      (if bool_decide (pe_state p = RDS_PEER_READY) then rds_ring_poll_peer h else ret tt) ;;;
      ring_progress_loop l'
  end.

Definition rds_ring_progress : St K unit :=
  rdma <- ep_get e_eager_rdma ;;
  cnt <- ep_get e_peer_cnt ;;
  if negb rdma || (cnt =? 0) then ret tt
  else lru <- ep_get e_peer_lru ;; ring_progress_loop lru.

End RingRx.
