(* ===== verification/RingLink.v ===== *)
(** * The ring protocol

    One direction of an eager ring as the two endpoints and the network see
    it: the sender's counters and staging slots, the receiver's counter and
    ring slots, the RDMA writes under way, and the credit that flows back.
    The network may reorder writes; the one thing it promises, as
    [rds_eager.c] assumes, is that a write lands in ascending address order
    with its trailing generation word last.  The sent and the consumed slots
    are recorded as history.

    The protocol never overwrites a slot the receiver has not consumed and
    hands over every slot exactly once, whole and in order.  The files
    [RingSend] and [RingEnd] show that the code of [rds_eager.c] performs
    steps of this protocol. *)

From S2P Require Import Prelude Wire.

(** The generation expected of the slot of index [head]. *)
Definition ring_want (slots head : Z) : Z := u32 (u32 (head / slots) + 1).

(** One lap later the same slot is due with another generation. *)
Lemma want_lap slots head : 0 < slots -> ring_want slots (head + slots) <> ring_want slots head.
Proof.
  intros Hs. unfold ring_want, u32. replace (head + slots) with (head + 1 * slots) by lia. rewrite Z.div_add by lia.
  rewrite !Zplus_mod_idemp_l. intros E. pose proof (Z.div_mod (head / slots + 1 + 1) (2 ^ 32) ltac:(lia)).
  pose proof (Z.div_mod (head / slots + 1) (2 ^ 32) ltac:(lia)). lia.
Qed.

Lemma want_first slots head : 0 <= head < slots -> ring_want slots head = 1.
Proof. intros H. unfold ring_want. by rewrite Z.div_small. Qed.

(** Two indices of one window share a slot only when equal. *)
Lemma mod_window n a b : 0 < n -> a mod n = b mod n -> Z.abs (a - b) < n -> a = b.
Proof.
  intros Hn E Hab. pose proof (Z.div_mod a n ltac:(lia)). pose proof (Z.div_mod b n ltac:(lia)).
  assert (a / n = b / n) by nia. lia.
Qed.

(** ** State *)

Record link := mkLink {
  lk_head : Z;                    (* tx_head: slots sent *)
  lk_tail : Z;                    (* tx_tail: slots known to be consumed *)
  lk_stage : Z -> list Z;         (* the sender's staging slots *)
  lk_cell : Z;                    (* the sender's credit cell *)
  lk_rx_head : Z;                 (* rx_head: slots consumed *)
  lk_ring : Z -> list Z;          (* the receiver's ring slots *)
  lk_credit : Z;                  (* credit_tx: the credit last returned *)
  lk_flight : list (Z * Z);       (* slot writes under way: index, bytes landed *)
  lk_acks : list Z;               (* credit carried by slots of the other direction *)
  lk_sent : list (list Z);        (* every slot sent *)
  lk_seen : list (list Z)         (* every slot consumed *)
}.

#[export] Instance link_eta : Settable link := fun l =>
  mkLink (lk_head l) (lk_tail l) (lk_stage l) (lk_cell l) (lk_rx_head l) (lk_ring l) (lk_credit l)
    (lk_flight l) (lk_acks l) (lk_sent l) (lk_seen l).

Ltac lk_simpl := repeat (progress (unfold set_field in *; cbn [lk_head lk_tail lk_stage lk_cell lk_rx_head lk_ring lk_credit
  lk_flight lk_acks lk_sent lk_seen] in *)).

Definition slot_set (i : Z) (bs : list Z) (f : Z -> list Z) : Z -> list Z := fun x => if x =? i then bs else f x.

Lemma slot_set_eq i bs f : slot_set i bs f i = bs.
Proof. unfold slot_set. by rewrite Z.eqb_refl. Qed.
Lemma slot_set_ne i bs f x : x <> i -> slot_set i bs f x = f x.
Proof. intros H. unfold slot_set. by rewrite (proj2 (Z.eqb_neq x i)). Qed.

Section Link.
Context (N size : Z).

Definition slot_gen (bs : list Z) : Z := le_dec (drop (Z.to_nat (size - RDS_RING_GEN_SIZE)) bs).

(** Bytes [j] to [j'] of [src] land in [dst]. *)
Definition land (j j' : Z) (src dst : list Z) : list Z :=
  take (Z.to_nat j) dst ++ take (Z.to_nat j' - Z.to_nat j) (drop (Z.to_nat j) src) ++ drop (Z.to_nat j') dst.

Definition link_init (stage : Z -> list Z) : link :=
  mkLink 0 0 stage 0 0 (fun _ => replicate (Z.to_nat size) 0) 0 [] [] [] [].

(** ** Steps *)

(** A credit write reads the credit word when it is carried out, so landing
    it at any time covers every order of credit writes. *)

Inductive link_step : link -> link -> Prop :=
| link_refresh l : link_step l (l <| lk_tail ::= Z.max (lk_cell l) |>)
| link_absorb l v : v ∈ lk_acks l -> link_step l (l <| lk_tail ::= Z.max v |>)
| link_stage l bs : lk_head l - lk_tail l < N -> Z.of_nat (length bs) = size ->
    link_step l (l <| lk_stage ::= slot_set (lk_head l mod N) bs |>)
| link_post l : lk_head l - lk_tail l < N -> slot_gen (lk_stage l (lk_head l mod N)) = ring_want N (lk_head l) ->
    link_step l (l <| lk_head := lk_head l + 1 |> <| lk_flight ::= cons (lk_head l, 0) |>
                   <| lk_sent ::= fun h => h ++ [lk_stage l (lk_head l mod N)] |>)
| link_land l f1 k j f2 j' : lk_flight l = f1 ++ (k, j) :: f2 -> j <= j' <= size - RDS_RING_GEN_SIZE ->
    link_step l (l <| lk_ring ::= slot_set (k mod N) (land j j' (lk_stage l (k mod N)) (lk_ring l (k mod N))) |>
                   <| lk_flight := f1 ++ (k, j') :: f2 |>)
| link_arrive l f1 k j f2 : lk_flight l = f1 ++ (k, j) :: f2 ->
    link_step l (l <| lk_ring ::= slot_set (k mod N) (land j size (lk_stage l (k mod N)) (lk_ring l (k mod N))) |>
                   <| lk_flight := f1 ++ f2 |>)
| link_poll l : slot_gen (lk_ring l (lk_rx_head l mod N)) = ring_want N (lk_rx_head l) ->
    link_step l (l <| lk_rx_head := lk_rx_head l + 1 |> <| lk_seen ::= fun h => h ++ [lk_ring l (lk_rx_head l mod N)] |>)
| link_credit l : link_step l (l <| lk_credit := lk_rx_head l |>)
| link_credit_land l : link_step l (l <| lk_cell := lk_credit l |>)
| link_piggyback l : link_step l (l <| lk_acks ::= cons (lk_rx_head l) |>).

(** ** The invariant *)

Definition in_flight l k : Prop := k ∈ (lk_flight l).*1.

Record link_ok l : Prop := {
  lo_order : 0 <= lk_tail l <= lk_rx_head l /\ lk_rx_head l <= lk_head l <= lk_tail l + N;
  lo_credit : 0 <= lk_cell l <= lk_rx_head l /\ 0 <= lk_credit l <= lk_rx_head l /\ forall v, v ∈ lk_acks l -> 0 <= v <= lk_rx_head l;
  lo_sent : Z.of_nat (length (lk_sent l)) = lk_head l;
  lo_seen : lk_seen l = take (Z.to_nat (lk_rx_head l)) (lk_sent l);
  lo_lens : forall i, 0 <= i < N -> Z.of_nat (length (lk_stage l i)) = size /\ Z.of_nat (length (lk_ring l i)) = size;
  lo_stage : forall k, lk_rx_head l <= k < lk_head l ->
    lk_sent l !! Z.to_nat k = Some (lk_stage l (k mod N)) /\ slot_gen (lk_stage l (k mod N)) = ring_want N k;
  lo_nodup : NoDup (lk_flight l).*1;
  lo_flight : forall k j, (k, j) ∈ lk_flight l -> lk_rx_head l <= k < lk_head l /\ 0 <= j <= size - RDS_RING_GEN_SIZE /\
    take (Z.to_nat j) (lk_ring l (k mod N)) = take (Z.to_nat j) (lk_stage l (k mod N));
  lo_landed : forall k, lk_rx_head l <= k < lk_head l -> ~ in_flight l k -> lk_ring l (k mod N) = lk_stage l (k mod N);
  lo_due : forall k, lk_rx_head l <= k < lk_rx_head l + N -> k >= lk_head l \/ in_flight l k ->
    slot_gen (lk_ring l (k mod N)) <> ring_want N k }.

Hypothesis HN : 0 < N.
Hypothesis Hsize : RDS_RING_HDR_SIZE + RDS_RING_GEN_SIZE <= size.

Lemma slot_range k : 0 <= k mod N < N.
Proof. by apply Z.mod_pos_bound. Qed.

Lemma land_prefix j j' (src dst : list Z) :
  0 <= j <= j' -> j' <= Z.of_nat (length src) -> length src = length dst -> take (Z.to_nat j) dst = take (Z.to_nat j) src ->
  land j j' src dst = take (Z.to_nat j') src ++ drop (Z.to_nat j') dst.
Proof.
  intros Hj Hj' Hlen Hp. unfold land. rewrite Hp, app_assoc, take_take_drop. do 2 f_equal. lia.
Qed.

Lemma link_init_ok stage : (forall i, 0 <= i < N -> Z.of_nat (length (stage i)) = size) -> link_ok (link_init stage).
Proof.
  intros Hst. unfold link_init. split; lk_simpl; try done; try lia.
  - split_and!; [lia..|]. by intros v ?%elem_of_nil.
  - intros i Hi. split; [by apply Hst|]. rewrite length_replicate. unfold RDS_RING_HDR_SIZE, RDS_RING_GEN_SIZE in Hsize. lia.
  - apply NoDup_nil_2.
  - by intros k j ?%elem_of_nil.
  - intros k Hk _. rewrite want_first by lia. unfold slot_gen. rewrite drop_replicate.
    replace (Z.to_nat size - Z.to_nat (size - RDS_RING_GEN_SIZE))%nat with 4%nat by (unfold RDS_RING_HDR_SIZE, RDS_RING_GEN_SIZE in *; lia). done.
Qed.

(** Raising the tail to a credit. *)
Lemma tail_ok l v : link_ok l -> 0 <= v <= lk_rx_head l -> link_ok (l <| lk_tail ::= Z.max v |>).
Proof. intros [H1 H2 H3 H4 H5 H6 H7 H8 H9 H10] Hv. split; lk_simpl; auto. lia. Qed.

(** The staging slot of the next message is free. *)
Lemma stage_ok l bs :
  link_ok l -> lk_head l - lk_tail l < N -> Z.of_nat (length bs) = size -> link_ok (l <| lk_stage ::= slot_set (lk_head l mod N) bs |>).
Proof.
  intros [H1 H2 H3 H4 H5 H6 H7 H8 H9 H10] Hroom Hlen.
  assert (Hne : forall k, lk_rx_head l <= k < lk_head l -> k mod N <> lk_head l mod N).
  { intros k Hk E. apply mod_window in E; lia. }
  split; lk_simpl; auto.
  - intros i Hi. split; [|by apply H5]. unfold slot_set. destruct (i =? _); [done|by apply H5].
  - intros k Hk. rewrite slot_set_ne by auto. by apply H6.
  - intros k j Hk. destruct (H8 k j Hk) as (Hr & ? & ?). rewrite slot_set_ne by auto. tauto.
  - intros k Hk Hf. rewrite slot_set_ne by auto. by apply H9.
Qed.

Lemma post_ok l :
  link_ok l -> lk_head l - lk_tail l < N -> slot_gen (lk_stage l (lk_head l mod N)) = ring_want N (lk_head l) ->
  link_ok (l <| lk_head := lk_head l + 1 |> <| lk_flight ::= cons (lk_head l, 0) |>
             <| lk_sent ::= fun h => h ++ [lk_stage l (lk_head l mod N)] |>).
Proof.
  intros [H1 H2 H3 H4 H5 H6 H7 H8 H9 H10] Hroom Hgen. unfold in_flight in *. split; unfold in_flight; lk_simpl; auto.
  - lia.
  - rewrite length_app. cbn. lia.
  - rewrite take_app_le by lia. done.
  - intros k Hk. destruct (decide (k = lk_head l)) as [->|Hne].
    + split; [|done]. apply list_lookup_middle. lia.
    + destruct (H6 k) as [E ?]; [lia|]. split; [|done]. by apply lookup_app_l_Some.
  - apply NoDup_cons. split; [|done]. intros (x & Ex & Hx)%list_elem_of_fmap. destruct x as [k j]. cbn in Ex. subst k.
    destruct (H8 _ _ Hx) as [? _]. lia.
  - intros k j [[= -> ->]|Hk]%elem_of_cons; [split_and!; try lia; [unfold RDS_RING_HDR_SIZE in Hsize; lia|done]|].
    destruct (H8 k j Hk) as (? & ? & ?). split_and!; lia || done.
  - intros k Hk Hf. apply not_elem_of_cons in Hf as [Hne Hf]. apply H9; [cbn in Hne; lia|done].
  - intros k Hk Hor. apply H10; [done|]. destruct Hor as [Hge|[->|Hf]%elem_of_cons]; [left; lia|left; cbn; lia|by right].
Qed.

(** Part of a write lands. *)
Lemma land_ok l f1 k j f2 j' :
  link_ok l -> lk_flight l = f1 ++ (k, j) :: f2 -> j <= j' <= size - RDS_RING_GEN_SIZE ->
  link_ok (l <| lk_ring ::= slot_set (k mod N) (land j j' (lk_stage l (k mod N)) (lk_ring l (k mod N))) |>
             <| lk_flight := f1 ++ (k, j') :: f2 |>).
Proof.
  intros [H1 H2 H3 H4 H5 H6 H7 H8 H9 H10] Ef Hj'. destruct (H8 k j) as (Hk & Hj & Hp); [rewrite Ef; set_solver|].
  destruct (H5 (k mod N) (slot_range k)) as [L1 L2]. assert (0 <= RDS_RING_GEN_SIZE) by done. rewrite land_prefix by (done || lia).
  set (new := take _ _ ++ drop _ _). assert (Hg : slot_gen new = slot_gen (lk_ring l (k mod N))).
  { unfold slot_gen, new. rewrite drop_app_ge, length_take, drop_drop by (rewrite length_take; lia). do 2 f_equal. lia. }
  assert (Hf1 : (f1 ++ (k, j') :: f2).*1 = (lk_flight l).*1) by (by rewrite Ef, !fmap_app, !fmap_cons).
  assert (Hne : forall x, lk_rx_head l <= x < lk_rx_head l + N -> x <> k -> x mod N <> k mod N).
  { intros x Hx Hxk E. apply Hxk. apply (mod_window N); [done|done|lia]. }
  assert (Hring : forall x, lk_rx_head l <= x < lk_rx_head l + N ->
    slot_gen (slot_set (k mod N) new (lk_ring l) (x mod N)) = slot_gen (lk_ring l (x mod N))).
  { intros x Hx. destruct (decide (x = k)) as [->|Hxk]; [by rewrite slot_set_eq|by rewrite slot_set_ne by auto]. }
  unfold in_flight in *. split; unfold in_flight; lk_simpl; rewrite ?Hf1; auto.
  - intros i Hi. split; [by apply H5|]. unfold slot_set. destruct (i =? _); [|by apply H5].
    unfold new. rewrite length_app, length_take, length_drop. lia.
  - intros x jx Hx. assert (Hold : (x = k /\ jx = j') \/ (x <> k /\ (x, jx) ∈ lk_flight l)).
    { destruct (decide (x = k)) as [->|Hxk]; [left|right; split; [done|rewrite Ef; set_solver]]. split; [done|].
      rewrite Ef, fmap_app, fmap_cons, NoDup_app, NoDup_cons in H7. destruct H7 as (_ & Hd1 & Hd2 & _). cbn in Hd2.
      apply elem_of_app in Hx as [Hx|[[= E]|Hx]%elem_of_cons]; [|done|].
      - exfalso. apply (Hd1 k); [exact (list_elem_of_fmap_2 fst _ _ Hx)|apply list_elem_of_here].
      - exfalso. apply Hd2. exact (list_elem_of_fmap_2 fst _ _ Hx). }
    destruct Hold as [[-> ->]|[Hxk Hx']].
    + rewrite slot_set_eq. split_and!; [lia..|]. unfold new. rewrite take_app_le, take_take by (rewrite length_take; lia). f_equal. lia.
    + destruct (H8 x jx Hx') as (? & ? & ?). rewrite slot_set_ne by (apply Hne; [lia|done]). tauto.
  - intros x Hx Hf. rewrite slot_set_ne; [by apply H9|]. apply Hne; [lia|]. intros ->. apply Hf. rewrite Ef, fmap_app, fmap_cons. set_solver.
  - intros x Hx Hor. rewrite Hring by done. by apply H10.
Qed.

(** A write lands completely. *)
Lemma arrive_ok l f1 k j f2 :
  link_ok l -> lk_flight l = f1 ++ (k, j) :: f2 ->
  link_ok (l <| lk_ring ::= slot_set (k mod N) (land j size (lk_stage l (k mod N)) (lk_ring l (k mod N))) |>
             <| lk_flight := f1 ++ f2 |>).
Proof.
  intros [H1 H2 H3 H4 H5 H6 H7 H8 H9 H10] Ef. destruct (H8 k j) as (Hk & Hj & Hp); [rewrite Ef; set_solver|].
  destruct (H5 (k mod N) (slot_range k)) as [L1 L2]. assert (0 <= RDS_RING_GEN_SIZE) by done.
  rewrite land_prefix by (done || lia). rewrite take_ge, drop_ge, app_nil_r by lia.
  rewrite Ef, fmap_app, fmap_cons, NoDup_app, NoDup_cons in H7. destruct H7 as (Hn1 & Hd1 & Hd2 & Hn2). cbn in Hd1, Hd2.
  assert (Hfl : forall x, x ∈ (f1 ++ f2).*1 <-> x ∈ (lk_flight l).*1 /\ x <> k).
  { intros x. rewrite Ef, !fmap_app, fmap_cons, !elem_of_app, elem_of_cons. cbn. split.
    - intros [Hx|Hx]; (split; [tauto|]); intros ->; [by apply (Hd1 k); [|apply list_elem_of_here]|done].
    - tauto. }
  assert (Hne : forall x, lk_rx_head l <= x < lk_rx_head l + N -> x <> k -> x mod N <> k mod N).
  { intros x Hx Hxk E. apply Hxk. apply (mod_window N); [done|done|lia]. }
  unfold in_flight in *. split; unfold in_flight; lk_simpl; auto.
  - intros i Hi. split; [by apply H5|]. unfold slot_set. destruct (i =? _); [done|by apply H5].
  - rewrite fmap_app, NoDup_app. split_and!; auto. intros x Hx. specialize (Hd1 x Hx). set_solver.
  - intros x jx Hx. assert (Hxk : x <> k). { apply (Hfl x). exact (list_elem_of_fmap_2 fst _ _ Hx). }
    destruct (H8 x jx) as (? & ? & ?); [rewrite Ef; set_solver|]. rewrite slot_set_ne by (apply Hne; [lia|done]). tauto.
  - intros x Hx Hf. destruct (decide (x = k)) as [->|Hxk]; [by rewrite slot_set_eq|]. rewrite slot_set_ne by (apply Hne; [lia|done]).
    apply H9; [done|]. intros Hin. apply Hf, Hfl. done.
  - intros x Hx Hor. assert (Hxk : x <> k). { intros ->. destruct Hor as [?|Hf]; [lia|]. by apply Hfl in Hf as [_ ?]. }
    rewrite slot_set_ne by (by apply Hne). apply H10; [done|]. destruct Hor as [?|Hf]; [by left|right]. by apply Hfl in Hf as [? _].
Qed.

(** The receiver consumes exactly the next slot sent. *)
Lemma poll_ok l :
  link_ok l -> slot_gen (lk_ring l (lk_rx_head l mod N)) = ring_want N (lk_rx_head l) ->
  lk_sent l !! Z.to_nat (lk_rx_head l) = Some (lk_ring l (lk_rx_head l mod N)) /\
  link_ok (l <| lk_rx_head := lk_rx_head l + 1 |> <| lk_seen ::= fun h => h ++ [lk_ring l (lk_rx_head l mod N)] |>).
Proof.
  intros [H1 H2 H3 H4 H5 H6 H7 H8 H9 H10] Hg. set (r := lk_rx_head l) in *.
  assert (Hr : r < lk_head l /\ ~ in_flight l r).
  { split; [destruct (Z.lt_ge_cases r (lk_head l)); [done|exfalso]|intros Hf]; apply (H10 r); auto; lia. }
  destruct Hr as [Hr Hf]. pose proof (H9 r ltac:(lia) Hf) as Er. destruct (H6 r ltac:(lia)) as [Es Egs].
  rewrite Er. split; [done|]. unfold in_flight in *. split; unfold in_flight; lk_simpl; fold r; auto.
  - lia.
  - destruct H2 as (? & ? & Ha). split_and!; [lia..|]. intros v Hv. specialize (Ha v Hv). lia.
  - rewrite H4. replace (Z.to_nat (r + 1)) with (S (Z.to_nat r)) by lia. by rewrite (take_S_r _ _ _ Es).
  - intros k Hk. apply H6. lia.
  - intros k j Hk. destruct (H8 k j Hk) as (? & ? & ?). split_and!; try done; try lia.
    assert (k <> r); [|lia]. intros ->. apply Hf. exact (list_elem_of_fmap_2 fst _ _ Hk).
  - intros k Hk. apply H9. lia.
  - intros k Hk Hor. destruct (decide (k = r + N)) as [->|Hne]; [|apply H10; [lia|done]].
    replace (r + N) with (r + 1 * N) by lia. rewrite Z.mod_add by lia. rewrite Er, Egs. replace (r + 1 * N) with (r + N) by lia.
    intros E. by apply (want_lap N r).
Qed.

Lemma link_step_ok l l' : link_step l l' -> link_ok l -> link_ok l'.
Proof.
  intros Hs Hok. pose proof Hok as [H1 (Hc & Hcr & Ha) _ _ _ _ _ _ _ _]. destruct Hs.
  - by apply tail_ok.
  - apply tail_ok; [done|]. by apply Ha.
  - by apply stage_ok.
  - by apply post_ok.
  - by apply land_ok.
  - by apply arrive_ok.
  - by apply poll_ok.
  - destruct Hok as [_ _ G3 G4 G5 G6 G7 G8 G9 G10]. split; lk_simpl; auto. split_and!; [lia..|done].
  - destruct Hok as [_ _ G3 G4 G5 G6 G7 G8 G9 G10]. split; lk_simpl; auto.
  - destruct Hok as [_ _ G3 G4 G5 G6 G7 G8 G9 G10]. split; lk_simpl; auto. split_and!; [lia..|].
    intros v [->|Hv]%elem_of_cons; [lia|by apply Ha].
Qed.

Lemma link_steps_ok l l' : rtc link_step l l' -> link_ok l -> link_ok l'.
Proof. induction 1; eauto using link_step_ok. Qed.

End Link.
