(* ===== verification/Progress.v ===== *)
(** * The progress engine

    [rds_progress.c]: retry what the socket rejected, poll the rings, then
    drain up to [RDS_PROGRESS_BUDGET] receives; and the completion-queue read
    that drives it. *)

From S2P Require Import Prelude Iov Wire Config Kernel Cq Av MrCache State Mr Pending Ring Msg.
From S2P Require Import RingRx.

Definition SOL_RDS : Z := 276.
Definition RDS_CMSG_RDMA_STATUS : Z := 4.

Section Progress.
Context {K : Type} `{!Kernel K}.

Fixpoint rds_reap_notifies (cmsgs : list rds_cmsg) : St K unit :=
  match cmsgs with
  | [] => ret tt
  | c :: cmsgs' =>
      (if negb (cm_level c =? SOL_RDS) || negb (cm_type c =? RDS_CMSG_RDMA_STATUS) then ret tt
       else rds_handle_rdma_notify (cm_token c) (cm_status c)) ;;;
      rds_reap_notifies cmsgs'
  end.

(** One received message: notifications first, then the datagram. *)
Definition progress_msg (src bytes : list Z) (trunc : bool) (cmsgs : list rds_cmsg) : St K unit :=
  rds_reap_notifies cmsgs ;;;
  if trunc then ret tt
  else if Z.of_nat (length bytes) <? RDS_HDR_SIZE then ret tt
  else
    b <- ep_get e_av ;;
    if negb b then ub
    else
      src_fi <- gets (fun w => ofi_av_lookup_fi_addr (w_avec w) src) ;;
      rds_handle_inbound (rds_hdr_of_bytes bytes) (drop 40 bytes) src src_fi.

Fixpoint progress_loop (budget : nat) : St K unit :=
  match budget with
  | O => ret tt
  | S budget' =>
      bufsize <- ep_get e_rx_buf_size ;;
      cmsgsize <- ep_get e_cmsg_size ;;
      r <- sys_recvmsg bufsize cmsgsize ;;
      match r with
      | RecvErr _ => ret tt
      | RecvMsg src bytes trunc cmsgs => progress_msg src bytes trunc cmsgs ;;; progress_loop budget'
      end
  end.

Definition rds_ep_progress : St K unit :=
  sock <- ep_get e_sock ;;
  if sock <? 0 then ret tt
  else
    rds_progress_deferred ;;;
    rds_ring_progress ;;;
    progress_loop (Z.to_nat RDS_PROGRESS_BUDGET).

(** [ofi_cq_progress] for the endpoint at hand. *)
Definition ofi_cq_progress (id : Z) : St K unit :=
  l <- ep_get e_cq_lists ;;
  if bool_decide (id ∈ l) then rds_ep_progress else ret tt.

(** [ofi_cq_readfrom]. *)
Definition ofi_cq_readfrom (id count : Z) : St K (Z * list (cq_out * Z)) :=
  ofi_cq_progress id ;;;
  cq_run id (fun '(q, k) =>
    match ofi_cq_read_entries q count with
    | Some (r, out, q') => Some ((r, out), (q', k))
    | None => None
    end).

End Progress.
