(* ===== verification/Ep.v ===== *)
(** * Endpoint and domain life cycle

    [rds_ep.c] and [rds_domain.c]: creation of the socket and the endpoint,
    binding, enabling, cancelling, teardown; opening and closing the domain.
    Object binding follows [ofi_ep_bind] of [util_ep.c] for completion
    queues and address vectors. *)

From S2P Require Import Prelude Iov Wire Config Kernel Attr Cq Av Rbt MrCache State Mr Pending Ring Msg.

(** ** Data *)

Inductive fi_class := FI_CLASS_CQ (id : Z) | FI_CLASS_CNTR (id : Z) | FI_CLASS_AV | FI_CLASS_EQ | FI_CLASS_OTHER.

Inductive fi_command := FI_ENABLE | FI_OTHER_COMMAND.

(** A zeroed endpoint with no socket. *)
Definition ep_zero (self : Z) : rds_ep :=
  mkEp self (-1) false 0 0 0 0 None None [] ∅ [] false 0 [] [] [] [] [] [] 0 0 0 0 false 0 0 0 0 ∅ ∅ [] 0 0.

Definition RDS_TRANS_IB : Z := 0.
Definition EP_SIZE : Z := 17232.
Definition CMSG_BUF_SIZE : Z := 32 * 64.

Section Ep.
Context {K : Type} `{!Kernel K}.

(** ** Names *)

Definition sys_k {A} (f : K -> A * K) : St K A := fun w =>
  let '(r, k') := f (w_k w) in Some (r, w <| w_k := k' |>).

Definition rds_setname (addr : list Z) : St K Z :=
  sock <- ep_get e_sock ;;
  r <- sys_k (k_bind sock addr) ;;
  if negb (r =? 0) then ret (- r)
  else ep_upd (fun e => e <| e_is_bound := true |>) ;;; ret 0.

(** [rds_getname]: the result, the bytes stored and the length reported. *)
Definition rds_getname (buflen : Z) : St K (Z * list Z * Z) :=
  sock <- ep_get e_sock ;;
  r <- sys_k (k_getsockname sock) ;;
  match r with
  | inl err => ret (- err, [], buflen)
  | inr name =>
      let len := Z.of_nat (length name) in
      ret (if buflen <? len then - FI_ETOOSMALL else 0, take (Z.to_nat buflen) name, len)
  end.

Definition rds_ep_getopt : St K Z := ret (- FI_ENOPROTOOPT).
Definition rds_ep_setopt : St K Z := ret 0.

(** ** Cancel *)

Definition cancel_err (context : Z) (rx : rds_rx_entry) : fi_cq_err_entry :=
  mkErr (mkEntry context
           (Z.lor FI_RECV (if has (rx_flags rx) FI_TAGGED then FI_TAGGED else FI_MSG))
           0 0 0 (rx_tag rx)) 0 FI_ECANCELED 0 [].

(** Remove and report the first posted receive of one list. *)
Definition cancel_in (tagged : bool) (context : Z) : St K bool :=
  l <- ep_get (posted_list tagged) ;;
  match find_split (fun rx => rx_context rx =? context) l with
  | None => ret false
  | Some (l1, rx, l2) =>
      ep_upd (set_posted tagged (l1 ++ l2)) ;;;
      cq <- ep_get e_rx_cq ;;
      (match cq with
       | Some id => cq_run id (ofi_cq_write_error (cancel_err context rx)) ;;; ret tt
       | None => ret tt
       end) ;;;
      ret true
  end.

Definition rds_ep_cancel (context : Z) : St K Z :=
  b <- cancel_in false context ;;
  if (b : bool) then ret 0
  else b <- cancel_in true context ;; ret (if (b : bool) then 0 else - FI_ENOENT).

(** ** Bind and enable *)

Definition FI_CQ_BIND_FLAGS : Z := Z.lor (Z.lor FI_TRANSMIT FI_RECV) FI_SELECTIVE_COMPLETION.

(** A duplicate is fine, a new element is allocated; [get] and [put] are the
    lists of one kind of object that hold the endpoint. *)
Definition fid_list_insert2 (get : rds_ep -> list Z) (put : list Z -> rds_ep -> rds_ep) (id : Z) : St K Z :=
  l <- ep_get get ;;
  if bool_decide (id ∈ l) then ret 0
  else
    p <- sys_alloc 24 ;;
    match p with
    | None => ret (- FI_ENOMEM)
    | Some _ => ep_upd (put (l ++ [id])) ;;; ret 0
    end.

Definition ep_list_insert (id : Z) : St K Z := fid_list_insert2 e_cq_lists (fun l e => e <| e_cq_lists := l |>) id.

Definition is_some_cq (c : option Z) : bool := match c with Some _ => true | None => false end.

Definition ofi_ep_bind_cq (id flags : Z) : St K Z :=
  tx <- ep_get e_tx_cq ;;
  rx <- ep_get e_rx_cq ;;
  if negb (Z.land flags (Z.lnot FI_CQ_BIND_FLAGS) =? 0) then ret (- FI_EBADFLAGS)
  else if (has flags FI_TRANSMIT && is_some_cq tx) || (has flags FI_RECV && is_some_cq rx)
  then ret (- FI_EINVAL)
  else
    let comp := if has flags FI_SELECTIVE_COMPLETION then 0 else FI_COMPLETION in
    (if has flags FI_TRANSMIT
     then ep_upd (fun e => e <| e_tx_cq := Some id |> <| e_tx_op_flags ::= fun f => Z.lor f comp |>) ;;; cq_ref 1 id
     else ret tt) ;;;
    (if has flags FI_RECV
     then ep_upd (fun e => e <| e_rx_cq := Some id |> <| e_rx_op_flags ::= fun f => Z.lor f comp |>) ;;; cq_ref 1 id
     else ret tt) ;;;
    if has flags (Z.lor FI_TRANSMIT FI_RECV) then ep_list_insert id else ret 0.

Definition ofi_ep_bind_av : St K Z :=
  b <- ep_get e_av ;;
  if (b : bool) then ret (- FI_EINVAL)
  else ep_upd (fun e => e <| e_av := true |>) ;;; av_ref 1 ;;; ret 0.

(** The flags that select the indices of cntrs[], in their order. *)
Definition cntr_index_flags : list (Z * Z) :=
  [(0, FI_TRANSMIT); (1, FI_RECV); (2, FI_READ); (3, FI_WRITE); (4, FI_REMOTE_READ); (5, FI_REMOTE_WRITE)].

Definition CNTR_BIND_FLAGS : Z := foldr Z.lor 0 (cntr_index_flags.*2).

Definition cntr_ref (n id : Z) : St K unit :=
  modify (fun w => w <| w_cntrs ::= alter (fun c => c <| cn_ref ::= Z.add n |>) id |>).

(** Bind the counter at the indices the flags select, one after the other. *)
Fixpoint bind_cntrs (l : list (Z * Z)) (id flags : Z) : St K unit :=
  match l with
  | [] => ret tt
  | (i, f) :: l' =>
      (if has flags f then ep_upd (fun e => e <| e_cntrs ::= insert i id |>) ;;; cntr_ref 1 id else ret tt) ;;;
      bind_cntrs l' id flags
  end.

Definition ofi_ep_bind_cntr (id flags : Z) : St K Z :=
  bound <- ep_get e_cntrs ;;
  if negb (Z.land flags (Z.lnot CNTR_BIND_FLAGS) =? 0) then ret (- FI_EBADFLAGS)
  else if existsb (fun '(i, f) => has flags f && negb (bool_decide (bound !! i = None))) cntr_index_flags then ret (- FI_EINVAL)
  else
    bind_cntrs cntr_index_flags id flags ;;;
    fid_list_insert2 e_cntr_lists (fun l e => e <| e_cntr_lists := l |>) id.

Definition ofi_ep_bind_valid (fid : option fi_class) (flags : Z) : Z :=
  match fid with
  | None => - FI_EINVAL
  | Some (FI_CLASS_CQ _) => if negb (Z.land flags (Z.lnot FI_CQ_BIND_FLAGS) =? 0) then - FI_EBADFLAGS else 0
  | Some (FI_CLASS_CNTR _) => if negb (Z.land flags (Z.lnot CNTR_BIND_FLAGS) =? 0) then - FI_EBADFLAGS else 0
  | Some _ => if negb (flags =? 0) then - FI_EBADFLAGS else 0
  end.

Definition rds_ep_bind (fid : option fi_class) (flags : Z) : St K Z :=
  let r := ofi_ep_bind_valid fid flags in
  if negb (r =? 0) then ret r
  else
    match fid with
    | Some (FI_CLASS_CQ id) => ofi_ep_bind_cq id flags
    | Some FI_CLASS_AV => ofi_ep_bind_av
    | Some (FI_CLASS_CNTR id) => ofi_ep_bind_cntr id flags
    | Some FI_CLASS_EQ => ret 0
    | _ => ret (- FI_EINVAL)
    end.

Definition rds_ep_ctrl (command : fi_command) : St K Z :=
  match command with
  | FI_ENABLE =>
      e <- ep_get (fun e => e) ;;
      if (ofi_needs_rx (e_caps e) && negb (is_some_cq (e_rx_cq e))) ||
         (ofi_needs_tx (e_caps e) && negb (is_some_cq (e_tx_cq e))) then ret (- FI_ENOCQ)
      else if negb (e_av e) then ret (- FI_ENOAV)
      else if negb (e_is_bound e) then ret (- FI_EOPBADSTATE)
      else
        dom_upd (fun d => match d_reg_ep d with
                          | Some _ => d
                          | None => d <| d_reg_ep := Some (e_self e) |>
                          end) ;;;
        ret 0
  | FI_OTHER_COMMAND => ret (- FI_ENOSYS)
  end.

(** ** Teardown *)

(** Release what one flushed pending operation holds. *)
Definition flush_pending (p : rds_pending) : St K unit :=
  ep_upd (fun e => e <| e_pending ::= tail |>) ;;;
  match p_cmrs p, p_mrs p with
  | Some l, _ => rds_reg_cache_put_all (take (Z.to_nat (p_mr_cnt p)) l)
  | None, Some l => rds_mr_put_all (take (Z.to_nat (p_mr_cnt p)) l)
  | None, None => ret tt
  end.

Fixpoint flush_pendings (l : list rds_pending) : St K unit :=
  match l with
  | [] => ret tt
  | p :: l' => flush_pending p ;;; flush_pendings l'
  end.

Definition rds_ep_flush_lists : St K unit :=
  ep_upd (fun e => e <| e_rx_posted_msg := [] |> <| e_rx_unexp_msg := [] |>
                     <| e_rx_posted_tag := [] |> <| e_rx_unexp_tag := [] |>) ;;;
  l <- ep_get e_pending ;;
  flush_pendings l.

(** Drop the reference to a queue, if there is one. *)
Definition cq_unref (c : option Z) : St K unit := match c with Some id => cq_ref (-1) id | None => ret tt end.

(** The lists of queues and counters no longer hold the endpoint, and the
    queues, the counters and the address vector it was bound to lose their
    references, as does the domain. *)
Definition ofi_endpoint_close : St K unit :=
  tx <- ep_get e_tx_cq ;; cq_unref tx ;;;
  rx <- ep_get e_rx_cq ;; cq_unref rx ;;;
  bound <- ep_get e_cntrs ;;
  modify (fun w => w <| w_cntrs ::= fun m => foldr (alter (fun c => c <| cn_ref ::= Z.add (-1) |>)) m (map_to_list bound).*2 |>) ;;;
  ep_upd (fun e => e <| e_cq_lists := [] |> <| e_cntr_lists := [] |>) ;;;
  av <- ep_get e_av ;;
  (if (av : bool) then av_ref (-1) else ret tt) ;;;
  dom_ref (-1).

Definition rds_ep_close : St K Z :=
  r <- ep_get e_ref ;;
  if negb (r =? 0) then ret (- FI_EBUSY)
  else
    self <- ep_get e_self ;;
    dom_upd (fun d => if bool_decide (d_reg_ep d = Some self) then d <| d_reg_ep := None |> else d) ;;;
    rds_ep_ring_cleanup ;;;
    rds_ep_flush_deferred ;;;
    rds_ep_flush_lists ;;;
    sock <- ep_get e_sock ;;
    (if sock >=? 0 then modify (fun w => w <| w_k ::= k_close sock |>) else ret tt) ;;;
    ofi_endpoint_close ;;;
    modify (fun w => w <| w_live := false |>) ;;;
    ret 0.

(** ** Creation *)

(** Best-effort buffer sizing: failures are ignored. *)
Definition set_buf (size : Z) (opt : Z -> rds_sockopt) : St K unit :=
  if negb (size =? 0) then
    sock <- ep_get e_sock ;; sys_k (k_setsockopt sock (opt size)) ;;; ret tt
  else ret tt.

Definition init_socket_fail (r : Z) : St K Z :=
  sock <- ep_get e_sock ;;
  modify (fun w => w <| w_k ::= k_close sock |>) ;;;
  ep_upd (fun e => e <| e_sock := -1 |>) ;;; ret r.

Definition rds_ep_init_socket (info : option fi_info) : St K Z :=
  s <- sys_k k_socket ;;
  match s with
  | inl err => ep_upd (fun e => e <| e_sock := -1 |>) ;;; ret (- err)
  | inr sock =>
      ep_upd (fun e => e <| e_sock := sock |> <| e_transport := RDS_TRANS_IB |>) ;;;
      r <- sys_k (k_setsockopt sock (OptTransport RDS_TRANS_IB)) ;;
      if negb (r =? 0) then init_socket_fail (- r)
      else
        cfg <- gets w_cfg ;;
        set_buf (rds_sndbuf cfg) OptSndbuf ;;;
        set_buf (rds_rcvbuf cfg) OptRcvbuf ;;;
        r <- match i ← info; in_src_addr i with
             | Some addr => rds_setname addr
             | None => ret 0
             end ;;
        if negb (r =? 0) then init_socket_fail r
        else
          r <- sys_k (k_nonblock sock) ;;
          if negb (r =? 0) then init_socket_fail r else ret 0
  end.

(** The size of the receive bounce buffer. *)
Definition rx_buf_size_of (eager_size : Z) : Z :=
  RDS_HDR_SIZE + (if eager_size >? RDS_RTS_MAX_PAYLOAD then eager_size else RDS_RTS_MAX_PAYLOAD).

(** The attributes are checked and copied; [version] is the interface version
    of the fabric.  The mutex of the endpoint can be initialised. *)
Definition ofi_endpoint_init (version : Z) (info : option fi_info) : St K Z :=
  match info with
  | None => ret (- FI_EINVAL)
  | Some i =>
      match in_ep_attr i, in_rx_attr i, in_tx_attr i with
      | Some _, Some rx_attr, Some tx_attr =>
          let r := ofi_prov_check_info rds_util_prov version info in
          if negb (r =? 0) then ret r
          else
            ep_upd (fun e => e <| e_caps := in_caps i |> <| e_tx_op_flags := txa_op_flags tx_attr |>
                               <| e_rx_op_flags := rxa_op_flags rx_attr |>) ;;; dom_ref 1 ;;; ret 0
      | _, _, _ => ret (- FI_EINVAL)
      end
  end.

(** [rds_endpoint]; [self] names the new object.  The endpoint exists after a
    successful call only. *)
Definition rds_endpoint (self version : Z) (info : option fi_info) : St K Z :=
  p <- sys_alloc EP_SIZE ;;
  match p with
  | None => ret (- FI_ENOMEM)
  | Some _ =>
      modify (fun w => w <| w_ep := ep_zero self |> <| w_live := false |>) ;;;
      rds_ep_ring_init ;;;
      r <- ofi_endpoint_init version info ;;
      if negb (r =? 0) then ret r
      else
        cfg <- gets w_cfg ;;
        ep_upd (fun e => e <| e_rx_buf_size := rx_buf_size_of (rds_eager_size cfg) |>) ;;;
        b <- sys_alloc (rx_buf_size_of (rds_eager_size cfg)) ;;
        match b with
        | None => ofi_endpoint_close ;;; ret (- FI_ENOMEM)
        | Some _ =>
            ep_upd (fun e => e <| e_cmsg_size := CMSG_BUF_SIZE |>) ;;;
            c <- sys_alloc CMSG_BUF_SIZE ;;
            match c with
            | None => ofi_endpoint_close ;;; ret (- FI_ENOMEM)
            | Some _ =>
                r <- rds_ep_init_socket info ;;
                if negb (r =? 0) then ofi_endpoint_close ;;; ret r
                else modify (fun w => w <| w_live := true |>) ;;; ret 0
            end
        end
  end.

End Ep.
