(* ===== verification/Cntr.v ===== *)
(** * Completion counters

    [rds_cntr_open] of rds_domain.c and util_cntr.c: opening, reading,
    adding, setting and closing a counter.  Wait objects are outside the
    model: opening one and adding the counter to its poll set are results
    that the caller of the model supplies, signalling one changes nothing,
    and fi_cntr_wait on a counter that has one is left out. *)

From S2P Require Import Prelude Iov Wire Config Kernel Attr Cq Av MrCache State Mr Pending Ring Msg RingRx Progress Ep.

(** ** Attributes *)

Inductive fi_wait_obj := FI_WAIT_NONE | FI_WAIT_UNSPEC | FI_WAIT_SET | FI_WAIT_FD | FI_WAIT_MUTEX_COND | FI_WAIT_YIELD | FI_WAIT_POLLFD.

(** [ca_wait_set] tells whether the wait set is there. *)
Record fi_cntr_attr := mkCntrAttr { ca_wait_obj : fi_wait_obj; ca_wait_set : bool; ca_flags : Z }.

Definition CNTR_SIZE : Z := 184.
Definition PEER_CNTR_SIZE : Z := 40.

Definition ofi_check_cntr_attr (attr : option fi_cntr_attr) : Z :=
  match attr with
  | None => 0
  | Some a =>
      if negb (ca_flags a =? 0) && negb (ca_flags a =? FI_PEER) then - FI_EINVAL
      else
        match ca_wait_obj a with
        | FI_WAIT_NONE | FI_WAIT_YIELD | FI_WAIT_UNSPEC | FI_WAIT_FD | FI_WAIT_POLLFD => 0
        | FI_WAIT_SET => if ca_wait_set a then 0 else - FI_EINVAL
        | FI_WAIT_MUTEX_COND => - FI_EINVAL
        end
  end.

Section Cntr.
Context {K : Type} `{!Kernel K}.

(** ** Opening *)

(** The counter that is set up, or an error.  [wait_open] is the result of
    [ofi_wait_open], [poll_add] that of [ofi_poll_add]; the lock can be
    initialised.  A NULL attribute passes the check and is then
    dereferenced. *)
Definition ofi_cntr_init (attr : option fi_cntr_attr) (wait_open poll_add : Z) : St K (Z + util_cntr) :=
  let r := ofi_check_cntr_attr attr in
  if negb (r =? 0) then ret (inl r)
  else
    match attr with
    | None => ub
    | Some a =>
        let internal := match ca_wait_obj a with FI_WAIT_NONE | FI_WAIT_SET => false | _ => true end in
        let wait := match ca_wait_obj a with FI_WAIT_NONE => false | _ => true end in
        if internal && negb (wait_open =? 0) then ret (inl wait_open)
        else
          let ops := if wait then UTIL_CNTR_OPS else UTIL_CNTR_NO_WAIT_OPS in
          peer <- (if has (ca_flags a) FI_PEER then ret (Some UTIL_PEER_CNTR_OPS)
                   else p <- sys_alloc PEER_CNTR_SIZE ;; ret (match p with Some _ => Some ops | None => None end)) ;;
          match peer with
          | None => ret (inl (- FI_ENOMEM))
          | Some ops =>
              if wait && negb (poll_add =? 0) then ret (inl poll_add)
              else dom_ref 1 ;;; ret (inr (mkCntr 0 0 0 (ca_flags a) ops wait internal))
          end
    end.

(** [id] names the new counter. *)
Definition rds_cntr_open (id : Z) (attr : option fi_cntr_attr) (wait_open poll_add : Z) : St K Z :=
  p <- sys_alloc CNTR_SIZE ;;
  match p with
  | None => ret (- FI_ENOMEM)
  | Some _ =>
      r <- ofi_cntr_init attr wait_open poll_add ;;
      match r with
      | inl e => ret e
      | inr c => modify (fun w => w <| w_cntrs ::= insert id c |>) ;;; ret 0
      end
  end.

(** ** Reading *)

(** The counter must exist. *)
Definition cntr_get {A} (f : util_cntr -> A) (id : Z) : St K A :=
  c <- gets (fun w => w_cntrs w !! id) ;; c <- of_opt c ;; ret (f c).

Definition cntr_upd (f : util_cntr -> util_cntr) (id : Z) : St K unit :=
  modify (fun w => w <| w_cntrs ::= alter f id |>).

(** For the endpoint at hand. *)
Definition ofi_cntr_progress (id : Z) : St K unit :=
  l <- ep_get e_cntr_lists ;;
  if bool_decide (id ∈ l) then rds_ep_progress else ret tt.

Definition ofi_cntr_read (id : Z) : St K Z := ofi_cntr_progress id ;;; cntr_get cn_cnt id.
Definition ofi_cntr_readerr (id : Z) : St K Z := ofi_cntr_progress id ;;; cntr_get cn_err id.
Definition ofi_peer_cntr_read (id : Z) : St K Z := ofi_cntr_progress id ;;; ret 0.

(** ** Changing *)

Definition ofi_cntr_add (id value : Z) : St K Z := cntr_upd (fun c => c <| cn_cnt ::= fun n => u64 (n + value) |>) id ;;; ret 0.
Definition ofi_cntr_adderr (id value : Z) : St K Z := cntr_upd (fun c => c <| cn_err ::= fun n => u64 (n + value) |>) id ;;; ret 0.
Definition ofi_cntr_set (id value : Z) : St K Z := cntr_upd (fun c => c <| cn_cnt := u64 value |>) id ;;; ret 0.
Definition ofi_cntr_seterr (id value : Z) : St K Z := cntr_upd (fun c => c <| cn_err := u64 value |>) id ;;; ret 0.

(** ** The calls of the application

    They go through the operations the counter was opened with; an imported
    counter can be read, for its progress, and nothing else. *)

Definition is_peer_cntr (c : util_cntr) : bool := match cn_ops c with UTIL_PEER_CNTR_OPS => true | _ => false end.

Definition fi_cntr_read (id : Z) : St K Z :=
  peer <- cntr_get is_peer_cntr id ;; if (peer : bool) then ofi_peer_cntr_read id else ofi_cntr_read id.
Definition fi_cntr_readerr (id : Z) : St K Z :=
  peer <- cntr_get is_peer_cntr id ;; if (peer : bool) then ret 0 else ofi_cntr_readerr id.
Definition fi_cntr_add (id value : Z) : St K Z :=
  peer <- cntr_get is_peer_cntr id ;; if (peer : bool) then ret (- FI_ENOSYS) else ofi_cntr_add id value.
Definition fi_cntr_adderr (id value : Z) : St K Z :=
  peer <- cntr_get is_peer_cntr id ;; if (peer : bool) then ret (- FI_ENOSYS) else ofi_cntr_adderr id value.
Definition fi_cntr_set (id value : Z) : St K Z :=
  peer <- cntr_get is_peer_cntr id ;; if (peer : bool) then ret (- FI_ENOSYS) else ofi_cntr_set id value.
Definition fi_cntr_seterr (id value : Z) : St K Z :=
  peer <- cntr_get is_peer_cntr id ;; if (peer : bool) then ret (- FI_ENOSYS) else ofi_cntr_seterr id value.

(** ** Closing *)

(** A counter that an endpoint is bound to stays. *)
Definition util_cntr_close (id : Z) : St K Z :=
  r <- cntr_get cn_ref id ;;
  if negb (r =? 0) then ret (- FI_EBUSY)
  else modify (fun w => w <| w_cntrs ::= delete id |>) ;;; dom_ref (-1) ;;; ret 0.
End Cntr.
