(* ===== verification/Objects.v ===== *)
(** * Fabric, domain, queues and address vector: opening and closing

    rds_fabric.c, rds_domain.c and rds_cq.c with the routines of
    util_fabric.c, util_domain.c, util_cq.c and util_av.c they call.  Every
    object counts the objects that refer to it in its member [ref] and is not
    closed while there are any.  Opening a wait object, and adding a queue to
    its poll set, are results that the caller of the model supplies; locks can
    be initialised. *)

From stdpp Require Import strings.
From S2P Require Import Prelude Iov Wire Config Kernel Attr Getinfo Cq Av AvIp Rbt MrCache State Mr Pending Ring Msg RingRx Progress Ep Cntr.

Definition FABRIC_SIZE : Z := 136.
Definition DOMAIN_SIZE : Z := 1024.
Definition CQ_SIZE : Z := 392.
Definition PEER_CQ_SIZE : Z := 40.
Definition AV_SIZE : Z := 256.
Definition RBMAP_SIZE : Z := 72.
Definition BUFPOOL_SIZE : Z := 152.

(** The length of a string with its terminator, for [strdup]. *)
Definition str_size (s : string) : Z := Z.of_nat (String.length s) + 1.

Section Objects.
Context {K : Type} `{!Kernel K}.

Definition fab_upd (f : util_fabric -> util_fabric) : St K unit := obj_upd (fun o => o <| ob_fabric ::= f |>).
Definition obj_get {A} (f : objects -> A) : St K A := gets (fun w => f (w_obj w)).

(** ** The fabric *)

Definition ofi_fabric_init (prov_attr user_attr : fi_fabric_attr) : St K Z :=
  let r := ofi_check_fabric_attr prov_attr user_attr in
  if negb (r =? 0) then ret r
  else
    match fba_name user_attr with
    | None => ub
    | Some name =>
        p <- sys_alloc (str_size name) ;;
        match p with
        | None => ret (- FI_ENOMEM)
        | Some _ => fab_upd (fun _ => mkFabric 0 name []) ;;; ret 0
        end
    end.

Definition rds_fabric (attr : fi_fabric_attr) : St K Z :=
  p <- sys_alloc FABRIC_SIZE ;;
  match p with
  | None => ret (- FI_ENOMEM)
  | Some _ => ofi_fabric_init rds_fabric_attr attr
  end.

Definition ofi_fabric_close : St K Z :=
  r <- obj_get (fun o => uf_ref (ob_fabric o)) ;;
  if negb (r =? 0) then ret (- FI_EBUSY) else ret 0.

Definition rds_fabric_close : St K Z := ofi_fabric_close.

(** ** The domain *)

(** A zeroed domain. *)
Definition cache_zero : ofi_mr_cache := mkCache false (mkRbMap NULL ∅ NULL 2) [] [] 0 0 0 0 0 0 0 0 0 0 ∅ [] 0.
Definition domain_zero : rds_domain := mkDomain None cache_zero false None 0 ∅ 0 ∅.

(** [self] names the new domain. *)
Definition util_domain_init (self : Z) (info : fi_info) : St K Z :=
  match in_domain_attr info with
  | None => ub
  | Some a =>
      match dma_name a with
      | None => ub
      | Some name =>
          p <- sys_alloc (str_size name) ;;
          match p with
          | None => ret (- FI_ENOMEM)
          | Some _ =>
              obj_upd (fun o => o <| ob_domain :=
                mkUtilDomain self 0 name (Z.lor (in_caps info) (dma_caps a)) (Z.lor (in_mode info) (dma_mode a)) (dma_mr_mode a)
                  (in_addr_format info) (dma_av_type a) |>) ;;;
              ret 0
          end
      end
  end.

(** When the map of regions cannot be created, the error path closes the
    domain and takes it off a list it has not been put on: its list entry
    holds null pointers. *)
Definition ofi_domain_init (self : Z) (info : option fi_info) : St K Z :=
  match info with
  | None => ub
  | Some info =>
      r <- util_domain_init self info ;;
      if negb (r =? 0) then ret r
      else
        p <- sys_alloc RBMAP_SIZE ;;
        match p with
        | None => ub
        | Some _ =>
            fab_upd (fun f => f <| uf_domain_list ::= fun l => l ++ [self] |> <| uf_ref ::= Z.add 1 |>) ;;; ret 0
        end
  end.

(** No event queue is ever bound to the domain. *)
Definition ofi_domain_close : St K Z :=
  r <- obj_get (fun o => ud_ref (ob_domain o)) ;;
  if negb (r =? 0) then ret (- FI_EBUSY)
  else
    self <- obj_get (fun o => ud_self (ob_domain o)) ;;
    fab_upd (fun f => f <| uf_domain_list ::= filter (fun d => d <> self) |> <| uf_ref ::= Z.add (-1) |>) ;;; ret 0.

(** [version] is the interface version of the fabric; the other arguments
    are those of [rds_mr_cache_open]. *)
Definition rds_domain_open (self version : Z) (info : option fi_info) (monitor : bool) (max_cnt max_size setup : Z) : St K Z :=
  let r := ofi_prov_check_info rds_util_prov version info in
  if negb (r =? 0) then ret r
  else
    p <- sys_alloc DOMAIN_SIZE ;;
    match p with
    | None => ret (- FI_ENOMEM)
    | Some _ =>
        r <- ofi_domain_init self info ;;
        if negb (r =? 0) then ret r
        else
          modify (fun w => w <| w_dom := domain_zero |>) ;;;
          rds_mr_cache_open monitor max_cnt max_size setup ;;; ret 0
    end.

Definition rds_domain_close : St K Z :=
  rds_mr_cache_close ;;;
  ofi_domain_close.

(** ** Completion queues *)

Inductive fi_cq_format := FI_CQ_FORMAT_UNSPEC | FI_CQ_FORMAT_CONTEXT | FI_CQ_FORMAT_MSG | FI_CQ_FORMAT_DATA | FI_CQ_FORMAT_TAGGED.

(** [qa_wait_set] tells whether the wait set is there; the two wait
    conditions are both accepted. *)
Record fi_cq_attr := mkCqAttr {
  qa_size : Z; qa_flags : Z; qa_format : fi_cq_format; qa_wait_obj : fi_wait_obj; qa_wait_set : bool }.

Definition ofi_check_cq_attr (attr : fi_cq_attr) : Z :=
  let wait := match qa_wait_obj attr with
              | FI_WAIT_NONE | FI_WAIT_YIELD | FI_WAIT_UNSPEC | FI_WAIT_FD | FI_WAIT_POLLFD => 0
              | FI_WAIT_SET => if qa_wait_set attr then 0 else - FI_EINVAL
              | FI_WAIT_MUTEX_COND => - FI_EINVAL
              end in
  if negb (wait =? 0) then wait
  else if negb (Z.land (qa_flags attr) (Z.lnot (Z.lor FI_AFFINITY FI_PEER)) =? 0) then - FI_EINVAL
  else 0.

Definition format_of (f : fi_cq_format) : cq_format :=
  match f with
  | FI_CQ_FORMAT_UNSPEC | FI_CQ_FORMAT_CONTEXT => FORMAT_CONTEXT
  | FI_CQ_FORMAT_MSG => FORMAT_MSG
  | FI_CQ_FORMAT_DATA => FORMAT_DATA
  | FI_CQ_FORMAT_TAGGED => FORMAT_TAGGED
  end.

(** The queue: the descriptor for peers, the ring and, when the domain has
    FI_SOURCE, the array of sources are allocated one after the other. *)
Definition util_init_peer_cq (attr : fi_cq_attr) : St K (Z + util_cq) :=
  p <- sys_alloc PEER_CQ_SIZE ;;
  match p with
  | None => ret (inl (- FI_ENOMEM))
  | Some _ =>
      caps <- obj_get (fun o => ud_caps (ob_domain o)) ;;
      let q := util_cq_init (qa_size attr) (has caps FI_SOURCE) (format_of (qa_format attr)) in
      p <- sys_alloc (64 + 48 * cq_size (ucq_cirq q)) ;;
      match p with
      | None => ret (inl (- FI_ENOMEM))
      | Some _ =>
          if has caps FI_SOURCE then
            p <- sys_alloc (8 * cq_size (ucq_cirq q)) ;;
            ret (match p with Some _ => inr q | None => inl (- FI_ENOMEM) end)
          else ret (inr q)
      end
  end.

(** An error, or the queue; an imported queue (FI_PEER) has no ring of its
    own. *)
Definition ofi_cq_init (attr : fi_cq_attr) (wait_open poll_add : Z) : St K (Z + option util_cq) :=
  let r := ofi_check_cq_attr attr in
  if negb (r =? 0) then ret (inl r)
  else
    q <- (if has (qa_flags attr) FI_PEER then ret (inr None)
          else q <- util_init_peer_cq attr ;; ret (match q with inl e => inl e | inr q => inr (Some q) end)) ;;
    match q with
    | inl e => ret (inl e)
    | inr q =>
        let internal := match qa_wait_obj attr with FI_WAIT_NONE | FI_WAIT_SET => false | _ => true end in
        let wait := match qa_wait_obj attr with FI_WAIT_NONE => false | _ => true end in
        if internal && negb (wait_open =? 0) then ret (inl wait_open)
        else if wait && negb (poll_add =? 0) then ret (inl poll_add)
        else dom_ref 1 ;;; ret (inr q)
    end.

(** [id] names the new queue. *)
Definition rds_cq_open (id : Z) (attr : fi_cq_attr) (wait_open poll_add : Z) : St K Z :=
  p <- sys_alloc CQ_SIZE ;;
  match p with
  | None => ret (- FI_ENOMEM)
  | Some _ =>
      r <- ofi_cq_init attr wait_open poll_add ;;
      match r with
      | inl e => ret e
      | inr q =>
          (match q with Some q => modify (fun w => w <| w_cqs ::= insert id q |>) | None => ret tt end) ;;;
          obj_upd (fun o => o <| ob_cq_refs ::= insert id 0 |>) ;;; ret 0
      end
  end.

(** The queue must be open. *)
Definition ofi_cq_cleanup (id : Z) : St K Z :=
  r <- obj_get (fun o => ob_cq_refs o !! id) ;;
  r <- of_opt r ;;
  if negb (r =? 0) then ret (- FI_EBUSY)
  else
    modify (fun w => w <| w_cqs ::= delete id |>) ;;;
    dom_ref (-1) ;;; ret 0.

Definition rds_cq_close (id : Z) : St K Z :=
  r <- ofi_cq_cleanup id ;;
  if negb (r =? 0) then ret r
  else obj_upd (fun o => o <| ob_cq_refs ::= delete id |>) ;;; ret 0.

(** ** The address vector *)

Record fi_av_attr := mkAvAttr { aa_type : fi_av_type; aa_count : Z; aa_name : bool; aa_flags : Z }.

Definition util_verify_av_attr (av_type : fi_av_type) (attr : fi_av_attr) : Z :=
  let typ := match aa_type attr, av_type with
             | FI_AV_UNSPEC, _ => - FI_EINVAL
             | FI_AV_MAP, (FI_AV_UNSPEC | FI_AV_MAP) | FI_AV_TABLE, (FI_AV_UNSPEC | FI_AV_TABLE) => 0
             | _, _ => - FI_EINVAL
             end in
  if negb (typ =? 0) then typ
  else if aa_name attr then - FI_ENOSYS
  else if negb (Z.land (aa_flags attr) (Z.lnot (bits [FI_COMPLETION; FI_READ; FI_SYMMETRIC; FI_PEER])) =? 0) then - FI_EINVAL
  else 0.

Definition ofi_av_init_lightweight (attr : fi_av_attr) : St K Z :=
  av_type <- obj_get (fun o => ud_av_type (ob_domain o)) ;;
  let r := util_verify_av_attr av_type attr in
  if negb (r =? 0) then ret r else dom_ref 1 ;;; ret 0.

(** [universe] is the size of a vector that was not given one. *)
Definition util_av_init (attr : fi_av_attr) (addrlen flags universe : Z) : St K Z :=
  if negb (Z.land flags (Z.lnot OFI_AV_DYN_ADDRLEN) =? 0) then ret (- FI_EINVAL)
  else
    let count := roundup_power_of_two (if aa_count attr =? 0 then universe else aa_count attr) in
    p <- sys_alloc BUFPOOL_SIZE ;;
    match p with
    | None => ret (- FI_ENOMEM)
    | Some _ => modify (fun w => w <| w_avec := mkAv addrlen count 0 ∅ ∅ (Z.lor flags (aa_flags attr)) |>) ;;; ret 0
    end.

Definition ofi_av_init (attr : fi_av_attr) (addrlen flags universe : Z) : St K Z :=
  r <- ofi_av_init_lightweight attr ;;
  if negb (r =? 0) then ret r else util_av_init attr addrlen flags universe.

Definition ofi_ip_av_create (attr : fi_av_attr) (universe : Z) : St K Z :=
  fmt <- obj_get (fun o => ud_addr_format (ob_domain o)) ;;
  let '(addrlen, flags) := match fmt with FI_SOCKADDR_IN => (16, 0) | FI_SOCKADDR_IN6 => (28, 0) | _ => (28, OFI_AV_DYN_ADDRLEN) end in
  let attr := match aa_type attr with FI_AV_UNSPEC => mkAvAttr FI_AV_MAP (aa_count attr) (aa_name attr) (aa_flags attr) | _ => attr end in
  p <- sys_alloc AV_SIZE ;;
  match p with
  | None => ret (- FI_ENOMEM)
  | Some _ =>
      r <- ofi_av_init attr addrlen flags universe ;;
      if negb (r =? 0) then ret r
      else obj_upd (fun o => o <| ob_av := Some 0 |>) ;;; ret 0
  end.

(** The vector must be open; address sets are never made of it. *)
Definition ofi_av_close_lightweight : St K Z :=
  r <- obj_get ob_av ;;
  r <- of_opt r ;;
  if negb (r =? 0) then ret (- FI_EBUSY) else dom_ref (-1) ;;; ret 0.

Definition ofi_av_close : St K Z := ofi_av_close_lightweight.

Definition ip_av_close : St K Z :=
  r <- ofi_av_close ;;
  if negb (r =? 0) then ret r else obj_upd (fun o => o <| ob_av := None |>) ;;; ret 0.
End Objects.
