(* ===== verification/Segments.v ===== *)
(** * Rendezvous segmentation

    [rds_send_rndzv] cuts the source buffers into chunks of at most one
    kernel segment and describes each by one descriptor entry.  The chunks
    cover the message exactly and in order, and their number is the one the
    header announces. *)

From S2P Require Import Prelude Iov Wire Config Kernel Cq Av MrCache State Mr Pending Ring Msg Ep.

Lemma seg_count_nonneg len : 0 <= len -> 0 <= seg_count len.
Proof. intros H. unfold seg_count, RDS_KERNEL_SEG_MAX. apply Z.div_pos; lia. Qed.

Lemma seg_count_zero len : 0 <= len -> seg_count len = 0 <-> len = 0.
Proof.
  intros H. unfold seg_count, RDS_KERNEL_SEG_MAX. split; intros Hz.
  - pose proof (Z.mul_succ_div_gt (len + 1024 * 1024 - 1) (1024 * 1024) ltac:(lia)). lia.
  - subst. reflexivity.
Qed.

Lemma seg_count_step len : 0 < len ->
  seg_count (len - Z.min len RDS_KERNEL_SEG_MAX) = seg_count len - 1.
Proof.
  intros H. unfold seg_count. destruct (Z.le_gt_cases len RDS_KERNEL_SEG_MAX) as [Hle|Hgt].
  - rewrite Z.min_l, Z.sub_diag by done. unfold RDS_KERNEL_SEG_MAX in *.
    replace ((len + 1024 * 1024 - 1) / (1024 * 1024)) with 1; [reflexivity|].
    apply (Z.div_unique_pos _ _ 1 (len - 1)); lia.
  - rewrite Z.min_r by lia. replace (len + RDS_KERNEL_SEG_MAX - 1) with (len - RDS_KERNEL_SEG_MAX + RDS_KERNEL_SEG_MAX - 1 + 1 * RDS_KERNEL_SEG_MAX) by lia.
    rewrite Z.div_add by done. lia.
Qed.

Lemma chunk_loop_spec n base left : 0 <= left -> Z.of_nat n = seg_count left ->
  length (chunk_loop n base left) = n /\
  iov_addrs (chunk_loop n base left) = seqZ base left /\
  Forall (fun v => 0 < iov_len v <= RDS_KERNEL_SEG_MAX) (chunk_loop n base left).
Proof.
  revert base left. induction n as [|n IH]; intros base left Hl Hn; cbn [chunk_loop].
  { assert (left = 0) as -> by (apply seg_count_zero; lia). done. }
  destruct (left =? 0) eqn:Ez.
  { apply Z.eqb_eq in Ez as ->. change (seg_count 0) with 0 in Hn. lia. }
  cbn zeta. pose proof (seg_count_step left ltac:(lia)) as Hst. set (c := Z.min left RDS_KERNEL_SEG_MAX) in *.
  assert (0 < c <= left /\ c <= RDS_KERNEL_SEG_MAX) by (unfold c, RDS_KERNEL_SEG_MAX; lia).
  destruct (IH (base + c) (left - c)) as (Hlen & Had & Hf); [lia|lia|]. split_and!.
  - cbn [length]. by rewrite Hlen.
  - rewrite iov_addrs_cons. cbn [iov_base iov_len]. rewrite Had, <- seqZ_app by lia. f_equal. lia.
  - constructor; [cbn; lia|done].
Qed.

Lemma iov_chunks_spec v : 0 <= iov_len v ->
  Z.of_nat (length (iov_chunks v)) = seg_count (iov_len v) /\
  iov_addrs (iov_chunks v) = seqZ (iov_base v) (iov_len v) /\
  Forall (fun c => 0 < iov_len c <= RDS_KERNEL_SEG_MAX) (iov_chunks v).
Proof.
  intros Hv. pose proof (seg_count_nonneg _ Hv). unfold iov_chunks.
  destruct (chunk_loop_spec (Z.to_nat (seg_count (iov_len v))) (iov_base v) (iov_len v)) as (Hl & Ha & Hf); [done|lia|].
  rewrite Hl. split_and!; [lia|done|done].
Qed.

Lemma rndzv_chunks_spec iov : Forall (fun v => 0 <= iov_len v) iov ->
  Z.of_nat (length (rndzv_chunks iov)) = rndzv_nseg iov /\
  iov_addrs (rndzv_chunks iov) = iov_addrs iov /\
  Forall (fun c => 0 < iov_len c <= RDS_KERNEL_SEG_MAX) (rndzv_chunks iov).
Proof.
  induction 1 as [|v iov Hv _ (Hl & Ha & Hf)]; [done|]. destruct (iov_chunks_spec v Hv) as (Hl1 & Ha1 & Hf1).
  change (rndzv_chunks (v :: iov)) with (iov_chunks v ++ rndzv_chunks iov).
  change (rndzv_nseg (v :: iov)) with (seg_count (iov_len v) + rndzv_nseg iov). split_and!.
  - rewrite length_app. lia.
  - by rewrite iov_addrs_app, Ha, Ha1, iov_addrs_cons.
  - by apply Forall_app.
Qed.

Lemma seg_count_le len : 0 <= len -> seg_count len * RDS_KERNEL_SEG_MAX <= len + (RDS_KERNEL_SEG_MAX - 1).
Proof.
  intros H. unfold seg_count. rewrite Z.mul_comm. etrans; [apply Z.mul_div_le; done|]. lia.
Qed.

Lemma nseg_bound iov : Forall (fun v => 0 <= iov_len v) iov ->
  0 <= rndzv_nseg iov /\
  rndzv_nseg iov * RDS_KERNEL_SEG_MAX <= iov_total iov + Z.of_nat (length iov) * (RDS_KERNEL_SEG_MAX - 1).
Proof.
  induction 1 as [|v iov Hv _ [IH0 IH]]; [done|]. pose proof (seg_count_le _ Hv). pose proof (seg_count_nonneg _ Hv).
  change (rndzv_nseg (v :: iov)) with (seg_count (iov_len v) + rndzv_nseg iov). rewrite iov_total_cons. cbn [length].
  unfold RDS_KERNEL_SEG_MAX in *. lia.
Qed.

Lemma nseg_small iov : iov_ok iov -> 0 <= rndzv_nseg iov < 2 ^ 64.
Proof.
  intros [Hf Ht]. split; [by apply nseg_bound|]. eapply Z.le_lt_trans; [|exact Ht]. clear Ht.
  induction Hf as [|v iov Hv _ IH]; [done|]. pose proof (seg_count_le _ Hv).
  change (rndzv_nseg (v :: iov)) with (seg_count (iov_len v) + rndzv_nseg iov). rewrite iov_total_cons.
  assert (seg_count (iov_len v) <= iov_len v); [|lia]. unfold RDS_KERNEL_SEG_MAX in *.
  destruct (Z.eq_dec (iov_len v) 0) as [->|]; [done|]. lia.
Qed.

(** Eight buffers of a message of the maximum size give at most 263 chunks. *)
Lemma nseg_max iov : Forall (fun v => 0 <= iov_len v) iov -> (length iov <= RDS_IOV_LIMIT)%nat ->
  iov_total iov <= RDS_MAX_MSG_SIZE -> 0 <= rndzv_nseg iov <= 263.
Proof.
  intros Hf Hl Ht. destruct (nseg_bound iov Hf) as [H0 H1]. split; [done|].
  unfold RDS_IOV_LIMIT, RDS_MAX_MSG_SIZE, RDS_KERNEL_SEG_MAX in *. lia.
Qed.

(** The chunks a rendezvous send registers and announces cover the
    message: read in order they are exactly the bytes of the scatter list;
    every chunk is non-empty and fits one kernel segment; their number is
    the segment count of the RTS header, which never truncates. *)
Theorem rndzv_chunks_cover iov :
  iov_ok iov -> (length iov <= RDS_IOV_LIMIT)%nat -> ofi_total_iov_len iov <= RDS_MAX_MSG_SIZE ->
  iov_addrs (rndzv_chunks iov) = iov_addrs iov /\
  Forall (fun c => 0 < iov_len c <= RDS_KERNEL_SEG_MAX) (rndzv_chunks iov) /\
  forall tagged flags tag data size id,
    h_seg_cnt (rts_hdr tagged flags tag data size (u64 (rndzv_nseg iov)) id) = Z.of_nat (length (rndzv_chunks iov)).
Proof.
  intros Hok Hl Ht. rewrite ofi_total_iov_len_ok in Ht by done. destruct Hok as [Hf _].
  destruct (rndzv_chunks_spec iov Hf) as (Hn & Ha & Hc). pose proof (nseg_max iov Hf Hl Ht) as Hb.
  split_and!; [done|done|]. intros. cbn. rewrite Hn, u64_small, u16_small by lia. done.
Qed.

Lemma rndzv_chunks_cover_witness :
  let iov := [mkIov 4096 (3 * 1024 * 1024 + 5); mkIov 0 0; mkIov 77 12] in
  iov_addrs (rndzv_chunks iov) = iov_addrs iov /\
  Forall (fun c => 0 < iov_len c <= RDS_KERNEL_SEG_MAX) (rndzv_chunks iov) /\
  forall tagged flags tag data size id,
    h_seg_cnt (rts_hdr tagged flags tag data size (u64 (rndzv_nseg iov)) id) = Z.of_nat (length (rndzv_chunks iov)).
Proof.
  apply (rndzv_chunks_cover [mkIov 4096 (3 * 1024 * 1024 + 5); mkIov 0 0; mkIov 77 12]).
  - split; [by repeat constructor|done].
  - cbn. unfold RDS_IOV_LIMIT. lia.
  - done.
Defined.

(** The receive buffer is sized for 257 descriptor entries, but eight
    buffers of a legal message can need 263: with an eager size below that
    descriptor the request to send does not fit the receiver's buffer. *)
Theorem rts_can_exceed_rx_buffer :
  exists iov, iov_ok iov /\ (length iov <= RDS_IOV_LIMIT)%nat /\ ofi_total_iov_len iov = RDS_MAX_MSG_SIZE /\
    forall eager_size, 0 <= eager_size < 263 * RDS_SEG_SIZE ->
      rx_buf_size_of eager_size < RDS_HDR_SIZE + rndzv_nseg iov * RDS_SEG_SIZE.
Proof.
  exists (mkIov 0 (249 * 1024 * 1024 - 7) :: replicate 7 (mkIov 0 (1024 * 1024 + 1))). split_and!.
  - split; [by repeat constructor|done].
  - cbn. unfold RDS_IOV_LIMIT. lia.
  - done.
  - intros e He. replace (rndzv_nseg _) with 263 by done. unfold rx_buf_size_of.
    assert (RDS_RTS_MAX_PAYLOAD < 263 * RDS_SEG_SIZE) by done. destruct (e >? _); lia.
Qed.
