(* ===== verification/Pres.v ===== *)
(** * Programs that leave a part of the state alone

    [pres f m]: whenever the program [m] is defined, the observation [f] of
    the world is the same before and after.  The tactic [pres] proves such
    facts by following the program. *)

From S2P Require Import Prelude Iov Wire Config Kernel Cq Av MrCache State Mr Pending.

Section Pres.
Context {K : Type} `{!Kernel K} {B : Type} (f : world K -> B).
Implicit Types w : world K.

Definition pres {A} (m : St K A) : Prop := forall w, wlp m (fun _ w' => f w' = f w) w.

Lemma pres_ret {A} (a : A) : pres (ret a).
Proof. by intros w. Qed.
Lemma pres_ub {A} : pres (A := A) ub.
Proof. by intros w. Qed.
Lemma pres_bind {A C} (m : St K A) (k : A -> St K C) : pres m -> (forall a, pres (k a)) -> pres (bind m k).
Proof.
  intros Hm Hk w. apply wlp_bind. eapply wlp_mono; [apply Hm|]. cbn beta. intros a w1 E.
  eapply wlp_mono; [apply Hk|]. cbn beta. intros b w2 E2. congruence.
Qed.
Lemma pres_of_opt {A} (o : option A) : pres (of_opt o).
Proof. destruct o; [apply pres_ret|apply pres_ub]. Qed.
Lemma pres_gets {A} (g : world K -> A) : pres (gets g).
Proof. by intros w. Qed.
Lemma pres_ep_get {A} (g : rds_ep -> A) : pres (ep_get g).
Proof. by intros w. Qed.
Lemma pres_sock_of ep : pres (sock_of ep).
Proof. intros w. unfold wlp, sock_of. by destruct (ep_sock_of w ep). Qed.

(** Steps that change one part of the world. *)
Lemma pres_modify g : (forall w, f (g w) = f w) -> pres (modify g).
Proof. intros Hf w. apply Hf. Qed.
Lemma pres_ep_upd g : (forall w, f (w <| w_ep ::= g |>) = f w) -> pres (ep_upd g).
Proof. intros Hf w. apply Hf. Qed.
Lemma pres_dom_upd g : (forall w, f (w <| w_dom ::= g |>) = f w) -> pres (dom_upd g).
Proof. intros Hf w. apply Hf. Qed.
Lemma pres_alloc n : (forall w k', f (w <| w_k := k' |>) = f w) -> pres (sys_alloc n).
Proof. intros Hf w. apply wlp_of_wp, wp_sys_alloc. intros a k'. apply Hf. Qed.
Lemma pres_get_mr s a : (forall w k', f (w <| w_k := k' |>) = f w) -> pres (sys_get_mr s a).
Proof. intros Hf w. apply wlp_of_wp, wp_sys_get_mr. intros r k' _. apply Hf. Qed.
Lemma pres_time : (forall w k', f (w <| w_k := k' |>) = f w) -> pres sys_time.
Proof. intros Hf w. unfold wlp, sys_time. destruct (k_gettime_ms _). apply Hf. Qed.
Lemma pres_sendmsg n p ra :
  (forall w k' e, f (w <| w_k := k' |> <| w_log ::= fun l => l ++ [mkSent n p ra e] |>) = f w) -> pres (sys_sendmsg n p ra).
Proof. intros Hf w. unfold wlp, sys_sendmsg. destruct (k_sendmsg _ _ _ _ _). apply Hf. Qed.
Lemma pres_cq_run {A} id (op : CQ (K := K) A) :
  (forall w q k', f (w <| w_cqs ::= insert id q |> <| w_k := k' |>) = f w) -> pres (cq_run id op).
Proof.
  intros Hf w. unfold wlp, cq_run. destruct (w_cqs w !! id); [|done]. destruct (op _) as [[? [? ?]]|]; [|done]. apply Hf.
Qed.
End Pres.

Create HintDb pres.
#[export] Hint Resolve pres_ret pres_ub pres_of_opt pres_gets pres_ep_get pres_sock_of : pres.
Ltac pres_step :=
  first
    [ solve [auto 1 with pres nocore]
    | apply pres_modify; intros; reflexivity
    | apply pres_ep_upd; intros; reflexivity
    | apply pres_dom_upd; intros; reflexivity
    | apply pres_alloc; intros; reflexivity
    | apply pres_get_mr; intros; reflexivity
    | apply pres_time; intros; reflexivity
    | apply pres_sendmsg; intros; reflexivity
    | apply pres_cq_run; intros; reflexivity
    | apply pres_bind; [|intros ?]
    | match goal with
      | |- pres _ (if ?b then _ else _) => destruct b
      | |- pres _ (match ?x with _ => _ end) => destruct x
      | |- pres _ (let '_ := ?x in _) => destruct x
      end ].
Ltac pres := repeat pres_step.
