(* ===== verification/Footprint.v ===== *)
(** * What handling a message touches

    Handlers of eager messages, descriptors and FINs leave the peer table,
    the ring geometry and every byte of memory outside the posted receive
    buffers as they were; posted receives can only be consumed. *)

From S2P Require Import Prelude Iov Wire Config Kernel Cq Av MrCache State Mr Pending Ring Msg Pres.

Section Footprint.
Context {K : Type} `{!Kernel K}.
Implicit Types w : world K.

(** The part of the endpoint the rings live in, and the posted receives. *)
Definition ring_part (e : rds_ep) :=
  (e_peers e, e_peer_hash e, e_peer_lru e, e_peer_cnt e, e_eager_rdma e, e_ring_slots e, e_ring_slot_size e).
Definition rx_part w := (w_mem w, ring_part (w_ep w), e_rx_posted_msg (w_ep w), e_rx_posted_tag (w_ep w)).

Lemma still_mr_put o : pres rx_part (rds_mr_put o).
Proof. unfold rds_mr_put, rds_kernel_free, sys_free_mr. pres. Qed.
Lemma still_mr_put_all l : pres rx_part (rds_mr_put_all l).
Proof. induction l; cbn [rds_mr_put_all]; [apply pres_ret|]. apply pres_bind; [apply still_mr_put|by intros _]. Qed.
Lemma still_cache_put h : pres rx_part (rds_reg_cache_put h).
Proof.
  unfold rds_reg_cache_put, ofi_mr_cache_delete, entry_of, set_entry, upd, util_mr_free_entry, util_mr_entry_free, upd.
  cbn [co_delete_region rds_cache_owner]. unfold rds_cache_delete_region, rds_kernel_free, sys_free_mr. pres.
Qed.
Lemma still_cache_put_all l : pres rx_part (rds_reg_cache_put_all l).
Proof. induction l; cbn [rds_reg_cache_put_all]; [apply pres_ret|]. apply pres_bind; [apply still_cache_put|by intros _]. Qed.

Lemma still_cq_write_tx c f l e : pres rx_part (rds_cq_write_tx c f l e).
Proof. unfold rds_cq_write_tx. pres. Qed.
Lemma still_cq_write_rx c f l d t s e : pres rx_part (rds_cq_write_rx c f l d t s e).
Proof. unfold rds_cq_write_rx. pres. Qed.
End Footprint.
#[export] Hint Resolve still_mr_put still_mr_put_all still_cache_put still_cache_put_all still_cq_write_tx still_cq_write_rx : pres.

Section Handlers.
Context {K : Type} `{!Kernel K}.
Implicit Types w : world K.

Lemma still_complete id : pres rx_part (rds_pending_complete id).
Proof. unfold rds_pending_complete, rds_pending_release_mrs, pend_deref, rds_pending_find, pend_upd, pend_remove. pres. Qed.
Lemma still_send_fin p id : pres rx_part (rds_send_fin p id).
Proof. unfold rds_send_fin, rds_send_fin_raw, rds_defer_fin, rds_defer_enqueue. pres. Qed.
Lemma still_finalize id : pres rx_part (rds_rndzv_rx_finalize id).
Proof. unfold rds_rndzv_rx_finalize, pend_deref, rds_pending_find, pend_remove. pres. Qed.
Lemma still_read_loop n segs id iov off eff peer : pres rx_part (rndzv_read_loop n segs id iov off eff peer).
Proof.
  revert segs off. induction n as [|n IH]; intros segs off; cbn [rndzv_read_loop]; [apply pres_ret|].
  unfold rds_post_rdma, pend_upd, rds_defer_read, rds_defer_enqueue. pres.
Qed.
Hint Resolve still_complete still_send_fin still_finalize still_read_loop : pres.
Lemma still_start_read rx hdr segs n peer src : pres rx_part (rds_start_rndzv_read rx hdr segs n peer src).
Proof. unfold rds_start_rndzv_read. pres. Qed.
Lemma still_enqueue hdr payload src fi tagged : pres rx_part (rds_enqueue_unexp hdr payload src fi tagged).
Proof.
  unfold rds_enqueue_unexp. pres; apply pres_ep_upd; intros; by destruct tagged.
Qed.
Lemma still_deferred fuel i b : pres rx_part (deferred_loop fuel i b).
Proof.
  revert i b. induction fuel as [|fuel IH]; intros i b; cbn [deferred_loop].
  { pres. }
  unfold deferred_body, rds_send_fin_raw, deferred_remove, rds_pending_find, rds_post_rdma, pend_upd, pend_deref. pres.
Qed.
Lemma still_progress_deferred : pres rx_part rds_progress_deferred.
Proof.
  apply pres_bind; [apply pres_ep_get|]. intros q. apply pres_bind; [apply still_deferred|]. intros b. apply pres_ret.
Qed.

(** Memory outside the posted buffers. *)
Definition rx_addrs w : list Z :=
  mjoin ((fun rx => iov_addrs (rx_iov rx)) <$> (e_rx_posted_msg (w_ep w) ++ e_rx_posted_tag (w_ep w))).

Definition touched w w' : Prop :=
  ring_part (w_ep w') = ring_part (w_ep w) /\
  (forall rx, rx ∈ e_rx_posted_msg (w_ep w') ++ e_rx_posted_tag (w_ep w') -> rx ∈ e_rx_posted_msg (w_ep w) ++ e_rx_posted_tag (w_ep w)) /\
  (forall x, (x ∉ rx_addrs w) -> w_mem w' x = w_mem w x).

Lemma still_touched w w' : rx_part w' = rx_part w -> touched w w'.
Proof. unfold rx_part. intros [= E1 E2 E3 E4 E5 E6 E7 E8 E9 E10]. unfold touched, ring_part. rewrite E1, E9, E10. split_and!; [congruence|done|done]. Qed.

Lemma rx_addrs_in w rx : rx ∈ e_rx_posted_msg (w_ep w) ++ e_rx_posted_tag (w_ep w) -> forall x, x ∈ iov_addrs (rx_iov rx) -> x ∈ rx_addrs w.
Proof. intros Hrx x Hx. unfold rx_addrs. apply list_elem_of_join. eexists. split; [exact Hx|]. by apply (list_elem_of_fmap_2 (fun r => iov_addrs (rx_iov r))). Qed.

(** Delivery writes the receive's own buffer. *)
Lemma deliver_touches rx hdr payload src w : 
  wlp (rds_deliver_eager rx hdr payload src) (fun _ w' => ring_part (w_ep w') = ring_part (w_ep w) /\
    e_rx_posted_msg (w_ep w') = e_rx_posted_msg (w_ep w) /\ e_rx_posted_tag (w_ep w') = e_rx_posted_tag (w_ep w) /\
    forall x, (x ∉ iov_addrs (rx_iov rx)) -> w_mem w' x = w_mem w x) w.
Proof.
  unfold rds_deliver_eager. apply wlp_bind, wlp_of_wp, wp_gets. pose proof (copy_to_iov_frame (rx_iov rx) 0 payload (Z.of_nat (length payload)) (w_mem w)) as Hf.
  destruct (ofi_copy_to_iov _ _ _ _ _) as [m' copied]. apply wlp_bind, wlp_of_wp, wp_modify.
  eapply wlp_mono; [instantiate (1 := fun _ w' => rx_part w' = rx_part (w <| w_mem := m' |>))|].
  - match goal with |- wlp ?m _ _ => assert (Hp : pres rx_part m) by pres; apply Hp end.
  - cbn beta. unfold rx_part, ring_part. intros _ w' [= E1 E2 E3 E4 E5 E6 E7 E8 E9 E10]. w_simpl.
    split_and!; [congruence|done|done|]. intros x Hx. rewrite E1. by apply Hf.
Qed.

(** The messages a peer's ring carries. *)
Definition ring_msg (hdr : rds_hdr) : Prop := h_op hdr = RDS_OP_EAGER \/ h_op hdr = RDS_OP_RTS \/ h_op hdr = RDS_OP_FIN.

Lemma inbound_touches hdr payload src fi w : ring_msg hdr ->
  wlp (rds_handle_inbound hdr payload src fi) (fun _ => touched w) w.
Proof.
  intros Hop. unfold rds_handle_inbound. cbn zeta. destruct (negb _); [apply wlp_ret; by apply still_touched|].
  destruct (h_op hdr =? RDS_OP_FIN) eqn:Ef.
  { eapply wlp_mono; [match goal with |- wlp ?m _ _ => assert (Hp : pres rx_part m) by pres; apply Hp end|].
    cbn beta. intros _ w' E. by apply still_touched. }
  replace ((h_op hdr =? RDS_OP_RING_REQ) || (h_op hdr =? RDS_OP_RING_ACK)) with false
    by (destruct Hop as [->|[->| ->]]; done).
  destruct (_ && _); [apply wlp_ret; by apply still_touched|].
  unfold rds_match_posted. apply wlp_bind, wlp_bind, wlp_of_wp, wp_ep_get.
  destruct (find_split _ _) as [[[l1 rx] l2]|] eqn:E.
  2: { apply wlp_ret. eapply wlp_mono; [apply still_enqueue|]. cbn beta. intros _ w' Ew. by apply still_touched. }
  apply find_split_Some in E as (El & _ & _). apply wlp_bind, wlp_of_wp, wp_ep_upd, wlp_ret.
  assert (Hrx : rx ∈ e_rx_posted_msg (w_ep w) ++ e_rx_posted_tag (w_ep w)).
  { apply elem_of_app. destruct (hdr_tagged hdr); cbn in El; rewrite El; [right|left]; apply elem_of_app; right; apply list_elem_of_here. }
  set (w1 := w <| w_ep ::= set_posted (hdr_tagged hdr) (l1 ++ l2) |>).
  assert (Hsub : ring_part (w_ep w1) = ring_part (w_ep w) /\ w_mem w1 = w_mem w /\
    forall r, r ∈ e_rx_posted_msg (w_ep w1) ++ e_rx_posted_tag (w_ep w1) -> r ∈ e_rx_posted_msg (w_ep w) ++ e_rx_posted_tag (w_ep w)).
  { unfold w1. destruct (hdr_tagged hdr); cbn in El |- *; rewrite El; split_and!; try done; intros r; set_solver. }
  destruct Hsub as (Hp1 & Hm1 & Hs1). destruct (h_op hdr =? RDS_OP_EAGER).
  - eapply wlp_mono; [apply deliver_touches|]. cbn beta. intros _ w' (E1 & E2 & E3 & E4). split_and!; [congruence|by rewrite E2, E3|].
    intros x Hx. rewrite E4, Hm1; [done|]. intros Hx'. apply Hx. by eapply rx_addrs_in.
  - eapply wlp_mono; [apply still_start_read|]. cbn beta. intros _ w' Ew. destruct (still_touched _ _ Ew) as (E1 & E2 & _).
    unfold rx_part in Ew. split_and!; [congruence|auto|]. intros x _. congruence.
Qed.
End Handlers.
