(* ===== verification/Frame.v ===== *)
(** * Completions written by the endpoint

    The completion queues an endpoint is bound to, what writing a completion
    does to them, and world-level rules for the two completion writers of
    [rds_msg.c]. *)

From S2P Require Import Prelude Iov Wire Config Kernel Cq CqFifo Av MrCache State Mr Pending.

(** A bound queue exists and is well formed; with [src] it keeps sources. *)
Definition bound_ok (cqs : gmap Z util_cq) (o : option Z) (src : bool) : Prop :=
  forall id, o = Some id -> exists q cs, cqs !! id = Some q /\ cq_rep q cs /\
    (src = true -> is_Some (ucq_src q)).

Section Posted.
Context (K : Type) `{!Kernel K}.

(** A completion can only be lost when it takes an overflow entry, because
    it is an error or the array has no room, and the allocator refuses it. *)
Definition lost (q : util_cq) (e : fi_cq_err_entry) : Prop :=
  (ee_err e <> 0 \/ ofi_cirque_freecnt (ucq_cirq q) <= 1) /\ refuses K AUX_SIZE.

(** [posted cqs o e src cqs']: the completion [e] is the last one of the
    queue [o], or was lost. *)
Definition posted (cqs : gmap Z util_cq) (o : option Z) (e : fi_cq_err_entry) (src : option Z)
    (cqs' : gmap Z util_cq) : Prop :=
  match o with
  | None => cqs' = cqs
  | Some id => exists q q', cqs !! id = Some q /\ cqs' = <[id := q']> cqs /\
      (is_Some (ucq_src q') <-> is_Some (ucq_src q)) /\
      forall cs, cq_rep q cs ->
        (exists a, cq_rep q' (cs ++ [mkCompletion e a]) /\ (forall s, src = Some s -> a = s)) \/ q' = q /\ lost q e
  end.

Lemma bound_ok_posted cqs o e src cqs' o' b :
  posted cqs o e src cqs' -> bound_ok cqs o' b -> bound_ok cqs' o' b.
Proof.
  destruct o as [id|]; [|by intros ->]. intros (q & q' & Hq & -> & Hsrc & Hrep) Hb id' ->.
  destruct (Hb id' eq_refl) as (q1 & cs & Hq1 & Hr & Hs). destruct (decide (id = id')) as [->|Hne].
  - simplify_eq. rewrite lookup_insert_eq. exists q'. destruct (Hrep cs Hr) as [(a & Ha & _)|[-> _]].
    + eexists. split_and!; [done..|]. intros ?. by apply Hsrc, Hs.
    + exists cs. split_and!; auto.
  - rewrite lookup_insert_ne by done. eauto.
Qed.

(** Where the allocator gives out overflow entries nothing is lost. *)
Lemma posted_appends cqs id e src cqs' q cs :
  ~ refuses K AUX_SIZE -> posted cqs (Some id) e src cqs' -> cqs !! id = Some q -> cq_rep q cs ->
  exists q' a, cqs' = <[id := q']> cqs /\ cq_rep q' (cs ++ [mkCompletion e a]).
Proof.
  intros Hn (q0 & q' & Hq & -> & _ & Hrep) Hq0 Hr. simplify_eq. exists q'.
  destruct (Hrep cs Hr) as [(a & Ha & _)|[_ [_ ?]]]; [by exists a|done].
Qed.
End Posted.

Section Frame.
Context {K : Type} `{!Kernel K}.
Implicit Types w : world K.

Definition cqs_ok w : Prop :=
  bound_ok (w_cqs w) (e_tx_cq (w_ep w)) false /\
  bound_ok (w_cqs w) (e_rx_cq (w_ep w)) (has (e_caps (w_ep w)) FI_SOURCE).

Lemma cqs_ok_posted w w' o e src :
  posted K (w_cqs w) o e src (w_cqs w') -> w_ep w' = w_ep w -> cqs_ok w -> cqs_ok w'.
Proof. intros Hp E [Ht Hr]. split; rewrite E; by eapply bound_ok_posted. Qed.

Lemma wp_cq_run_write (op : CQ (K := K) Z) o e src (Q : unit -> world K -> Prop) w id b :
  o = Some id -> bound_ok (w_cqs w) o b ->
  (forall q k r q' k', op (q, k) = Some (r, (q', k')) -> is_Some (ucq_src q') <-> is_Some (ucq_src q)) ->
  (forall q k cs, (b = true -> is_Some (ucq_src q)) -> cq_rep q cs -> wp op (fun _ '(q', _) =>
     (exists a, cq_rep q' (cs ++ [mkCompletion e a]) /\ (forall s, src = Some s -> a = s)) \/ q' = q /\ lost K q e) (q, k)) ->
  (forall cqs' k', posted K (w_cqs w) o e src cqs' -> Q tt (w <| w_cqs := cqs' |> <| w_k := k' |>)) ->
  wp (cq_run id op ;;; ret tt) Q w.
Proof.
  intros -> Hb Hst Hop HQ. destruct (Hb id eq_refl) as (q & cs & Hq & Hr & Hs).
  apply wp_bind. unfold wp at 1, cq_run. rewrite Hq.
  pose proof (Hop q (w_k w) cs Hs Hr) as Hw. unfold wp in Hw.
  destruct (op (q, w_k w)) as [[r [q' k']]|] eqn:E; [|done]. apply wp_ret.
  apply (HQ (<[id := q']> (w_cqs w)) k'). exists q, q'. split_and!; [done..|by eapply Hst|].
  intros cs1 Hr1. pose proof (Hop q (w_k w) cs1 Hs Hr1) as Hw1. unfold wp in Hw1. by rewrite E in Hw1.
Qed.

Lemma write_static e (q : util_cq) (k : K) r q' k' :
  ofi_cq_write e (q, k) = Some (r, (q', k')) -> is_Some (ucq_src q') <-> is_Some (ucq_src q).
Proof.
  intros E. apply (cq_exec_static (OpWrite e) q k (ResStatus r) q' k'). cbn. unfold bind. by rewrite E.
Qed.

Lemma write_src_static e src (q : util_cq) (k : K) r q' k' :
  ofi_cq_write_src e src (q, k) = Some (r, (q', k')) -> is_Some (ucq_src q') <-> is_Some (ucq_src q).
Proof.
  intros E. apply (cq_exec_static (OpWriteSrc e src) q k (ResStatus r) q' k'). cbn. unfold bind. by rewrite E.
Qed.

Lemma write_error_static e (q : util_cq) (k : K) r q' k' :
  ofi_cq_write_error e (q, k) = Some (r, (q', k')) -> is_Some (ucq_src q') <-> is_Some (ucq_src q).
Proof.
  intros E. apply (cq_exec_static (OpWriteErr e) q k (ResStatus r) q' k'). cbn. unfold bind. by rewrite E.
Qed.

(** The completion a writer posts: an error entry when [err] is set. *)
Definition comp_of (context flags len data tag err : Z) : fi_cq_err_entry :=
  mkErr (mkEntry context flags len 0 data tag) 0 (abs_err err) 0 [].

Lemma abs_err_neq err : err <> 0 -> abs_err err <> 0.
Proof. unfold abs_err. destruct (err <? 0); lia. Qed.

(** An error completion without error data. *)
Lemma err_lost q e : ee_err e <> 0 -> ee_err_data e = [] -> err_refused (K := K) e -> lost K q e.
Proof. intros He Hd [Hn|[? _]]; [by split; [left|]|done]. Qed.

Lemma wp_cq_write_tx context flags len err (Q : unit -> world K -> Prop) w :
  cqs_ok w -> has flags UTIL_FLAG_AUX = false ->
  (forall cqs' k', posted K (w_cqs w) (e_tx_cq (w_ep w)) (comp_of context flags len 0 0 err) None cqs' ->
     Q tt (w <| w_cqs := cqs' |> <| w_k := k' |>)) ->
  wp (rds_cq_write_tx context flags len err) Q w.
Proof.
  intros [Ht _] Hf HQ. unfold rds_cq_write_tx. apply wp_bind, wp_ep_get.
  destruct (e_tx_cq (w_ep w)) as [id|] eqn:Eo.
  2: { apply wp_ret. replace w with (w <| w_cqs := w_cqs w |> <| w_k := w_k w |>) by (by destruct w). by apply HQ. }
  destruct (err =? 0) eqn:Ee; cbn [negb].
  - apply Z.eqb_eq in Ee as ->. eapply wp_cq_run_write with (src := None) (b := false); [reflexivity|exact Ht| | |exact HQ].
    + apply write_static.
    + intros q k cs _ Hr. eapply wp_mono; [by apply (ofi_cq_write_appends false _ 0)|].
      intros r [q' k'] [[_ (a & Ha & _)]|(_ & -> & Hfull & Hn)]; [left; by exists a|right]. split; [done|]. by split; [right|].
  - eapply wp_cq_run_write with (src := None) (b := false); [reflexivity|exact Ht| | |exact HQ].
    + apply write_error_static.
    + intros q k cs _ Hr. eapply wp_mono; [by apply ofi_cq_write_error_appends; [|apply abs_err_neq; lia]|].
      intros r [q' k'] [[_ (a & Ha)]|(_ & -> & Hn)]; [left; by exists a|right]. split; [done|]. apply err_lost; [apply abs_err_neq; lia|done|done].
Qed.

(** The source reported with a receive completion. *)
Definition rx_src w (src err : Z) : option Z :=
  if (err =? 0) && has (e_caps (w_ep w)) FI_SOURCE then Some src else None.

Lemma wp_cq_write_rx context flags len data tag src err (Q : unit -> world K -> Prop) w :
  cqs_ok w -> has flags UTIL_FLAG_AUX = false ->
  (forall cqs' k', posted K (w_cqs w) (e_rx_cq (w_ep w)) (comp_of context flags len data tag err) (rx_src w src err) cqs' ->
     Q tt (w <| w_cqs := cqs' |> <| w_k := k' |>)) ->
  wp (rds_cq_write_rx context flags len data tag src err) Q w.
Proof.
  intros [_ Ht] Hf. unfold rds_cq_write_rx, rx_src. intros HQ. apply wp_bind, wp_ep_get.
  destruct (e_rx_cq (w_ep w)) as [id|] eqn:Eo.
  2: { apply wp_ret. replace w with (w <| w_cqs := w_cqs w |> <| w_k := w_k w |>) by (by destruct w). by apply HQ. }
  apply wp_bind, wp_ep_get. destruct (err =? 0) eqn:Ee; cbn [negb andb] in *.
  - apply Z.eqb_eq in Ee as ->. destruct (has (e_caps (w_ep w)) FI_SOURCE) eqn:Es.
    + eapply wp_cq_run_write; [reflexivity|exact Ht| | |exact HQ].
      * apply write_src_static.
      * intros q k cs Hs Hr. eapply wp_mono; [by apply (ofi_cq_write_appends true _ src)|].
        intros r [q' k'] [[_ (a & Ha & Hsrc)]|(_ & -> & Hfull & Hn)]; [left|right; split; [done|by split; [right|]]].
        exists a. split; [done|]. intros s [= <-]. by apply Hsrc.
    + eapply wp_cq_run_write; [reflexivity|exact Ht| | |exact HQ].
      * apply write_static.
      * intros q k cs _ Hr. eapply wp_mono; [by apply (ofi_cq_write_appends false _ 0)|].
        intros r [q' k'] [[_ (a & Ha & _)]|(_ & -> & Hfull & Hn)]; [left; by exists a|right]. split; [done|]. by split; [right|].
  - eapply wp_cq_run_write; [reflexivity|exact Ht| | |exact HQ].
    + apply write_error_static.
    + intros q k cs _ Hr. eapply wp_mono; [by apply ofi_cq_write_error_appends; [|apply abs_err_neq; lia]|].
      intros r [q' k'] [[_ (a & Ha)]|(_ & -> & Hn)]; [left; by exists a|right]. split; [done|]. apply err_lost; [apply abs_err_neq; lia|done|done].
Qed.
End Frame.
