(* ===== verification/Inv.v ===== *)
(** * The endpoint invariant

    What holds of an enabled endpoint between any two operations: its
    completion queues are well formed, ids of pending operations are unique,
    every memory region and cache entry is held by exactly one owner, parked
    READs and in-flight sends are counted exactly, no pending operation is
    left with nothing outstanding, the peer table is consistent, and no
    posted receive matches a queued unexpected message. *)

From stdpp Require Import sorting.
From S2P Require Import Prelude Iov Wire Config Kernel Cq CqFifo Av MrCache MrCacheInv State Mr.
From S2P Require Import MrInv Pending Ring Msg Frame.

(** ** Pending operations *)

(** The pending list seen from an id. *)
Inductive pend_view (id : Z) (l : list rds_pending) : Prop :=
| pv_found l1 p l2 :
    l = l1 ++ p :: l2 -> p_id p = id -> Forall (fun x => p_id x <> id) l1 ->
    pending_lookup id l = Some p -> (forall f, pending_update id f l = l1 ++ f p :: l2) ->
    pending_delete id l = l1 ++ l2 -> pend_view id l
| pv_none :
    Forall (fun x => p_id x <> id) l -> pending_lookup id l = None ->
    (forall f, pending_update id f l = l) -> pending_delete id l = l -> pend_view id l.

Lemma pend_viewP id l : pend_view id l.
Proof.
  destruct (find_split (fun p => p_id p =? id) l) as [[[l1 p] l2]|] eqn:E.
  - pose proof E as E'. apply find_split_Some in E' as (-> & Hp & Hl).
    apply (pv_found id _ l1 p l2); [done|by apply Z.eqb_eq| |unfold pending_lookup|intros f; unfold pending_update|unfold pending_delete].
    { eapply Forall_impl; [exact Hl|]. intros x Hx. by apply Z.eqb_neq. }
    all: by rewrite E.
  - pose proof E as E'. apply find_split_None in E'.
    apply pv_none; [|unfold pending_lookup|intros f; unfold pending_update|unfold pending_delete].
    { eapply Forall_impl; [exact E'|]. intros x Hx. by apply Z.eqb_neq. }
    all: by rewrite E.
Qed.

Lemma pending_at l1 p l2 :
  Forall (fun x => p_id x <> p_id p) l1 ->
  pending_lookup (p_id p) (l1 ++ p :: l2) = Some p /\
  (forall f, pending_update (p_id p) f (l1 ++ p :: l2) = l1 ++ f p :: l2) /\
  pending_delete (p_id p) (l1 ++ p :: l2) = l1 ++ l2.
Proof.
  intros Hl.
  assert (E : find_split (fun x => p_id x =? p_id p) (l1 ++ p :: l2) = Some (l1, p, l2)).
  { apply find_split_Some. split_and!; [done|apply Z.eqb_refl|]. eapply Forall_impl; [exact Hl|].
    intros x Hx. by apply Z.eqb_neq. }
  unfold pending_lookup, pending_update, pending_delete. rewrite E. done.
Qed.

(** The regions and cache entries a pending operation will release. *)
Definition pend_mrs (p : rds_pending) : list Z :=
  match p_cmrs p, p_mrs p with None, Some l => l | _, _ => [] end.
Definition pend_cmrs (p : rds_pending) : list Z := default [] (p_cmrs p).

Definition is_rx (p : rds_pending) : bool :=
  match p_type p with RDS_PEND_RNDZV_RX => true | _ => false end.

(** READs parked for an id. *)
Definition is_read_of (id : Z) (d : rds_deferred) : bool :=
  match df_type d with RDS_DEFERRED_READ => df_id d =? id | RDS_DEFERRED_FIN => false end.
Definition parked (id : Z) (l : list rds_deferred) : Z :=
  Z.of_nat (length (filter (fun d => is_read_of id d = true) l)).

(** One pending operation: the region count is that of the array it frees,
    its completion flags never carry the queue's internal marker, its
    segment counters are in range, and only sends own regions. *)
Record pend_ok (p : rds_pending) : Prop := {
  po_cnt : p_mr_cnt p = Z.of_nat (length (pend_mrs p ++ pend_cmrs p));
  po_flags : has (p_flags p) UTIL_FLAG_AUX = false;
  po_rem : 0 <= p_seg_remaining p; po_def : 0 <= p_seg_deferred p;
  po_sum : p_seg_remaining p + p_seg_deferred p < 2 ^ 31;
  po_own : is_rndzv_tx (p_type p) = false -> p_cmrs p = None /\ p_mrs p = None
}.

(** An operation at rest has something outstanding. *)
Definition pend_busy (p : rds_pending) : Prop :=
  match p_type p with
  | RDS_PEND_RNDZV_TX => True
  | RDS_PEND_RNDZV_RX => 0 < p_seg_remaining p + p_seg_deferred p
  | RDS_PEND_RMA => 0 < p_seg_remaining p
  end.

(** [xp] is the id of an operation still being set up. *)
Record pends_ok (xp : option Z) (op_id inflight : Z) (ps : list rds_pending) (ds : list rds_deferred) : Prop := {
  pn_ids : NoDup (p_id <$> ps);
  pn_range : Forall (fun p => 0 < p_id p <= op_id) ps;
  pn_op : 0 <= op_id < 2 ^ 64;
  pn_ok : Forall pend_ok ps;
  pn_busy : Forall (fun p => xp = Some (p_id p) \/ pend_busy p) ps;
  pn_parked : Forall (fun p => p_seg_deferred p = parked (p_id p) ds) ps;
  pn_reads : Forall (fun d => df_type d = RDS_DEFERRED_READ ->
                       exists p, p ∈ ps /\ p_id p = df_id d /\ p_type p = RDS_PEND_RNDZV_RX) ds;
  pn_inflight : inflight = Z.of_nat (length (filter (fun p => is_rndzv_tx (p_type p) = true /\ xp <> Some (p_id p)) ps))
}.

(** ** Memory regions *)

(** The regions [l] are held, once each, by the endpoint [self]. *)
Record mrs_ok (mrs : gmap Z rds_mr) (next self : Z) (l : list Z) : Prop := {
  ms_nodup : NoDup l;
  ms_live : forall h, h ∈ l -> exists m, mrs !! h = Some m /\ mr_ref m = 1 /\ mr_ep m = self;
  ms_next : forall h, is_Some (mrs !! h) -> h < next
}.

#[export] Instance mrs_ok_perm mrs next self : Proper ((≡ₚ) ==> iff) (mrs_ok mrs next self).
Proof.
  assert (H : forall l1 l2, l1 ≡ₚ l2 -> mrs_ok mrs next self l1 -> mrs_ok mrs next self l2).
  { intros l1 l2 Hp [H1 H2 H3]. split; [by rewrite <- Hp| |done]. intros h Hh. apply H2. by rewrite Hp. }
  intros l1 l2 Hp. split; by apply H.
Qed.

Definition opt_list {A} (o : option A) : list A := match o with Some x => [x] | None => [] end.
Definition peer_mrs (p : rds_peer) : list Z := opt_list (pe_rx_ring_mr p) ++ opt_list (pe_credit_mr p).
Definition all_pend_mrs (ps : list rds_pending) : list Z := mjoin (pend_mrs <$> ps).
Definition all_pend_cmrs (ps : list rds_pending) : list Z := mjoin (pend_cmrs <$> ps).
Definition all_peer_mrs (peers : gmap Z rds_peer) : list Z := mjoin (peer_mrs <$> (map_to_list peers).*2).

(** ** Peers *)

Record peers_ok (slots max : Z) (rdma : bool) (peers : gmap Z rds_peer) (hash : gmap Z (list Z))
    (lru : list Z) (cnt next : Z) : Prop := {
  pr_chain : forall b h, h ∈ default [] (hash !! b) -> exists p, peers !! h = Some p /\ rds_peer_hash (pe_addr p) = b;
  pr_hash : forall h p, peers !! h = Some p -> h ∈ default [] (hash !! rds_peer_hash (pe_addr p));
  pr_nodup : forall b, NoDup (default [] (hash !! b));
  pr_addr : forall h h' p p', peers !! h = Some p -> peers !! h' = Some p' -> pe_addr p = pe_addr p' -> h = h';
  pr_lru : NoDup lru; pr_lru_in : forall h, h ∈ lru <-> is_Some (peers !! h);
  pr_next : forall h, is_Some (peers !! h) -> h < next;
  pr_cnt : cnt = Z.of_nat (size peers); pr_max : cnt <= Z.max 0 max < 2 ^ 32;
  pr_mrs : forall h p, peers !! h = Some p -> pe_state p <> RDS_PEER_DISABLED ->
             is_Some (pe_rx_ring_mr p) /\ is_Some (pe_credit_mr p);
  pr_ready : forall h p, peers !! h = Some p -> pe_state p = RDS_PEER_READY -> pe_rem_slots p = slots;
  pr_slots : rdma = true -> slots <> 0
}.

(** ** Matching *)

(** Queued unexpected messages: in the right list, rendezvous descriptors
    complete, and none of them matches a posted receive. *)
Record match_ok (tagged : bool) (posted : list rds_rx_entry) (unexp : list rds_unexp) : Prop := {
  mt_tagged : Forall (fun u => hdr_tagged (ux_hdr u) = tagged) unexp;
  mt_segs : Forall (fun u => h_op (ux_hdr u) <> RDS_OP_EAGER ->
              length (ux_segs u) = Z.to_nat (ux_seg_cnt u) /\ ux_seg_cnt u < 2 ^ 16) unexp;
  mt_apart : forall rx u, rx ∈ posted -> u ∈ unexp ->
              posted_match tagged (h_tag (ux_hdr u)) (ux_addr u) rx = false
}.

(** ** The invariant *)

Section Inv.
Context {K : Type} `{!Kernel K}.

(** [xm] and [xc] are regions and cache entries in the hands of the running
    operation. *)
Record world_inv (xm xc : list Z) (xp : option Z) (w : world K) : Prop := {
  wi_live : w_live w = true;
  wi_av : e_av (w_ep w) = true;
  wi_cfg : 0 <= rds_rndzv_max_inflight (w_cfg w) < 2 ^ 32;
  wi_cqs : cqs_ok w;
  wi_reg : reg_ok w;
  wi_pend : pends_ok xp (e_op_id (w_ep w)) (e_rndzv_tx_inflight (w_ep w)) (e_pending (w_ep w)) (e_deferred (w_ep w));
  wi_mrs : mrs_ok (d_mrs (w_dom w)) (d_next_mr (w_dom w)) (e_self (w_ep w))
             (xm ++ all_pend_mrs (e_pending (w_ep w)) ++ all_peer_mrs (e_peers (w_ep w)));
  wi_cache : exists others, cache_on (caching w) (the_cache w) (xc ++ all_pend_cmrs (e_pending (w_ep w)) ++ others);
  wi_peers : peers_ok (e_ring_slots (w_ep w)) (e_ring_max_peers (w_ep w)) (e_eager_rdma (w_ep w))
               (e_peers (w_ep w)) (e_peer_hash (w_ep w)) (e_peer_lru (w_ep w)) (e_peer_cnt (w_ep w))
               (e_next_peer (w_ep w));
  wi_msg : match_ok false (e_rx_posted_msg (w_ep w)) (e_rx_unexp_msg (w_ep w));
  wi_tag : match_ok true (e_rx_posted_tag (w_ep w)) (e_rx_unexp_tag (w_ep w))
}.

Definition world_ok (w : world K) : Prop := world_inv [] [] None w.
End Inv.
