(* ===== verification/Rules.v ===== *)
(** * World-level rules

    Rules in weakest-precondition style for the building blocks of the data
    path: pending operations, RDMA posts, FINs, memory regions and the
    registration cache.  Each rule names exactly the part of the world the
    block changes. *)

From stdpp Require Import sorting.
From S2P Require Import Prelude Iov Wire Config Kernel Cq CqFifo Av MrCache MrCacheInv State Mr.
From S2P Require Import MrInv Pending Ring Msg Frame Inv.

Section Rules.
Context {K : Type} `{!Kernel K}.
Implicit Types w : world K.

(** The pending list and the parked queue, replaced. *)
Definition set_pend w (l : list rds_pending) : world K := w <| w_ep ::= fun e => e <| e_pending := l |> |>.
Definition set_parked w (l : list rds_deferred) : world K := w <| w_ep ::= fun e => e <| e_deferred := l |> |>.
Definition park w (d : rds_deferred) : world K := set_parked w (e_deferred (w_ep w) ++ [d]).
(** Environment and log, replaced. *)
Definition set_net w (k : K) (l : list sent) : world K := w <| w_k := k |> <| w_log := l |>.

Lemma set_pend_id w : set_pend w (e_pending (w_ep w)) = w.
Proof. by destruct w as [? [] ? ? ? ? ? ? ?]. Qed.
Lemma set_parked_id w : set_parked w (e_deferred (w_ep w)) = w.
Proof. by destruct w as [? [] ? ? ? ? ? ? ?]. Qed.
Lemma set_net_id w : set_net w (w_k w) (w_log w) = w.
Proof. by destruct w. Qed.

(** ** Pending operations *)

(** The world after [rds_pending_alloc]. *)
Definition with_pending w (k : K) (id : Z) (type : rds_pend_type) (context flags : Z) : world K :=
  w <| w_k := k |> <| w_ep ::= fun e =>
    e <| e_op_id := id |> <| e_pending := e_pending e ++ [pending_init id type context flags] |> |>.

Lemma wp_pending_alloc type context flags (Q : option Z -> world K -> Prop) w :
  0 <= e_op_id (w_ep w) -> e_op_id (w_ep w) + 1 < 2 ^ 64 ->
  (forall k', Q None (w <| w_k := k' |>)) ->
  (forall k', Q (Some (e_op_id (w_ep w) + 1)) (with_pending w k' (e_op_id (w_ep w) + 1) type context flags)) ->
  wp (rds_pending_alloc type context flags) Q w.
Proof.
  intros H0 H1 HN HS. unfold rds_pending_alloc, rds_next_id. apply wp_bind, wp_sys_alloc. intros [p|] k'; [|by apply wp_ret].
  apply wp_bind, wp_bind, wp_ep_upd, wp_bind, wp_ep_get. w_simpl. rewrite u64_small by lia.
  rewrite (proj2 (Z.eqb_neq _ 0)) by lia. cbn [negb]. apply wp_ret, wp_bind, wp_ep_upd, wp_ret.
  specialize (HS k'). unfold with_pending, set_field in *. cbn in HS |- *.
  rewrite u64_small by lia. exact HS.
Qed.

Lemma wp_pend_deref id l1 p l2 (Q : rds_pending -> world K -> Prop) w :
  e_pending (w_ep w) = l1 ++ p :: l2 -> p_id p = id -> Forall (fun x => p_id x <> id) l1 ->
  Q p w -> wp (pend_deref id) Q w.
Proof.
  intros E <- Hl HQ. unfold pend_deref, rds_pending_find. apply wp_bind, wp_ep_get.
  rewrite E, (proj1 (pending_at l1 p l2 Hl)). by eapply wp_of_opt.
Qed.

Lemma wp_pend_upd id f l1 p l2 (Q : unit -> world K -> Prop) w :
  e_pending (w_ep w) = l1 ++ p :: l2 -> p_id p = id -> Forall (fun x => p_id x <> id) l1 ->
  Q tt (set_pend w (l1 ++ f p :: l2)) -> wp (pend_upd id f) Q w.
Proof.
  intros E <- Hl HQ. apply wp_ep_upd.
  change (Q tt (set_pend w (pending_update (p_id p) f (e_pending (w_ep w))))).
  by rewrite E, (proj1 (proj2 (pending_at l1 p l2 Hl))).
Qed.

Lemma wp_pend_remove id l1 p l2 (Q : unit -> world K -> Prop) w :
  e_pending (w_ep w) = l1 ++ p :: l2 -> p_id p = id -> Forall (fun x => p_id x <> id) l1 ->
  Q tt (set_pend w (l1 ++ l2)) -> wp (pend_remove id) Q w.
Proof.
  intros E <- Hl HQ. apply wp_ep_upd.
  change (Q tt (set_pend w (pending_delete (p_id p) (e_pending (w_ep w))))).
  by rewrite E, (proj2 (proj2 (pending_at l1 p l2 Hl))).
Qed.

(** ** The socket *)

(** What the log records of an RDMA post and of a FIN. *)
Definition rdma_sent (dest : list Z) (dlen cookie off : Z) (liov : list iovec) (wr nt : bool) (token errno : Z) : sent :=
  mkSent (sa_name dest dlen) [] (Some (mkRdmaArgs cookie off (rds_iov_len liov) liov
    (Z.lor (if wr then RDS_RDMA_READWRITE else 0) (if nt then RDS_RDMA_NOTIFY_ME else 0))
    (if nt then token else 0))) errno.
Definition fin_sent (peer : list Z) (id errno : Z) : sent :=
  mkSent (sa_name peer (ofi_sizeofaddr peer)) (rds_hdr_bytes (fin_hdr id)) None errno.
Definition fin_parked (peer : list Z) (id : Z) : rds_deferred :=
  mkDeferred RDS_DEFERRED_FIN peer (ofi_sizeofaddr peer) id 0 0 [].
Definition read_parked (peer : list Z) (cookie off : Z) (liov : list iovec) (token : Z) : rds_deferred :=
  mkDeferred RDS_DEFERRED_READ peer (ofi_sizeofaddr peer) token cookie off liov.

Definition liov_ok (liov : list iovec) : bool :=
  negb (length liov =? 0)%nat && negb (RDS_IOV_LIMIT <? length liov)%nat.

Lemma wp_post_rdma_log dest dlen cookie off liov wr nt token (Q : Z -> world K -> Prop) w :
  (liov_ok liov = false -> Q (- FI_EINVAL) w) ->
  (forall errno k', liov_ok liov = true ->
     Q (send_status errno) (set_net w k' (w_log w ++ [rdma_sent dest dlen cookie off liov wr nt token errno]))) ->
  wp (rds_post_rdma dest dlen cookie off liov wr nt token) Q w.
Proof.
  unfold liov_ok. intros H1 H2. unfold rds_post_rdma. rewrite <- negb_orb in *. destruct (_ || _); cbn in *.
  - apply wp_ret. auto.
  - apply wp_bind, wp_sys_sendmsg. intros errno k'. apply wp_ret. by apply H2.
Qed.

Lemma wp_post_rdma dest dlen cookie off liov wr nt token (Q : Z -> world K -> Prop) w :
  (forall r k' log', Q r (set_net w k' log')) -> wp (rds_post_rdma dest dlen cookie off liov wr nt token) Q w.
Proof.
  intros HQ. apply wp_post_rdma_log; [|auto]. intros _. rewrite <- (set_net_id w). apply HQ.
Qed.

(** The FIN leaves, or is parked when the queue is full; a FIN the socket
    refuses for another reason, or that cannot be parked, is lost. *)
Lemma wp_send_fin peer id (Q : unit -> world K -> Prop) w :
  (forall k' errno, Q tt (set_net w k' (w_log w ++ [fin_sent peer id errno]))) ->
  (forall k' errno, send_status errno = - FI_EAGAIN ->
     Q tt (park (set_net w k' (w_log w ++ [fin_sent peer id errno])) (fin_parked peer id))) ->
  wp (rds_send_fin peer id) Q w.
Proof.
  intros H1 H2. unfold rds_send_fin, rds_send_fin_raw. apply wp_bind, wp_bind, wp_sys_sendmsg. intros errno k'.
  apply wp_ret. destruct (_ =? _) eqn:E; [|apply wp_ret, H1].
  unfold rds_defer_fin, rds_defer_enqueue. apply wp_bind, wp_sys_alloc. intros [a|] k''.
  - apply wp_bind, wp_bind, wp_ep_upd, wp_ret, wp_ret. apply Z.eqb_eq in E. exact (H2 k'' errno E).
  - apply wp_ret. exact (H1 k'' errno).
Qed.

(** A READ is parked, or the allocation fails. *)
Lemma wp_defer_read peer cookie off liov token (Q : Z -> world K -> Prop) w :
  (forall k', Q (- FI_ENOMEM) (w <| w_k := k' |>)) ->
  (forall k', Q 0 (park (w <| w_k := k' |>) (read_parked peer cookie off liov token))) ->
  wp (rds_defer_read peer cookie off liov token) Q w.
Proof.
  intros H1 H2. unfold rds_defer_read, rds_defer_enqueue. apply wp_bind, wp_sys_alloc. intros [a|] k'.
  - apply wp_bind, wp_ep_upd, wp_ret. exact (H2 k').
  - apply wp_ret, H1.
Qed.

(** ** Memory regions *)

Definition set_mrs w (mrs : gmap Z rds_mr) : world K := w <| w_dom ::= fun d => d <| d_mrs := mrs |> |>.

Lemma set_mrs_id w : set_mrs w (d_mrs (w_dom w)) = w.
Proof. by destruct w as [? ? ? [] ? ? ? ? ?]. Qed.

(** The endpoint's own regions are released through its own socket. *)
Lemma wp_mr_put h l (Q : unit -> world K -> Prop) w :
  w_live w = true ->
  mrs_ok (d_mrs (w_dom w)) (d_next_mr (w_dom w)) (e_self (w_ep w)) (h :: l) ->
  (forall k', mrs_ok (delete h (d_mrs (w_dom w))) (d_next_mr (w_dom w)) (e_self (w_ep w)) l ->
     Q tt (set_mrs (w <| w_k := k' |>) (delete h (d_mrs (w_dom w))))) ->
  wp (rds_mr_put (Some h)) Q w.
Proof.
  intros Hlive [Hnd Hl Hnx] HQ. apply NoDup_cons in Hnd as [Hnh Hnd].
  destruct (Hl h (list_elem_of_here _ _)) as (m & Hm & Hr & He).
  cbn [rds_mr_put]. apply wp_bind, wp_gets, wp_bind. eapply wp_of_opt; [exact Hm|].
  apply wp_bind, wp_dom_upd. rewrite Hr. cbn [negb Z.sub Z.add Z.opp Z.pos_sub Z.eqb].
  apply wp_bind. eapply (wp_sock_of _ (e_sock (w_ep w))).
  { unfold ep_sock_of. w_simpl. rewrite He, Z.eqb_refl, Hlive. done. }
  unfold rds_kernel_free. apply wp_bind, wp_sys_free_mr. intros k'. apply wp_dom_upd.
  assert (E : delete h (insert h (m <| mr_ref := 1 - 1 |>) (d_mrs (w_dom w))) = delete h (d_mrs (w_dom w)))
    by apply delete_insert_eq.
  assert (HQ' : Q tt (set_mrs (w <| w_k := k' |>) (delete h (insert h (m <| mr_ref := 1 - 1 |>) (d_mrs (w_dom w)))))).
  { rewrite E. apply HQ. split; [done| |].
    - intros x Hx. destruct (Hl x (list_elem_of_further _ _ _ Hx)) as (mx & ? & ?). exists mx.
      rewrite lookup_delete_ne by (by intros ->). auto.
    - intros x [mx Hx]. apply Hnx. apply lookup_delete_Some in Hx as [_ Hx]. eauto. }
  exact HQ'.
Qed.

Lemma wp_mr_put_all l l' (Q : unit -> world K -> Prop) w :
  w_live w = true ->
  mrs_ok (d_mrs (w_dom w)) (d_next_mr (w_dom w)) (e_self (w_ep w)) (l ++ l') ->
  (forall k' mrs', mrs_ok mrs' (d_next_mr (w_dom w)) (e_self (w_ep w)) l' ->
     Q tt (set_mrs (w <| w_k := k' |>) mrs')) ->
  wp (rds_mr_put_all l) Q w.
Proof.
  revert w. induction l as [|h l IH]; intros w Hlive Hm HQ; cbn [rds_mr_put_all].
  - apply wp_ret. rewrite <- (set_mrs_id w). replace w with (w <| w_k := w_k w |>) at 1 by (by destruct w).
    by apply HQ.
  - apply wp_bind. eapply (wp_mr_put h (l ++ l')); [done|done|]. intros k' Hm'.
    apply IH; [done|exact Hm'|]. intros k'' mrs' Hmrs. by apply (HQ k'' mrs').
Qed.

(** ** The registration cache *)

Lemma wp_cache_put_all `{!MrAgainEnds K} l held (Q : unit -> world K -> Prop) w :
  reg_ok w -> cache_on (caching w) (the_cache w) (l ++ held) ->
  (forall c k', cache_on (caching w) c held -> Q tt (set_cache w c k')) ->
  wp (rds_reg_cache_put_all l) Q w.
Proof.
  revert w. induction l as [|h l IH]; intros w Hreg Hc HQ; cbn [rds_reg_cache_put_all].
  - apply wp_ret. rewrite <- (set_cache_id w). by apply HQ.
  - apply wp_bind. unfold rds_reg_cache_put. unfold caching in *. destruct (d_cache_enabled (w_dom w)) eqn:Eon; [|done].
    eapply wp_mono; [by apply (delete_spec (owner_ok w) h w (l ++ held)); [apply owner_ok_refl|]|].
    cbn beta. intros _ w1 ([_ (c & k' & ->)] & Hc1 & _). apply IH; [exact Hreg|unfold set_cache; w_simpl; rewrite Eon; exact Hc1|].
    intros c' k'' Hc'. rewrite set_cache_twice. apply HQ. unfold set_cache in Hc'. revert Hc'. w_simpl. by rewrite Eon.
Qed.

(** The domain after a lookup: the cache and the staged destination. *)
Definition set_reg w (c : ofi_mr_cache) (rd : option (list Z)) (rl : Z) (k : K) : world K :=
  w <| w_dom ::= fun d => d <| d_mr_cache := c |> <| d_reg_dest := rd |> <| d_reg_dest_len := rl |> |> <| w_k := k |>.

Lemma set_reg_id w : set_reg w (the_cache w) (d_reg_dest (w_dom w)) (d_reg_dest_len (w_dom w)) (w_k w) = w.
Proof. by destruct w as [? ? ? [] ? ? ? ? ?]. Qed.

(** The registration a successful lookup hands out. *)
Definition cache_grant (on : bool) (c : ofi_mr_cache) (held : list Z) (v : iovec) (r : Z + Z * Z) : Prop :=
  match r with
  | inl e => e <> 0 /\ cache_on on c held
  | inr (cookie, h) => cache_on on c (h :: held) /\ ofi_iov_within v (iov_of c h) = true /\
      exists off, region c h = Some (iov_of c h, mkCached cookie off)
  end.

Lemma wp_reg_cache_get `{!MrAgainEnds K} buf len dest dlen held (Q : Z + Z * Z -> world K -> Prop) w :
  reg_ok w -> cache_on (caching w) (the_cache w) held ->
  (forall r c rd rl k', cache_grant (caching w) c held (mkIov buf len) r -> keeps (fun x => x ∈ held) (the_cache w) c ->
     Q r (set_reg w c rd rl k')) ->
  wp (rds_reg_cache_get buf len dest dlen) Q w.
Proof.
  intros Hreg Hc HQ. unfold rds_reg_cache_get. apply wp_bind, wp_gets. unfold caching in *. destruct (d_cache_enabled (w_dom w)) eqn:Eon; cbn [negb].
  2: { apply wp_ret. rewrite <- (set_reg_id w). apply HQ; [by split|apply keeps_refl]. }
  apply wp_bind, wp_dom_upd, wp_bind. eapply wp_mono.
  { match goal with |- wp _ _ ?w1 => apply (search_spec (owner_ok w1) _ _ held) end;
      [apply owner_ok_refl; exact Hreg|exact Hc]. }
  intros [r h] w1 ([_ (c & k' & ->)] & Hg & Hk). apply wp_bind, wp_dom_upd. cbn [fst snd] in Hg.
  unfold grants in Hg. destruct (r =? 0) eqn:Er; cbn [negb].
  - destruct Hg as (Hc1 & Hw & [e He]). apply wp_bind, wp_gets, wp_bind. eapply wp_of_opt; [exact He|].
    apply wp_ret. apply (HQ _ c None 0 k'); [|exact Hk]. split_and!; [exact Hc1|exact Hw|].
    exists (cm_offset (me_data e)). unfold region, iov_of. change (mc_entries c !! h = Some e) in He. rewrite He.
    by destruct (me_data e) eqn:Ed; cbn; rewrite Ed.
  - apply wp_ret. apply (HQ _ c None 0 k'); [split; [lia|exact Hg]|exact Hk].
Qed.

(** A new region of the endpoint. *)
Definition new_mr w (k : K) (cookie buf len access : Z) : world K :=
  let h := d_next_mr (w_dom w) in
  w <| w_k := k |> <| w_dom ::= fun d =>
    d <| d_mrs := <[h := mkMr (e_self (w_ep w)) cookie (rds_cookie_off cookie) buf len access 1 0]> (d_mrs (w_dom w)) |>
      <| d_next_mr := h + 1 |> |>.

Lemma wp_reg_internal buf len access dest (Q : Z + Z -> world K -> Prop) w :
  w_live w = true ->
  (forall err k', Q (inl err) (w <| w_k := k' |>)) ->
  (forall cookie k', 0 <= cookie < 2 ^ 64 -> Q (inr (d_next_mr (w_dom w))) (new_mr w k' cookie buf len access)) ->
  wp (rds_reg_internal (e_self (w_ep w)) buf len access dest) Q w.
Proof.
  intros Hlive H1 H2. unfold rds_reg_internal. apply wp_bind.
  eapply (wp_sock_of _ (e_sock (w_ep w))); [by unfold ep_sock_of; rewrite Z.eqb_refl, Hlive|].
  apply wp_bind. unfold rds_kernel_reg. destruct (len >? _).
  { apply wp_ret, wp_ret. specialize (H1 (- FI_EINVAL) (w_k w)). by destruct w. }
  apply wp_bind, wp_sys_get_mr. intros [err|cookie] k' Hck; [by apply wp_ret, wp_ret|].
  apply wp_ret, wp_bind, wp_sys_alloc. intros [a|] k''.
  - apply wp_bind, wp_gets, wp_bind, wp_dom_upd, wp_ret. specialize (H2 cookie k'' Hck).
    unfold new_mr in H2. cbn zeta in H2. rewrite (Z.add_comm _ 1) in H2. exact H2.
  - apply wp_bind. eapply (wp_sock_of _ (e_sock (w_ep w))); [by unfold ep_sock_of; w_simpl; rewrite Z.eqb_refl, Hlive|].
    unfold rds_kernel_free. apply wp_bind, wp_sys_free_mr. intros k3. apply wp_ret. exact (H1 _ k3).
Qed.

Lemma mrs_ok_new mrs next self l m :
  mrs_ok mrs next self l -> mr_ref m = 1 -> mr_ep m = self ->
  mrs_ok (<[next := m]> mrs) (next + 1) self (next :: l).
Proof.
  intros [Hnd Hl Hnx] Hr He. split.
  - apply NoDup_cons. split; [|done]. intros Hin. destruct (Hl _ Hin) as (m' & Hm' & _).
    assert (next < next) by (apply Hnx; eauto). lia.
  - intros h [->|Hh]%elem_of_cons; [exists m; by rewrite lookup_insert_eq|].
    destruct (Hl h Hh) as (m' & Hm' & ?). exists m'. rewrite lookup_insert_ne; [done|].
    intros <-. assert (next < next) by (apply Hnx; eauto). lia.
  - intros h [m' Hm']. apply lookup_insert_Some in Hm' as [[<- _]|[_ Hm']]; [lia|].
    assert (h < next) by (apply Hnx; eauto). lia.
Qed.
End Rules.
