(* ===== verification/PendInv.v ===== *)
(** * Accounting of pending and parked operations

    How [pends_ok] evolves when an operation is created, updated, parked,
    retried, settled or removed. *)

From S2P Require Import Prelude Iov Wire Config Kernel Cq CqFifo Av MrCache MrCacheInv State Mr.
From S2P Require Import MrInv Pending Ring Msg Frame Inv.

(** ** Parked READs *)

Lemma parked_app id l1 l2 : parked id (l1 ++ l2) = parked id l1 + parked id l2.
Proof. unfold parked. rewrite filter_app, length_app. lia. Qed.

Lemma parked_cons id d l : parked id (d :: l) = (if is_read_of id d then 1 else 0) + parked id l.
Proof.
  unfold parked. rewrite filter_cons. destruct (is_read_of id d).
  - rewrite decide_True by done. cbn [length]. lia.
  - rewrite decide_False by done. lia.
Qed.

Lemma parked_nonneg id l : 0 <= parked id l.
Proof. unfold parked. lia. Qed.

Lemma parked_fin id d l1 l2 : df_type d = RDS_DEFERRED_FIN -> parked id (l1 ++ d :: l2) = parked id (l1 ++ l2).
Proof.
  intros Hd. rewrite !parked_app, parked_cons. replace (is_read_of id d) with false; [lia|].
  unfold is_read_of. by rewrite Hd.
Qed.

Lemma parked_read id d l1 l2 : df_type d = RDS_DEFERRED_READ ->
  parked id (l1 ++ d :: l2) = parked id (l1 ++ l2) + (if df_id d =? id then 1 else 0).
Proof.
  intros Hd. rewrite !parked_app, parked_cons.
  replace (is_read_of id d) with (df_id d =? id); [destruct (df_id d =? id); lia|].
  unfold is_read_of. by rewrite Hd.
Qed.

(** Without parked READs for an id nobody else points at it. *)
Lemma parked_zero id l : parked id l = 0 ->
  Forall (fun d => df_type d = RDS_DEFERRED_READ -> df_id d <> id) l.
Proof.
  induction l as [|d l IH]; [constructor|]. rewrite parked_cons. pose proof (parked_nonneg id l).
  unfold is_read_of. intros Hp. constructor.
  - intros Hd. rewrite Hd in Hp. destruct (df_id d =? id) eqn:E; lia.
  - apply IH. destruct (df_type d); [lia|]. destruct (df_id d =? id); lia.
Qed.

Lemma parked_none id l : (forall d, d ∈ l -> df_type d = RDS_DEFERRED_READ -> df_id d <> id) -> parked id l = 0.
Proof.
  induction l as [|d l IH]; [done|]. intros Hl. rewrite parked_cons, IH.
  - unfold is_read_of. specialize (Hl d (list_elem_of_here _ _)). destruct (df_type d); [done|].
    rewrite (proj2 (Z.eqb_neq _ _)); [done|]. by apply Hl.
  - intros d' Hd'. apply Hl. by apply list_elem_of_further.
Qed.

(** ** In-flight sends *)

(** Sends counted against the in-flight limit. *)
Definition counted (xp : option Z) (p : rds_pending) : Prop :=
  is_rndzv_tx (p_type p) = true /\ xp <> Some (p_id p).

Definition inflight (xp : option Z) (ps : list rds_pending) : Z := Z.of_nat (length (filter (counted xp) ps)).

Lemma inflight_app xp l1 l2 : inflight xp (l1 ++ l2) = inflight xp l1 + inflight xp l2.
Proof. unfold inflight. rewrite filter_app, length_app. lia. Qed.

Lemma inflight_nonneg xp l : 0 <= inflight xp l.
Proof. unfold inflight. lia. Qed.

Lemma inflight_cons xp p l : inflight xp (p :: l) = (if decide (counted xp p) then 1 else 0) + inflight xp l.
Proof. unfold inflight. rewrite filter_cons. destruct (decide (counted xp p)); cbn [length]; lia. Qed.

Lemma inflight_ext xp xp' l : (forall p, p ∈ l -> xp <> Some (p_id p)) -> (forall p, p ∈ l -> xp' <> Some (p_id p)) ->
  inflight xp l = inflight xp' l.
Proof.
  intros H1 H2. unfold inflight. f_equal. f_equal. apply filter_ext_in. intros p Hp. unfold counted.
  specialize (H1 p Hp). specialize (H2 p Hp). tauto.
Qed.

(** ** Steps *)

Section Steps.
Context {xp : option Z} {op infl : Z} {ps : list rds_pending} {ds : list rds_deferred}.
Hypothesis Hok : pends_ok xp op infl ps ds.

Lemma pends_lookup p : p ∈ ps -> pend_ok p /\ 0 < p_id p <= op /\ p_seg_deferred p = parked (p_id p) ds /\
  (xp = Some (p_id p) \/ pend_busy p).
Proof using Hok.
  intros Hp. destruct Hok as [_ H2 _ H4 H5 H6 _ _]. rewrite Forall_forall in H2, H4, H5, H6. auto.
Qed.

(** Only the pending before the id is reached differ from it. *)
Lemma pends_split l1 p l2 : ps = l1 ++ p :: l2 ->
  Forall (fun x => p_id x <> p_id p) l1 /\ Forall (fun x => p_id x <> p_id p) l2.
Proof using Hok.
  intros E. pose proof (pn_ids _ _ _ _ _ Hok) as Hn. rewrite E, fmap_app, fmap_cons in Hn.
  apply NoDup_app in Hn as (_ & H1 & [H2 _]%NoDup_cons). split; apply Forall_forall; intros x Hx Hid.
  - apply (H1 (p_id x)); [by apply list_elem_of_fmap_2|]. rewrite Hid. apply list_elem_of_here.
  - apply H2. rewrite <- Hid. by apply list_elem_of_fmap_2.
Qed.

(** Replace one pending by another with the same id, type and parked count. *)
Lemma pends_set l1 p l2 p' : ps = l1 ++ p :: l2 ->
  p_id p' = p_id p -> p_type p' = p_type p -> p_seg_deferred p' = p_seg_deferred p ->
  pend_ok p' -> (xp = Some (p_id p) \/ pend_busy p') ->
  pends_ok xp op infl (l1 ++ p' :: l2) ds.
Proof using Hok.
  intros E Hid Hty Hdef Hp' Hb. destruct Hok as [H1 H2 H3 H4 H5 H6 H7 H8]. rewrite E in *.
  rewrite !Forall_app, !Forall_cons in *. split; rewrite ?Forall_app, ?Forall_cons, ?Hid, ?Hdef; try tauto.
  - rewrite fmap_app, fmap_cons in H1 |- *. by rewrite Hid.
  - eapply Forall_impl; [exact H7|]. intros d Hd HR. destruct (Hd HR) as (q & Hq & ? & ?).
    rewrite elem_of_app, elem_of_cons in Hq. destruct Hq as [Hq|[->|Hq]].
    1,3: exists q; rewrite elem_of_app, elem_of_cons; tauto.
    exists p'. rewrite elem_of_app, elem_of_cons, Hid, Hty. auto.
  - rewrite H8. fold (counted xp). change (inflight xp (l1 ++ p :: l2) = inflight xp (l1 ++ p' :: l2)).
    rewrite !inflight_app, !inflight_cons. f_equal. f_equal. unfold counted. by rewrite Hid, Hty.
Qed.

(** Remove a pending nothing is parked for. *)
Lemma pends_remove l1 p l2 : ps = l1 ++ p :: l2 -> p_seg_deferred p = 0 ->
  (xp = None \/ xp = Some (p_id p)) ->
  pends_ok None op (infl - (if decide (counted xp p) then 1 else 0)) (l1 ++ l2) ds.
Proof using Hok.
  intros E Hz Hx. destruct (pends_split _ _ _ E) as [Hl1 Hl2].
  assert (Hpk : parked (p_id p) ds = 0).
  { destruct (pends_lookup p) as (_ & _ & <- & _); [|done]. rewrite E. apply elem_of_app. right. apply list_elem_of_here. }
  destruct Hok as [H1 H2 H3 H4 H5 H6 H7 H8]. rewrite E in *. rewrite !Forall_app, !Forall_cons in *.
  split; rewrite ?Forall_app; try tauto.
  - rewrite fmap_app, fmap_cons in H1. rewrite fmap_app. apply NoDup_app in H1 as (? & Hd & [_ ?]%NoDup_cons).
    apply NoDup_app. split_and!; auto. intros x Hx1 Hx2. apply (Hd x Hx1). by apply list_elem_of_further.
  - assert (Hb : forall l, Forall (fun x => p_id x <> p_id p) l -> Forall (fun x => xp = Some (p_id x) \/ pend_busy x) l ->
      Forall (fun x => None = Some (p_id x) \/ pend_busy x) l).
    { intros l Hl. rewrite !Forall_forall in *. intros Hf x Hxl. right. destruct (Hf x Hxl) as [Hxx|?]; [|done].
      exfalso. destruct Hx as [->|Hx]; [done|]. rewrite Hx in Hxx. injection Hxx as Hxx. by apply (Hl x Hxl). }
    destruct H5 as (? & _ & ?). auto.
  - apply parked_zero in Hpk. rewrite Forall_forall in H7, Hpk |- *. intros d Hd HR.
    destruct (H7 d Hd HR) as (q & Hq & Hqi & Hqt). exists q. rewrite elem_of_app, elem_of_cons in Hq. rewrite elem_of_app.
    split_and!; auto. destruct Hq as [?|[->|?]]; auto. exfalso. by apply (Hpk d Hd HR).
  - rewrite H8. change (inflight xp (l1 ++ p :: l2) - (if decide (counted xp p) then 1 else 0) = inflight None (l1 ++ l2)).
    rewrite !inflight_app, inflight_cons.
    assert (Hne : forall l, (forall x, x ∈ l -> p_id x <> p_id p) -> inflight xp l = inflight None l).
    { intros l Hl. apply inflight_ext; [|done]. intros x Hxl. destruct Hx as [->| ->]; [done|].
      intros [= Hid]. by apply (Hl x Hxl). }
    rewrite !Forall_forall in Hl1, Hl2. rewrite (Hne l1 Hl1), (Hne l2 Hl2). lia.
Qed.

(** A new pending, under construction. *)
Lemma pends_add p : xp = None -> op + 1 < 2 ^ 64 ->
  p_id p = op + 1 -> p_seg_deferred p = 0 -> pend_ok p ->
  pends_ok (Some (op + 1)) (op + 1) infl (ps ++ [p]) ds.
Proof using Hok.
  intros Ex Hop Hid Hdef Hp.
  assert (Hlt : forall x, x ∈ ps -> p_id x <= op) by (intros x Hx; destruct (pends_lookup x Hx) as (_ & ? & _); lia).
  destruct Hok as [H1 H2 H3 H4 H5 H6 H7 H8]. rewrite Ex in *.
  assert (Hz : parked (op + 1) ds = 0).
  { apply parked_none. intros d Hd HR. rewrite Forall_forall in H7.
    destruct (H7 d Hd HR) as (q & Hq & Hqi & _). apply Hlt in Hq. lia. }
  split; rewrite ?Forall_app, ?Forall_singleton.
  - rewrite fmap_app. apply NoDup_app. split_and!; [done| |apply NoDup_singleton].
    intros x (q & -> & Hq)%list_elem_of_fmap Hin. apply list_elem_of_singleton in Hin. apply Hlt in Hq. lia.
  - split; [|lia]. eapply Forall_impl; [exact H2|]. cbn. lia.
  - lia.
  - done.
  - split; [|left; congruence]. eapply Forall_impl; [exact H5|]. intros x [?|?]; [done|by right].
  - split; [done|]. by rewrite Hid, Hdef, Hz.
  - eapply Forall_impl; [exact H7|]. intros d Hd HR. destruct (Hd HR) as (q & Hq & ?). exists q.
    rewrite elem_of_app. auto.
  - rewrite H8. change (inflight None ps = inflight (Some (op + 1)) (ps ++ [p])).
    rewrite inflight_app, inflight_cons, decide_False.
    + rewrite (inflight_ext None (Some (op + 1)) ps); [unfold inflight; cbn; lia|done|].
      intros x Hx [= Hxi]. apply Hlt in Hx. lia.
    + unfold counted. rewrite Hid. tauto.
Qed.

(** The operation under construction comes to rest. *)
Lemma pends_settle l1 p l2 : ps = l1 ++ p :: l2 -> xp = Some (p_id p) -> pend_busy p ->
  pends_ok None op (infl + (if is_rndzv_tx (p_type p) then 1 else 0)) ps ds.
Proof using Hok.
  intros E Ex Hb. destruct (pends_split _ _ _ E) as [Hl1 Hl2].
  destruct Hok as [H1 H2 H3 H4 H5 H6 H7 H8]. split; auto.
  - rewrite E in *. rewrite !Forall_app, !Forall_cons in *.
    assert (Hf : forall l, Forall (fun x => p_id x <> p_id p) l -> Forall (fun x => xp = Some (p_id x) \/ pend_busy x) l ->
      Forall (fun x => None = Some (p_id x) \/ pend_busy x) l).
    { intros l Hl. rewrite !Forall_forall in *. intros Hf x Hx. destruct (Hf x Hx) as [Hxx|?]; [|by right].
      exfalso. rewrite Ex in Hxx. injection Hxx as Hxx. by apply (Hl x Hx). }
    destruct H5 as (? & _ & ?). auto.
  - rewrite H8, E. change (inflight xp (l1 ++ p :: l2) + (if is_rndzv_tx (p_type p) then 1 else 0) = inflight None (l1 ++ p :: l2)).
    rewrite !inflight_app, !inflight_cons. rewrite !Forall_forall in Hl1, Hl2.
    rewrite (inflight_ext xp None l1), (inflight_ext xp None l2).
    all: try (intros x Hx; rewrite Ex; intros [= Hid]; first [by apply (Hl1 x Hx)|by apply (Hl2 x Hx)]); try done.
    rewrite decide_False by (unfold counted; tauto).
    destruct (decide (counted None p)) as [[-> _]|Hn]; [lia|].
    destruct (is_rndzv_tx (p_type p)) eqn:Et; [|lia]. exfalso. by apply Hn.
Qed.

(** Nobody looks at parked FINs. *)
Lemma pends_fin ds' : (forall id, parked id ds' = parked id ds) ->
  (forall d, d ∈ ds' -> df_type d = RDS_DEFERRED_READ -> d ∈ ds) -> pends_ok xp op infl ps ds'.
Proof using Hok.
  intros Hp Hin. destruct Hok as [H1 H2 H3 H4 H5 H6 H7 H8]. split; auto.
  - eapply Forall_impl; [exact H6|]. intros p. by rewrite Hp.
  - rewrite Forall_forall in H7 |- *. intros d Hd HR. by apply H7; [apply Hin|].
Qed.

(** Park one more READ for a pending receive. *)
Lemma pends_park l1 p l2 p' d : ps = l1 ++ p :: l2 -> df_type d = RDS_DEFERRED_READ -> df_id d = p_id p ->
  p_id p' = p_id p -> p_type p' = p_type p -> p_type p = RDS_PEND_RNDZV_RX ->
  p_seg_deferred p' = p_seg_deferred p + 1 -> pend_ok p' ->
  pends_ok xp op infl (l1 ++ p' :: l2) (ds ++ [d]).
Proof using Hok.
  intros E Hd Hdi Hid Hty HR Hdef Hp'. destruct (pends_split _ _ _ E) as [Hl1 Hl2].
  assert (Hpk : forall x, parked x (ds ++ [d]) = parked x ds + (if df_id d =? x then 1 else 0)).
  { intros x. rewrite (parked_read x d ds []) by done. by rewrite app_nil_r. }
  destruct Hok as [H1 H2 H3 H4 H5 H6 H7 H8]. rewrite E in *.
  rewrite !Forall_app, !Forall_cons in *. split; rewrite ?Forall_app, ?Forall_cons, ?Hid; try tauto.
  - rewrite fmap_app, fmap_cons in H1 |- *. by rewrite Hid.
  - assert (Hbusy : pend_busy p').
    { unfold pend_busy. rewrite Hty, HR, Hdef. destruct Hp'. destruct H6 as (_ & H6 & _).
      pose proof (parked_nonneg (p_id p) ds). lia. }
    tauto.
  - assert (Hf : forall l, Forall (fun x => p_id x <> p_id p) l -> Forall (fun x => p_seg_deferred x = parked (p_id x) ds) l ->
      Forall (fun x => p_seg_deferred x = parked (p_id x) (ds ++ [d])) l).
    { intros l Hl. rewrite !Forall_forall in *. intros Hf x Hx. rewrite Hpk, Hdi.
      rewrite (proj2 (Z.eqb_neq (p_id p) (p_id x))) by (intros Hxx; by apply (Hl x Hx)). rewrite Hf by done. lia. }
    destruct H6 as (? & Hp6 & ?). split_and!; auto. rewrite Hpk, Hdi, Z.eqb_refl, Hdef, Hp6. lia.
  - assert (Hin : forall q, q ∈ l1 ++ p :: l2 -> exists q', q' ∈ l1 ++ p' :: l2 /\ p_id q' = p_id q /\ p_type q' = p_type q).
    { intros q. rewrite elem_of_app, elem_of_cons. intros [Hq|[->|Hq]].
      1,3: exists q; rewrite elem_of_app, elem_of_cons; tauto. exists p'. rewrite elem_of_app, elem_of_cons. auto. }
    split_and!; [|intros _|constructor].
    + eapply Forall_impl; [exact H7|]. intros d' Hd' HR'. destruct (Hd' HR') as (q & Hq & <- & Hqt).
      destruct (Hin q Hq) as (q' & ? & ? & ?). exists q'. split_and!; congruence.
    + exists p'. rewrite elem_of_app, elem_of_cons. split_and!; [auto|congruence|congruence].
  - rewrite H8. change (inflight xp (l1 ++ p :: l2) = inflight xp (l1 ++ p' :: l2)).
    rewrite !inflight_app, !inflight_cons. f_equal. f_equal. unfold counted. by rewrite Hid, Hty.
Qed.

(** Reopen a pending that is not a send. *)
Lemma pends_open l1 p l2 : ps = l1 ++ p :: l2 -> xp = None -> is_rndzv_tx (p_type p) = false ->
  pends_ok (Some (p_id p)) op infl ps ds.
Proof using Hok.
  intros E Ex Ht. destruct (pends_split _ _ _ E) as [Hl1 Hl2].
  destruct Hok as [H1 H2 H3 H4 H5 H6 H7 H8]. split; auto.
  - eapply Forall_impl; [exact H5|]. rewrite Ex. intros x [?|?]; [done|by right].
  - rewrite H8, E, Ex. change (inflight None (l1 ++ p :: l2) = inflight (Some (p_id p)) (l1 ++ p :: l2)).
    rewrite !inflight_app, !inflight_cons. rewrite !Forall_forall in Hl1, Hl2.
    rewrite !decide_False by (unfold counted; rewrite Ht; by intros [? _]).
    rewrite (inflight_ext None (Some (p_id p)) l1), (inflight_ext None (Some (p_id p)) l2); try done.
    all: intros x Hx [= Hid]; first [by apply (Hl1 x Hx)|by apply (Hl2 x Hx)].
Qed.

(** Take a READ off the parked queue. *)
Lemma pends_unpark l1 p l2 p' d1 d d2 : ps = l1 ++ p :: l2 -> ds = d1 ++ d :: d2 ->
  df_type d = RDS_DEFERRED_READ -> df_id d = p_id p -> xp = Some (p_id p) ->
  p_id p' = p_id p -> p_type p' = p_type p -> p_seg_deferred p' = p_seg_deferred p - 1 -> pend_ok p' ->
  pends_ok xp op infl (l1 ++ p' :: l2) (d1 ++ d2).
Proof using Hok.
  intros E Ed Hd Hdi Ex Hid Hty Hdef Hp'. destruct (pends_split _ _ _ E) as [Hl1 Hl2].
  assert (Hpk : forall x, parked x ds = parked x (d1 ++ d2) + (if df_id d =? x then 1 else 0)).
  { intros x. rewrite Ed. by apply parked_read. }
  destruct Hok as [H1 H2 H3 H4 H5 H6 H7 H8]. rewrite E in *.
  rewrite !Forall_app, !Forall_cons in *. split; rewrite ?Hid; try (rewrite ?Forall_app, ?Forall_cons, ?Hid; tauto).
  - rewrite fmap_app, fmap_cons in H1 |- *. by rewrite Hid.
  - rewrite Forall_app, Forall_cons. destruct H6 as (Ha & Hb & Hc).
    assert (Hf : forall l, Forall (fun x => p_id x <> p_id p) l -> Forall (fun x => p_seg_deferred x = parked (p_id x) ds) l ->
      Forall (fun x => p_seg_deferred x = parked (p_id x) (d1 ++ d2)) l).
    { intros l Hl. rewrite !Forall_forall in *. intros Hf x Hx. rewrite Hf, Hpk, Hdi by done.
      rewrite (proj2 (Z.eqb_neq (p_id p) (p_id x))) by (intros Hxx; by apply (Hl x Hx)). lia. }
    split_and!; auto. rewrite Hid, Hdef, Hb, Hpk, Hdi, Z.eqb_refl. lia.
  - rewrite Forall_forall in H7 |- *. intros d' Hd' HR'.
    destruct (H7 d') as (q & Hq & Hqi & Hqt); [|done|].
    { rewrite Ed. apply elem_of_app in Hd'. rewrite elem_of_app, elem_of_cons. tauto. }
    rewrite elem_of_app, elem_of_cons in Hq. destruct Hq as [Hq|[->|Hq]].
    1,3: exists q; rewrite elem_of_app, elem_of_cons; tauto.
    exists p'. rewrite elem_of_app, elem_of_cons, Hid, Hty. auto.
  - rewrite H8. change (inflight xp (l1 ++ p :: l2) = inflight xp (l1 ++ p' :: l2)).
    rewrite !inflight_app, !inflight_cons. f_equal. f_equal. unfold counted. by rewrite Hid, Hty.
Qed.
End Steps.
