(* ===== verification/Safety.v ===== *)
(** * The invariant is preserved: pending operations and delivery

    Every step of the receive side of [rds_msg.c] is defined on a
    well-formed endpoint and leaves it well formed: completing and
    finalising operations, delivering eager messages, starting and advancing
    rendezvous reads, notifications, parked operations. *)

From stdpp Require Import sorting.
From S2P Require Import Prelude Iov Wire Config Kernel Cq CqFifo Av MrCache MrCacheInv State Mr.
From S2P Require Import MrInv Pending Ring Msg Frame Inv Rules PendInv.

Section Safety.
Context {K : Type} `{!Kernel K} `{!MrAgainEnds K}.
Implicit Types w : world K.

(** ** Rebuilding the invariant *)

(** The parts of the world messaging leaves alone. *)
Definition bound_of w := (e_tx_cq (w_ep w), e_rx_cq (w_ep w), e_caps (w_ep w)).
Definition frame_of w :=
  (w_live w, w_cfg w, e_av (w_ep w), e_self (w_ep w), e_sock (w_ep w), d_reg_ep (w_dom w), d_eps (w_dom w), bound_of w).
Definition peers_of w :=
  (e_ring_slots (w_ep w), e_ring_max_peers (w_ep w), e_eager_rdma (w_ep w), e_peers (w_ep w),
   e_peer_hash (w_ep w), e_peer_lru (w_ep w), e_peer_cnt (w_ep w), e_next_peer (w_ep w)).
Definition queues_of w :=
  (e_rx_posted_msg (w_ep w), e_rx_unexp_msg (w_ep w), e_rx_posted_tag (w_ep w), e_rx_unexp_tag (w_ep w)).
Definition pends_of w := (e_op_id (w_ep w), e_rndzv_tx_inflight (w_ep w), e_pending (w_ep w), e_deferred (w_ep w)).
Definition owned_of w := (d_mrs (w_dom w), d_next_mr (w_dom w), the_cache w, caching w).

Lemma wi_rebuild_all xm xc xp xm' xc' xp' w w' :
  world_inv xm xc xp w -> frame_of w' = frame_of w -> cqs_ok w' ->
  pends_ok xp' (e_op_id (w_ep w')) (e_rndzv_tx_inflight (w_ep w')) (e_pending (w_ep w')) (e_deferred (w_ep w')) ->
  mrs_ok (d_mrs (w_dom w')) (d_next_mr (w_dom w')) (e_self (w_ep w'))
    (xm' ++ all_pend_mrs (e_pending (w_ep w')) ++ all_peer_mrs (e_peers (w_ep w'))) ->
  (exists others, cache_on (caching w') (the_cache w') (xc' ++ all_pend_cmrs (e_pending (w_ep w')) ++ others)) ->
  peers_ok (e_ring_slots (w_ep w')) (e_ring_max_peers (w_ep w')) (e_eager_rdma (w_ep w'))
    (e_peers (w_ep w')) (e_peer_hash (w_ep w')) (e_peer_lru (w_ep w')) (e_peer_cnt (w_ep w')) (e_next_peer (w_ep w')) ->
  match_ok false (e_rx_posted_msg (w_ep w')) (e_rx_unexp_msg (w_ep w')) ->
  match_ok true (e_rx_posted_tag (w_ep w')) (e_rx_unexp_tag (w_ep w')) ->
  world_inv xm' xc' xp' w'.
Proof.
  intros [H1 H2 H3 H4 H5 H6 H7 H8 H9 H10 H11] EF Hc Hp Hm Hca Hpe Hq1 Hq2.
  injection EF as F1 F2 F3 F4 F5 F6 F7 F8. split; try congruence; try done.
  intros ep Hep. rewrite F6 in Hep. destruct (H5 ep Hep) as [s Hs]. exists s.
  unfold ep_sock_of in *. by rewrite F1, F4, F5, F7.
Qed.

Lemma wi_rebuild xm xc xp xm' xc' xp' w w' :
  world_inv xm xc xp w -> frame_of w' = frame_of w -> peers_of w' = peers_of w -> queues_of w' = queues_of w ->
  cqs_ok w' ->
  pends_ok xp' (e_op_id (w_ep w')) (e_rndzv_tx_inflight (w_ep w')) (e_pending (w_ep w')) (e_deferred (w_ep w')) ->
  mrs_ok (d_mrs (w_dom w')) (d_next_mr (w_dom w')) (e_self (w_ep w'))
    (xm' ++ all_pend_mrs (e_pending (w_ep w')) ++ all_peer_mrs (e_peers (w_ep w'))) ->
  (exists others, cache_on (caching w') (the_cache w') (xc' ++ all_pend_cmrs (e_pending (w_ep w')) ++ others)) ->
  world_inv xm' xc' xp' w'.
Proof.
  intros Hw EF EP EQ Hc Hp Hm Hca. injection EP as P1 P2 P3 P4 P5 P6 P7 P8. injection EQ as Q1 Q2 Q3 Q4.
  eapply wi_rebuild_all; [exact Hw|done..| | |].
  - rewrite P1, P2, P3, P4, P5, P6, P7, P8. apply Hw.
  - rewrite Q1, Q2. apply Hw.
  - rewrite Q3, Q4. apply Hw.
Qed.

(** A change of completion queues, environment, log and memory only. *)
Lemma wi_env xm xc xp w w' :
  world_inv xm xc xp w -> frame_of w' = frame_of w -> peers_of w' = peers_of w -> queues_of w' = queues_of w ->
  pends_of w' = pends_of w -> owned_of w' = owned_of w -> cqs_ok w' -> world_inv xm xc xp w'.
Proof.
  intros Hw EF EP EQ EN EO Hc. pose proof Hw as [H1 H2 H3 H4 H5 H6 H7 H8 H9 H10 H11].
  pose proof EF as EF0. pose proof EP as EP0. injection EF as F1 F2 F3 F4 F5 F6 F7 _. injection EP as P1 P2 P3 P4 P5 P6 P7 P8.
  injection EN as N1 N2 N3 N4. injection EO as O1 O2 O3 O4.
  eapply wi_rebuild; [exact Hw|exact EF0|exact EP0|exact EQ|exact Hc| | |].
  - by rewrite N1, N2, N3, N4.
  - by rewrite O1, O2, F4, N3, P4.
  - by rewrite O3, O4, N3.
Qed.

Lemma cqs_ok_bound w w' : w_cqs w' = w_cqs w -> bound_of w' = bound_of w -> cqs_ok w -> cqs_ok w'.
Proof. unfold bound_of, cqs_ok. intros -> [= -> -> ->]. done. Qed.

Lemma wi_net xm xc xp w k log : world_inv xm xc xp w -> world_inv xm xc xp (set_net w k log).
Proof. intros Hw. eapply wi_env; [exact Hw|done..|]. by eapply cqs_ok_bound; [..|exact (wi_cqs _ _ _ _ Hw)]. Qed.

Lemma wi_k xm xc xp w k : world_inv xm xc xp w -> world_inv xm xc xp (w <| w_k := k |>).
Proof. exact (wi_net xm xc xp w k (w_log w)). Qed.

Lemma wi_mem xm xc xp w m : world_inv xm xc xp w -> world_inv xm xc xp (w <| w_mem := m |>).
Proof. intros Hw. eapply wi_env; [exact Hw|done..|]. by eapply cqs_ok_bound; [..|exact (wi_cqs _ _ _ _ Hw)]. Qed.

Lemma wi_posted xm xc xp w o e src cqs k :
  world_inv xm xc xp w -> posted K (w_cqs w) o e src cqs -> world_inv xm xc xp (w <| w_cqs := cqs |> <| w_k := k |>).
Proof.
  intros Hw Hp. eapply wi_env; [exact Hw|done..|]. eapply (cqs_ok_posted w); [exact Hp|done|apply Hw].
Qed.

(** ** Lists of regions *)

Lemma all_pend_mrs_app l1 l2 : all_pend_mrs (l1 ++ l2) = all_pend_mrs l1 ++ all_pend_mrs l2.
Proof. unfold all_pend_mrs. by rewrite fmap_app, join_app. Qed.
Lemma all_pend_mrs_mid l1 p l2 : all_pend_mrs (l1 ++ p :: l2) ≡ₚ pend_mrs p ++ all_pend_mrs (l1 ++ l2).
Proof. rewrite !all_pend_mrs_app. unfold all_pend_mrs. cbn. apply Permutation_app_swap_app. Qed.
Lemma all_pend_cmrs_app l1 l2 : all_pend_cmrs (l1 ++ l2) = all_pend_cmrs l1 ++ all_pend_cmrs l2.
Proof. unfold all_pend_cmrs. by rewrite fmap_app, join_app. Qed.
Lemma all_pend_cmrs_mid l1 p l2 : all_pend_cmrs (l1 ++ p :: l2) ≡ₚ pend_cmrs p ++ all_pend_cmrs (l1 ++ l2).
Proof. rewrite !all_pend_cmrs_app. unfold all_pend_cmrs. cbn. apply Permutation_app_swap_app. Qed.

(** Replacing a pending by one that owns the same regions. *)
Lemma wi_set_pend xm xc xp xp' w l1 p l2 p' :
  world_inv xm xc xp w -> e_pending (w_ep w) = l1 ++ p :: l2 ->
  pend_mrs p' = pend_mrs p -> pend_cmrs p' = pend_cmrs p ->
  pends_ok xp' (e_op_id (w_ep w)) (e_rndzv_tx_inflight (w_ep w)) (l1 ++ p' :: l2) (e_deferred (w_ep w)) ->
  world_inv xm xc xp' (set_pend w (l1 ++ p' :: l2)).
Proof.
  intros Hw E Em Ec Hp. eapply wi_rebuild; [exact Hw|done..| |exact Hp| |].
  - by eapply cqs_ok_bound; [..|exact (wi_cqs _ _ _ _ Hw)].
  - pose proof (wi_mrs _ _ _ _ Hw) as Hm. rewrite E, all_pend_mrs_mid in Hm. unfold set_pend. w_simpl. by rewrite all_pend_mrs_mid, Em.
  - destruct (wi_cache _ _ _ _ Hw) as [ot Hm]. exists ot. rewrite E, all_pend_cmrs_mid in Hm.
    unfold set_pend. w_simpl. by rewrite all_pend_cmrs_mid, Ec.
Qed.

(** ** Completing operations *)

(** Regions and cache after a release. *)
Definition set_owned w (mrs : gmap Z rds_mr) (c : ofi_mr_cache) (k : K) : world K :=
  w <| w_dom ::= fun d => d <| d_mrs := mrs |> <| d_mr_cache := c |> |> <| w_k := k |>.

Lemma wp_release id l1 p l2 rest restc (Q : unit -> world K -> Prop) w :
  e_pending (w_ep w) = l1 ++ p :: l2 -> p_id p = id -> Forall (fun x => p_id x <> id) l1 ->
  pend_ok p -> w_live w = true -> reg_ok w ->
  mrs_ok (d_mrs (w_dom w)) (d_next_mr (w_dom w)) (e_self (w_ep w)) (pend_mrs p ++ rest) ->
  cache_on (caching w) (the_cache w) (pend_cmrs p ++ restc) ->
  (forall mrs' c' k' p', mrs_ok mrs' (d_next_mr (w_dom w)) (e_self (w_ep w)) rest -> cache_on (caching w) c' restc ->
     p_id p' = id -> Q tt (set_pend (set_owned w mrs' c' k') (l1 ++ p' :: l2))) ->
  wp (rds_pending_release_mrs id) Q w.
Proof.
  intros E Hid Hl Hp Hlive Hreg Hm Hc HQ. unfold rds_pending_release_mrs. apply wp_bind.
  eapply wp_pend_deref; [done..|]. pose proof (po_cnt _ Hp) as Hcnt. unfold pend_mrs, pend_cmrs in Hm, Hc, Hcnt.
  destruct (p_cmrs p) as [l|]; [|destruct (p_mrs p) as [l|]]; cbn [default] in *.
  - rewrite Hcnt, Nat2Z.id. cbn [app]. rewrite take_ge by done. apply wp_bind.
    apply (wp_cache_put_all l restc); [done|done|]. intros c k' Hc'. eapply wp_pend_upd; [done..|].
    apply (HQ (d_mrs (w_dom w)) c k' _ Hm Hc'). exact Hid.
  - rewrite Hcnt, Nat2Z.id, app_nil_r. rewrite take_ge by done. apply wp_bind.
    apply (wp_mr_put_all l rest); [done|done|]. intros k' mrs' Hm'. eapply wp_pend_upd; [done..|].
    apply (HQ mrs' (the_cache w) k' _ Hm' Hc). exact Hid.
  - apply wp_ret. pose proof (HQ (d_mrs (w_dom w)) (the_cache w) (w_k w) p Hm Hc Hid) as HQ'.
    rewrite <- E in HQ'. by destruct w as [? [] ? [] ? ? ? ? ?].
Qed.

(** Nothing but the pending table, the queues and the environment moved on. *)
Definition moved (n : Z) w w' : Prop :=
  e_op_id (w_ep w') <= e_op_id (w_ep w) + n /\ e_eager_rdma (w_ep w') = e_eager_rdma (w_ep w) /\
  (e_sock (w_ep w'), bound_of w') = (e_sock (w_ep w), bound_of w).

(** What completing the operation [p] does besides: one completion when it
    is due, the operation gone, its in-flight slot back. *)
Definition completed (p : rds_pending) (l1 l2 : list rds_pending) (n : Z) w w' : Prop :=
  e_pending (w_ep w') = l1 ++ l2 /\ e_rndzv_tx_inflight (w_ep w') = e_rndzv_tx_inflight (w_ep w) - n /\
  (if is_tx_or_rma (p_type p) && negb (p_no_comp p)
   then posted K (w_cqs w) (e_tx_cq (w_ep w)) (comp_of (p_context p) (p_flags p) (p_len p) 0 0 (p_error p)) None (w_cqs w')
   else w_cqs w' = w_cqs w).

Lemma complete_exact id l1 p l2 xp w :
  world_inv [] [] xp w -> e_pending (w_ep w) = l1 ++ p :: l2 -> p_id p = id ->
  (xp = None \/ xp = Some id /\ is_rndzv_tx (p_type p) = false) -> p_seg_deferred p = 0 ->
  wp (rds_pending_complete id) (fun _ w' => world_ok w' /\ moved 0 w w' /\
    completed p l1 l2 (if decide (counted xp p) then 1 else 0) w w') w.
Proof.
  intros Hw E Hid Hxp Hdef. pose proof (wi_pend _ _ _ _ Hw) as Hpn.
  destruct (pends_split Hpn _ _ _ E) as [Hl1 _]. rewrite Hid in Hl1.
  destruct (pends_lookup Hpn p) as (Hp & _ & _ & _); [rewrite E; apply elem_of_app; right; apply list_elem_of_here|].
  unfold rds_pending_complete. apply wp_bind. eapply wp_pend_deref; [done..|]. apply wp_bind.
  apply wp_mono with (Q := fun _ w1 => world_inv [] [] xp w1 /\ e_pending (w_ep w1) = e_pending (w_ep w) /\
    e_rndzv_tx_inflight (w_ep w1) = e_rndzv_tx_inflight (w_ep w) /\ moved 0 w w1 /\
    (if is_tx_or_rma (p_type p) && negb (p_no_comp p)
     then posted K (w_cqs w) (e_tx_cq (w_ep w)) (comp_of (p_context p) (p_flags p) (p_len p) 0 0 (p_error p)) None (w_cqs w1)
     else w_cqs w1 = w_cqs w)).
  { destruct (_ && _).
    - apply wp_cq_write_tx; [apply Hw|apply Hp|]. intros cqs k' Hpo. split_and!; [by eapply wi_posted|done..| |exact Hpo].
      unfold moved. cbn. split_and!; [lia|done|done].
    - apply wp_ret. unfold moved. split_and!; auto; lia. }
  intros _ w1 (Hw1 & E1 & Ei & Hmv & Hcq). rewrite <- E1 in E. clear Hpn. pose proof (wi_pend _ _ _ _ Hw1) as Hpn.
  assert (Hrm := pends_remove Hpn _ _ _ E Hdef ltac:(rewrite Hid; tauto)).
  assert (Hcount : (if is_rndzv_tx (p_type p) && negb (e_rndzv_tx_inflight (w_ep w1) =? 0)
    then 1 else 0) = (if decide (counted xp p) then 1 else 0)).
  { destruct (decide (counted xp p)) as [[Ht Hc]|Hnc].
    - rewrite Ht. rewrite (pn_inflight _ _ _ _ _ Hpn), E.
      change (Z.of_nat (length _)) with (inflight xp (l1 ++ p :: l2)). rewrite inflight_app, inflight_cons, decide_True by done.
      pose proof (inflight_nonneg xp l1). pose proof (inflight_nonneg xp l2).
      by rewrite (proj2 (Z.eqb_neq _ 0)) by lia.
    - unfold counted in Hnc. destruct (is_rndzv_tx (p_type p)) eqn:Et; [|done]. exfalso. apply Hnc.
      split; [done|]. destruct Hxp as [->|[_ ?]]; done. }
  apply wp_bind, wp_ep_get. set (n := if decide (counted xp p) then 1 else 0) in *.
  set (w2 := w1 <| w_ep ::= fun e => e <| e_rndzv_tx_inflight := e_rndzv_tx_inflight (w_ep w1) - n |> |>).
  apply wp_bind. apply wp_mono with (Q := fun _ w' => w' = w2).
  { destruct (is_rndzv_tx (p_type p) && negb (e_rndzv_tx_inflight (w_ep w1) =? 0)); unfold w2; rewrite <- Hcount; [by apply wp_ep_upd|]. apply wp_ret. rewrite Z.sub_0_r.
    by destruct w1 as [? [] ? ? ? ? ? ? ?]. }
  intros _ ? ->. destruct (wi_cache _ _ _ _ Hw1) as [ot Hca]. pose proof (wi_mrs _ _ _ _ Hw1) as Hms.
  rewrite E, all_pend_mrs_mid in Hms. rewrite E, all_pend_cmrs_mid in Hca. cbn [app] in Hms, Hca. rewrite <- app_assoc in Hms, Hca.
  apply wp_bind. eapply (wp_release id l1 p l2); [exact E|done|done|done|apply Hw1|exact (wi_reg _ _ _ _ Hw1)|exact Hms|exact Hca|].
  intros mrs' c' k' p' Hm' Hc' Hid'. eapply (wp_pend_remove _ l1 p' l2); [done|done|done|].
  split; [|split; [exact Hmv|split_and!; [done|cbn; by rewrite Ei|exact Hcq]]].
  eapply wi_rebuild; [exact Hw1|done..| |exact Hrm|exact Hm'|by exists ot].
  by eapply cqs_ok_bound; [..|exact (wi_cqs _ _ _ _ Hw1)].
Qed.

Lemma complete_spec id l1 p l2 xp w :
  world_inv [] [] xp w -> e_pending (w_ep w) = l1 ++ p :: l2 -> p_id p = id ->
  (xp = None \/ xp = Some id /\ is_rndzv_tx (p_type p) = false) -> p_seg_deferred p = 0 ->
  wp (rds_pending_complete id) (fun _ w' => world_ok w' /\ moved 0 w w') w.
Proof. intros. eapply wp_mono; [by eapply complete_exact|]. cbn beta. tauto. Qed.

Lemma moved_refl w : moved 0 w w.
Proof. unfold moved. split_and!; [lia|done|done]. Qed.

Lemma moved_trans n m w1 w2 w3 : moved n w1 w2 -> moved m w2 w3 -> moved (n + m) w1 w3.
Proof. unfold moved. intros (? & ? & ?) (? & ? & ?). split_and!; [lia|congruence|congruence]. Qed.

Lemma moved_weaken n m w w' : moved n w w' -> n <= m -> moved m w w'.
Proof. unfold moved. intros (? & ? & ?) ?. split_and!; auto; lia. Qed.

(** Parking a FIN. *)
Lemma wi_fin xm xc xp w d :
  world_inv xm xc xp w -> df_type d = RDS_DEFERRED_FIN ->
  world_inv xm xc xp (park w d).
Proof.
  intros Hw Hd. eapply wi_rebuild; [exact Hw|done..| | |exact (wi_mrs _ _ _ _ Hw)|exact (wi_cache _ _ _ _ Hw)].
  - by eapply cqs_ok_bound; [..|exact (wi_cqs _ _ _ _ Hw)].
  - apply (pends_fin (wi_pend _ _ _ _ Hw)).
    + intros id. change (parked id (e_deferred (w_ep w) ++ d :: []) = parked id (e_deferred (w_ep w))).
      by rewrite parked_fin, app_nil_r.
    + intros d' [Hd'|Hd']%elem_of_app HR; [done|]. apply list_elem_of_singleton in Hd' as ->. congruence.
Qed.

(** What sending a FIN changes. *)
Definition fins (ds ds' : list rds_deferred) : Prop :=
  exists ex, ds' = ds ++ ex /\ (length ex <= 1)%nat /\ Forall (fun d => df_type d = RDS_DEFERRED_FIN) ex.

Lemma fins_refl ds : fins ds ds.
Proof. exists []. rewrite app_nil_r. split_and!; [done|cbn; lia|constructor]. Qed.

Definition fin_step w w' : Prop :=
  (e_pending (w_ep w') = e_pending (w_ep w) /\ fins (e_deferred (w_ep w)) (e_deferred (w_ep w'))) /\ moved 0 w w'.

Lemma send_fin_spec xm xc xp peer id w :
  world_inv xm xc xp w ->
  wp (rds_send_fin peer id) (fun _ w' => world_inv xm xc xp w' /\ fin_step w w' /\
    w_mem w' = w_mem w /\ bound_of w' = bound_of w /\ w_cqs w' = w_cqs w) w.
Proof.
  intros Hw. apply wp_send_fin.
  - intros k' errno. split; [by apply wi_net|]. split; [|done].
    split; [split; [done|apply fins_refl]|]. exact (moved_refl w).
  - intros k' errno _. split; [by apply wi_fin; [apply wi_net|]|]. split; [|done].
    split; [split; [done|]|exact (moved_refl w)]. exists [fin_parked peer id]. split_and!; [done|cbn; lia|by constructor].
Qed.

(** Taking a finished operation off the list. *)
Lemma wi_remove xp w l1 p l2 :
  world_inv [] [] xp w -> e_pending (w_ep w) = l1 ++ p :: l2 -> p_seg_deferred p = 0 ->
  (xp = None \/ xp = Some (p_id p)) -> is_rndzv_tx (p_type p) = false \/ xp = Some (p_id p) ->
  pend_mrs p = [] -> pend_cmrs p = [] -> world_ok (set_pend w (l1 ++ l2)).
Proof.
  intros Hw E Hdef Hxp Hty Em Ec. pose proof (pends_remove (wi_pend _ _ _ _ Hw) _ _ _ E Hdef Hxp) as Hrm.
  rewrite decide_False, Z.sub_0_r in Hrm.
  2: { unfold counted. destruct Hty as [->| ->]; [by intros [? _]|tauto]. }
  eapply wi_rebuild; [exact Hw|done..| |exact Hrm| |].
  - by eapply cqs_ok_bound; [..|exact (wi_cqs _ _ _ _ Hw)].
  - pose proof (wi_mrs _ _ _ _ Hw) as Hm. by rewrite E, all_pend_mrs_mid, Em in Hm.
  - destruct (wi_cache _ _ _ _ Hw) as [ot Hc]. exists ot. by rewrite E, all_pend_cmrs_mid, Ec in Hc.
Qed.

(** Only sends own regions. *)
Lemma owns_nothing p : pend_ok p -> is_rndzv_tx (p_type p) = false -> pend_mrs p = [] /\ pend_cmrs p = [].
Proof. intros Hp Ht. destruct (po_own _ Hp Ht) as [E1 E2]. unfold pend_mrs, pend_cmrs. by rewrite E1, E2. Qed.

Lemma finalize_spec id l1 p l2 xp w :
  world_inv [] [] xp w -> e_pending (w_ep w) = l1 ++ p :: l2 -> p_id p = id ->
  (xp = None \/ xp = Some id) -> p_seg_deferred p = 0 -> p_type p = RDS_PEND_RNDZV_RX ->
  wp (rds_rndzv_rx_finalize id) (fun _ w' => world_ok w' /\ moved 0 w w' /\
    fins (e_deferred (w_ep w)) (e_deferred (w_ep w'))) w.
Proof.
  intros Hw E Hid Hxp Hdef Hty. pose proof (wi_pend _ _ _ _ Hw) as Hpn.
  destruct (pends_split Hpn _ _ _ E) as [Hl1 _]. rewrite Hid in Hl1.
  destruct (pends_lookup Hpn p) as (Hp & _ & _ & _); [rewrite E; apply elem_of_app; right; apply list_elem_of_here|].
  destruct (owns_nothing p Hp) as [Em Ec]; [by rewrite Hty|].
  unfold rds_rndzv_rx_finalize. apply wp_bind. eapply wp_pend_deref; [done..|].
  apply wp_bind. eapply wp_mono; [by apply send_fin_spec|]. cbn beta. intros _ w1 (Hw1 & [[E1 Hf1] Hm1] & _).
  apply wp_bind. apply wp_mono with (Q := fun _ w2 => world_inv [] [] xp w2 /\ e_pending (w_ep w2) = l1 ++ p :: l2 /\ moved 0 w w2 /\
    fins (e_deferred (w_ep w)) (e_deferred (w_ep w2))).
  { destruct (_ || _).
    - apply wp_cq_write_rx; [apply Hw1|apply Hp|]. intros cqs k' Hpo.
      split_and!; [by eapply wi_posted|cbn; congruence|exact Hm1|exact Hf1].
    - apply wp_ret. split_and!; [done|congruence|done|done]. }
  intros _ w2 (Hw2 & E2 & Hm2 & Hf2). eapply wp_pend_remove; [exact E2|done..|].
  split; [|by split]. eapply wi_remove; [exact Hw2|exact E2|done|by rewrite Hid|left; by rewrite Hty|done..].
Qed.

(** ** The rendezvous receiver *)

(** [p'] is [p] with other segment counters, error and metadata. *)
Definition pend_like (p p' : rds_pending) : Prop :=
  p_id p' = p_id p /\ p_type p' = p_type p /\ p_flags p' = p_flags p /\ p_mr_cnt p' = p_mr_cnt p /\
  p_cmrs p' = p_cmrs p /\ p_mrs p' = p_mrs p.

Lemma pend_like_ok p p' : pend_like p p' -> pend_ok p ->
  0 <= p_seg_remaining p' -> 0 <= p_seg_deferred p' -> p_seg_remaining p' + p_seg_deferred p' < 2 ^ 31 -> pend_ok p'.
Proof.
  intros (E1 & E2 & E3 & E4 & E5 & E6) [H1 H2 _ _ _ H6] ???. unfold pend_mrs, pend_cmrs in H1.
  split; unfold pend_mrs, pend_cmrs; rewrite ?E2, ?E3, ?E4, ?E5, ?E6; auto.
Qed.

Lemma pend_like_owns p p' : pend_like p p' -> pend_mrs p' = pend_mrs p /\ pend_cmrs p' = pend_cmrs p.
Proof. intros (_ & _ & _ & _ & E5 & E6). unfold pend_mrs, pend_cmrs. by rewrite E5, E6. Qed.

Lemma set_error_like err p : pend_like p (set_error err p) /\
  p_seg_remaining (set_error err p) = p_seg_remaining p /\ p_seg_deferred (set_error err p) = p_seg_deferred p.
Proof. unfold set_error. by destruct (_ =? 0). Qed.

(** Updating an operation in place. *)
Lemma wi_update xm xc xp w l1 p l2 p' :
  world_inv xm xc xp w -> e_pending (w_ep w) = l1 ++ p :: l2 -> pend_like p p' ->
  p_seg_deferred p' = p_seg_deferred p -> 0 <= p_seg_remaining p' -> p_seg_remaining p' + p_seg_deferred p' < 2 ^ 31 ->
  (xp = Some (p_id p) \/ pend_busy p') ->
  world_inv xm xc xp (set_pend w (l1 ++ p' :: l2)).
Proof.
  intros Hw E Hlk Hd Hr Hs Hb. pose proof (wi_pend _ _ _ _ Hw) as Hpn. pose proof Hlk as (E1 & E2 & _).
  destruct (pends_lookup Hpn p) as (Hp & _ & _ & _); [rewrite E; apply elem_of_app; right; apply list_elem_of_here|].
  destruct (pend_like_owns _ _ Hlk). eapply wi_set_pend; [exact Hw|exact E|done..|].
  eapply (pends_set Hpn); [exact E|done..| |done]. pose proof (po_def _ Hp). eapply pend_like_ok; [exact Hlk|exact Hp|lia..].
Qed.

(** Parking a READ of an operation. *)
Lemma wi_park xm xc xp w l1 p l2 p' d :
  world_inv xm xc xp w -> e_pending (w_ep w) = l1 ++ p :: l2 -> pend_like p p' -> p_type p = RDS_PEND_RNDZV_RX ->
  df_type d = RDS_DEFERRED_READ -> df_id d = p_id p -> p_seg_remaining p' = p_seg_remaining p ->
  p_seg_deferred p' = p_seg_deferred p + 1 -> p_seg_remaining p' + p_seg_deferred p' < 2 ^ 31 ->
  world_inv xm xc xp (set_pend (park w d) (l1 ++ p' :: l2)).
Proof.
  intros Hw E Hlk Hty Hdt Hdi Hr Hd Hs. pose proof (wi_pend _ _ _ _ Hw) as Hpn. pose proof Hlk as (E1 & E2 & _).
  destruct (pends_lookup Hpn p) as (Hp & _ & _ & _); [rewrite E; apply elem_of_app; right; apply list_elem_of_here|].
  destruct (pend_like_owns _ _ Hlk) as [Em Ec]. destruct Hp as [H1 H2 H3 H4 H5 H6].
  eapply wi_rebuild; [exact Hw|done..| | | |].
  - by eapply cqs_ok_bound; [..|exact (wi_cqs _ _ _ _ Hw)].
  - eapply (pends_park Hpn); [exact E|done..|]. eapply pend_like_ok; [exact Hlk|by split|lia..].
  - pose proof (wi_mrs _ _ _ _ Hw) as Hm. rewrite E, all_pend_mrs_mid, <- Em, <- all_pend_mrs_mid in Hm. exact Hm.
  - destruct (wi_cache _ _ _ _ Hw) as [ot Hc]. exists ot.
    rewrite E, all_pend_cmrs_mid, <- Ec, <- all_pend_cmrs_mid in Hc. exact Hc.
Qed.

Lemma incr32_small n : 0 <= n < 2 ^ 31 -> incr32 n = n + 1.
Proof. intros. unfold incr32. apply u32_small. lia. Qed.

(** A world in which the receive [id] is being set up. *)
Definition rx_open (id : Z) (l1 l2 : list rds_pending) (m : Z) w0 w : Prop :=
  world_inv [] [] (Some id) w /\ moved 0 w0 w /\
  exists p, e_pending (w_ep w) = l1 ++ p :: l2 /\ p_id p = id /\ p_type p = RDS_PEND_RNDZV_RX /\
            p_seg_remaining p + p_seg_deferred p <= m.

Lemma rndzv_read_loop_spec n segs id iov off effective peer l1 l2 m w0 w :
  rx_open id l1 l2 m w0 w -> (n <= length segs)%nat -> 0 <= m -> m + Z.of_nat n < 2 ^ 31 ->
  wp (rndzv_read_loop n segs id iov off effective peer) (fun _ w' => rx_open id l1 l2 (m + Z.of_nat n) w0 w') w.
Proof.
  revert segs off m w. induction n as [|n IH]; intros segs off m w Ho Hlen Hm0 Hm; cbn [rndzv_read_loop].
  { apply wp_ret. by rewrite Z.add_0_r. }
  assert (Hweak : rx_open id l1 l2 (m + Z.of_nat (S n)) w0 w).
  { destruct Ho as (? & ? & p & ? & ? & ? & ?). split_and!; [done..|]. exists p. split_and!; [done..|lia]. }
  destruct (negb _); [by apply wp_ret|]. destruct segs as [|seg segs]; [cbn in Hlen; lia|].
  destruct (rds_iov_slice _ _ _) as [liov got]. apply wp_bind, wp_post_rdma. intros r k' log'.
  apply wp_bind. apply wp_mono with (Q := fun _ w' => rx_open id l1 l2 (m + 1) w0 w').
  2: { intros _ w1 Ho1. replace (m + Z.of_nat (S n)) with (m + 1 + Z.of_nat n) by lia.
       apply IH; [done|cbn in Hlen; lia|lia|lia]. }
  destruct Ho as (Hw & Hmv & p & E & Hid & Hty & Hle). clear Hweak IH.
  pose proof (wi_net _ _ _ _ k' log' Hw) as Hw1. pose proof (wi_pend _ _ _ _ Hw) as Hpn.
  destruct (pends_split Hpn _ _ _ E) as [Hl1 _]. rewrite Hid in Hl1.
  destruct (pends_lookup Hpn p) as ([_ _ Hr Hd _ _] & _ & _ & _); [rewrite E; apply elem_of_app; right; apply list_elem_of_here|].
  assert (Herr : forall w2 e, world_inv [] [] (Some id) w2 -> e_pending (w_ep w2) = l1 ++ p :: l2 -> moved 0 w0 w2 ->
    wp (pend_upd id (set_error e)) (fun _ w' => rx_open id l1 l2 (m + 1) w0 w') w2).
  { intros w2 e Hw2 E2 Hm2. destruct (set_error_like e p) as (Hlk & Her & Hed).
    eapply wp_pend_upd; [done..|]. split_and!; [|done|].
    - eapply wi_update; [exact Hw2|exact E2|done|done|lia|lia|left; by rewrite Hid].
    - exists (set_error e p). destruct Hlk as (? & ? & _). split_and!; [done|congruence|congruence|lia]. }
  destruct (r =? 0).
  - eapply wp_pend_upd; [exact E|done..|]. split_and!; [|done|eexists; split_and!; [done..|]].
    + eapply wi_update; [exact Hw1|exact E|done|done|..]; w_simpl; rewrite ?incr32_small by lia; [lia..|left; by rewrite Hid].
    + w_simpl. rewrite incr32_small by lia. lia.
  - destruct (r =? _); [|by apply Herr]. apply wp_bind, wp_defer_read; [intros k2; apply Herr; [by apply wi_k|done..]|].
    intros k2. eapply wp_pend_upd; [exact E|done..|]. split_and!; [|done|eexists; split_and!; [done..|]].
    + eapply wi_park; [by apply wi_k|exact E|done|done|done|done|done| |];
        w_simpl; rewrite incr32_small by lia; lia.
    + w_simpl. rewrite incr32_small by lia. lia.
Qed.

(** *** Creating an operation *)

Lemma rx_flags_ok hdr tagged : has (rds_rx_flags hdr tagged) UTIL_FLAG_AUX = false.
Proof. unfold rds_rx_flags. by destruct tagged, (has (h_flags hdr) RDS_HF_CQ_DATA). Qed.
Lemma tx_flags_ok tagged : has (tx_comp_flags tagged) UTIL_FLAG_AUX = false.
Proof. by destruct tagged. Qed.

Lemma pending_init_ok id type context flags :
  has flags UTIL_FLAG_AUX = false -> pend_ok (pending_init id type context flags).
Proof. intros Hf. split; try done. Qed.

Lemma wi_alloc xm xc w k type context flags :
  world_inv xm xc None w -> e_op_id (w_ep w) + 1 < 2 ^ 64 -> has flags UTIL_FLAG_AUX = false ->
  world_inv xm xc (Some (e_op_id (w_ep w) + 1)) (with_pending w k (e_op_id (w_ep w) + 1) type context flags).
Proof.
  intros Hw Hop Hf. pose proof (wi_pend _ _ _ _ Hw) as Hpn.
  eapply wi_rebuild; [exact Hw|done..| | | |].
  - by eapply cqs_ok_bound; [..|exact (wi_cqs _ _ _ _ Hw)].
  - apply (pends_add Hpn); [done..|]. by apply pending_init_ok.
  - pose proof (wi_mrs _ _ _ _ Hw) as Hm. unfold with_pending. w_simpl. rewrite all_pend_mrs_app. cbn. by rewrite app_nil_r.
  - destruct (wi_cache _ _ _ _ Hw) as [ot Hc]. exists ot. unfold with_pending. w_simpl. rewrite all_pend_cmrs_app. cbn.
    by rewrite app_nil_r.
Qed.

Lemma alloc_moved w k type context flags :
  moved 1 w (with_pending w k (e_op_id (w_ep w) + 1) type context flags).
Proof. unfold moved, with_pending. w_simpl. split_and!; [lia|done|done]. Qed.

(** A fresh id is not on the list. *)
Lemma fresh_id xm xc xp w : world_inv xm xc xp w ->
  Forall (fun x => p_id x <> e_op_id (w_ep w) + 1) (e_pending (w_ep w)).
Proof.
  intros Hw. eapply Forall_impl; [exact (pn_range _ _ _ _ _ (wi_pend _ _ _ _ Hw))|]. cbn. lia.
Qed.

(** Allocation: nothing, or a new operation under construction. *)
Lemma alloc_spec xm xc type context flags (Q : option Z -> world K -> Prop) w :
  world_inv xm xc None w -> e_op_id (w_ep w) + 1 < 2 ^ 64 -> has flags UTIL_FLAG_AUX = false ->
  (forall k', Q None (w <| w_k := k' |>)) ->
  (forall w1 id, world_inv xm xc (Some id) w1 -> moved 1 w w1 -> frame_of w1 = frame_of w -> peers_of w1 = peers_of w ->
     w_dom w1 = w_dom w -> e_pending (w_ep w1) = e_pending (w_ep w) ++ pending_init id type context flags :: [] ->
     Forall (fun x => p_id x <> id) (e_pending (w_ep w)) ->
     e_rndzv_tx_inflight (w_ep w1) = e_rndzv_tx_inflight (w_ep w) -> w_cqs w1 = w_cqs w ->
     e_tx_op_flags (w_ep w1) = e_tx_op_flags (w_ep w) -> Q (Some id) w1) ->
  wp (rds_pending_alloc type context flags) Q w.
Proof.
  intros Hw Hop Hf HN HS. pose proof (pn_op _ _ _ _ _ (wi_pend _ _ _ _ Hw)) as Hop0.
  apply wp_pending_alloc; [lia|lia|done|]. intros k'.
  apply HS; [by apply wi_alloc|apply alloc_moved|done..| |done|done|done]. by eapply fresh_id.
Qed.

(** An operation that is not a send comes to rest with something outstanding. *)
Lemma wi_settle w l1 p l2 :
  world_inv [] [] (Some (p_id p)) w -> e_pending (w_ep w) = l1 ++ p :: l2 -> is_rndzv_tx (p_type p) = false ->
  pend_busy p -> world_ok w.
Proof.
  intros Hw E Ht Hb. pose proof (pends_settle (wi_pend _ _ _ _ Hw) _ _ _ E eq_refl Hb) as Hst.
  rewrite Ht, Z.add_0_r in Hst. by eapply wi_rebuild; [exact Hw|done..|apply Hw|apply Hst|apply Hw|apply Hw].
Qed.

(** After the last segment: finish at once when nothing is outstanding. *)
Lemma rx_close_spec id l1 l2 m w0 w :
  rx_open id l1 l2 m w0 w ->
  wp (p <- pend_deref id ;;
      if (p_seg_remaining p =? 0) && (p_seg_deferred p =? 0) then rds_rndzv_rx_finalize id else ret tt)
     (fun _ w' => world_ok w' /\ moved 0 w0 w') w.
Proof.
  intros (Hw & Hm & p & E & Hid & Hty & Hle).
  destruct (pends_split (wi_pend _ _ _ _ Hw) _ _ _ E) as [Hl1 _]. rewrite Hid in Hl1.
  apply wp_bind. eapply wp_pend_deref; [done..|]. pose proof (pends_lookup (wi_pend _ _ _ _ Hw) p) as Hlk.
  destruct Hlk as ([_ _ Hr Hd _ _] & _ & _ & _); [rewrite E; apply elem_of_app; right; apply list_elem_of_here|].
  destruct ((p_seg_remaining p =? 0) && (p_seg_deferred p =? 0)) eqn:Ez.
  - eapply wp_mono; [eapply finalize_spec; [exact Hw|exact E|done|by right|lia|done]|].
    cbn beta. intros _ w3 (? & ? & _). split; [done|]. by eapply (moved_trans 0 0).
  - apply wp_ret. split; [|done]. rewrite <- Hid in Hw. eapply wi_settle; [exact Hw|exact E|by rewrite Hty|].
    unfold pend_busy. rewrite Hty. lia.
Qed.

Lemma start_read_spec rx hdr segs n peer src w :
  world_ok w -> e_op_id (w_ep w) + 1 < 2 ^ 64 -> (n <= length segs)%nat -> Z.of_nat n < 2 ^ 16 ->
  wp (rds_start_rndzv_read rx hdr segs n peer src) (fun _ w' => world_ok w' /\ moved 1 w w') w.
Proof.
  intros Hw Hop Hlen Hn. unfold rds_start_rndzv_read. cbn zeta.
  apply wp_bind, (alloc_spec [] []); [done|done|apply rx_flags_ok|..].
  - intros k'. apply wp_bind. eapply wp_mono; [apply (send_fin_spec [] [] None); by apply wi_k|]. cbn beta.
    intros _ w1 (Hw1 & [_ Hm1] & _). apply wp_cq_write_rx; [apply Hw1|apply rx_flags_ok|]. intros cqs k2 Hpo.
    split; [by eapply wi_posted|]. by eapply (moved_weaken 0); [|lia].
  - intros w1 id Hw1 Hm1 _ _ _ E1 Hfr _ _ _. apply wp_bind, wp_ep_get, wp_bind. eapply wp_pend_upd; [exact E1|done|done|].
    apply wp_bind. eapply wp_mono; [apply (rndzv_read_loop_spec _ _ _ _ _ _ _ (e_pending (w_ep w)) [] 0 w1); [|done|lia|lia]|].
    { split; [|split; [exact (moved_refl w1)|eexists; split_and!; done]].
      eapply wi_update; [exact Hw1|exact E1|done|done|done|done|by left]. }
    cbn beta. intros _ w2 Ho. eapply wp_mono; [by eapply rx_close_spec|].
    cbn beta. intros _ w3 [? ?]. split; [done|]. by eapply (moved_trans 1 0).
Qed.

End Safety.
