(* ===== verification/SafetyRing.v ===== *)
(** * The invariant is preserved: peers and the eager ring

    The peer table stays consistent: every chain links live peers, an
    address has one peer, a peer that may be used owns its two regions.
    Creating, connecting and sending through a peer are defined on a
    well-formed endpoint and keep it well formed. *)

From stdpp Require Import sorting.
From S2P Require Import Prelude Iov Wire Config Kernel Cq CqFifo Av MrCache MrCacheInv State Mr.
From S2P Require Import MrInv Pending Ring Msg Frame Inv Rules PendInv Safety.

(** ** The table *)

Lemma chain_find_spec peers chain addr :
  (forall h, h ∈ chain -> is_Some (peers !! h)) ->
  (exists h p, chain_find peers chain addr = Some (Some h) /\ h ∈ chain /\ peers !! h = Some p /\ pe_addr p = addr) \/
  (chain_find peers chain addr = Some None /\ forall h p, h ∈ chain -> peers !! h = Some p -> pe_addr p <> addr).
Proof.
  induction chain as [|h chain IH]; intros Hc; cbn [chain_find].
  { right. split; [done|]. by intros h p ?%elem_of_nil. }
  destruct (Hc h (list_elem_of_here _ _)) as [p Hp]. rewrite Hp. destruct (pe_addr p =? addr) eqn:Ea.
  { left. exists h, p. split_and!; [done|apply list_elem_of_here|done|lia]. }
  destruct IH as [(h' & p' & ? & ? & ? & ?)|[-> Hno]].
  - intros x Hx. apply Hc. by apply list_elem_of_further.
  - left. exists h', p'. split_and!; [done|by apply list_elem_of_further|done..].
  - right. split; [done|]. intros x px [->|Hx]%elem_of_cons Hpx; [|by eapply Hno].
    simplify_eq. lia.
Qed.

Lemma alter_as_insert (peers : gmap Z rds_peer) h p f : peers !! h = Some p -> alter f h peers = <[h := f p]> peers.
Proof.
  intros Hp. apply map_eq. intros x. destruct (decide (x = h)) as [->|].
  - by rewrite lookup_alter_eq, lookup_insert_eq, Hp.
  - by rewrite lookup_alter_ne, lookup_insert_ne by done.
Qed.

(** Regions of the peers. *)
Lemma all_peer_mrs_new peers h p : peers !! h = None -> all_peer_mrs (<[h := p]> peers) ≡ₚ peer_mrs p ++ all_peer_mrs peers.
Proof. intros Hh. unfold all_peer_mrs. by rewrite map_to_list_insert. Qed.

Lemma all_peer_mrs_del peers h p : peers !! h = Some p -> all_peer_mrs peers ≡ₚ peer_mrs p ++ all_peer_mrs (delete h peers).
Proof. intros Hh. unfold all_peer_mrs. by rewrite <- (map_to_list_delete peers h p Hh). Qed.

Lemma all_peer_mrs_set peers h p p' : peers !! h = Some p -> peer_mrs p' = peer_mrs p ->
  all_peer_mrs (<[h := p']> peers) ≡ₚ all_peer_mrs peers.
Proof.
  intros Hh E. rewrite (all_peer_mrs_del (<[h := p']> peers) h p') by apply lookup_insert_eq.
  rewrite (all_peer_mrs_del peers h p), E by done. by rewrite delete_insert_eq.
Qed.

Section Table.
Context {slots max : Z} {rdma : bool} {peers : gmap Z rds_peer} {hash : gmap Z (list Z)} {lru : list Z} {pcnt next : Z}.
Hypothesis Hok : peers_ok slots max rdma peers hash lru pcnt next.

Lemma chain_live addr h : h ∈ default [] (hash !! rds_peer_hash addr) -> is_Some (peers !! h).
Proof using Hok. intros Hh. destruct (pr_chain _ _ _ _ _ _ _ _ Hok _ _ Hh) as (p & -> & _). eauto. Qed.

(** A peer may change everything but its address. *)
Lemma peers_set h p p' : peers !! h = Some p -> pe_addr p' = pe_addr p ->
  (pe_state p' <> RDS_PEER_DISABLED -> is_Some (pe_rx_ring_mr p') /\ is_Some (pe_credit_mr p')) ->
  (pe_state p' = RDS_PEER_READY -> pe_rem_slots p' = slots) ->
  peers_ok slots max rdma (<[h := p']> peers) hash lru pcnt next.
Proof using Hok.
  intros Hp Ea Hst Hrd. destruct Hok as [H1 H2 H3 H4 H5 H6 H7 H8 H9 H10 H11 H12].
  assert (Hinv : forall x q, <[h := p']> peers !! x = Some q -> exists q0, peers !! x = Some q0 /\ pe_addr q = pe_addr q0).
  { intros x q [[<- <-]|[Hne Hq]]%lookup_insert_Some; eauto. }
  assert (Hen : forall x, is_Some (<[h := p']> peers !! x) <-> is_Some (peers !! x)).
  { intros x. rewrite lookup_insert_is_Some'. split; [|auto]. intros [<-|?]; eauto. }
  split; auto.
  - intros b x Hx. destruct (H1 b x Hx) as (q & Hq & Hb). destruct (decide (h = x)) as [->|Hne].
    + exists p'. rewrite lookup_insert_eq. simplify_eq. by rewrite Ea.
    + exists q. by rewrite lookup_insert_ne.
  - intros x q Hq. destruct (Hinv x q Hq) as (q0 & Hq0 & ->). by apply H2.
  - intros x x' q q' Hq Hq' E. destruct (Hinv x q Hq) as (q0 & Hq0 & E0), (Hinv x' q' Hq') as (q1 & Hq1 & E1).
    eapply H4; [done..|congruence].
  - intros x. by rewrite Hen.
  - intros x. rewrite Hen. apply H7.
  - by rewrite map_size_insert_Some by eauto.
  - intros x q [[<- <-]|[Hne Hq]]%lookup_insert_Some; eauto.
  - intros x q [[<- <-]|[Hne Hq]]%lookup_insert_Some; eauto.
Qed.

(** A new peer for an address that has none. *)
Lemma peers_add p : pcnt < max -> (forall h q, peers !! h = Some q -> pe_addr q <> pe_addr p) ->
  (pe_state p <> RDS_PEER_DISABLED -> is_Some (pe_rx_ring_mr p) /\ is_Some (pe_credit_mr p)) ->
  pe_state p <> RDS_PEER_READY ->
  peers_ok slots max rdma (<[next := p]> peers)
    (<[rds_peer_hash (pe_addr p) := next :: default [] (hash !! rds_peer_hash (pe_addr p))]> hash)
    (next :: lru) (u32 (pcnt + 1)) (next + 1).
Proof using Hok.
  intros Hlt Hfresh Hst Hrd. destruct Hok as [H1 H2 H3 H4 H5 H6 H7 H8 H9 H10 H11 H12].
  assert (Hnx : peers !! next = None).
  { apply eq_None_not_Some. intros Hs. apply H7 in Hs. lia. }
  assert (Hnl : forall b, next ∉ default [] (hash !! b)).
  { intros b Hx. destruct (H1 b next Hx) as (q & Hq & _). congruence. }
  split; auto.
  - intros b x Hx. destruct (decide (rds_peer_hash (pe_addr p) = b)) as [<-|Hne].
    + rewrite lookup_insert_eq in Hx. cbn in Hx. apply elem_of_cons in Hx as [->|Hx].
      * exists p. by rewrite lookup_insert_eq.
      * destruct (H1 _ x Hx) as (q & Hq & Hb). exists q. rewrite lookup_insert_ne; [done|]. intros <-. congruence.
    + rewrite lookup_insert_ne in Hx by done. destruct (H1 b x Hx) as (q & Hq & Hb). exists q.
      rewrite lookup_insert_ne; [done|]. intros <-. congruence.
  - intros x q [[<- <-]|[Hne Hq]]%lookup_insert_Some.
    + rewrite lookup_insert_eq. apply list_elem_of_here.
    + destruct (decide (rds_peer_hash (pe_addr p) = rds_peer_hash (pe_addr q))) as [E|E].
      * rewrite E, lookup_insert_eq. apply list_elem_of_further. by apply H2.
      * rewrite lookup_insert_ne by done. by apply H2.
  - intros b. destruct (decide (rds_peer_hash (pe_addr p) = b)) as [<-|Hne].
    + rewrite lookup_insert_eq. cbn. apply NoDup_cons. split; [apply Hnl|apply H3].
    + rewrite lookup_insert_ne by done. apply H3.
  - intros x x' q q' [[<- <-]|[Hne Hq]]%lookup_insert_Some [[<- <-]|[Hne' Hq']]%lookup_insert_Some E; eauto.
    + exfalso. by eapply Hfresh.
    + exfalso. by eapply Hfresh.
  - apply NoDup_cons. split; [|done]. intros Hx%H6. rewrite Hnx in Hx. by destruct Hx.
  - intros x. rewrite elem_of_cons, lookup_insert_is_Some', H6. split; intros [->|?]; auto.
  - intros x. rewrite lookup_insert_is_Some'. intros [<-|Hx%H7]; lia.
  - rewrite map_size_insert_None, u32_small by (done || lia). lia.
  - rewrite u32_small by lia. lia.
  - intros x q [[<- <-]|[Hne Hq]]%lookup_insert_Some; eauto.
  - intros x q [[<- <-]|[Hne Hq]]%lookup_insert_Some ?; [done|eauto].
Qed.

(** Moving a peer to the front of the recency list. *)
Lemma peers_touch h : is_Some (peers !! h) -> peers_ok slots max rdma peers hash (h :: dlist_remove h lru) pcnt next.
Proof using Hok.
  intros Hh. destruct Hok as [H1 H2 H3 H4 H5 H6 H7 H8 H9 H10 H11 H12]. split; auto.
  - apply NoDup_cons. split; [rewrite elem_of_dlist_remove; tauto|by apply dlist_remove_NoDup].
  - intros x. rewrite elem_of_cons, elem_of_dlist_remove, <- H6. apply H6 in Hh.
    destruct (Z.eq_dec x h) as [->|]; tauto.
Qed.
End Table.

(** ** Operations *)

Section SafetyRing.
Context {K : Type} `{!Kernel K} `{!MrAgainEnds K}.
Implicit Types w : world K.

(** Ring operations leave the rest of the endpoint alone. *)
Definition kept w w' : Prop :=
  pends_of w' = pends_of w /\ queues_of w' = queues_of w /\ frame_of w' = frame_of w /\
  e_eager_rdma (w_ep w') = e_eager_rdma (w_ep w).

Lemma kept_refl w : kept w w.
Proof. done. Qed.
Lemma kept_trans w1 w2 w3 : kept w1 w2 -> kept w2 w3 -> kept w1 w3.
Proof. unfold kept. intros (? & ? & ? & ?) (? & ? & ? & ?). split_and!; congruence. Qed.
Lemma kept_moved w w' : kept w w' -> moved 0 w w'.
Proof.
  intros (E1 & _ & E3 & E4). unfold pends_of, frame_of in *.
  assert (e_op_id (w_ep w') = e_op_id (w_ep w)) by congruence. unfold moved. split_and!; [lia|congruence..].
Qed.
Lemma kept_pending w w' : kept w w' -> e_pending (w_ep w') = e_pending (w_ep w).
Proof. intros (E & _). unfold pends_of in E. congruence. Qed.

(** Registering a region for the running operation. *)
Lemma ring_reg_spec xm xc xp addr len sa w :
  world_inv xm xc xp w ->
  wp (ring_reg addr len sa) (fun r w' => world_inv (opt_list r ++ xm) xc xp w' /\ kept w w' /\ peers_of w' = peers_of w) w.
Proof.
  intros Hw. unfold ring_reg. apply wp_bind, wp_ep_get, wp_bind. apply wp_reg_internal; [apply Hw|..].
  - intros err k'. apply wp_ret. split; [by apply wi_k|done].
  - intros cookie k' _. apply wp_ret. split; [|done].
    eapply wi_rebuild; [exact Hw|done..| |apply Hw| |apply Hw].
    + by eapply cqs_ok_bound; [..|exact (wi_cqs _ _ _ _ Hw)].
    + apply mrs_ok_new; [exact (wi_mrs _ _ _ _ Hw)|done|done].
Qed.

(** Releasing one. *)
Lemma mr_put_spec xm xc xp o w :
  world_inv (opt_list o ++ xm) xc xp w ->
  wp (rds_mr_put o) (fun _ w' => world_inv xm xc xp w' /\ kept w w' /\ peers_of w' = peers_of w) w.
Proof.
  intros Hw. destruct o as [h|]; [|by apply wp_ret]. cbn [opt_list app] in Hw.
  eapply (wp_mr_put h); [apply Hw|exact (wi_mrs _ _ _ _ Hw)|]. intros k' Hm. split; [|done].
  eapply wi_rebuild; [exact Hw|done..| |apply Hw|exact Hm|apply Hw].
  by eapply cqs_ok_bound; [..|exact (wi_cqs _ _ _ _ Hw)].
Qed.

(** Changing the peer table. *)
Lemma wi_peers_upd xm xc xp xm' w e' :
  world_inv xm xc xp w -> kept w (w <| w_ep := e' |>) -> bound_of (w <| w_ep := e' |>) = bound_of w ->
  peers_ok (e_ring_slots e') (e_ring_max_peers e') (e_eager_rdma e') (e_peers e') (e_peer_hash e') (e_peer_lru e')
    (e_peer_cnt e') (e_next_peer e') ->
  mrs_ok (d_mrs (w_dom w)) (d_next_mr (w_dom w)) (e_self (w_ep w))
    (xm' ++ all_pend_mrs (e_pending (w_ep w)) ++ all_peer_mrs (e_peers e')) ->
  world_inv xm' xc xp (w <| w_ep := e' |>).
Proof.
  intros Hw (EN & EQ & EF & _) EB Hp Hm. pose proof EF as EF0. injection EN as N1 N2 N3 N4. injection EQ as Q1 Q2 Q3 Q4.
  injection EF as F1 F4 F5. w_simpl. eapply wi_rebuild_all; [exact Hw|done|..]; w_simpl.
  - eapply cqs_ok_bound; [..|exact (wi_cqs _ _ _ _ Hw)]; done.
  - rewrite N1, N2, N3, N4. apply Hw.
  - by rewrite F4, N3.
  - rewrite N3. apply Hw.
  - done.
  - rewrite Q1, Q2. apply Hw.
  - rewrite Q3, Q4. apply Hw.
Qed.

(** Updating one peer. *)
Lemma peer_upd_spec xm xc xp h p f w :
  world_inv xm xc xp w -> e_peers (w_ep w) !! h = Some p -> pe_addr (f p) = pe_addr p -> peer_mrs (f p) = peer_mrs p ->
  (pe_state (f p) <> RDS_PEER_DISABLED -> is_Some (pe_rx_ring_mr (f p)) /\ is_Some (pe_credit_mr (f p))) ->
  (pe_state (f p) = RDS_PEER_READY -> pe_rem_slots (f p) = e_ring_slots (w_ep w)) ->
  wp (peer_upd h f) (fun _ w' => world_inv xm xc xp w' /\ kept w w' /\ w_dom w' = w_dom w /\
    e_peers (w_ep w') !! h = Some (f p) /\ e_ring_slots (w_ep w') = e_ring_slots (w_ep w)) w.
Proof.
  intros Hw Hp Ea Em Hst Hrd. apply wp_ep_upd.
  set (e' := (w_ep w) <| e_peers ::= alter f h |>).
  change (w <| w_ep ::= fun e => e <| e_peers ::= alter f h |> |>) with (w <| w_ep := e' |>).
  assert (Ep : e_peers e' = <[h := f p]> (e_peers (w_ep w))) by (by apply alter_as_insert).
  split_and!; try done; [|change (e_peers e' !! h = Some (f p)); by rewrite Ep, lookup_insert_eq].
  eapply wi_peers_upd; [exact Hw|done|done|..].
  - rewrite Ep. apply (peers_set (wi_peers _ _ _ _ Hw) h p); done.
  - rewrite Ep, (all_peer_mrs_set _ _ p) by done. apply Hw.
Qed.

(** Finding a peer. *)
Lemma peer_find_spec xm xc xp addr w :
  world_inv xm xc xp w ->
  wp (rds_peer_find addr) (fun r w' => w' = w /\
    match r with
    | Some h => exists p, e_peers (w_ep w) !! h = Some p /\ pe_addr p = addr
    | None => forall h p, e_peers (w_ep w) !! h = Some p -> pe_addr p <> addr
    end) w.
Proof.
  intros Hw. pose proof (wi_peers _ _ _ _ Hw) as Hp. unfold rds_peer_find. apply wp_bind, wp_ep_get.
  destruct (chain_find_spec (e_peers (w_ep w)) (bucket (w_ep w) (rds_peer_hash addr)) addr) as [(h & p & -> & _ & Hh & Ha)|[-> Hno]].
  - intros h Hh. by eapply (chain_live Hp).
  - eapply wp_of_opt; [done|]. split; [done|]. eauto.
  - eapply wp_of_opt; [done|]. split; [done|]. intros h p Hh Ha. eapply Hno; [|done..].
    subst addr. by apply (pr_hash _ _ _ _ _ _ _ _ Hp).
Qed.

Lemma wp_av_addr addr (Q : option (list Z) -> world K -> Prop) w :
  e_av (w_ep w) = true -> Q (ofi_av_get_addr (w_avec w) addr) w -> wp (rds_av_addr addr) Q w.
Proof. intros Hav HQ. unfold rds_av_addr. apply wp_bind, wp_ep_get. rewrite Hav. by apply wp_gets. Qed.

Lemma wp_av_addrlen (Q : Z -> world K -> Prop) w :
  e_av (w_ep w) = true -> Q (av_addrlen (w_avec w)) w -> wp av_addrlen_get Q w.
Proof. intros Hav HQ. unfold av_addrlen_get. apply wp_bind, wp_ep_get. rewrite Hav. by apply wp_gets. Qed.

(** A peer whose two registrations are in hand joins the table. *)
Definition join (e : rds_ep) (p : rds_peer) : rds_ep :=
  let h := e_next_peer e in
  e <| e_peers ::= insert h p |> <| e_next_peer ::= Z.add 1 |>
    <| e_peer_hash ::= insert (rds_peer_hash (pe_addr p)) (h :: bucket e (rds_peer_hash (pe_addr p))) |>
    <| e_peer_lru ::= cons h |> <| e_peer_cnt ::= fun n => u32 (n + 1) |>.

Lemma wi_join xm xc xp p w :
  world_inv (peer_mrs p ++ xm) xc xp w -> e_peer_cnt (w_ep w) < e_ring_max_peers (w_ep w) ->
  (forall h q, e_peers (w_ep w) !! h = Some q -> pe_addr q <> pe_addr p) ->
  (pe_state p <> RDS_PEER_DISABLED -> is_Some (pe_rx_ring_mr p) /\ is_Some (pe_credit_mr p)) ->
  pe_state p <> RDS_PEER_READY ->
  world_inv xm xc xp (w <| w_ep ::= fun e => join e p |>) /\ kept w (w <| w_ep ::= fun e => join e p |>).
Proof.
  intros Hw Hcnt Hfresh Hst Hrd. split; [|done].
  change (w <| w_ep ::= fun e => join e p |>) with (w <| w_ep := join (w_ep w) p |>).
  pose proof (wi_peers _ _ _ _ Hw) as Hp. eapply wi_peers_upd; [exact Hw|done|done|..].
  - unfold join. cbn zeta. w_simpl. rewrite (Z.add_comm 1). by apply (peers_add Hp).
  - unfold join. cbn zeta. w_simpl. rewrite all_peer_mrs_new.
    + pose proof (wi_mrs _ _ _ _ Hw) as Hm. rewrite <- app_assoc in Hm.
      rewrite (Permutation_app_swap_app (peer_mrs p)) in Hm.
      by rewrite (Permutation_app_swap_app (all_pend_mrs _)).
    + apply eq_None_not_Some. intros Hs%(pr_next _ _ _ _ _ _ _ _ Hp). lia.
Qed.

(** Registration of both areas, all or nothing. *)
Lemma ring_regs_spec xm xc xp a1 n1 a2 n2 sa w :
  world_inv xm xc xp w ->
  wp (ring_mr <- ring_reg a1 n1 sa ;;
      credit_mr <- ring_reg a2 n2 sa ;;
      let ok := match ring_mr, credit_mr with Some _, Some _ => true | _, _ => false end in
      (if ok then ret tt else rds_mr_put ring_mr ;;; rds_mr_put credit_mr) ;;;
      ret (if ok then ring_mr else None, if ok then credit_mr else None, ok))
     (fun '(rm, cm, ok) w' => world_inv (opt_list rm ++ opt_list cm ++ xm) xc xp w' /\ kept w w' /\ peers_of w' = peers_of w /\
        (ok = true -> is_Some rm /\ is_Some cm)) w.
Proof.
  intros Hw. apply wp_bind. eapply wp_mono; [by apply ring_reg_spec|]. cbn beta. intros rm w1 (Hw1 & Hk1 & Ep1).
  apply wp_bind. eapply wp_mono; [by apply ring_reg_spec|]. cbn beta. intros cm w2 (Hw2 & Hk2 & Ep2). cbn zeta.
  assert (Hk : kept w w2) by (by eapply kept_trans).
  destruct rm as [rm|], cm as [cm|]; apply wp_bind.
  - apply wp_ret, wp_ret. split_and!; [|done|congruence|eauto].
    cbn [opt_list app] in Hw2 |- *. destruct Hw2 as [H1 H2 H3 H4 H5 H6 H7 H8 H9 H10 H11]. split; auto.
    eapply mrs_ok_perm; [|exact H7]. cbn. apply Permutation_swap.
  - cbn [opt_list app] in Hw2. apply wp_bind. eapply wp_mono; [by apply (mr_put_spec xm xc xp (Some rm))|].
    cbn beta. intros _ w3 (Hw3 & Hk3 & Ep3). eapply wp_mono; [by apply (mr_put_spec xm xc xp None)|].
    cbn beta. intros _ w4 (Hw4 & Hk4 & Ep4). apply wp_ret. split_and!; [done| |congruence|done].
    eapply kept_trans; [exact Hk|]. by eapply kept_trans.
  - apply wp_bind. eapply wp_mono; [by apply (mr_put_spec (cm :: xm) xc xp None)|].
    cbn beta. intros _ w3 (Hw3 & Hk3 & Ep3). eapply wp_mono; [by apply (mr_put_spec xm xc xp (Some cm))|].
    cbn beta. intros _ w4 (Hw4 & Hk4 & Ep4). apply wp_ret. split_and!; [done| |congruence|done].
    eapply kept_trans; [exact Hk|]. by eapply kept_trans.
  - apply wp_bind. eapply wp_mono; [by apply (mr_put_spec xm xc xp None)|].
    cbn beta. intros _ w3 (Hw3 & Hk3 & Ep3). eapply wp_mono; [by apply (mr_put_spec xm xc xp None)|].
    cbn beta. intros _ w4 (Hw4 & Hk4 & Ep4). apply wp_ret. split_and!; [done| |congruence|done].
    eapply kept_trans; [exact Hk|]. by eapply kept_trans.
Qed.

Lemma peer_create_spec xm xc xp addr w :
  world_inv xm xc xp w -> (forall h q, e_peers (w_ep w) !! h = Some q -> pe_addr q <> addr) ->
  wp (rds_peer_create addr) (fun r w' => world_inv xm xc xp w' /\ kept w w' /\
    match r with Some h => is_Some (e_peers (w_ep w') !! h) | None => True end) w.
Proof.
  intros Hw Hfresh. unfold rds_peer_create. apply wp_bind, wp_ep_get, wp_bind, wp_ep_get.
  destruct (_ >=? _) eqn:Ec; [by apply wp_ret|].
  apply wp_bind, wp_av_addr; [apply Hw|]. destruct (ofi_av_get_addr _ _) as [sa|]; [|by apply wp_ret].
  apply wp_bind, wp_sys_alloc. intros [p|] k1; [|apply wp_ret; split; [by apply wi_k|done]].
  apply wp_bind, wp_modify, wp_bind, wp_av_addrlen; [apply Hw|]. apply wp_bind, wp_ep_get, wp_bind, wp_ep_get. cbn zeta.
  apply wp_bind, wp_sys_alloc. intros [ring|] k2; [|apply wp_ret; split; [by apply wi_k, wi_mem, wi_k|done]].
  apply wp_bind, wp_modify, wp_bind, wp_sys_alloc.
  intros [stage|] k3; [|apply wp_ret; split; [by apply wi_k, wi_mem, wi_k, wi_mem, wi_k|done]].
  apply wp_bind, wp_sys_alloc. intros [cell|] k4; [|apply wp_ret; split; [by apply wi_k, wi_k, wi_mem, wi_k, wi_mem, wi_k|done]].
  apply wp_bind, wp_modify.
  match goal with |- wp _ _ ?w1 => set (w0 := w1) end.
  assert (Hw0 : world_inv xm xc xp w0) by (by apply wi_mem, wi_k, wi_k, wi_mem, wi_k, wi_mem, wi_k).
  assert (Hk0 : kept w w0 /\ peers_of w0 = peers_of w) by done. clearbody w0. destruct Hk0 as [Hk0 Ep0].
  pose proof (ring_regs_spec xm xc xp ring (u64 (e_ring_slots (w_ep w) * e_ring_slot_size (w_ep w))) cell 8 sa w0 Hw0) as Hr.
  apply wp_bind_inv in Hr. apply wp_bind. eapply wp_mono; [exact Hr|]. cbn beta. intros rm w1 Hr1.
  apply wp_bind_inv in Hr1. apply wp_bind. eapply wp_mono; [exact Hr1|]. cbn beta zeta. intros cm w2 Hr2.
  apply wp_bind_inv in Hr2. apply wp_bind. eapply wp_mono; [exact Hr2|]. cbn beta. intros _ w3 (Hw3 & Hk3 & Ep3 & Hok).
  set (ok := match rm, cm with Some _, Some _ => true | _, _ => false end) in *.
  apply wp_bind, wp_ep_get, wp_bind, wp_ep_upd, wp_ret.
  match goal with |- context [insert (e_next_peer (w_ep w3)) ?pe] => set (peer := pe) end.
  assert (Ep : peers_of w3 = peers_of w) by congruence. injection Ep as P1 P2 P3 P4 P5 P6 P7 P8.
  destruct (wi_join xm xc xp peer w3) as [Hwj Hkj].
  - unfold peer_mrs, peer. cbn [pe_rx_ring_mr pe_credit_mr]. rewrite <- app_assoc. exact Hw3.
  - rewrite P2, P7. lia.
  - rewrite P4. exact Hfresh.
  - intros Hd. apply Hok. unfold peer in Hd. cbn in Hd. by destruct ok.
  - unfold peer. cbn. by destruct ok.
  - split; [exact Hwj|]. split; [|].
    + eapply kept_trans; [exact Hk0|]. eapply kept_trans; [exact Hk3|exact Hkj].
    + cbn. by rewrite lookup_insert_eq.
Qed.

Lemma wp_peer_deref h p (Q : rds_peer -> world K -> Prop) w :
  e_peers (w_ep w) !! h = Some p -> Q p w -> wp (peer_deref h) Q w.
Proof. intros Hp HQ. unfold peer_deref. apply wp_bind, wp_ep_get. by eapply wp_of_opt. Qed.

(** The regions of a peer are alive. *)
Lemma peer_mr_live xm xc xp w h p x :
  world_inv xm xc xp w -> e_peers (w_ep w) !! h = Some p -> x ∈ peer_mrs p -> is_Some (d_mrs (w_dom w) !! x).
Proof.
  intros Hw Hp Hx. destruct (ms_live _ _ _ _ (wi_mrs _ _ _ _ Hw) x) as (m & -> & _); [|eauto].
  rewrite !elem_of_app. right. right. rewrite (all_peer_mrs_del _ h p) by done. by apply elem_of_app; left.
Qed.

Lemma wp_mr_cookie_of x m (Q : Z -> world K -> Prop) w :
  d_mrs (w_dom w) !! x = Some m -> Q (mr_cookie m) w -> wp (mr_cookie_of (Some x)) Q w.
Proof.
  intros Hm HQ. unfold mr_cookie_of. apply wp_bind. eapply wp_of_opt; [done|]. apply wp_bind, wp_gets, wp_bind.
  eapply wp_of_opt; [done|]. by apply wp_ret.
Qed.

Lemma send_ctrl_spec xm xc xp h p op w :
  world_inv xm xc xp w -> e_peers (w_ep w) !! h = Some p -> is_Some (pe_rx_ring_mr p) -> is_Some (pe_credit_mr p) ->
  wp (rds_ring_send_ctrl h op) (fun _ w' => exists k log, w' = set_net w k log) w.
Proof.
  intros Hw Hp [rm Hr] [cm Hc]. unfold rds_ring_send_ctrl. apply wp_bind. eapply wp_peer_deref; [done|].
  rewrite Hr, Hc. destruct (peer_mr_live _ _ _ _ _ _ rm Hw Hp) as [m1 Hm1].
  { unfold peer_mrs. rewrite Hr. apply list_elem_of_here. }
  destruct (peer_mr_live _ _ _ _ _ _ cm Hw Hp) as [m2 Hm2].
  { unfold peer_mrs. rewrite Hr, Hc. apply list_elem_of_further, list_elem_of_here. }
  apply wp_bind. eapply wp_mr_cookie_of; [done|]. apply wp_bind. eapply wp_mr_cookie_of; [done|].
  apply wp_bind, wp_ep_get, wp_bind, wp_ep_get. cbn zeta. apply wp_bind, wp_sys_sendmsg. intros errno k'.
  apply wp_ret. by eexists k', _.
Qed.

Lemma net_kept w k log : kept w (set_net w k log).
Proof. done. Qed.

(** Find or create a peer. *)
Lemma peer_get_spec xm xc xp addr w :
  world_inv xm xc xp w ->
  wp (found <- rds_peer_find addr ;;
      match found with Some h => ret (Some h) | None => rds_peer_create addr end)
     (fun r w' => world_inv xm xc xp w' /\ kept w w' /\
        match r with Some h => is_Some (e_peers (w_ep w') !! h) | None => True end) w.
Proof.
  intros Hw. apply wp_bind. eapply wp_mono; [by eapply peer_find_spec|]. cbn beta. intros [h|] w1 [-> Hf].
  - apply wp_ret. split_and!; [done|done|]. destruct Hf as (p & -> & _). eauto.
  - by apply peer_create_spec.
Qed.

Lemma handle_ctrl_spec hdr payload src_fi w :
  world_ok w -> wp (rds_ring_handle_ctrl hdr payload src_fi) (fun _ w' => world_ok w' /\ kept w w') w.
Proof.
  intros Hw. unfold rds_ring_handle_ctrl. apply wp_bind, wp_ep_get. destruct (_ || _); [by apply wp_ret|]. cbn zeta.
  pose proof (peer_get_spec [] [] None src_fi w Hw) as Hg. apply wp_bind_inv in Hg.
  apply wp_bind. eapply wp_mono; [exact Hg|]. cbn beta. intros found w0 Hg0. apply wp_bind.
  eapply wp_mono; [exact Hg0|]. cbn beta. clear Hg Hg0. intros [h|] w1 (Hw1 & Hk1 & Hh); [|by apply wp_ret].
  destruct Hh as [p Hp]. apply wp_bind. eapply wp_peer_deref; [done|].
  destruct (bool_decide (pe_state p = RDS_PEER_DISABLED)) eqn:Ed; [by apply wp_ret|].
  destruct (pe_rx_ring_mr p) as [rm|] eqn:Er; [|by apply wp_ret].
  destruct (pe_credit_mr p) as [cm|] eqn:Ec; [|by apply wp_ret]. cbn [orb mr_null].
  apply wp_bind. unfold rds_ring_adopt. apply wp_bind, wp_ep_get, wp_bind, wp_ep_get.
  destruct (_ || _) eqn:Eg.
  - apply wp_ret. cbn [negb Z.eqb Z.opp FI_EINVAL]. eapply wp_mono; [eapply (peer_upd_spec [] [] None h p); try done|].
    cbn beta. intros _ w2 (Hw2 & Hk2 & _). split; [done|]. by eapply kept_trans.
  - apply wp_bind. eapply wp_mono; [eapply (peer_upd_spec [] [] None h p); try done|].
    + intros Hrd. by apply orb_false_iff in Eg as [Eg%negb_false_iff%Z.eqb_eq _].
    + cbn beta. intros _ w2 (Hw2 & Hk2 & _ & Hp2 & Es2). apply wp_ret. cbn [negb Z.eqb].
      apply wp_bind. apply wp_mono with (Q := fun _ w3 => exists k log, w3 = set_net w2 k log).
      { destruct (h_op hdr =? RDS_OP_RING_REQ).
        2: { apply wp_ret. exists (w_k w2), (w_log w2). by rewrite set_net_id. }
        eapply send_ctrl_spec; [exact Hw2|exact Hp2|by cbn; rewrite Er|by cbn; rewrite Ec]. }
      intros _ ? (k & log & ->). eapply wp_mono; [eapply (peer_upd_spec [] [] None h); [by apply wi_net|exact Hp2|done|done| |]|].
      * intros _. cbn. by rewrite Er, Ec.
      * intros _. apply orb_false_iff in Eg as [Eg%negb_false_iff%Z.eqb_eq _]. etrans; [exact Eg|done].
      * cbn beta. intros _ w4 (Hw4 & Hk4 & _). split; [done|]. eapply kept_trans; [exact Hk1|].
        eapply kept_trans; [exact Hk2|]. eapply kept_trans; [exact (net_kept w2 k log)|exact Hk4].
Qed.

(** *** Sending *)

(** Updates of counters keep a peer usable. *)
Lemma peer_bump xm xc xp h p f w :
  world_inv xm xc xp w -> e_peers (w_ep w) !! h = Some p -> pe_addr (f p) = pe_addr p ->
  pe_rx_ring_mr (f p) = pe_rx_ring_mr p -> pe_credit_mr (f p) = pe_credit_mr p ->
  (pe_state (f p) = RDS_PEER_DISABLED \/ pe_state p <> RDS_PEER_DISABLED /\
    (pe_state (f p) = RDS_PEER_READY -> pe_state p = RDS_PEER_READY) /\ pe_rem_slots (f p) = pe_rem_slots p) ->
  wp (peer_upd h f) (fun _ w' => world_inv xm xc xp w' /\ kept w w' /\ w_dom w' = w_dom w /\
    e_peers (w_ep w') !! h = Some (f p) /\ e_ring_slots (w_ep w') = e_ring_slots (w_ep w)) w.
Proof.
  intros Hw Hp Ea Er Ec Hst. pose proof (wi_peers _ _ _ _ Hw) as Hpe.
  apply (peer_upd_spec _ _ _ _ p); auto.
  - unfold peer_mrs. by rewrite Er, Ec.
  - intros Hd. rewrite Er, Ec. apply (pr_mrs _ _ _ _ _ _ _ _ Hpe h p Hp). tauto.
  - intros Hrd. destruct Hst as [?|(_ & Hst & ->)]; [congruence|].
    apply (pr_ready _ _ _ _ _ _ _ _ Hpe h p Hp). by apply Hst.
Qed.

Lemma refresh_credit_spec xm xc xp h p w :
  world_inv xm xc xp w -> e_peers (w_ep w) !! h = Some p -> pe_state p = RDS_PEER_READY ->
  wp (rds_ring_refresh_credit h) (fun _ w' => world_inv xm xc xp w' /\ kept w w' /\
    e_ring_slots (w_ep w') = e_ring_slots (w_ep w) /\
    exists p', e_peers (w_ep w') !! h = Some p' /\ pe_state p' = RDS_PEER_READY) w.
Proof.
  intros Hw Hp Hst. unfold rds_ring_refresh_credit. apply wp_bind. eapply wp_peer_deref; [done|].
  apply wp_bind, wp_gets. cbn zeta. destruct (_ >? _).
  - eapply wp_mono; [eapply (peer_bump xm xc xp h p); try done; right; by rewrite Hst|].
    cbn beta. intros _ w' (? & ? & _ & ? & ?). split_and!; [done..|]. by eexists.
  - apply wp_ret. split_and!; [done..|]. by exists p.
Qed.

Lemma send_ready_spec xm xc xp h p src total tag data context flags tagged gen_comp op w :
  world_inv xm xc xp w -> e_peers (w_ep w) !! h = Some p -> pe_state p = RDS_PEER_READY ->
  e_eager_rdma (w_ep w) = true ->
  wp (ring_send_ready h src total tag data context flags tagged gen_comp op)
     (fun _ w' => world_inv xm xc xp w' /\ kept w w') w.
Proof.
  intros Hw Hp Hst Hrd. unfold ring_send_ready. apply wp_bind. eapply wp_mono; [by eapply refresh_credit_spec|].
  cbn beta. intros _ w1 (Hw1 & Hk1 & Es1 & p1 & Hp1 & Hst1). apply wp_bind. eapply wp_peer_deref; [done|].
  destruct (_ >=? _); [by apply wp_ret|].
  assert (Hsl : pe_rem_slots p1 <> 0).
  { pose proof (wi_peers _ _ _ _ Hw1) as Hpe. rewrite (pr_ready _ _ _ _ _ _ _ _ Hpe h p1 Hp1 Hst1).
    apply (pr_slots _ _ _ _ _ _ _ _ Hpe). by destruct Hk1 as (_ & _ & _ & ->). }
  rewrite (proj2 (Z.eqb_neq _ 0)) by done.
  apply wp_bind, wp_ep_get. cbn zeta. apply wp_bind, wp_gets, wp_bind, wp_modify, wp_bind, wp_gets.
  apply wp_bind, wp_modify, wp_bind, wp_modify, wp_bind, wp_post_rdma. intros r k' log'.
  match goal with |- context [set_net ?wm k' log'] => set (w2 := wm) end.
  assert (Hw2 : world_inv xm xc xp w2) by (by do 3 apply wi_mem).
  assert (Hk2 : kept w1 w2) by done. assert (Hp2 : e_peers (w_ep w2) !! h = Some p1) by done. clearbody w2.
  apply (wi_net _ _ _ _ k' log') in Hw2.
  assert (Hk : kept w (set_net w2 k' log')) by (eapply kept_trans; [exact Hk1|exact Hk2]).
  destruct (negb _); [by apply wp_ret|]. apply wp_bind.
  eapply wp_mono; [eapply (peer_bump xm xc xp h p1); [exact Hw2|exact Hp2|done|done|done|right; by rewrite Hst1]|].
  cbn beta. intros _ w3 (Hw3 & Hk3 & _). apply wp_bind. destruct gen_comp.
  - apply wp_cq_write_tx; [apply Hw3|apply tx_flags_ok|]. intros cqs k2 Hpo. apply wp_ret.
    split; [by eapply wi_posted|]. eapply kept_trans; [exact Hk|exact Hk3].
  - apply wp_ret, wp_ret. split; [done|]. by eapply kept_trans.
Qed.

Lemma send_connect_spec xm xc xp h p w :
  world_inv xm xc xp w -> e_peers (w_ep w) !! h = Some p ->
  wp (ring_send_connect h) (fun _ w' => world_inv xm xc xp w' /\ kept w w') w.
Proof.
  intros Hw Hp. unfold ring_send_connect. apply wp_bind. eapply wp_peer_deref; [done|].
  destruct (decide (pe_state p = RDS_PEER_DISABLED)) as [Ed|Ed]; [rewrite Ed; by apply wp_ret|].
  assert (Hmain : wp ((if bool_decide (pe_state p = RDS_PEER_NONE) then
         rds_ring_send_ctrl h RDS_OP_RING_REQ ;;;
         t <- sys_time ;;
         peer_upd h (fun p => p <| pe_state := RDS_PEER_CONNECTING |> <| pe_connect_start_ms := t |>)
       else ret tt) ;;;
      now <- sys_time ;;
      p <- peer_deref h ;;
      if u64 (now - pe_connect_start_ms p) >? RDS_RING_CONNECT_TIMEOUT_MS
      then peer_upd h (fun p => p <| pe_state := RDS_PEER_DISABLED |>) ;;; ret (- FI_ENOSYS)
      else ret (- FI_EAGAIN)) (fun _ w' => world_inv xm xc xp w' /\ kept w w') w).
  { apply wp_bind. apply wp_mono with (Q := fun _ w1 => world_inv xm xc xp w1 /\ kept w w1 /\
      exists p1, e_peers (w_ep w1) !! h = Some p1).
    - destruct (bool_decide _) eqn:En; [|apply wp_ret; split_and!; eauto using kept_refl]. apply bool_decide_eq_true in En.
      destruct (pr_mrs _ _ _ _ _ _ _ _ (wi_peers _ _ _ _ Hw) h p Hp Ed) as [Hr Hc].
      apply wp_bind. eapply wp_mono; [by eapply send_ctrl_spec|]. cbn beta. intros _ ? (k & log & ->).
      apply wp_bind, wp_sys_time. intros t k2.
      eapply wp_mono; [eapply (peer_bump xm xc xp h p); [by apply wi_k, wi_net|done|done|done|done|]|].
      + right. by rewrite En.
      + cbn beta. intros _ w1 (? & Hk & _ & ? & _). split_and!; [done|exact Hk|by eexists].
    - intros _ w1 (Hw1 & Hk1 & p1 & Hp1). apply wp_bind, wp_sys_time. intros now k2.
      apply wp_bind. eapply wp_peer_deref; [exact Hp1|]. destruct (_ >? _).
      + apply wp_bind. eapply wp_mono; [eapply (peer_bump xm xc xp h p1); [by apply wi_k|done|done|done|done|by left]|].
        cbn beta. intros _ w2 (? & Hk & _). apply wp_ret. split; [done|]. eapply kept_trans; [exact Hk1|exact Hk].
      + apply wp_ret. split; [by apply wi_k|exact Hk1]. }
  by destruct (pe_state p).
Qed.

Lemma ring_send_spec xm xc xp src dest tag data context flags tagged gen_comp op w :
  world_inv xm xc xp w ->
  wp (rds_ring_send src dest tag data context flags tagged gen_comp op)
     (fun _ w' => world_inv xm xc xp w' /\ kept w w') w.
Proof.
  intros Hw. unfold rds_ring_send. apply wp_bind, wp_ep_get. destruct (e_eager_rdma (w_ep w)) eqn:Erd; [|by apply wp_ret].
  cbn [negb]. cbn zeta. apply wp_bind, wp_ep_get. destruct (_ >? _); [by apply wp_ret|].
  pose proof (peer_get_spec xm xc xp dest w Hw) as Hg. apply wp_bind_inv in Hg.
  apply wp_bind. eapply wp_mono; [exact Hg|]. cbn beta. intros found w0 Hg0. apply wp_bind.
  eapply wp_mono; [exact Hg0|]. cbn beta. clear Hg Hg0. intros [h|] w1 (Hw1 & Hk1 & Hh); [|by apply wp_ret].
  destruct Hh as [p Hp]. apply wp_bind, wp_ep_upd.
  set (e' := (w_ep w1) <| e_peer_lru ::= fun l => h :: dlist_remove h l |>).
  change (w1 <| w_ep ::= fun e => e <| e_peer_lru ::= fun l => h :: dlist_remove h l |> |>) with (w1 <| w_ep := e' |>).
  assert (Hw2 : world_inv xm xc xp (w1 <| w_ep := e' |>)).
  { eapply wi_peers_upd; [exact Hw1|done|done| |exact (wi_mrs _ _ _ _ Hw1)].
    apply (peers_touch (wi_peers _ _ _ _ Hw1)). eauto. }
  assert (Hk2 : kept w (w1 <| w_ep := e' |>)) by exact Hk1.
  assert (Hp2 : e_peers (w_ep (w1 <| w_ep := e' |>)) !! h = Some p) by exact Hp.
  revert Hw2 Hk2 Hp2. generalize (w1 <| w_ep := e' |>). intros w2 Hw2 Hk2 Hp2.
  apply wp_bind. eapply wp_peer_deref; [done|]. destruct (bool_decide _) eqn:Est.
  - apply bool_decide_eq_true in Est.
    eapply wp_mono; [eapply send_ready_spec; [done..|]|].
    + destruct Hk2 as (_ & _ & _ & ->). done.
    + cbn beta. intros r w3 [? ?]. split; [done|]. by eapply kept_trans.
  - eapply wp_mono; [by eapply send_connect_spec|]. cbn beta. intros r w3 [? ?]. split; [done|]. by eapply kept_trans.
Qed.
End SafetyRing.
