(* ===== verification/SafetyRx.v ===== *)
(** * The invariant is preserved: the receive path

    Matching, delivery, inbound dispatch, RDMA notifications, the retry of
    parked operations and the posting of receives. *)

From stdpp Require Import sorting.
From S2P Require Import Prelude Iov Wire Config Kernel Cq CqFifo Av MrCache MrCacheInv State Mr.
From S2P Require Import MrInv Pending Ring Msg Frame Inv Rules PendInv Safety SafetyRing.

(** ** Matching *)

Lemma match_ok_posted_sub tagged l1 x l2 u : match_ok tagged (l1 ++ x :: l2) u -> match_ok tagged (l1 ++ l2) u.
Proof.
  intros [H1 H2 H3]. split; auto. intros rx m Hrx. apply H3.
  apply elem_of_app in Hrx. rewrite elem_of_app, elem_of_cons. tauto.
Qed.

Lemma match_ok_unexp_sub tagged p l1 x l2 : match_ok tagged p (l1 ++ x :: l2) -> match_ok tagged p (l1 ++ l2).
Proof.
  intros [H1 H2 H3]. rewrite Forall_app, Forall_cons in H1, H2. split; rewrite ?Forall_app; try tauto.
  intros rx m Hrx Hm. apply H3; [done|]. apply elem_of_app in Hm. rewrite elem_of_app, elem_of_cons. tauto.
Qed.

Lemma match_ok_add_posted tagged p u rx : match_ok tagged p u ->
  Forall (fun m => posted_match tagged (h_tag (ux_hdr m)) (ux_addr m) rx = false) u -> match_ok tagged (p ++ [rx]) u.
Proof.
  intros [H1 H2 H3] Hf. split; auto. intros r m [Hr|Hr]%elem_of_app Hm; [by apply H3|].
  apply list_elem_of_singleton in Hr as ->. rewrite Forall_forall in Hf. by apply Hf.
Qed.

Lemma match_ok_add_unexp tagged p u m : match_ok tagged p u -> hdr_tagged (ux_hdr m) = tagged ->
  (h_op (ux_hdr m) <> RDS_OP_EAGER -> length (ux_segs m) = Z.to_nat (ux_seg_cnt m) /\ ux_seg_cnt m < 2 ^ 16) ->
  Forall (fun rx => posted_match tagged (h_tag (ux_hdr m)) (ux_addr m) rx = false) p -> match_ok tagged p (u ++ [m]).
Proof.
  intros [H1 H2 H3] Ht Hs Hf. split; rewrite ?Forall_app, ?Forall_singleton; auto.
  intros r x Hr [Hx|Hx]%elem_of_app; [by apply H3|]. apply list_elem_of_singleton in Hx as ->.
  rewrite Forall_forall in Hf. by apply Hf.
Qed.

Section SafetyRx.
Context {K : Type} `{!Kernel K} `{!MrAgainEnds K}.
Implicit Types w : world K.

Lemma wi_match xm xc xp w tagged : world_inv xm xc xp w ->
  match_ok tagged (posted_list tagged (w_ep w)) (unexp_list tagged (w_ep w)).
Proof. intros Hw. destruct tagged; [exact (wi_tag _ _ _ _ Hw)|exact (wi_msg _ _ _ _ Hw)]. Qed.

(** Replacing one pair of queues. *)
Lemma wi_queues xm xc xp w tagged p u :
  world_inv xm xc xp w -> match_ok tagged p u ->
  world_inv xm xc xp (w <| w_ep ::= fun e => set_posted tagged p (set_unexp tagged u e) |>).
Proof.
  intros Hw Hm. destruct tagged; (eapply wi_rebuild_all; [exact Hw|done| |apply Hw..| |]).
  all: try exact Hm; try exact (wi_msg _ _ _ _ Hw); try exact (wi_tag _ _ _ _ Hw).
  all: by eapply cqs_ok_bound; [..|exact (wi_cqs _ _ _ _ Hw)].
Qed.

Lemma set_posted_eq tagged p (e : rds_ep) : set_posted tagged p (set_unexp tagged (unexp_list tagged e) e) = set_posted tagged p e.
Proof. by destruct tagged, e. Qed.
Lemma set_unexp_eq tagged u (e : rds_ep) : set_posted tagged (posted_list tagged e) (set_unexp tagged u e) = set_unexp tagged u e.
Proof. by destruct tagged, e. Qed.

Lemma wi_set_posted xm xc xp w tagged p :
  world_inv xm xc xp w -> match_ok tagged p (unexp_list tagged (w_ep w)) ->
  world_inv xm xc xp (w <| w_ep ::= set_posted tagged p |>).
Proof.
  intros Hw Hm. pose proof (wi_queues _ _ _ _ _ _ _ Hw Hm) as Hq.
  unfold set_field in *. by rewrite set_posted_eq in Hq.
Qed.

Lemma wi_set_unexp xm xc xp w tagged u :
  world_inv xm xc xp w -> match_ok tagged (posted_list tagged (w_ep w)) u ->
  world_inv xm xc xp (w <| w_ep ::= set_unexp tagged u |>).
Proof.
  intros Hw Hm. pose proof (wi_queues _ _ _ _ _ _ _ Hw Hm) as Hq.
  unfold set_field in *. by rewrite set_unexp_eq in Hq.
Qed.

Lemma queues_moved w tagged p u : moved 0 w (w <| w_ep ::= set_posted tagged p |>) /\ moved 0 w (w <| w_ep ::= set_unexp tagged u |>).
Proof. unfold moved. destruct tagged; cbn; split_and!; (done || lia). Qed.

Lemma match_posted_spec hdr src tagged w :
  world_ok w ->
  wp (rds_match_posted hdr src tagged) (fun r w' => world_ok w' /\ moved 0 w w' /\
    (r = None -> w' = w /\ Forall (fun rx => posted_match tagged (h_tag hdr) src rx = false) (posted_list tagged (w_ep w)))) w.
Proof.
  intros Hw. unfold rds_match_posted. apply wp_bind, wp_ep_get.
  destruct (find_split _ _) as [[[l1 rx] l2]|] eqn:Ef.
  - apply find_split_Some in Ef as (E & _ & _). apply wp_bind, wp_ep_upd, wp_ret. split_and!; [|apply (queues_moved w tagged _ [])|done].
    apply wi_set_posted; [done|]. pose proof (wi_match _ _ _ _ tagged Hw) as Hm. rewrite E in Hm. by eapply match_ok_posted_sub.
  - apply find_split_None in Ef. apply wp_ret. split_and!; [done|apply moved_refl|done].
Qed.

(** ** Delivery *)

Lemma deliver_eager_spec rx hdr payload src w :
  world_ok w -> wp (rds_deliver_eager rx hdr payload src) (fun _ w' => world_ok w' /\ moved 0 w w') w.
Proof.
  intros Hw. unfold rds_deliver_eager. apply wp_bind, wp_gets. destruct (ofi_copy_to_iov _ _ _ _ _) as [m' copied].
  apply wp_bind, wp_modify. cbn zeta. apply wp_bind, wp_ep_get.
  apply (wi_mem _ _ _ _ m') in Hw as Hw1. destruct (_ || _).
  - apply wp_cq_write_rx; [apply Hw1|apply rx_flags_ok|]. intros cqs k' Hpo. split; [by eapply wi_posted|].
    exact (moved_refl w).
  - apply wp_ret. split; [done|]. exact (moved_refl w).
Qed.

Lemma payload_segs_length n bs : (24 * n <= length bs)%nat -> length (payload_segs n bs) = n.
Proof.
  revert bs. induction n as [|n IH]; intros bs Hl; [done|]. cbn [payload_segs].
  destruct (Nat.ltb_spec (length bs) 24); [lia|]. cbn [length]. f_equal. apply IH. rewrite length_drop. lia.
Qed.

Lemma enqueue_unexp_spec hdr payload src src_fi tagged w :
  world_ok w -> hdr_tagged hdr = tagged -> 0 <= h_seg_cnt hdr < 2 ^ 16 ->
  (h_op hdr <> RDS_OP_EAGER -> h_seg_cnt hdr * RDS_SEG_SIZE <= Z.of_nat (length payload)) ->
  Forall (fun rx => posted_match tagged (h_tag hdr) src_fi rx = false) (posted_list tagged (w_ep w)) ->
  wp (rds_enqueue_unexp hdr payload src src_fi tagged) (fun _ w' => world_ok w' /\ moved 0 w w') w.
Proof.
  intros Hw Ht Hsc Hlen Hno. unfold rds_enqueue_unexp. cbn zeta.
  assert (Hfin : forall w1, world_ok w1 -> moved 0 w w1 ->
    wp (rds_send_fin src (h_id hdr)) (fun _ w' => world_ok w' /\ moved 0 w w') w1).
  { intros w1 Hw1 Hm1. eapply wp_mono; [by apply send_fin_spec|]. cbn beta. intros _ w2 (? & [_ ?] & _).
    split; [done|]. by eapply (moved_trans 0 0). }
  assert (Hadd : forall w1 m, world_ok w1 -> moved 0 w w1 -> w_ep w1 = w_ep w -> ux_hdr m = hdr -> ux_addr m = src_fi ->
    (h_op hdr <> RDS_OP_EAGER -> length (ux_segs m) = Z.to_nat (ux_seg_cnt m) /\ ux_seg_cnt m < 2 ^ 16) ->
    wp (ep_upd (fun e => set_unexp tagged (unexp_list tagged e ++ [m]) e)) (fun _ w' => world_ok w' /\ moved 0 w w') w1).
  { intros w1 m Hw1 Hm1 Ee Eh Ea Hs. apply wp_ep_upd. split.
    - apply (wi_set_unexp [] [] None w1 tagged (unexp_list tagged (w_ep w1) ++ [m])); [done|].
      apply match_ok_add_unexp; [exact (wi_match _ _ _ _ tagged Hw1)|by rewrite Eh|by rewrite Eh|].
      by rewrite Eh, Ea, Ee.
    - eapply (moved_trans 0 0); [exact Hm1|]. exact (proj2 (queues_moved w1 tagged [] (unexp_list tagged (w_ep w1) ++ [m]))). }
  apply wp_bind, wp_sys_alloc. intros [a|] k1.
  2: { destruct (_ =? RDS_OP_RTS); [apply Hfin; [by apply wi_k|exact (moved_refl w)]|].
       apply wp_ret. split; [by apply wi_k|exact (moved_refl w)]. }
  destruct (h_op hdr =? RDS_OP_EAGER) eqn:Eo.
  { apply Hadd; [by apply wi_k|exact (moved_refl w)|done..|]. lia. }
  apply wp_bind, wp_sys_alloc. intros [b|] k2; [|apply Hfin; [by do 2 apply wi_k|exact (moved_refl w)]].
  assert (Hle : h_seg_cnt hdr * RDS_SEG_SIZE <= Z.of_nat (length payload)) by (apply Hlen; lia). unfold RDS_SEG_SIZE in Hle.
  destruct (rds_segs_of_bytes_Some (Z.to_nat (h_seg_cnt hdr)) payload) as [segs [Hsegs Hl]]; [lia|].
  apply wp_bind. eapply wp_of_opt; [exact Hsegs|].
  apply Hadd; [by do 2 apply wi_k|exact (moved_refl w)|done..|]. intros _. cbn. lia.
Qed.

(** ** Inbound dispatch *)

(** A header with a 16-bit segment count and, if it carries the magic number
    of the provider, one of the operation codes of the protocol. *)
Definition inbound_ok (hdr : rds_hdr) : Prop :=
  0 <= h_seg_cnt hdr < 2 ^ 16 /\
  (h_magic hdr = RDS_HDR_MAGIC -> RDS_OP_EAGER <= h_op hdr <= RDS_OP_RING_ACK).

Lemma wi_pend_split xm xc xp w l1 p l2 : world_inv xm xc xp w -> e_pending (w_ep w) = l1 ++ p :: l2 ->
  Forall (fun x => p_id x <> p_id p) l1 /\ pend_ok p /\ p_seg_deferred p = parked (p_id p) (e_deferred (w_ep w)) /\
  (xp = Some (p_id p) \/ pend_busy p).
Proof.
  intros Hw E. destruct (pends_split (wi_pend _ _ _ _ Hw) _ _ _ E) as [Hl _].
  destruct (pends_lookup (wi_pend _ _ _ _ Hw) p) as (? & _ & ? & ?); [|auto].
  rewrite E. apply elem_of_app. right. apply list_elem_of_here.
Qed.

(** READs are parked for receives only. *)
Lemma no_parked xm xc xp w p : world_inv xm xc xp w -> p ∈ e_pending (w_ep w) -> p_type p <> RDS_PEND_RNDZV_RX ->
  p_seg_deferred p = 0.
Proof.
  intros Hw Hp Hty. pose proof (wi_pend _ _ _ _ Hw) as Hpn. destruct (pends_lookup Hpn p Hp) as (_ & _ & -> & _).
  apply parked_none. intros d Hd HR Hid. pose proof (pn_reads _ _ _ _ _ Hpn) as Hr. rewrite Forall_forall in Hr.
  destruct (Hr d Hd HR) as (q & Hq & Hqi & Hqt). apply Hty. rewrite <- Hqt. f_equal.
  apply (list_elem_of_lookup_1 _ _) in Hp as [i Hi]. apply (list_elem_of_lookup_1 _ _) in Hq as [j Hj].
  assert (i = j) as ->; [|congruence]. eapply NoDup_lookup; [exact (pn_ids _ _ _ _ _ Hpn)| |].
  - rewrite list_lookup_fmap, Hi. done.
  - rewrite list_lookup_fmap, Hj. cbn. congruence.
Qed.

Lemma handle_inbound_spec hdr payload src src_fi w :
  world_ok w -> e_op_id (w_ep w) + 1 < 2 ^ 64 -> inbound_ok hdr ->
  wp (rds_handle_inbound hdr payload src src_fi) (fun _ w' => world_ok w' /\ moved 1 w w') w.
Proof.
  intros Hw Hop [Hsc Hvalid]. unfold rds_handle_inbound. cbn zeta.
  assert (Hmv : forall w', moved 0 w w' -> moved 1 w w') by (intros w' ?; by eapply (moved_weaken 0); [|lia]).
  assert (Hret : wp (ret tt) (fun _ w' => world_ok w' /\ moved 1 w w') w) by (apply wp_ret; split; [done|apply Hmv, moved_refl]).
  destruct (h_magic hdr =? RDS_HDR_MAGIC) eqn:Em; cbn [negb]; [|exact Hret]. apply Z.eqb_eq in Em.
  specialize (Hvalid Em). unfold RDS_OP_EAGER, RDS_OP_RING_ACK in Hvalid.
  destruct (h_op hdr =? RDS_OP_FIN) eqn:Efin.
  { apply wp_bind, wp_ep_get. destruct (pend_viewP (h_id hdr) (e_pending (w_ep w))) as [l1 p l2 E Hid _ -> _ _|_ -> _ _]; [|exact Hret].
    destruct (is_rndzv_tx (p_type p)) eqn:Et; [|exact Hret].
    eapply wp_mono; [eapply (complete_spec _ l1 p l2 None); [exact Hw|exact E|done|by left|]|].
    - eapply no_parked; [exact Hw|rewrite E; apply elem_of_app; right; apply list_elem_of_here|]. by intros HR; rewrite HR in Et.
    - cbn beta. intros _ w' [? ?]. auto. }
  destruct (_ || _) eqn:Ering.
  { eapply wp_mono; [by apply handle_ctrl_spec|]. cbn beta. intros _ w' [? ?%kept_moved]. auto. }
  destruct (_ && _) eqn:Ershort; [exact Hret|].
  assert (Hop2 : h_op hdr = RDS_OP_EAGER \/ h_op hdr = RDS_OP_RTS).
  { unfold RDS_OP_EAGER, RDS_OP_RTS, RDS_OP_FIN, RDS_OP_RING_REQ, RDS_OP_RING_ACK in *. lia. }
  assert (Hlen : h_op hdr <> RDS_OP_EAGER -> h_seg_cnt hdr * RDS_SEG_SIZE <= Z.of_nat (length payload)).
  { intros Hne. destruct Hop2 as [?|Hr]; [done|]. rewrite Hr, Z.eqb_refl in Ershort. cbn [andb] in Ershort. lia. }
  apply wp_bind. eapply wp_mono; [by apply match_posted_spec|]. cbn beta. intros [rx|] w1 (Hw1 & Hm1 & Hnone).
  - destruct (h_op hdr =? RDS_OP_EAGER) eqn:Eo.
    + eapply wp_mono; [by apply deliver_eager_spec|]. cbn beta. intros _ w2 [? ?]. split; [done|].
      apply Hmv. by eapply (moved_trans 0 0).
    + assert (Hle : h_seg_cnt hdr * RDS_SEG_SIZE <= Z.of_nat (length payload)) by (apply Hlen; lia). unfold RDS_SEG_SIZE in Hle.
      eapply wp_mono; [apply start_read_spec; [done| |rewrite payload_segs_length; lia|lia]|].
      * destruct Hm1 as (? & _). lia.
      * cbn beta. intros _ w2 [? ?]. split; [done|]. by eapply (moved_trans 0 1).
  - destruct (Hnone eq_refl) as [-> Hno]. eapply wp_mono; [by apply enqueue_unexp_spec|].
    cbn beta. intros _ w2 [? ?]. auto.
Qed.

(** ** Notifications *)

Lemma wi_open w l1 p l2 :
  world_ok w -> e_pending (w_ep w) = l1 ++ p :: l2 -> is_rndzv_tx (p_type p) = false -> world_inv [] [] (Some (p_id p)) w.
Proof.
  intros Hw E Ht. pose proof (pends_open (wi_pend _ _ _ _ Hw) _ _ _ E eq_refl Ht) as Ho.
  by eapply wi_rebuild; [exact Hw|done..|apply Hw|apply Ho|apply Hw|apply Hw].
Qed.

(** Counting down a segment of an operation at rest. *)
Lemma count_down_spec w l1 p l2 :
  world_ok w -> e_pending (w_ep w) = l1 ++ p :: l2 -> 0 < p_seg_remaining p ->
  let n := p_seg_remaining p - 1 in
  wp (pend_upd (p_id p) (fun p => p <| p_seg_remaining := n |>) ;;;
      if negb (n =? 0) then ret tt
      else
        match p_type p with
        | RDS_PEND_RMA => rds_pending_complete (p_id p)
        | RDS_PEND_RNDZV_RX => if p_seg_deferred p =? 0 then rds_rndzv_rx_finalize (p_id p) else ret tt
        | RDS_PEND_RNDZV_TX => ret tt
        end) (fun _ w' => world_ok w' /\ moved 0 w w') w.
Proof.
  intros Hw E Hr n. destruct (wi_pend_split _ _ _ _ _ _ _ Hw E) as (Hl1 & Hp & _ & _). pose proof Hp as [_ _ _ Hd Hs _].
  assert (Hnp : p_type p <> RDS_PEND_RNDZV_RX -> p_seg_deferred p = 0).
  { eapply no_parked; [exact Hw|]. rewrite E. apply elem_of_app. right. apply list_elem_of_here. }
  apply wp_bind. eapply wp_pend_upd; [done..|]. set (p2 := p <| p_seg_remaining := n |>).
  set (w2 := set_pend w (l1 ++ p2 :: l2)). assert (Hm : moved 0 w w2) by exact (moved_refl w).
  assert (Hlk : pend_like p p2) by done. assert (Er : p_seg_remaining p2 = n) by done.
  assert (Ed : p_seg_deferred p2 = p_seg_deferred p) by done. assert (Et : p_type p2 = p_type p) by done.
  destruct (is_rndzv_tx (p_type p)) eqn:Etx.
  - assert (Hw2 : world_ok w2).
    { eapply wi_update; [exact Hw|exact E|done|done|lia|lia|right]. unfold pend_busy. rewrite Et. by destruct (p_type p). }
    destruct (p_type p); try done. by destruct (negb _); apply wp_ret.
  - assert (Hw2 : world_inv [] [] (Some (p_id p2)) w2).
    { change (p_id p2) with (p_id p). eapply wi_update; [by eapply wi_open|exact E|done|done|lia|lia|by left]. }
    assert (E2 : e_pending (w_ep w2) = l1 ++ p2 :: l2) by done. clearbody w2 p2.
    assert (Hsettle : pend_busy p2 -> wp (ret tt) (fun _ w' => world_ok w' /\ moved 0 w w') w2).
    { intros Hb. apply wp_ret. split; [|done]. eapply wi_settle; [exact Hw2|exact E2|congruence|done]. }
    destruct Hlk as (Eid & _). rewrite <- Eid.
    assert (Hend : forall m : St K unit, wp m (fun _ w' => world_ok w' /\ moved 0 w2 w') w2 ->
                             wp m (fun _ w' => world_ok w' /\ moved 0 w w') w2).
    { intros m Hm'. eapply wp_mono; [exact Hm'|]. cbn beta. intros _ w' [? ?]. split; [done|]. by eapply (moved_trans 0 0). }
    destruct (negb (n =? 0)) eqn:En; [apply Hsettle|destruct (p_type p) eqn:Ety]; try done.
    + unfold pend_busy. rewrite Et. destruct (p_type p); try done; lia.
    + destruct (p_seg_deferred p =? 0) eqn:Edf.
      * apply Hend. eapply wp_mono; [eapply finalize_spec; [exact Hw2|exact E2|done|by right|lia|done]|]. cbn beta. tauto.
      * apply Hsettle. unfold pend_busy. rewrite Et. lia.
    + apply Hend. eapply complete_spec; [exact Hw2|exact E2|done| |rewrite Ed; by apply Hnp].
      right. by rewrite Et.
Qed.

Lemma rdma_notify_spec token status w :
  world_ok w -> wp (rds_handle_rdma_notify token status) (fun _ w' => world_ok w' /\ moved 0 w w') w.
Proof.
  intros Hw. unfold rds_handle_rdma_notify. apply wp_bind, wp_ep_get.
  destruct (pend_viewP token (e_pending (w_ep w))) as [l1 p l2 E Hid Hl1 -> _ _|_ -> _ _].
  2: { apply wp_ret. split; [done|apply moved_refl]. }
  destruct (wi_pend_split _ _ _ _ _ _ _ Hw E) as (_ & Hp & _ & Hb). destruct Hb as [?|Hb]; [done|].
  pose proof Hp as [_ _ Hr Hd Hs _].
  (* record the error, if any *)
  apply wp_bind. apply wp_mono with (Q := fun _ w1 => world_ok w1 /\ moved 0 w w1 /\ exists p1,
    e_pending (w_ep w1) = l1 ++ p1 :: l2 /\ pend_like p p1 /\
    p_seg_remaining p1 = p_seg_remaining p /\ p_seg_deferred p1 = p_seg_deferred p).
  { destruct (negb _); [|apply wp_ret; split_and!; [done|apply moved_refl|by exists p]].
    destruct (set_error_like (abs_err status) p) as (Hlk & Er & Ed). eapply wp_pend_upd; [done..|].
    split_and!; [|exact (moved_refl w)|by exists (set_error (abs_err status) p)].
    eapply wi_update; [exact Hw|exact E|done|done|lia|lia|right].
    destruct Hlk as (_ & Ht & _). unfold pend_busy in *. by rewrite Ht, Er, Ed. }
  intros _ w1 (Hw1 & Hm1 & p1 & E1 & Hlk & Er & Ed). destruct (p_seg_remaining p =? 0) eqn:Ez; [by apply wp_ret|]. cbn zeta.
  assert (Edec : decr32 (p_seg_remaining p) = p_seg_remaining p - 1) by (unfold decr32; apply u32_small; lia).
  rewrite Edec. pose proof Hlk as (Eid & Ety & _).
  pose proof (count_down_spec w1 l1 p1 l2 Hw1 E1 ltac:(lia)) as Hcd. cbn zeta in Hcd.
  rewrite Eid, Ety, Er, Ed, Hid in Hcd. eapply wp_mono; [exact Hcd|]. cbn beta. intros _ w2 [? ?].
  split; [done|]. by eapply (moved_trans 0 0).
Qed.

(** ** Parked operations *)

(** Taking a READ off the queue and counting it down. *)
Lemma wi_unpark w l1 p l2 p' d1 d d2 :
  world_inv [] [] (Some (p_id p)) w -> e_pending (w_ep w) = l1 ++ p :: l2 -> e_deferred (w_ep w) = d1 ++ d :: d2 ->
  df_type d = RDS_DEFERRED_READ -> df_id d = p_id p -> pend_like p p' ->
  p_seg_deferred p' = p_seg_deferred p - 1 -> 0 <= p_seg_remaining p' -> p_seg_remaining p' + p_seg_deferred p' < 2 ^ 31 ->
  world_inv [] [] (Some (p_id p)) (set_pend (set_parked w (d1 ++ d2)) (l1 ++ p' :: l2)).
Proof.
  intros Hw E Ed Hdt Hdi Hlk Hd Hr Hs. pose proof (wi_pend _ _ _ _ Hw) as Hpn. pose proof Hlk as (E1 & E2 & _).
  destruct (wi_pend_split _ _ _ _ _ _ _ Hw E) as (_ & Hp & Hpk & _). destruct (pend_like_owns _ _ Hlk) as [Em Ec].
  assert (1 <= p_seg_deferred p).
  { rewrite Hpk, Ed, parked_read, Hdi, Z.eqb_refl by done. pose proof (parked_nonneg (p_id p) (d1 ++ d2)). lia. }
  eapply wi_rebuild; [exact Hw|done..| | | |].
  - by eapply cqs_ok_bound; [..|exact (wi_cqs _ _ _ _ Hw)].
  - eapply (pends_unpark Hpn); [exact E|exact Ed|done..|]. eapply pend_like_ok; [exact Hlk|exact Hp|lia..].
  - pose proof (wi_mrs _ _ _ _ Hw) as Hm. rewrite E, all_pend_mrs_mid, <- Em, <- all_pend_mrs_mid in Hm. exact Hm.
  - destruct (wi_cache _ _ _ _ Hw) as [ot Hc]. exists ot.
    rewrite E, all_pend_cmrs_mid, <- Ec, <- all_pend_cmrs_mid in Hc. exact Hc.
Qed.

(** Every parked READ can append one FIN. *)
Definition weight (d : rds_deferred) : nat := match df_type d with RDS_DEFERRED_READ => 2 | RDS_DEFERRED_FIN => 1 end.
Definition weights (l : list rds_deferred) : nat := sum_list_with weight l.

(** What one round does to the queue. *)
Definition deferred_step (i : nat) (q : list rds_deferred) (removed : bool) (q' : list rds_deferred) : Prop :=
  if removed then exists ex d, q !! i = Some d /\ q' = take i q ++ drop (S i) q ++ ex /\ (weights ex < weight d)%nat
  else q' = q.

Lemma fins_weights ds ds' : fins ds ds' -> exists ex, ds' = ds ++ ex /\ (weights ex <= 1)%nat.
Proof.
  intros (ex & -> & Hl & Hf). exists ex. split; [done|]. destruct ex as [|d [|d2 ex]]; cbn in *; [lia| |lia].
  inversion Hf as [|? ? Hd _]; subst. unfold weights, weight. cbn. unfold weight. rewrite Hd. lia.
Qed.

Lemma deferred_remove_eq i d (q : list rds_deferred) : q !! i = Some d ->
  q = take i q ++ d :: drop (S i) q.
Proof. intros Hi. symmetry. by apply take_drop_middle. Qed.

Lemma fin_body_spec i d w :
  world_ok w -> e_deferred (w_ep w) !! i = Some d -> df_type d = RDS_DEFERRED_FIN ->
  wp (deferred_body i d) (fun '(rm, b) w' => world_ok w' /\ moved 0 w w' /\
    deferred_step i (e_deferred (w_ep w)) rm (e_deferred (w_ep w')) /\ rm = negb b) w.
Proof.
  intros Hw Hi Hd. unfold deferred_body. rewrite Hd. unfold rds_send_fin_raw.
  apply wp_bind, wp_bind, wp_sys_sendmsg. intros errno k'. apply wp_ret. destruct (_ =? _).
  { apply wp_ret. split_and!; [exact (wi_net _ _ _ _ k' _ Hw)|exact (moved_refl w)|done|done]. }
  apply wp_bind, wp_ep_upd, wp_ret. split_and!; [|exact (moved_refl w)| |done].
  - set (w1 := set_net w k' (w_log w ++ [fin_sent (df_peer d) (df_id d) errno])).
    assert (Hw1 : world_ok w1) by (by apply wi_net).
    change (world_ok (set_parked w1 (take i (e_deferred (w_ep w1)) ++ drop (S i) (e_deferred (w_ep w1))))).
    pose proof (deferred_remove_eq _ _ _ Hi) as E. change (e_deferred (w_ep w)) with (e_deferred (w_ep w1)) in E.
    eapply wi_rebuild; [exact Hw1|done..| | |exact (wi_mrs _ _ _ _ Hw1)|exact (wi_cache _ _ _ _ Hw1)].
    + by eapply cqs_ok_bound; [..|exact (wi_cqs _ _ _ _ Hw1)].
    + apply (pends_fin (wi_pend _ _ _ _ Hw1)).
      * intros id. rewrite E at 3. symmetry. by apply parked_fin.
      * intros x Hx _. rewrite E. apply elem_of_app in Hx. rewrite elem_of_app, elem_of_cons. tauto.
  - exists [], d. rewrite app_nil_r. split_and!; [done|done|]. unfold weights, weight. rewrite Hd. cbn. lia.
Qed.

Lemma decr32_small n : 1 <= n < 2 ^ 31 -> decr32 n = n - 1.
Proof. intros. unfold decr32. apply u32_small. lia. Qed.

(** A retried READ that the kernel took, or refused for good. *)
Lemma read_retried_spec i d l1 p l2 r w :
  world_ok w -> e_deferred (w_ep w) !! i = Some d -> df_type d = RDS_DEFERRED_READ ->
  e_pending (w_ep w) = l1 ++ p :: l2 -> p_id p = df_id d -> p_type p = RDS_PEND_RNDZV_RX ->
  wp (deferred_remove i ;;;
      pend_upd (df_id d) (fun p => p <| p_seg_deferred ::= decr32 |>) ;;;
      (if r =? 0
       then pend_upd (df_id d) (fun p => p <| p_seg_remaining ::= incr32 |>)
       else pend_upd (df_id d) (set_error (abs_err r))) ;;;
      p <- pend_deref (df_id d) ;;
      (if (p_seg_remaining p =? 0) && (p_seg_deferred p =? 0)
       then rds_rndzv_rx_finalize (df_id d) else ret tt) ;;;
      ret (true, false)) (fun '(rm, b) w' => world_ok w' /\ moved 0 w w' /\
    deferred_step i (e_deferred (w_ep w)) rm (e_deferred (w_ep w')) /\ rm = negb b) w.
Proof.
  intros Hw Hi Hd E Hid Hty. destruct (wi_pend_split _ _ _ _ _ _ _ Hw E) as (Hl1 & Hp & Hpk & _).
  pose proof Hp as [_ _ Hr0 Hd0 Hs0 _]. pose proof (deferred_remove_eq _ _ _ Hi) as Eq.
  set (q1 := take i (e_deferred (w_ep w))) in *. set (q2 := drop (S i) (e_deferred (w_ep w))) in *.
  assert (Hpos : 1 <= p_seg_deferred p).
  { rewrite Hpk, Eq, parked_read, Hid, Z.eqb_refl by done. pose proof (parked_nonneg (df_id d) (q1 ++ q2)). lia. }
  rewrite <- Hid. apply wp_bind. apply wp_ep_upd. apply wp_bind. eapply wp_pend_upd; [exact E|done|done|].
  set (p1 := p <| p_seg_deferred ::= decr32 |>).
  assert (Hmid : exists p2, pend_like p p2 /\ p_seg_deferred p2 = p_seg_deferred p - 1 /\ 0 <= p_seg_remaining p2 /\
    p_seg_remaining p2 <= p_seg_remaining p + 1 /\
    forall Q, Q tt (set_pend (set_parked w (q1 ++ q2)) (l1 ++ p2 :: l2)) ->
      wp (if r =? 0 then pend_upd (p_id p) (fun p => p <| p_seg_remaining ::= incr32 |>)
          else pend_upd (p_id p) (set_error (abs_err r))) Q (set_pend (set_parked w (q1 ++ q2)) (l1 ++ p1 :: l2))).
  { assert (Ed1 : p_seg_deferred p1 = p_seg_deferred p - 1) by (apply decr32_small; lia).
    destruct (r =? 0).
    - exists (p1 <| p_seg_remaining ::= incr32 |>). assert (Ei : incr32 (p_seg_remaining p1) = p_seg_remaining p + 1)
        by (apply incr32_small; cbn; lia).
      split_and!; [done|done|cbn; change (0 <= incr32 (p_seg_remaining p1)); lia|change (incr32 (p_seg_remaining p1) <= p_seg_remaining p + 1); lia|].
      intros Q HQ. eapply wp_pend_upd; [done..|exact HQ].
    - destruct (set_error_like (abs_err r) p1) as (Hlk & Er & Ed). exists (set_error (abs_err r) p1).
      split_and!; [exact Hlk|congruence|rewrite Er; done|rewrite Er; cbn; lia|].
      intros Q HQ. eapply wp_pend_upd; [done..|exact HQ]. }
  destruct Hmid as (p2 & Hlk & Ed2 & Hr2 & Hr2' & Hstep). apply wp_bind, Hstep. clear Hstep.
  assert (Hw2 : world_inv [] [] (Some (p_id p)) (set_pend (set_parked w (q1 ++ q2)) (l1 ++ p2 :: l2))).
  { eapply wi_unpark; [eapply wi_open; [done|exact E|by rewrite Hty]|exact E|exact Eq|done|done|done|done|lia|lia]. }
  set (w2 := set_pend (set_parked w (q1 ++ q2)) (l1 ++ p2 :: l2)) in *. destruct Hlk as (Eid & Ety & _).
  assert (Hm2 : moved 0 w w2) by exact (moved_refl w). assert (E2 : e_pending (w_ep w2) = l1 ++ p2 :: l2) by done.
  assert (Eq2 : e_deferred (w_ep w2) = q1 ++ q2) by done. clearbody w2.
  apply wp_bind. eapply wp_pend_deref; [exact E2|done|done|]. apply wp_bind.
  apply wp_mono with (Q := fun _ w' => world_ok w' /\ moved 0 w2 w' /\ fins (q1 ++ q2) (e_deferred (w_ep w'))).
  { destruct (_ && _) eqn:Ez.
    - rewrite <- Eid, <- Eq2. eapply finalize_spec; [exact Hw2|exact E2|done|right; by rewrite Eid|lia|congruence].
    - apply wp_ret. split_and!; [|apply moved_refl|rewrite Eq2; apply fins_refl]. rewrite <- Eid in Hw2.
      eapply wi_settle; [exact Hw2|exact E2|by rewrite Ety, Hty|]. unfold pend_busy. rewrite Ety, Hty. lia. }
  intros _ w3 (Hw3 & Hm3 & (ex & Eex & Hex)%fins_weights). apply wp_ret.
  split_and!; [done|by eapply (moved_trans 0 0)| |done]. exists ex, d. rewrite Eex, <- app_assoc.
  split_and!; [done|done|]. unfold weight. rewrite Hd. lia.
Qed.

Lemma deferred_body_spec i d w :
  world_ok w -> e_deferred (w_ep w) !! i = Some d ->
  wp (deferred_body i d) (fun '(rm, b) w' => world_ok w' /\ moved 0 w w' /\
    deferred_step i (e_deferred (w_ep w)) rm (e_deferred (w_ep w')) /\ rm = negb b) w.
Proof.
  intros Hw Hi. destruct (df_type d) eqn:Hd; [by apply fin_body_spec|]. unfold deferred_body. rewrite Hd.
  apply wp_bind, wp_ep_get. pose proof (pn_reads _ _ _ _ _ (wi_pend _ _ _ _ Hw)) as Hr. rewrite Forall_forall in Hr.
  destruct (Hr d) as (q & Hq & Hqi & Hqt); [by eapply list_elem_of_lookup_2|done|].
  destruct (pend_viewP (df_id d) (e_pending (w_ep w))) as [l1 p l2 E Hid Hl1 -> _ _|Hno -> _ _].
  2: { exfalso. rewrite Forall_forall in Hno. by apply (Hno q Hq). }
  assert (Hty : p_type p = RDS_PEND_RNDZV_RX).
  { destruct (decide (p_type p = RDS_PEND_RNDZV_RX)) as [?|Hne]; [done|]. exfalso.
    pose proof (no_parked _ _ _ _ p Hw ltac:(rewrite E; apply elem_of_app; right; apply list_elem_of_here) Hne) as Hz.
    destruct (wi_pend_split _ _ _ _ _ _ _ Hw E) as (_ & _ & Hpk & _). rewrite Hpk in Hz. apply parked_zero in Hz.
    rewrite Forall_forall in Hz. eapply Hz; [by eapply list_elem_of_lookup_2|done|done]. }
  apply wp_bind, wp_post_rdma. intros r k' log'. pose proof (wi_net _ _ _ _ k' log' Hw) as Hw1.
  destruct (r =? - FI_EAGAIN).
  - apply wp_ret. split_and!; [done|exact (moved_refl w)|done|done].
  - exact (read_retried_spec i d l1 p l2 r (set_net w k' log') Hw1 Hi Hd E Hid Hty).
Qed.

Lemma weights_app l1 l2 : weights (l1 ++ l2) = (weights l1 + weights l2)%nat.
Proof. apply sum_list_with_app. Qed.

(** The fuel that is left covers what the walk can still visit. *)
Lemma deferred_step_weights i q rm q' d : deferred_step i q rm q' -> q !! i = Some d ->
  (weights (drop (if rm then i else S i) q') < weights (drop i q))%nat.
Proof.
  intros Hs Hi. pose proof (lookup_lt_Some _ _ _ Hi) as Hlt. rewrite (drop_S q d i Hi). change (weights (d :: drop (S i) q)) with (weight d + weights (drop (S i) q))%nat.
  destruct rm; cbn in Hs.
  - destruct Hs as (ex & d' & Hi' & -> & Hw). simplify_eq. rewrite drop_app_length'.
    + rewrite weights_app. lia.
    + rewrite length_take. lia.
  - subst q'. unfold weight. destruct (df_type d); lia.
Qed.

Lemma deferred_loop_spec n i blocked w :
  world_ok w -> (weights (drop i (e_deferred (w_ep w))) <= n)%nat ->
  wp (deferred_loop n i blocked) (fun _ w' => world_ok w' /\ moved 0 w w') w.
Proof.
  revert i blocked w. induction n as [|n IH]; intros i blocked w Hw Hn; cbn [deferred_loop]; apply wp_bind, wp_ep_get.
  all: destruct (e_deferred (w_ep w) !! i) as [d|] eqn:Hi; [|apply wp_ret; split; [done|apply moved_refl]].
  - exfalso. rewrite (drop_S _ d i Hi) in Hn. unfold weights, weight in Hn. cbn in Hn. unfold weight in Hn.
    destruct (df_type d); lia.
  - cbn zeta. apply wp_bind. eapply wp_mono; [by apply deferred_body_spec|].
    intros [rm b] w1 (Hw1 & Hm1 & Hst & _). destruct (_ =? _)%nat; [by apply wp_ret|].
    eapply wp_mono; [apply IH; [done|]|].
    + pose proof (deferred_step_weights _ _ _ _ _ Hst Hi). lia.
    + cbn beta. intros b' w2 [? ?]. split; [done|]. by eapply (moved_trans 0 0).
Qed.

Lemma progress_deferred_spec w :
  world_ok w -> wp rds_progress_deferred (fun _ w' => world_ok w' /\ moved 0 w w') w.
Proof.
  intros Hw. unfold rds_progress_deferred. apply wp_bind, wp_ep_get, wp_bind.
  eapply wp_mono; [apply deferred_loop_spec; [done|]|].
  - rewrite drop_0. generalize (e_deferred (w_ep w)). intros l. unfold weights. induction l as [|d l IHl]; [done|].
    cbn [sum_list_with length]. unfold weight at 1. destruct (df_type d); lia.
  - cbn beta. intros b w1 [? ?]. by apply wp_ret.
Qed.

(** ** Posting receives *)

Lemma post_recv_spec iov addr tag ignore context flags tagged w :
  world_ok w -> e_op_id (w_ep w) + 1 < 2 ^ 64 ->
  wp (rds_post_recv iov addr tag ignore context flags tagged) (fun _ w' => world_ok w' /\ moved 1 w w') w.
Proof.
  intros Hw Hop. unfold rds_post_recv. cbn zeta.
  assert (Hmv : forall w', moved 0 w w' -> moved 1 w w') by (intros w' ?; by eapply (moved_weaken 0); [|lia]).
  destruct (_ <? _)%nat; [apply wp_ret; split; [done|apply Hmv, moved_refl]|].
  unfold rds_match_unexp. apply wp_bind, wp_bind, wp_ep_get. pose proof (wi_match _ _ _ _ tagged Hw) as Hmt.
  destruct (find_split _ _) as [[[l1 ux] l2]|] eqn:Ef.
  - apply find_split_Some in Ef as (E & _ & _). rewrite E in Hmt. apply wp_bind, wp_ep_upd, wp_ret.
    match goal with |- wp _ _ ?wg =>
      assert (Hw1 : world_ok wg) by exact (wi_set_unexp _ _ _ w tagged (l1 ++ l2) Hw (match_ok_unexp_sub _ _ _ _ _ Hmt));
      assert (Hm1 : moved 0 w wg) by exact (proj2 (queues_moved w tagged [] (l1 ++ l2)));
      revert Hw1 Hm1; generalize wg end. intros w1 Hw1 Hm1.
    pose proof (mt_segs _ _ _ Hmt) as Hsg. rewrite Forall_app, Forall_cons in Hsg. destruct Hsg as (_ & Hsg & _).
    apply wp_bind. destruct (_ =? RDS_OP_EAGER) eqn:Eo.
    + eapply wp_mono; [by apply deliver_eager_spec|]. cbn beta. intros _ w2 [? ?]. apply wp_ret. split; [done|].
      apply Hmv. by eapply (moved_trans 0 0).
    + destruct Hsg as [Hl Hb]; [lia|]. eapply wp_mono; [apply start_read_spec; [done| |lia|lia]|].
      * destruct Hm1 as (? & _). lia.
      * cbn beta. intros _ w2 [? ?]. apply wp_ret. split; [done|]. by eapply (moved_trans 0 1).
  - apply find_split_None in Ef. apply wp_ret, wp_bind, wp_sys_alloc. intros [a|] k'.
    2: { apply wp_ret. split; [by apply wi_k|]. apply Hmv. exact (moved_refl w). }
    apply wp_bind, wp_ep_upd, wp_ret. set (w1 := w <| w_k := k' |>). assert (Hw1 : world_ok w1) by (by apply wi_k).
    split; [|apply Hmv; exact (proj1 (queues_moved w1 tagged (posted_list tagged (w_ep w1) ++ [_]) []))].
    apply (wi_set_posted _ _ _ w1 tagged (posted_list tagged (w_ep w1) ++ [rx_of iov addr tag ignore context flags tagged])); [done|].
    apply match_ok_add_posted; [exact (wi_match _ _ _ _ tagged Hw1)|]. exact Ef.
Qed.
End SafetyRx.
