(* ===== verification/RingPoll.v ===== *)
(** * Polling the eager rings is safe

    The receiver reads slots the peer wrote by RDMA.  When the slots hold
    messages the peer's provider sends and the application's receive
    buffers are not inside the rings, a poll of every ring is defined,
    terminates within one lap of each ring and keeps the endpoint
    invariant. *)

From stdpp Require Import sorting.
From S2P Require Import Prelude Iov Wire Config Kernel Cq CqFifo Av MrCache MrCacheInv State Mr.
From S2P Require Import MrInv Pending Ring Msg RingRx Pres Footprint Frame Inv Rules PendInv Safety.
From S2P Require Import RingLink SafetyRing SafetyRx.

(** ** What the peer may have written *)

(** A slot at address [slotp]: an eager message, a runt, or a rendezvous
    header that fits. *)
Definition slot_sane (slot_size : Z) (m : mem) (slotp : Z) : Prop :=
  let s := rds_ring_slot_of_bytes (mem_read m slotp RDS_RING_HDR_SIZE) in
  let hdr := rds_hdr_of_bytes (mem_read m (rds_slot_payload slotp) RDS_HDR_SIZE) in
  sl_op s = RDS_OP_EAGER \/ sl_len s < RDS_HDR_SIZE \/
  RDS_RING_HDR_SIZE + RDS_HDR_SIZE <= slot_size /\ ring_msg hdr /\ 0 <= h_seg_cnt hdr < 2 ^ 16.

Lemma mem_read_agree (m m' : mem) a n : (forall x, a <= x < a + n -> m' x = m x) -> mem_read m' a n = mem_read m a n.
Proof.
  intros Hm. unfold mem_read. apply list_fmap_ext. intros i x Hx. apply lookup_seqZ in Hx as [-> Hi]. apply Hm. lia.
Qed.

Lemma slot_sane_agree slot_size (m m' : mem) slotp : RDS_RING_HDR_SIZE <= slot_size ->
  (forall x, slotp <= x < slotp + slot_size -> m' x = m x) -> slot_sane slot_size m slotp -> slot_sane slot_size m' slotp.
Proof.
  unfold slot_sane, RDS_RING_HDR_SIZE, RDS_HDR_SIZE, rds_slot_payload, RDS_RING_HDR_SIZE. intros Hs Hm.
  rewrite (mem_read_agree m m' slotp 32) by (intros; apply Hm; lia). intros [H|[H|(H1 & H2 & H3)]]; [auto|auto|right; right].
  rewrite (mem_read_agree m m' (slotp + 32) 40) by (intros; apply Hm; lia). auto.
Qed.

Section RingPoll.
Context {K : Type} `{!Kernel K}.
Implicit Types w : world K.

Definition slot_addr (e : rds_ep) (p : rds_peer) (i : Z) : Z := pe_rx_ring p + i * e_ring_slot_size e.

(** The bytes of a peer's receive ring, and of the credit staging cells. *)
Definition in_ring (e : rds_ep) (p : rds_peer) (x : Z) : Prop :=
  pe_rx_ring p <= x < pe_rx_ring p + e_ring_slots e * e_ring_slot_size e.
Definition in_cell (e : rds_ep) (x : Z) : Prop :=
  exists h q, e_peers e !! h = Some q /\ pe_credit_tx_addr q <= x < pe_credit_tx_addr q + 8.

Record ring_peer_ok w (p : rds_peer) : Prop := {
  rp_head : 0 <= pe_rx_head p /\ pe_rx_head p + e_ring_slots (w_ep w) < 2 ^ 64;
  rp_slots : forall i, 0 <= i < e_ring_slots (w_ep w) ->
    slot_sane (e_ring_slot_size (w_ep w)) (w_mem w) (slot_addr (w_ep w) p i);
  rp_rx : forall x, in_ring (w_ep w) p x -> x ∉ rx_addrs w;
  rp_cell : forall x, in_ring (w_ep w) p x -> ~ in_cell (w_ep w) x }.

(** The rings of the peers [l] may be polled. *)
Definition ring_ready (l : list Z) w : Prop :=
  0 < e_ring_slots (w_ep w) < 2 ^ 31 /\ RDS_RING_HDR_SIZE + RDS_RING_GEN_SIZE <= e_ring_slot_size (w_ep w) /\
  forall h p, h ∈ l -> e_peers (w_ep w) !! h = Some p -> pe_state p = RDS_PEER_READY -> ring_peer_ok w p.

(** ** What a poll of one ring changes *)

Definition static (p : rds_peer) := (pe_rx_ring p, pe_state p, pe_credit_tx_addr p).
Definition geo (e : rds_ep) := (e_ring_slots e, e_ring_slot_size e, e_peer_lru e, e_eager_rdma e).

Record polled (h : Z) w w' : Prop := {
  pl_geo : geo (w_ep w') = geo (w_ep w);
  pl_other : forall h', h' <> h -> e_peers (w_ep w') !! h' = e_peers (w_ep w) !! h';
  pl_self : static <$> (e_peers (w_ep w') !! h) = static <$> (e_peers (w_ep w) !! h);
  pl_rx : forall x, x ∈ rx_addrs w' -> x ∈ rx_addrs w;
  pl_mem : forall x, (x ∉ rx_addrs w) -> ~ in_cell (w_ep w) x -> w_mem w' x = w_mem w x }.

Lemma polled_cell h w w' x : polled h w w' -> in_cell (w_ep w') x -> in_cell (w_ep w) x.
Proof.
  intros Hp (i & q & Hq & Hx). destruct (decide (i = h)) as [->|Hne].
  - pose proof (pl_self _ _ _ Hp) as E. rewrite Hq in E. destruct (e_peers (w_ep w) !! h) as [q0|] eqn:E0; [|done].
    injection E as E1 E2 E3. exists h, q0. by rewrite <- E3.
  - exists i, q. by rewrite <- (pl_other _ _ _ Hp) by done.
Qed.

Lemma polled_refl h w : polled h w w.
Proof. by split. Qed.

Lemma polled_trans h w1 w2 w3 : polled h w1 w2 -> polled h w2 w3 -> polled h w1 w3.
Proof.
  intros H12 H23. split.
  - by rewrite (pl_geo _ _ _ H23), (pl_geo _ _ _ H12).
  - intros h' Hne. by rewrite (pl_other _ _ _ H23), (pl_other _ _ _ H12).
  - by rewrite (pl_self _ _ _ H23), (pl_self _ _ _ H12).
  - intros x Hx. by apply (pl_rx _ _ _ H12), (pl_rx _ _ _ H23).
  - intros x Hx Hc. rewrite (pl_mem _ _ _ H23), (pl_mem _ _ _ H12); auto.
    + intros Hx'. by apply Hx, (pl_rx _ _ _ H12).
    + intros Hc'. by apply Hc, (polled_cell _ _ _ _ H12).
Qed.

Lemma touched_polled h w w' : touched w w' -> polled h w w'.
Proof.
  intros (E & Hrx & Hm). unfold ring_part in E. injection E as E1 E2 E3 E4 E5 E6 E7.
  split; [unfold geo; congruence|intros; by rewrite E1|by rewrite E1| |auto].
  intros x Hx. unfold rx_addrs in *. apply list_elem_of_join in Hx as (l & Hl & Hin). apply list_elem_of_fmap in Hin as (rx & -> & Hr).
  apply list_elem_of_join. eexists. split; [exact Hl|]. apply (list_elem_of_fmap_2 (fun r => iov_addrs (rx_iov r))). by apply Hrx.
Qed.

(** A later ring stays ready. *)
Lemma polled_ring_ok h w w' p : ring_peer_ok w p -> RDS_RING_HDR_SIZE <= e_ring_slot_size (w_ep w) -> polled h w w' -> ring_peer_ok w' p.
Proof.
  intros [H1 H2 H3 H4] Hs Hp. pose proof (pl_geo _ _ _ Hp) as Eg. unfold geo in Eg. injection Eg as G1 G2 G3 G4.
  assert (Hmem : forall x, in_ring (w_ep w) p x -> w_mem w' x = w_mem w x) by (intros x Hx; apply (pl_mem _ _ _ Hp); auto).
  split.
  - by rewrite G1.
  - rewrite G1, G2. intros i Hi. unfold slot_addr. rewrite G2. apply (slot_sane_agree _ (w_mem w)); [done| |by apply H2].
    intros x Hx. apply Hmem. unfold in_ring. nia.
  - unfold in_ring. rewrite G1, G2. intros x Hx Hin. by apply (H3 x Hx), (pl_rx _ _ _ Hp).
  - unfold in_ring. rewrite G1, G2. intros x Hx Hin. by apply (H4 x Hx), (polled_cell _ _ _ _ Hp).
Qed.

(** ** One slot *)

Context `{!MrAgainEnds K}.

(** A part of the poll of ring [h]: at most [n] operations are started and
    the read index becomes [g] of what it was. *)
Definition ring_step (n : Z) (h : Z) (g : Z -> Z) w w' : Prop :=
  world_ok w' /\ moved n w w' /\ polled h w w' /\
  forall p, e_peers (w_ep w) !! h = Some p -> pe_state p = RDS_PEER_READY ->
    exists p', e_peers (w_ep w') !! h = Some p' /\ pe_state p' = RDS_PEER_READY /\ pe_rx_head p' = g (pe_rx_head p).

Lemma step_refl h w : world_ok w -> ring_step 0 h id w w.
Proof. intros Hw. split_and!; [done|apply moved_refl|apply polled_refl|]. intros p Hp Hst. by exists p. Qed.

Lemma step_trans n1 n2 h g1 g2 w1 w2 w3 :
  ring_step n1 h g1 w1 w2 -> ring_step n2 h g2 w2 w3 -> ring_step (n1 + n2) h (fun x => g2 (g1 x)) w1 w3.
Proof.
  intros (_ & M1 & P1 & H1) (W2 & M2 & P2 & H2). split_and!; [done|by eapply moved_trans|by eapply polled_trans|].
  intros p Hp Hst. destruct (H1 p Hp Hst) as (p' & Hp' & Hst' & Eh'). destruct (H2 p' Hp' Hst') as (p'' & Hp'' & Hst'' & Eh'').
  exists p''. split_and!; [done|done|congruence].
Qed.

(** Moving counters of the peer. *)
Lemma bump_step h f g p w :
  world_ok w -> e_peers (w_ep w) !! h = Some p -> pe_state p = RDS_PEER_READY ->
  pe_addr (f p) = pe_addr p -> pe_rx_ring_mr (f p) = pe_rx_ring_mr p -> pe_credit_mr (f p) = pe_credit_mr p ->
  pe_rem_slots (f p) = pe_rem_slots p -> static (f p) = static p -> pe_rx_head (f p) = g (pe_rx_head p) ->
  wp (peer_upd h f) (fun _ w' => ring_step 0 h g w w' /\ e_peers (w_ep w') !! h = Some (f p) /\ w_mem w' = w_mem w) w.
Proof.
  intros Hw Hp Hst Ea Er Ec Es Est Eg. assert (Hst' : pe_state (f p) = RDS_PEER_READY) by (unfold static in Est; congruence).
  assert (Hb : world_ok (w <| w_ep ::= fun e => e <| e_peers ::= alter f h |> |>)).
  { refine (proj1 (_ : wp (peer_upd h f) (fun _ w' => world_ok w' /\ _) w)). eapply wp_mono; [eapply (peer_bump [] [] None h p f); try done|].
    - right. rewrite Hst. split; [done|]. split; [done|exact Es].
    - cbn beta. intros _ w' (Hw' & Hk & _). exact (conj Hw' Hk). }
  assert (El : alter f h (e_peers (w_ep w)) !! h = Some (f p)) by (by rewrite lookup_alter_eq, Hp).
  apply wp_ep_upd. split; [|split; [exact El|done]]. split_and!; [exact Hb|exact (moved_refl w)| |].
  - split; w_simpl; [done| |rewrite El, Hp; cbn; congruence|done|done].
    intros h' Hne. by rewrite lookup_alter_ne.
  - intros q Hq _. assert (q = p) as -> by congruence. by exists (f p).
Qed.

Lemma inbound_step h hdr payload src fi w :
  world_ok w -> e_op_id (w_ep w) + 1 < 2 ^ 64 -> ring_msg hdr -> 0 <= h_seg_cnt hdr < 2 ^ 16 ->
  wp (rds_handle_inbound hdr payload src fi) (fun _ => ring_step 1 h id w) w.
Proof.
  intros Hw Hop Hm Hs. eapply wp_mono; [eapply (wp_wlp _ _ _ w); [apply handle_inbound_spec; [done|done|]|by apply inbound_touches]|].
  - split; [done|]. intros _. destruct Hm as [->|[->| ->]]; done.
  - cbn beta. intros _ w' [[Hw' Hmv] Ht]. split_and!; [done|done|by apply touched_polled|].
    intros p Hp Hst. destruct Ht as (E & _). unfold ring_part in E. exists p. split_and!; [congruence|done|done].
Qed.

Lemma deliver_step h p slotp w :
  let s := rds_ring_slot_of_bytes (mem_read (w_mem w) slotp RDS_RING_HDR_SIZE) in
  world_ok w -> e_op_id (w_ep w) + 1 < 2 ^ 64 -> e_peers (w_ep w) !! h = Some p -> slot_sane (e_ring_slot_size (w_ep w)) (w_mem w) slotp ->
  wp (rds_ring_deliver h s (rds_slot_payload slotp)) (fun _ => ring_step 1 h id w) w.
Proof.
  intros s Hw Hop Hp Hsane. unfold rds_ring_deliver. apply wp_bind. eapply wp_peer_deref; [exact Hp|].
  assert (H01 : ring_step 1 h id w w).
  { destruct (step_refl h w Hw) as (? & ? & ? & ?). split_and!; [done|by eapply (moved_weaken 0); [|lia]|done|done]. }
  destruct (sl_op s =? RDS_OP_EAGER) eqn:Eo.
  - apply wp_bind, wp_gets. apply inbound_step; [done|done|by left|done].
  - destruct (sl_len s <? RDS_HDR_SIZE) eqn:El; [by apply wp_ret|]. apply wp_bind, wp_gets, wp_bind, wp_gets.
    destruct Hsane as [Hs|[Hs|(_ & Hm & Hs)]]; [fold s in Hs; lia|fold s in Hs; lia|]. by apply inbound_step.
Qed.

Lemma credit_step h p w :
  world_ok w -> e_peers (w_ep w) !! h = Some p -> pe_state p = RDS_PEER_READY ->
  wp (rds_ring_return_credit h) (fun _ => ring_step 0 h id w) w.
Proof.
  intros Hw Hp Hst. unfold rds_ring_return_credit. apply wp_bind. eapply wp_peer_deref; [exact Hp|].
  apply wp_bind, wp_modify, wp_bind, wp_post_rdma. intros r k' log'.
  match goal with |- context [set_net ?wm k' log'] => set (w1 := set_net wm k' log') end.
  assert (H1 : ring_step 0 h id w w1).
  { split_and!; [by apply wi_net, wi_mem|exact (moved_refl w)| |intros q Hq Hs; by exists q]. split; try done. intros x _ Hc.
    change (mem_write (w_mem w) (pe_credit_tx_addr p) (le_enc 8 (pe_rx_head p)) x = w_mem w x).
    apply mem_write_out. rewrite le_enc_length. intros Hx. apply Hc. exists h, p. split; [done|lia]. }
  assert (Hp1 : e_peers (w_ep w1) !! h = Some p) by done. assert (Hw1 : world_ok w1) by apply H1. clearbody w1.
  destruct (r =? 0); [|by apply wp_ret].
  eapply wp_mono; [apply (bump_step h _ id p); done|]. cbn beta. intros _ w2 [H2 _]. exact (step_trans 0 0 h id id _ _ _ H1 H2).
Qed.

(** ** One ring *)

Definition gen_at (e : rds_ep) (m : mem) (p : rds_peer) (head : Z) : Z :=
  le_dec (mem_read m (rds_slot_gen (slot_addr e p (u32 (head mod e_ring_slots e))) (e_ring_slot_size e)) 4).

Lemma poll_slot_step h slotp slots p w :
  world_ok w -> e_op_id (w_ep w) + 1 < 2 ^ 64 -> e_peers (w_ep w) !! h = Some p -> pe_state p = RDS_PEER_READY ->
  slot_sane (e_ring_slot_size (w_ep w)) (w_mem w) slotp ->
  wp (poll_slot h p slotp slots) (fun _ => ring_step 1 h (fun n => u64 (n + 1)) w) w.
Proof.
  intros Hw Hop Hp Hst Hsane. unfold poll_slot. apply wp_bind, wp_gets. cbn zeta.
  set (s := rds_ring_slot_of_bytes _). apply wp_bind.
  apply wp_mono with (Q := fun _ w' => ring_step 0 h id w w' /\ w_mem w' = w_mem w).
  { destruct (_ >? _); [|apply wp_ret; split; [by apply step_refl|done]].
    eapply wp_mono; [apply (bump_step h _ id p); done|]. cbn beta. intros _ w' (? & _ & ?). done. }
  intros _ w1 [H1 Em1]. destruct H1 as (Hw1 & Hm1 & Hpl1 & Hh1) eqn:E1. clear E1. destruct (Hh1 p Hp Hst) as (p1 & Hp1 & Hst1 & Eh1).
  apply wp_bind. unfold s. rewrite <- Em1. pose proof (pl_geo _ _ _ Hpl1) as Eg. unfold geo in Eg. injection Eg as G1 G2 G3 G4.
  eapply wp_mono; [apply (deliver_step h p1)|].
  { done. } { destruct Hm1 as [? _]. lia. } { done. } { by rewrite G2, Em1. }
  cbn beta. intros _ w2 H2. pose proof (step_trans 0 1 h id id _ _ _ (conj Hw1 (conj Hm1 (conj Hpl1 Hh1))) H2) as H12.
  destruct H12 as (Hw2 & Hm2 & Hpl2 & Hh2). destruct (Hh2 p Hp Hst) as (p2 & Hp2 & Hst2 & Eh2). cbn beta in Eh2.
  apply wp_bind. eapply wp_mono; [apply (bump_step h _ (fun n => u64 (n + 1)) p2); done|]. cbn beta. intros _ w3 (H3 & Hp3 & _).
  pose proof (step_trans 1 0 h (fun x => id (id x)) _ _ _ _ (conj Hw2 (conj Hm2 (conj Hpl2 Hh2))) H3) as H123.
  apply wp_bind. eapply wp_peer_deref; [exact Hp3|]. destruct (_ >=? _); [|apply wp_ret; exact H123].
  eapply wp_mono; [eapply (credit_step h); [apply H3|exact Hp3|exact Hst2]|]. cbn beta. intros _ w4 H4.
  exact (step_trans 1 0 h _ id _ _ _ H123 H4).
Qed.

Lemma gen_agree h w0 w p0 p head :
  0 < e_ring_slots (w_ep w0) < 2 ^ 31 -> RDS_RING_HDR_SIZE + RDS_RING_GEN_SIZE <= e_ring_slot_size (w_ep w0) ->
  ring_peer_ok w0 p0 -> polled h w0 w -> pe_rx_ring p = pe_rx_ring p0 ->
  gen_at (w_ep w) (w_mem w) p head = gen_at (w_ep w0) (w_mem w0) p0 head.
Proof.
  intros Hsl Hsz Hok Hpl Er. pose proof (pl_geo _ _ _ Hpl) as Eg. unfold geo in Eg. injection Eg as G1 G2 G3 G4.
  unfold gen_at, slot_addr, rds_slot_gen. rewrite G1, G2, Er. f_equal. apply mem_read_agree. intros x Hx.
  pose proof (Z.mod_pos_bound head (e_ring_slots (w_ep w0)) ltac:(lia)) as Hi. rewrite u32_small in Hx by lia.
  revert Hi Hx. generalize (head mod e_ring_slots (w_ep w0)). intros i Hi Hx.
  assert (Hin : in_ring (w_ep w0) p0 x).
  { unfold in_ring, RDS_RING_HDR_SIZE, RDS_RING_GEN_SIZE in *.
    pose proof (Z.mul_le_mono_nonneg_r (i + 1) (e_ring_slots (w_ep w0)) (e_ring_slot_size (w_ep w0)) ltac:(lia) ltac:(lia)).
    pose proof (Z.mul_nonneg_nonneg i (e_ring_slot_size (w_ep w0)) ltac:(lia) ltac:(lia)). lia. }
  apply (pl_mem _ _ _ Hpl); [by apply (rp_rx _ _ Hok)|by apply (rp_cell _ _ Hok)].
Qed.

Lemma poll_loop_spec fuel j h w0 p0 w p drained :
  let slots := e_ring_slots (w_ep w0) in
  0 < slots < 2 ^ 31 -> RDS_RING_HDR_SIZE + RDS_RING_GEN_SIZE <= e_ring_slot_size (w_ep w0) -> ring_peer_ok w0 p0 ->
  polled h w0 w -> world_ok w -> e_peers (w_ep w) !! h = Some p -> pe_state p = RDS_PEER_READY -> pe_rx_ring p = pe_rx_ring p0 ->
  pe_rx_head p = pe_rx_head p0 + j -> 0 <= j -> Z.of_nat fuel = slots - j ->
  (0 < j -> gen_at (w_ep w0) (w_mem w0) p0 (pe_rx_head p0) = ring_want slots (pe_rx_head p0)) ->
  e_op_id (w_ep w) + (slots - j) < 2 ^ 64 ->
  wp (poll_loop fuel h drained) (fun _ w' => world_ok w' /\ moved (slots - j) w w' /\ polled h w w' /\
    exists p', e_peers (w_ep w') !! h = Some p' /\ pe_state p' = RDS_PEER_READY) w.
Proof.
  intros slots Hsl Hsz Hok. assert (Hhd : RDS_RING_HDR_SIZE <= e_ring_slot_size (w_ep w0)) by (unfold RDS_RING_GEN_SIZE in Hsz; lia).
  pose proof (rp_head _ _ Hok) as Hhead. fold slots in Hhead.
  revert j w p drained. induction fuel as [|fuel IH]; intros j w p drained Hpl Hw Hp Hst Er Eh Hj Hf Hg Hop.
  all: pose proof (pl_geo _ _ _ Hpl) as Eg; unfold geo in Eg; injection Eg as G1 G2 G3 G4; fold slots in G1.
  all: pose proof (gen_agree h w0 w p0 p (pe_rx_head p) Hsl Hsz Hok Hpl Er) as Hgen.
  all: cbn [poll_loop]; apply wp_bind; eapply wp_peer_deref; [exact Hp|]; apply wp_bind, wp_ep_get, wp_bind, wp_ep_get.
  all: rewrite (proj2 (Z.eqb_neq (e_ring_slots (w_ep w)) 0)) by lia; cbn zeta; apply wp_bind, wp_gets.
  all: change (le_dec (mem_read _ _ 4)) with (gen_at (w_ep w) (w_mem w) p (pe_rx_head p));
    change (u32 (u32 (pe_rx_head p / e_ring_slots (w_ep w)) + 1)) with (ring_want (e_ring_slots (w_ep w)) (pe_rx_head p)); rewrite Hgen, G1.
  all: destruct (Z.eqb_spec (gen_at (w_ep w0) (w_mem w0) p0 (pe_rx_head p)) (ring_want slots (pe_rx_head p))) as [Em|Em]; cbn [negb].
  2, 4: apply wp_ret; split_and!; [done|eapply (moved_weaken 0); [apply moved_refl|lia]|apply polled_refl|by exists p].
  - exfalso. assert (j = slots) by lia. subst j. apply (want_lap slots (pe_rx_head p0)); [lia|].
    rewrite Eh in Em. rewrite <- Em, <- Hg by lia. unfold gen_at. fold slots.
    replace (pe_rx_head p0 + slots) with (pe_rx_head p0 + 1 * slots) by lia. by rewrite Z.mod_add by lia.
  - apply wp_bind. pose proof (Z.mod_pos_bound (pe_rx_head p) slots ltac:(lia)) as Hi.
    eapply wp_mono; [eapply (poll_slot_step h _ _ p w Hw ltac:(lia) Hp Hst)|].
    + pose proof (rp_slots _ _ (polled_ring_ok _ _ _ _ Hok Hhd Hpl) (u32 (pe_rx_head p mod slots))) as Hsane.
      rewrite G1 in Hsane. unfold slot_addr in Hsane. rewrite <- Er in Hsane. apply Hsane. rewrite u32_small; lia.
    + cbn beta. intros _ w1 (Hw1 & Hm1 & Hpl1 & Hh1). destruct (Hh1 p Hp Hst) as (p1 & Hp1 & Hst1 & Eh1).
      assert (Er1 : pe_rx_ring p1 = pe_rx_ring p0).
      { pose proof (pl_self _ _ _ Hpl1) as Es. rewrite Hp, Hp1 in Es. injection Es as Es1 _ _. congruence. }
      rewrite u64_small in Eh1 by lia.
      eapply wp_mono; [apply (IH (j + 1) w1 p1)|]; try done; try lia.
      * by eapply polled_trans.
      * intros _. destruct (decide (j = 0)) as [->|]; [rewrite Eh, Z.add_0_r in Em; exact Em|apply Hg; lia].
      * destruct Hm1 as [? _]. lia.
      * cbn beta. intros _ w2 (Hw2 & Hm2 & Hpl2 & Hx). split_and!; [done| |by eapply polled_trans|done].
        replace (slots - j) with (1 + (slots - (j + 1))) by lia. by eapply moved_trans.
Qed.

Lemma poll_peer_spec h p w :
  0 < e_ring_slots (w_ep w) < 2 ^ 31 -> RDS_RING_HDR_SIZE + RDS_RING_GEN_SIZE <= e_ring_slot_size (w_ep w) -> ring_peer_ok w p ->
  world_ok w -> e_peers (w_ep w) !! h = Some p -> pe_state p = RDS_PEER_READY -> e_op_id (w_ep w) + e_ring_slots (w_ep w) < 2 ^ 64 ->
  wp (rds_ring_poll_peer h) (fun _ w' => world_ok w' /\ moved (e_ring_slots (w_ep w)) w w' /\ polled h w w') w.
Proof.
  intros Hsl Hsz Hok Hw Hp Hst Hop. unfold rds_ring_poll_peer. apply wp_bind, wp_ep_get, wp_bind.
  eapply wp_mono; [apply (poll_loop_spec _ 0 h w p w p); try done; lia|].
  cbn beta. rewrite Z.sub_0_r. intros drained w1 (Hw1 & Hm1 & Hpl1 & p1 & Hp1 & Hst1).
  apply wp_bind. eapply wp_peer_deref; [exact Hp1|]. destruct (_ && _); [|by apply wp_ret].
  eapply wp_mono; [by eapply (credit_step h p1)|]. cbn beta. intros _ w2 (Hw2 & Hm2 & Hpl2 & _).
  split_and!; [done| |by eapply polled_trans]. rewrite <- (Z.add_0_r (e_ring_slots (w_ep w))). by eapply moved_trans.
Qed.

(** ** All rings *)

Lemma polled_ready h l w w' : (h ∉ l) -> polled h w w' -> ring_ready l w -> ring_ready l w'.
Proof.
  intros Hh Hpl (Hsl & Hsz & Hok). pose proof (pl_geo _ _ _ Hpl) as Eg. unfold geo in Eg. injection Eg as G1 G2 G3 G4.
  unfold ring_ready. rewrite G1, G2. refine (conj Hsl (conj Hsz _)). intros h' p Hin Hp Hst. apply (polled_ring_ok h w); [|unfold RDS_RING_GEN_SIZE in Hsz; lia|exact Hpl].
  apply (Hok h'); [done| |done]. rewrite <- (pl_other _ _ _ Hpl); [done|]. by intros ->.
Qed.

Lemma touched_ready l w w' : touched w w' -> ring_ready l w -> ring_ready l w'.
Proof.
  intros Ht (Hsl & Hsz & Hok). pose proof (touched_polled 0 w w' Ht) as Hpl. destruct Ht as (E & _). unfold ring_part in E.
  injection E as E1 E2 E3 E4 E5 E6 E7. unfold ring_ready. rewrite E1, E6, E7. refine (conj Hsl (conj Hsz _)). intros h p Hin Hp Hst.
  apply (polled_ring_ok 0 w); [by eapply Hok|unfold RDS_RING_GEN_SIZE in Hsz; lia|exact Hpl].
Qed.

Lemma progress_rings_spec l w :
  world_ok w -> NoDup l -> (forall h, h ∈ l -> is_Some (e_peers (w_ep w) !! h)) -> ring_ready l w ->
  e_op_id (w_ep w) + e_ring_slots (w_ep w) * Z.of_nat (length l) < 2 ^ 64 ->
  wp (ring_progress_loop l) (fun _ w' => world_ok w' /\ moved (e_ring_slots (w_ep w) * Z.of_nat (length l)) w w') w.
Proof.
  revert w. induction l as [|h l IH]; intros w Hw Hnd Hin Hr Hop; cbn [ring_progress_loop].
  { apply wp_ret. split; [done|]. cbn [length]. rewrite Z.mul_0_r. apply moved_refl. }
  apply NoDup_cons in Hnd as [Hh Hnd]. destruct (Hin h (list_elem_of_here _ _)) as [p Hp]. apply wp_bind.
  eapply wp_peer_deref; [exact Hp|]. destruct Hr as (Hsl & Hsz & Hok). cbn [length] in *.
  apply wp_bind. apply wp_mono with (Q := fun _ w' => world_ok w' /\ moved (e_ring_slots (w_ep w)) w w' /\ polled h w w').
  { destruct (bool_decide_reflect (pe_state p = RDS_PEER_READY)).
    - apply (poll_peer_spec h p); try done; [|lia]. apply (Hok h); [apply list_elem_of_here|done|done].
    - apply wp_ret. split_and!; [done|eapply (moved_weaken 0); [apply moved_refl|lia]|apply polled_refl]. }
  intros _ w1 (Hw1 & Hm1 & Hpl1). pose proof (pl_geo _ _ _ Hpl1) as Eg. unfold geo in Eg. injection Eg as G1 G2 G3 G4.
  eapply wp_mono; [apply IH|]; try done.
  - intros h' Hh'. rewrite (pl_other _ _ _ Hpl1); [by apply Hin, list_elem_of_further|]. by intros ->.
  - eapply polled_ready; [exact Hh|exact Hpl1|]. refine (conj Hsl (conj Hsz _)). intros h' q Hq. apply Hok. by apply list_elem_of_further.
  - destruct Hm1 as [? _]. rewrite G1. lia.
  - cbn beta. rewrite G1. intros _ w2 [Hw2 Hm2]. split; [done|].
    replace (e_ring_slots (w_ep w) * Z.of_nat (S (length l))) with (e_ring_slots (w_ep w) + e_ring_slots (w_ep w) * Z.of_nat (length l)) by lia.
    by eapply moved_trans.
Qed.

(** The rings are off, or may be polled. *)
Definition rings_sane w : Prop := e_eager_rdma (w_ep w) = false \/ ring_ready (e_peer_lru (w_ep w)) w.
(** Operations a pass over the rings can start. *)
Definition ring_ids w : Z :=
  if e_eager_rdma (w_ep w) then e_ring_slots (w_ep w) * Z.of_nat (length (e_peer_lru (w_ep w))) else 0.

Lemma ring_ids_pos w : rings_sane w -> 0 <= ring_ids w.
Proof. unfold ring_ids. intros [-> |((? & _) & _)]; [done|]. destruct (e_eager_rdma _); lia. Qed.

Lemma touched_sane w w' : touched w w' -> rings_sane w -> rings_sane w' /\ ring_ids w' = ring_ids w.
Proof.
  intros Ht Hs. pose proof Ht as (E & _). unfold ring_part in E. injection E as E1 E2 E3 E4 E5 E6 E7.
  unfold ring_ids, rings_sane. rewrite E3, E5, E6. split; [|done]. destruct Hs as [Hs|Hs]; [by left|right]. by eapply touched_ready.
Qed.

Lemma ring_progress_spec w :
  world_ok w -> rings_sane w -> e_op_id (w_ep w) + ring_ids w < 2 ^ 64 ->
  wp rds_ring_progress (fun _ w' => world_ok w' /\ moved (ring_ids w) w w') w.
Proof.
  intros Hw Hr Hop. pose proof (ring_ids_pos w Hr) as Hpos. unfold rds_ring_progress. apply wp_bind, wp_ep_get, wp_bind, wp_ep_get.
  assert (H0 : moved (ring_ids w) w w) by (eapply (moved_weaken 0); [apply moved_refl|done]). unfold ring_ids in *.
  destruct (e_eager_rdma (w_ep w)) eqn:Er; cbn [negb orb]; [|by apply wp_ret]. destruct (_ =? 0); [by apply wp_ret|].
  destruct Hr as [Hr|Hr]; [congruence|]. apply wp_bind, wp_ep_get. pose proof (wi_peers _ _ _ _ Hw) as Hpe.
  apply progress_rings_spec; [done|exact (pr_lru _ _ _ _ _ _ _ _ Hpe)| |exact Hr|exact Hop].
  intros h Hh. by apply (pr_lru_in _ _ _ _ _ _ _ _ Hpe).
Qed.
End RingPoll.
