(* ===== verification/SafetyTx.v ===== *)
(** * The invariant is preserved: the send side

    Registration of rendezvous sources, the eager and rendezvous senders,
    the generic send and inject entry points, and one-sided RMA. *)

From stdpp Require Import sorting.
From S2P Require Import Prelude Iov Wire Config Kernel Cq CqFifo Av MrCache MrCacheInv State Mr.
From S2P Require Import MrInv Pending Ring Msg Pres Frame Inv Rules PendInv Safety SafetyRing Rma.
From S2P Require Import Segments.

Section SafetyTx.
Context {K : Type} `{!Kernel K} `{!MrAgainEnds K}.
Implicit Types w : world K.

(** ** The completions of a ring send *)

(** The queues and which of them the endpoint reports to. *)
Definition cq_part w := (w_cqs w, e_tx_cq (w_ep w), e_rx_cq (w_ep w), e_caps (w_ep w)).

Lemma cq_part_ok w w' : cq_part w' = cq_part w -> cqs_ok w -> cqs_ok w'.
Proof. unfold cq_part, cqs_ok. by intros [= -> -> -> ->]. Qed.

Lemma wlp_quiet_bind {A B} (m : St K A) (k : A -> St K B) Q w :
  pres cq_part m -> (forall a w1, cq_part w1 = cq_part w -> wlp (k a) Q w1) -> wlp (bind m k) Q w.
Proof. intros Hm Hk. apply wlp_bind. eapply wlp_mono; [apply Hm|]. cbn beta. intros a w1. apply Hk. Qed.

Lemma quiet_mr_put o : pres cq_part (rds_mr_put o).
Proof. unfold rds_mr_put, rds_kernel_free, sys_free_mr. pres. Qed.
Lemma quiet_ring_reg a n sa : pres cq_part (ring_reg a n sa).
Proof. unfold ring_reg, rds_reg_internal, rds_kernel_reg, rds_kernel_free, sys_free_mr. pres. Qed.
#[local] Hint Resolve quiet_mr_put quiet_ring_reg : pres.
Lemma quiet_peer_create addr : pres cq_part (rds_peer_create addr).
Proof. unfold rds_peer_create, rds_av_addr, av_addrlen_get, write_mem. pres. Qed.
Lemma quiet_refresh h : pres cq_part (rds_ring_refresh_credit h).
Proof. unfold rds_ring_refresh_credit, peer_deref, read_mem, peer_upd. pres. Qed.
Lemma quiet_peer_deref h : pres cq_part (peer_deref h).
Proof. unfold peer_deref. pres. Qed.
Lemma quiet_peer_upd h f : pres cq_part (peer_upd h f).
Proof. unfold peer_upd. pres. Qed.
Lemma quiet_send_ctrl h op : pres cq_part (rds_ring_send_ctrl h op).
Proof. unfold rds_ring_send_ctrl, mr_cookie_of, peer_deref. pres. Qed.
Lemma quiet_post_rdma sa len c o iov wr n t : pres cq_part (rds_post_rdma sa len c o iov wr n t).
Proof. unfold rds_post_rdma. pres. Qed.
#[local] Hint Resolve quiet_peer_create quiet_refresh quiet_peer_deref quiet_peer_upd quiet_send_ctrl quiet_post_rdma : pres.

(** The completion queues after a send that reports its end at once when
    [gen] is set and it succeeds. *)
Definition tx_reported (gen : bool) (context flags len r : Z) w w' : Prop :=
  if gen && (r =? 0) then posted K (w_cqs w) (e_tx_cq (w_ep w)) (comp_of context flags len 0 0 0) None (w_cqs w')
  else w_cqs w' = w_cqs w.

Lemma reported_refused gen context flags len r w w' : r <> 0 -> cq_part w' = cq_part w -> tx_reported gen context flags len r w w'.
Proof. intros Hr [= E _ _ _]. unfold tx_reported. by rewrite (proj2 (Z.eqb_neq r 0)), andb_false_r by done. Qed.

Lemma connect_refuses h w : wlp (ring_send_connect h) (fun r w' => r <> 0 /\ cq_part w' = cq_part w) w.
Proof.
  unfold ring_send_connect. apply wlp_quiet_bind; [pres|]. intros p w1 E1.
  destruct (pe_state p); [| | |by apply wlp_ret].
  all: apply wlp_quiet_bind; [pres|]; intros _ w2 E2; apply wlp_quiet_bind; [pres|]; intros now w3 E3;
    apply wlp_quiet_bind; [pres|]; intros p4 w4 E4; destruct (_ >? _); [|apply wlp_ret; split; [done|congruence]];
    apply wlp_quiet_bind; [pres|]; intros _ w5 E5; apply wlp_ret; split; [done|congruence].
Qed.

Lemma send_ready_reports h src len tag data context flags tagged gen op w :
  cqs_ok w ->
  wlp (ring_send_ready h src len tag data context flags tagged gen op) (fun r w' => tx_reported gen context (tx_comp_flags tagged) len r w w') w.
Proof.
  intros Hw. unfold ring_send_ready. apply wlp_quiet_bind; [pres|]. intros _ w1 E1. apply wlp_quiet_bind; [pres|]. intros p w2 E2.
  destruct (_ >=? _); [apply wlp_ret, reported_refused; [done|congruence]|]. destruct (_ =? 0); [done|].
  do 6 (apply wlp_quiet_bind; [unfold read_mem, write_mem; pres|]; intros ? ? ?).
  apply wlp_quiet_bind; [pres|]. intros r wa Ea. destruct (Z.eqb_spec r 0) as [->|Hr]; cbn [negb]; [|apply wlp_ret, reported_refused; [done|congruence]].
  apply wlp_quiet_bind; [pres|]. intros _ wb Eb. assert (E : cq_part wb = cq_part w) by congruence. apply wlp_bind. destruct gen.
  - apply wlp_of_wp, wp_cq_write_tx; [by eapply cq_part_ok|apply tx_flags_ok|]. intros cqs k' Hpo. apply wp_ret.
    unfold tx_reported. cbn. unfold cq_part in E. by injection E as <- <- _ _.
  - apply wlp_ret, wlp_ret. unfold tx_reported, cq_part in *. cbn. congruence.
Qed.

Lemma ring_send_reports src dest tag data context flags tagged gen op w :
  cqs_ok w ->
  wlp (rds_ring_send src dest tag data context flags tagged gen op)
    (fun r w' => tx_reported gen context (tx_comp_flags tagged) (ring_src_len src) r w w') w.
Proof.
  intros Hw. unfold rds_ring_send. apply wlp_quiet_bind; [pres|]. intros rdma w1 E1. destruct (negb rdma); [by apply wlp_ret, reported_refused|].
  cbn zeta. apply wlp_quiet_bind; [pres|]. intros cap w2 E2. destruct (_ >? _); [apply wlp_ret, reported_refused; [done|congruence]|].
  apply wlp_quiet_bind; [unfold rds_peer_find; pres|]. intros found w3 E3. apply wlp_quiet_bind; [pres|]. intros peer w4 E4.
  destruct peer as [h|]; [|apply wlp_ret, reported_refused; [done|congruence]].
  apply wlp_quiet_bind; [pres|]. intros _ w5 E5. apply wlp_quiet_bind; [pres|]. intros p w6 E6. assert (E : cq_part w6 = cq_part w) by congruence.
  destruct (bool_decide _).
  - eapply wlp_mono; [apply send_ready_reports; by eapply cq_part_ok|]. cbn beta. intros r w7. unfold tx_reported. unfold cq_part in E.
    by injection E as -> -> _ _.
  - eapply wlp_mono; [apply connect_refuses|]. cbn beta. intros r w7 [Hr E7]. apply reported_refused; [done|congruence].
Qed.

(** ** Ownership of a rendezvous source *)

(** Nothing happened to the operations, the receive queues and the
    completion queues. *)
Definition quietly w w' : Prop := kept w w' /\ w_cqs w' = w_cqs w.

(** ... and nothing was handed to the socket, nor a counter, a reference or
    a binding changed. *)
Definition cntr_part w := (w_cntrs w, e_cntrs (w_ep w), e_cntr_lists (w_ep w)).
Definition obj_part w := (w_obj w, w_live w, (e_tx_cq (w_ep w), e_rx_cq (w_ep w), e_av (w_ep w), e_ref (w_ep w), caching w)).
Definition seen w := (w_log w, (cntr_part w, obj_part w)).
Definition silent w w' : Prop := quietly w w' /\ seen w' = seen w.

Lemma quietly_trans w1 w2 w3 : quietly w1 w2 -> quietly w2 w3 -> quietly w1 w3.
Proof. intros [? ?] [? ?]. split; [by eapply kept_trans|congruence]. Qed.
Lemma silent_trans w1 w2 w3 : silent w1 w2 -> silent w2 w3 -> silent w1 w3.
Proof. intros [? ?] [? ?]. split; [by eapply quietly_trans|congruence]. Qed.

(** The regions in hand, as registrations or as cache entries. *)
Definition in_mrs (cached : bool) (l : list Z) : list Z := if cached then [] else l.
Definition in_cmrs (cached : bool) (l : list Z) : list Z := if cached then l else [].

Lemma wi_perm xm xc xp xm' xc' w :
  world_inv xm xc xp w -> xm ≡ₚ xm' -> xc ≡ₚ xc' -> world_inv xm' xc' xp w.
Proof.
  intros [H1 H2 H3 H4 H5 H6 H7 [ot H8] H9 H10 H11] Em Ec. split; auto; [by rewrite <- Em|].
  exists ot. by rewrite <- Ec.
Qed.

(** The operation under construction takes over what is in hand. *)
Lemma wi_give xm xc w l1 p l2 p' :
  world_inv xm xc (Some (p_id p)) w -> e_pending (w_ep w) = l1 ++ p :: l2 -> pend_mrs p = [] -> pend_cmrs p = [] ->
  p_id p' = p_id p -> p_type p' = p_type p -> p_seg_deferred p' = p_seg_deferred p -> pend_ok p' ->
  pend_mrs p' = xm -> pend_cmrs p' = xc ->
  world_inv [] [] (Some (p_id p)) (set_pend w (l1 ++ p' :: l2)).
Proof.
  intros Hw E Em Ec Hid Hty Hd Hp' <- <-. eapply wi_rebuild; [exact Hw|done..| | | |].
  - by eapply cqs_ok_bound; [..|exact (wi_cqs _ _ _ _ Hw)].
  - by eapply (pends_set (wi_pend _ _ _ _ Hw)); [exact E|done..|left].
  - pose proof (wi_mrs _ _ _ _ Hw) as Hm. rewrite E, all_pend_mrs_mid, Em in Hm. unfold set_pend. w_simpl.
    by rewrite all_pend_mrs_mid, <- app_assoc.
  - destruct (wi_cache _ _ _ _ Hw) as [ot Hc]. exists ot. rewrite E, all_pend_cmrs_mid, Ec in Hc. unfold set_pend. w_simpl.
    by rewrite all_pend_cmrs_mid, <- app_assoc.
Qed.

(** ... and gives it back when it is dropped. *)
Lemma wi_give_back w l1 p l2 :
  world_inv [] [] (Some (p_id p)) w -> e_pending (w_ep w) = l1 ++ p :: l2 -> p_seg_deferred p = 0 ->
  world_inv (pend_mrs p) (pend_cmrs p) None (set_pend w (l1 ++ l2)).
Proof.
  intros Hw E Hd. pose proof (pends_remove (wi_pend _ _ _ _ Hw) _ _ _ E Hd (or_intror eq_refl)) as Hrm.
  rewrite decide_False, Z.sub_0_r in Hrm by (unfold counted; tauto).
  eapply wi_rebuild; [exact Hw|done..| |exact Hrm| |].
  - by eapply cqs_ok_bound; [..|exact (wi_cqs _ _ _ _ Hw)].
  - pose proof (wi_mrs _ _ _ _ Hw) as Hm. by rewrite E, all_pend_mrs_mid, <- app_assoc in Hm.
  - destruct (wi_cache _ _ _ _ Hw) as [ot Hc]. exists ot. by rewrite E, all_pend_cmrs_mid, <- app_assoc in Hc.
Qed.

(** The send is counted in flight. *)
Lemma wi_launch w l1 p l2 :
  world_inv [] [] (Some (p_id p)) w -> e_pending (w_ep w) = l1 ++ p :: l2 -> p_type p = RDS_PEND_RNDZV_TX ->
  e_rndzv_tx_inflight (w_ep w) + 1 < 2 ^ 32 ->
  world_ok (w <| w_ep ::= fun e => e <| e_rndzv_tx_inflight ::= incr32 |> |>).
Proof.
  intros Hw E Ht Hlt. pose proof (wi_pend _ _ _ _ Hw) as Hpn.
  pose proof (pends_settle Hpn _ _ _ E eq_refl ltac:(by unfold pend_busy; rewrite Ht)) as Hst. rewrite Ht in Hst.
  assert (0 <= e_rndzv_tx_inflight (w_ep w)) by (rewrite (pn_inflight _ _ _ _ _ Hpn); lia).
  eapply wi_rebuild; [exact Hw|done..| | |exact (wi_mrs _ _ _ _ Hw)|exact (wi_cache _ _ _ _ Hw)].
  - by eapply cqs_ok_bound; [..|exact (wi_cqs _ _ _ _ Hw)].
  - w_simpl. unfold incr32. by rewrite u32_small by lia.
Qed.

(** One chunk. *)
Lemma register_one_spec (cached : bool) c dest destlen mrs w :
  world_inv (in_mrs cached mrs) (in_cmrs cached mrs) None w ->
  wp (if cached then rds_reg_cache_get (iov_base c) (iov_len c) dest destlen
      else
        r <- rds_reg_internal (e_self (w_ep w)) (iov_base c) (iov_len c) FI_REMOTE_READ (Some dest) ;;
        match r with
        | inl err => ret (inl (if err =? 0 then - FI_ENOMEM else err))
        | inr h => cookie <- mr_cookie_of (Some h) ;; ret (inr (cookie, h))
        end)
     (fun r w' => silent w w' /\
        match r with
        | inl e => e <> 0 /\ world_inv (in_mrs cached mrs) (in_cmrs cached mrs) None w'
        | inr (_, h) => world_inv (in_mrs cached (mrs ++ [h])) (in_cmrs cached (mrs ++ [h])) None w'
        end) w.
Proof.
  intros Hw. destruct cached; cbn [in_mrs in_cmrs] in *.
  - destruct (wi_cache _ _ _ _ Hw) as [ot Hc]. eapply wp_reg_cache_get; [exact (wi_reg _ _ _ _ Hw)|exact Hc|].
    intros r c' rd rl k' Hg _. split; [done|]. destruct r as [e|[cookie h]].
    + destruct Hg as [He Hg]. split; [done|]. eapply wi_rebuild; [exact Hw|done..| |apply Hw|apply Hw|by exists ot].
      by eapply cqs_ok_bound; [..|exact (wi_cqs _ _ _ _ Hw)].
    + destruct Hg as [Hg _]. eapply wi_perm; [|reflexivity|apply Permutation_cons_append].
      eapply wi_rebuild; [exact Hw|done..| |apply Hw|apply Hw|by exists ot].
      by eapply cqs_ok_bound; [..|exact (wi_cqs _ _ _ _ Hw)].
  - apply wp_bind, wp_reg_internal; [apply Hw|..].
    + intros err k'. apply wp_ret. split; [done|]. split; [|by apply wi_k].
      destruct (err =? 0) eqn:Ez; [done|]. by apply Z.eqb_neq.
    + intros cookie k' _. apply wp_bind. eapply wp_mr_cookie_of; [unfold new_mr; w_simpl; apply lookup_insert_eq|].
      apply wp_ret. split; [done|]. eapply wi_perm; [|apply Permutation_cons_append|reflexivity].
      eapply wi_rebuild; [exact Hw|done..| |apply Hw| |apply Hw].
      * by eapply cqs_ok_bound; [..|exact (wi_cqs _ _ _ _ Hw)].
      * apply mrs_ok_new; [exact (wi_mrs _ _ _ _ Hw)|done|done].
Qed.

Lemma register_spec cached chunks dest destlen segs mrs w :
  world_inv (in_mrs cached mrs) (in_cmrs cached mrs) None w ->
  wp (rndzv_register cached chunks dest destlen segs mrs)
     (fun '(err, segs', mrs') w' => world_inv (in_mrs cached mrs') (in_cmrs cached mrs') None w' /\ silent w w' /\
        (err = 0 -> length mrs' = (length mrs + length chunks)%nat)) w.
Proof.
  revert segs mrs w. induction chunks as [|c chunks IH]; intros segs mrs w Hw; cbn [rndzv_register].
  { apply wp_ret. split_and!; [done..|]. cbn. lia. }
  apply wp_bind, wp_ep_get, wp_bind. eapply wp_mono; [by apply register_one_spec|]. cbn beta.
  intros [e|[cookie h]] w1 [Hk1 Hr].
  - apply wp_ret. destruct Hr as [He Hw1]. split_and!; [done..|]. intros ->. done.
  - eapply wp_mono; [by apply IH|]. cbn beta. intros [[err segs'] mrs'] w2 (Hw2 & Hk2 & Hlen). split_and!; [done|by eapply silent_trans|].
    intros He. rewrite (Hlen He), length_app. cbn. lia.
Qed.

Lemma unregister_spec cached mrs w :
  world_inv (in_mrs cached mrs) (in_cmrs cached mrs) None w ->
  wp (rndzv_unregister cached mrs) (fun _ w' => world_ok w' /\ quietly w w') w.
Proof.
  intros Hw. destruct cached; cbn [in_mrs in_cmrs rndzv_unregister] in *.
  - destruct (wi_cache _ _ _ _ Hw) as [ot Hc]. eapply wp_cache_put_all; [exact (wi_reg _ _ _ _ Hw)|exact Hc|].
    intros c k' Hc'. split; [|done]. eapply wi_rebuild; [exact Hw|done..| |apply Hw|apply Hw|by exists ot].
    by eapply cqs_ok_bound; [..|exact (wi_cqs _ _ _ _ Hw)].
  - eapply wp_mr_put_all; [apply Hw|exact (wi_mrs _ _ _ _ Hw)|]. intros k' mrs' Hm. split; [|done].
    eapply wi_rebuild; [exact Hw|done..| |apply Hw|exact Hm|apply Hw].
    by eapply cqs_ok_bound; [..|exact (wi_cqs _ _ _ _ Hw)].
Qed.

(** ** Senders *)

(** An eager send that may report its end. *)
Lemma send_eager_spec iov dest destlen tag data context flags tagged gen_comp w :
  world_ok w ->
  wp (rds_send_eager iov dest destlen tag data context flags tagged gen_comp) (fun r w' => world_ok w' /\ kept w w' /\
    tx_reported gen_comp context (tx_comp_flags tagged) (ofi_total_iov_len iov) r w w') w.
Proof.
  intros Hw. unfold rds_send_eager. cbn zeta. apply wp_bind, wp_gets, wp_bind, wp_sys_sendmsg. intros errno k'.
  match goal with |- wp _ _ ?w1 => assert (Hw1 : world_ok w1) by (by apply (wi_net [] [] None w)) end.
  destruct (Z.eqb_spec errno 0) as [->|Hne]; cbn [negb].
  - apply wp_bind. destruct gen_comp; [|by apply wp_ret, wp_ret].
    apply wp_cq_write_tx; [apply Hw1|apply tx_flags_ok|]. intros cqs k2 Hpo. apply wp_ret. split; [by eapply wi_posted|]. split; [done|exact Hpo].
  - apply wp_ret. split_and!; [done|done|]. apply reported_refused; [|done]. intros H0. apply Hne. by apply send_status_zero.
Qed.

Lemma send_rts_spec xm xc xp rts dest destlen dest_addr w :
  world_inv xm xc xp w ->
  wp (rndzv_send_rts rts dest destlen dest_addr) (fun _ w' => world_inv xm xc xp w' /\ quietly w w') w.
Proof.
  intros Hw. unfold rndzv_send_rts. apply wp_bind, wp_ep_get, wp_bind.
  apply wp_mono with (Q := fun _ w' => world_inv xm xc xp w' /\ quietly w w').
  { destruct (e_eager_rdma _); [|by apply wp_ret]. eapply wp_mono; [eapply (wp_wlp _ _ _ w); [by apply ring_send_spec|apply ring_send_reports, Hw]|].
    cbn beta. intros r w1 [[H1 H2] H3]. by split. }
  intros r w1 [Hw1 Hk1]. destruct (negb _); [by apply wp_ret|].
  apply wp_bind, wp_sys_sendmsg. intros errno k'. apply wp_ret. split; [|exact Hk1]. by apply (wi_net xm xc xp w1).
Qed.

(** The call had no effect on operations and completions, or left the
    operation [p] waiting for its FIN. *)
Definition unstarted w w' : Prop :=
  e_pending (w_ep w') = e_pending (w_ep w) /\ e_rndzv_tx_inflight (w_ep w') = e_rndzv_tx_inflight (w_ep w) /\ w_cqs w' = w_cqs w.
Definition started (p : rds_pending) w w' : Prop :=
  e_pending (w_ep w') = e_pending (w_ep w) ++ [p] /\ e_rndzv_tx_inflight (w_ep w') = e_rndzv_tx_inflight (w_ep w) + 1 /\ w_cqs w' = w_cqs w.

Lemma unstarted_refl w : unstarted w w.
Proof. done. Qed.
Lemma quietly_unstarted w w' : quietly w w' -> unstarted w w'.
Proof. intros [(E & _) Ec]. unfold pends_of in E. injection E as E1 E2 E3 E4. done. Qed.
Lemma quietly_moved w w' : quietly w w' -> moved 0 w w'.
Proof. intros [H _]. by apply kept_moved. Qed.

(** A rendezvous send in the making. *)
Definition rndzv_tx_of (context fl len : Z) (gen : bool) (p : rds_pending) : Prop :=
  p_type p = RDS_PEND_RNDZV_TX /\ p_context p = context /\ p_flags p = fl /\ p_len p = len /\ p_no_comp p = negb gen /\ p_error p = 0.

Definition rndzv_outcome (context fl len : Z) (gen : bool) (r : Z) w w' : Prop :=
  if r =? 0 then exists p, rndzv_tx_of context fl len gen p /\ started p w w' else unstarted w w'.

(** Dropping an operation under construction and what it took over. *)
Lemma drop_spec cached mrs id l1 p l2 (r : Z) w :
  world_inv [] [] (Some id) w -> e_pending (w_ep w) = l1 ++ p :: l2 -> p_id p = id -> p_seg_deferred p = 0 ->
  pend_mrs p = in_mrs cached mrs -> pend_cmrs p = in_cmrs cached mrs ->
  wp (pend_remove id ;;; rndzv_unregister cached mrs ;;; ret r) (fun r' w' => r' = r /\ world_ok w' /\ moved 0 w w' /\
    unstarted (set_pend w (l1 ++ l2)) w') w.
Proof.
  intros Hw E Hid Hd Em Ec. destruct (pends_split (wi_pend _ _ _ _ Hw) _ _ _ E) as [Hl1 _]. rewrite Hid in Hl1.
  apply wp_bind. eapply wp_pend_remove; [exact E|done..|]. apply wp_bind. eapply wp_mono.
  { apply unregister_spec. rewrite <- Em, <- Ec. rewrite <- Hid in Hw. by apply (wi_give_back w l1 p l2). }
  cbn beta. intros _ w1 [Hw1 Hk1]. apply wp_ret. split_and!; [done|done|exact (kept_moved _ _ (proj1 Hk1))|by apply quietly_unstarted].
Qed.

(** From the allocated operation to the end of the call. *)
Lemma rndzv_launch_spec (cached gen_comp : bool) iov mrs id context fl (rts : list Z) dest destlen dest_addr l1 w :
  world_inv (in_mrs cached mrs) (in_cmrs cached mrs) (Some id) w ->
  e_pending (w_ep w) = l1 ++ pending_init id RDS_PEND_RNDZV_TX context fl :: [] -> Forall (fun x => p_id x <> id) l1 ->
  has fl UTIL_FLAG_AUX = false -> Z.of_nat (length mrs) = rndzv_nseg iov -> iov_ok iov ->
  e_rndzv_tx_inflight (w_ep w) + 1 < 2 ^ 32 ->
  wp (pend_upd id (fun p =>
        p <| p_len := ofi_total_iov_len iov |>
          <| p_mrs := if (cached : bool) then None else Some mrs |>
          <| p_cmrs := if cached then Some mrs else None |>
          <| p_mr_cnt := u64 (rndzv_nseg iov) |> <| p_no_comp := negb gen_comp |>) ;;;
      r <- rndzv_send_rts rts dest destlen dest_addr ;;
      if negb (r =? 0) then pend_remove id ;;; rndzv_unregister cached mrs ;;; ret r
      else ep_upd (fun e => e <| e_rndzv_tx_inflight ::= incr32 |>) ;;; ret 0)
     (fun r w' => world_ok w' /\ moved 0 w w' /\ rndzv_outcome context fl (ofi_total_iov_len iov) gen_comp r (set_pend w l1) w') w.
Proof.
  intros Hw E Hfr Hfl Hlen Hiov Hin. apply wp_bind. eapply wp_pend_upd; [exact E|done|done|].
  match goal with |- wp _ _ (set_pend w (_ ++ ?q :: _)) => set (p' := q) end.
  assert (Hown : pend_mrs p' = in_mrs cached mrs /\ pend_cmrs p' = in_cmrs cached mrs) by (by destruct cached).
  destruct Hown as [Hom Hoc].
  assert (Hw3 : world_inv [] [] (Some id) (set_pend w (l1 ++ p' :: []))).
  { eapply (wi_give _ _ w _ (pending_init id RDS_PEND_RNDZV_TX context fl)); [exact Hw|exact E|done..| |done|done].
    split; try done. rewrite Hom, Hoc. change (p_mr_cnt p') with (u64 (rndzv_nseg iov)).
    rewrite u64_small by (by apply nseg_small). rewrite <- Hlen. destruct cached; cbn; by rewrite ?app_nil_r. }
  assert (Hm3 : moved 0 w (set_pend w (l1 ++ p' :: []))) by exact (moved_refl w).
  assert (Hin3 : e_rndzv_tx_inflight (w_ep (set_pend w (l1 ++ p' :: []))) = e_rndzv_tx_inflight (w_ep w) /\
    w_cqs (set_pend w (l1 ++ p' :: [])) = w_cqs w) by done.
  set (w3 := set_pend w (_ ++ _)) in *. assert (E3 : e_pending (w_ep w3) = l1 ++ p' :: []) by done.
  clearbody w3. destruct Hin3 as [Hin3 Hc3]. apply wp_bind. eapply wp_mono; [by apply send_rts_spec|]. cbn beta. intros r w4 [Hw4 Hk4].
  pose proof (quietly_unstarted _ _ Hk4) as (E4 & I4 & C4). rewrite E3 in E4.
  pose proof (moved_trans 0 0 _ _ _ Hm3 (quietly_moved _ _ Hk4)) as Hm4. destruct (Z.eqb_spec r 0) as [->|Hr]; cbn [negb].
  - apply wp_bind, wp_ep_upd, wp_ret. split; [|split; [exact Hm4|]]; [eapply (wi_launch w4 l1 p'); [exact Hw4|exact E4|done|lia]|].
    assert (0 <= e_rndzv_tx_inflight (w_ep w4)) by (rewrite (pn_inflight _ _ _ _ _ (wi_pend _ _ _ _ Hw4)); lia).
    exists p'. split; [done|]. split_and!; [exact E4| |].
    + change (incr32 (e_rndzv_tx_inflight (w_ep w4)) = e_rndzv_tx_inflight (w_ep w) + 1). unfold incr32. rewrite u32_small; lia.
    + change (w_cqs w4 = w_cqs w). congruence.
  - eapply wp_mono; [eapply (drop_spec cached mrs id); [exact Hw4|exact E4|done..]|]. cbn beta. intros ? w5 (-> & Hw5 & Hm5 & E5 & I5 & C5).
    split; [done|]. split; [exact (moved_trans 0 0 _ _ _ Hm4 Hm5)|]. unfold rndzv_outcome. rewrite (proj2 (Z.eqb_neq r 0)) by done.
    rewrite app_nil_r in E5. split_and!; [exact E5| |]; unfold set_pend in *; cbn in *; congruence.
Qed.

Lemma send_rndzv_spec iov dest destlen tag data context flags tagged gen_comp dest_addr w :
  world_ok w -> e_op_id (w_ep w) + 1 < 2 ^ 64 -> iov_ok iov ->
  wp (rds_send_rndzv iov dest destlen tag data context flags tagged gen_comp dest_addr)
     (fun r w' => world_ok w' /\ moved 1 w w' /\ rndzv_outcome context (tx_comp_flags tagged) (ofi_total_iov_len iov) gen_comp r w w') w.
Proof.
  intros Hw Hop Hiov. assert (H01 : forall w', moved 0 w w' -> moved 1 w w') by (intros w' ?; by eapply (moved_weaken 0); [|lia]).
  assert (Hno : forall r w', r <> 0 -> quietly w w' -> moved 1 w w' /\ rndzv_outcome context (tx_comp_flags tagged) (ofi_total_iov_len iov) gen_comp r w w').
  { intros r w' Hr Hq. split; [by apply H01, quietly_moved|]. unfold rndzv_outcome. rewrite (proj2 (Z.eqb_neq r 0)) by done. by apply quietly_unstarted. }
  unfold rds_send_rndzv. apply wp_bind, wp_ep_get, wp_bind, wp_gets.
  destruct (_ >=? _) eqn:Einf; [apply wp_ret; split; [done|by apply Hno]|].
  apply wp_bind, wp_gets. cbn zeta. destruct (u64 (u64 _ * _) >? _); [apply wp_ret; split; [done|by apply Hno]|].
  apply wp_bind, wp_sys_alloc. intros a1 k1. apply wp_bind, wp_sys_alloc. intros a2 k2.
  match goal with |- wp _ _ ?wg => assert (Hwg : world_ok wg) by (by do 2 apply wi_k);
    assert (Hkg : quietly w wg) by done; set (w0 := wg) in * end.
  set (cached := d_cache_enabled (w_dom w)) in *. clearbody cached w0.
  destruct a1; [|apply wp_ret; split; [done|by apply Hno]]. destruct a2; [|apply wp_ret; split; [done|by apply Hno]].
  apply wp_bind. eapply wp_mono; [apply (register_spec cached _ _ _ [] []); by destruct cached|]. cbn beta.
  intros [[err segs] mrs] w1 (Hw1 & [Hk1 _] & Hlen). pose proof (quietly_trans _ _ _ Hkg Hk1) as Hk01. clear Hk1 Hkg.
  assert (Hfail : forall (r : Z) w2, r <> 0 -> world_inv (in_mrs cached mrs) (in_cmrs cached mrs) None w2 -> quietly w w2 ->
    wp (rndzv_unregister cached mrs ;;; ret r) (fun r w' => world_ok w' /\ moved 1 w w' /\
      rndzv_outcome context (tx_comp_flags tagged) (ofi_total_iov_len iov) gen_comp r w w') w2).
  { intros r w2 Hr Hw2 Hk2. apply wp_bind. eapply wp_mono; [by apply unregister_spec|]. cbn beta. intros _ w3 [Hw3 Hk3].
    apply wp_ret. split; [done|]. apply Hno; [done|]. by eapply quietly_trans. }
  destruct (Z.eqb_spec err 0) as [->|Hne]; cbn [negb]; [|by apply Hfail]. specialize (Hlen eq_refl).
  destruct (quietly_unstarted _ _ Hk01) as (P1 & I1 & C1). pose proof (proj1 (quietly_moved _ _ Hk01)) as Hop1.
  apply wp_bind, (alloc_spec (in_mrs cached mrs) (in_cmrs cached mrs)); [done|lia|apply tx_flags_ok|..].
  { intros k'. apply Hfail; [done|by apply wi_k|exact Hk01]. }
  intros w2 id Hw2 Hm2 _ _ _ E2 Hfr Hin2 Hcq2 _.
  eapply wp_mono; [eapply (rndzv_launch_spec cached gen_comp iov mrs id); [exact Hw2|exact E2|exact Hfr|apply tx_flags_ok| |exact Hiov|]|].
  - rewrite <- (proj1 (rndzv_chunks_spec iov (proj1 Hiov))). cbn [length] in Hlen. lia.
  - pose proof (wi_cfg _ _ _ _ Hw). lia.
  - cbn beta. intros r w3 (Hw3 & Hm3 & Ho). split_and!; [done| |].
    + exact (moved_trans 1 0 _ _ _ (moved_trans 0 1 _ _ _ (quietly_moved _ _ Hk01) Hm2) Hm3).
    + revert Ho. unfold rndzv_outcome, started, unstarted, set_pend. cbn. by rewrite P1, Hin2, I1, Hcq2, C1.
Qed.

(** ** Entry points *)

(** What the result of a send means: refused without a trace; or accepted,
    and then either finished, with the completion that was asked for, or
    waiting for its FIN. *)
Definition send_outcome (context fl len : Z) (gen : bool) (r : Z) w w' : Prop :=
  if r =? 0 then
    (e_pending (w_ep w') = e_pending (w_ep w) /\ e_rndzv_tx_inflight (w_ep w') = e_rndzv_tx_inflight (w_ep w) /\
     tx_reported gen context fl len 0 w w') \/
    exists p, rndzv_tx_of context fl len gen p /\ started p w w'
  else unstarted w w'.

Lemma outcome_at_once context fl len gen r w w1 w' :
  quietly w w1 -> kept w1 w' -> tx_reported gen context fl len r w1 w' -> send_outcome context fl len gen r w w'.
Proof.
  intros [Hk1 C1] Hk2 Hr. pose proof (kept_trans _ _ _ Hk1 Hk2) as (E & _). unfold pends_of in E. injection E as E1 E2 E3 E4.
  unfold tx_reported, send_outcome in *. assert (Et : e_tx_cq (w_ep w1) = e_tx_cq (w_ep w)) by (destruct Hk1 as (_ & _ & Ef & _); unfold frame_of, bound_of in Ef; congruence).
  rewrite C1, Et in Hr. destruct (Z.eqb_spec r 0) as [->|Hne]; [by left|]. rewrite andb_false_r in Hr. by split_and!.
Qed.

Lemma outcome_rndzv context fl len gen r w w1 w' :
  quietly w w1 -> rndzv_outcome context fl len gen r w1 w' -> send_outcome context fl len gen r w w'.
Proof.
  intros Hq. destruct (quietly_unstarted _ _ Hq) as (E1 & E2 & E3). unfold rndzv_outcome, send_outcome, started, unstarted.
  rewrite E1, E2, E3. destruct (r =? 0); [by right|done].
Qed.

(** The ring part of a send or inject. *)
Lemma try_ring_spec (b : bool) src dest tag data context flags tagged gen op w :
  world_ok w ->
  wp (if b then rds_ring_send src dest tag data context flags tagged gen op else ret (- FI_ENOSYS)) (fun r w' => world_ok w' /\ kept w w' /\
    tx_reported gen context (tx_comp_flags tagged) (ring_src_len src) r w w') w.
Proof.
  intros Hw. destruct b; [|apply wp_ret; split_and!; [done|done|by apply reported_refused]].
  eapply wp_mono; [eapply (wp_wlp _ _ _ w); [by apply ring_send_spec|apply ring_send_reports, Hw]|].
  cbn beta. intros r w1 [[H1 H2] H3]. by split_and!.
Qed.

Lemma generic_send_spec iov dest_addr tag data context flags tagged w :
  world_ok w -> e_op_id (w_ep w) + 1 < 2 ^ 64 -> iov_ok iov ->
  wp (rds_generic_send iov dest_addr tag data context flags tagged) (fun r w' => world_ok w' /\ moved 1 w w' /\
    send_outcome context (tx_comp_flags tagged) (ofi_total_iov_len iov) (has (Z.lor (e_tx_op_flags (w_ep w)) flags) FI_COMPLETION) r w w') w.
Proof.
  intros Hw Hop Hiov. assert (H01 : forall w', moved 0 w w' -> moved 1 w w') by (intros w' ?; by eapply (moved_weaken 0); [|lia]).
  pose proof (H01 _ (moved_refl w)) as Hm0.
  unfold rds_generic_send. destruct (_ <? _)%nat; [by apply wp_ret|].
  cbn zeta. destruct (_ >? _); [by apply wp_ret|].
  apply wp_bind, wp_av_addr; [apply Hw|]. destruct (ofi_av_get_addr _ _) as [dest|]; [|by apply wp_ret].
  apply wp_bind, wp_av_addrlen; [apply Hw|]. apply wp_bind, wp_ep_get, wp_bind, wp_ep_get, wp_bind, wp_ep_get, wp_bind, wp_gets.
  apply wp_bind. eapply wp_mono; [by apply try_ring_spec|]. cbn beta.
  intros r w1 (Hw1 & Hk1 & Hr1). pose proof (kept_moved _ _ Hk1) as Hm1.
  destruct (Z.eqb_spec r (- FI_ENOSYS)) as [->|Hne]; cbn [negb].
  2: { apply wp_ret. split_and!; [done|by apply H01|]. by apply (outcome_at_once _ _ _ _ _ _ w). }
  assert (Hq1 : quietly w w1) by (split; [done|]; revert Hr1; unfold tx_reported; by rewrite andb_false_r). destruct (_ <=? _).
  - eapply wp_mono; [by apply send_eager_spec|]. cbn beta. intros r w2 (Hw2 & Hk2 & Hr2). split_and!; [done| |by eapply outcome_at_once].
    apply H01, kept_moved. by eapply kept_trans.
  - eapply wp_mono; [apply send_rndzv_spec; [done| |done]|].
    + destruct Hm1 as [? _]. lia.
    + cbn beta. intros r w2 (Hw2 & Hm2 & Ho). split_and!; [done|exact (moved_trans 0 1 _ _ _ Hm1 Hm2)|by eapply outcome_rndzv].
Qed.

(** An inject finishes in the call and never reports anything. *)
Lemma generic_inject_spec buf len dest_addr tag tagged w :
  world_ok w -> wp (rds_generic_inject buf len dest_addr tag tagged) (fun _ w' => world_ok w' /\ quietly w w') w.
Proof.
  intros Hw. unfold rds_generic_inject. apply wp_bind, wp_gets. destruct (_ >? _); [by apply wp_ret|].
  apply wp_bind, wp_av_addr; [apply Hw|]. destruct (ofi_av_get_addr _ _) as [dest|]; [|by apply wp_ret].
  apply wp_bind, wp_ep_get, wp_bind, wp_ep_get, wp_bind. eapply wp_mono; [by apply try_ring_spec|]. cbn beta.
  intros r w1 (Hw1 & Hk1 & Hr1). destruct (negb _); [by apply wp_ret|]. apply wp_bind, wp_av_addrlen; [apply Hw1|].
  eapply wp_mono; [by apply send_eager_spec|]. cbn beta. intros r2 w2 (Hw2 & Hk2 & Hr2). split; [done|]. by eapply quietly_trans.
Qed.

(** ** RMA *)

(** A world in which the one-sided operation [id] is being set up, with
    between [n] and [m] segments posted; [D] describes the operation. *)
Definition rma_open (D : rds_pending -> Prop) (id : Z) (l1 l2 : list rds_pending) (n m : Z) w0 w : Prop :=
  world_inv [] [] (Some id) w /\ moved 0 w0 w /\
  (e_rndzv_tx_inflight (w_ep w), w_cqs w) = (e_rndzv_tx_inflight (w_ep w0), w_cqs w0) /\
  exists p, e_pending (w_ep w) = l1 ++ p :: l2 /\ p_id p = id /\ p_type p = RDS_PEND_RMA /\
            p_seg_deferred p = 0 /\ 0 <= n <= p_seg_remaining p /\ p_seg_remaining p <= m /\ D p.

Lemma rma_open_net D id l1 l2 n m w0 w k log : rma_open D id l1 l2 n m w0 w -> rma_open D id l1 l2 n m w0 (set_net w k log).
Proof. intros (Hw & Hm & Hi & Hp). split; [by apply wi_net|]. by split_and!. Qed.

Lemma rma_open_weaken D id l1 l2 n m m' w0 w : rma_open D id l1 l2 n m w0 w -> m <= m' -> rma_open D id l1 l2 n m' w0 w.
Proof. intros (Hw & Hm & Hi & p & ? & ? & ? & ? & ? & ? & ?) Hle. split_and!; [done..|]. exists p. split_and!; auto; lia. Qed.

(** Changing the operation under construction. *)
Lemma rma_upd_spec (D D' : rds_pending -> Prop) id f l1 l2 n n' m m' w0 w :
  rma_open D id l1 l2 n m w0 w -> m' < 2 ^ 31 -> 0 <= n' ->
  (forall p, 0 <= n <= p_seg_remaining p -> p_seg_remaining p <= m -> pend_like p (f p) /\ p_seg_deferred (f p) = p_seg_deferred p /\
     n' <= p_seg_remaining (f p) /\ p_seg_remaining (f p) <= m' /\ (D p -> D' (f p))) ->
  wp (pend_upd id f) (fun _ w' => rma_open D' id l1 l2 n' m' w0 w') w.
Proof.
  intros (Hw & Hm & Hi & p & E & Hid & Hty & Hd & Hn & Hr & HD) Hm' Hn' Hf. destruct (Hf p Hn Hr) as (Hlk & Hfd & Hfn & Hfr & HfD).
  destruct (pends_split (wi_pend _ _ _ _ Hw) _ _ _ E) as [Hl1 _]. rewrite Hid in Hl1.
  eapply wp_pend_upd; [exact E|done..|]. split; [|split; [exact Hm|split; [exact Hi|]]].
  - eapply wi_update; [exact Hw|exact E|done|done|lia|lia|left; by rewrite Hid].
  - exists (f p). destruct Hlk as (? & ? & _). split_and!; auto; congruence || lia.
Qed.

Lemma rma_loop_spec D fuel id iov dest alen key roff wr off total l1 l2 n m w0 w :
  (forall p k, D p -> D (p <| p_seg_remaining := k |>)) ->
  iov_ok iov -> rma_open D id l1 l2 n m w0 w -> 0 <= off -> (Z.to_nat (total - off) <= fuel)%nat ->
  0 <= n <= m -> m + Z.max 0 (total - off) < 2 ^ 31 ->
  wp (rma_loop fuel id iov dest alen key roff wr off total)
     (fun r w' => exists n', n <= n' /\ (r = 0 -> off < total -> n < n') /\ rma_open D id l1 l2 n' (m + Z.max 0 (total - off)) w0 w') w.
Proof.
  intros HD Hiov. revert off n m w. induction fuel as [|fuel IH]; intros off n m w Ho Hoff Hfu Hm0 Hm.
  { cbn [rma_loop]. rewrite (proj2 (Z.ltb_ge off total)) by lia. apply wp_ret. exists n. split_and!; [lia|lia|]. eapply rma_open_weaken; [exact Ho|lia]. }
  assert (Hstop : forall r w1, (r = 0 -> total <= off) -> rma_open D id l1 l2 n m w0 w1 ->
    exists n', n <= n' /\ (r = 0 -> off < total -> n < n') /\ rma_open D id l1 l2 n' (m + Z.max 0 (total - off)) w0 w1).
  { intros r w1 Hr Ho1. exists n. split_and!; [lia|lia|]. eapply rma_open_weaken; [exact Ho1|lia]. }
  cbn [rma_loop]. destruct (off <? total) eqn:Eo; cbn [negb]; [|apply wp_ret, Hstop; [lia|done]].
  cbn zeta. destruct (rds_iov_slice _ _ _) as [liov got] eqn:Es.
  apply slice_got in Es; [|done|done|unfold RDS_KERNEL_SEG_MAX; lia].
  destruct (got =? 0) eqn:Eg; [apply wp_ret, Hstop; [done|done]|].
  apply wp_bind, wp_post_rdma. intros r k' log'. apply (rma_open_net _ _ _ _ _ _ _ _ k' log') in Ho.
  destruct (Z.eqb_spec r 0) as [->|Hr]; cbn [negb]; [|apply wp_ret, Hstop; [lia|done]].
  apply wp_bind. eapply wp_mono; [apply (rma_upd_spec D D _ _ _ _ _ (n + 1) _ (m + 1) _ _ Ho); [lia|lia|]|].
  { intros p Hr Hr2. split; [done|]. split; [done|]. w_simpl. rewrite u32_small by lia. split_and!; [lia|lia|apply HD]. }
  cbn beta. intros _ w1 Ho1. eapply wp_mono; [apply (IH (off + got) (n + 1) (m + 1)); [done|lia|lia|lia|lia]|].
  cbn beta. intros r w2 (n' & Hn' & _ & Ho2). exists n'. split_and!; [lia|lia|]. eapply rma_open_weaken; [exact Ho2|lia].
Qed.

(** Leaving the call: dropped when nothing was posted, at rest otherwise. *)
Lemma rma_close_spec D id l1 l2 n m w0 (r : Z) w :
  (forall p e, D p -> D (p <| p_error := e |>)) ->
  rma_open D id l1 l2 n m w0 w -> m < 2 ^ 31 ->
  wp (p <- pend_deref id ;;
      if p_seg_remaining p =? 0 then pend_remove id ;;; ret r
      else (if negb (r =? 0) then pend_upd id (fun p => p <| p_error := - r |>) else ret tt) ;;; ret 0)
     (fun r' w' => world_ok w' /\ moved 0 w0 w' /\
       (e_rndzv_tx_inflight (w_ep w'), w_cqs w') = (e_rndzv_tx_inflight (w_ep w0), w_cqs w0) /\
       ((n = 0 /\ r' = r /\ e_pending (w_ep w') = l1 ++ l2) \/
        (r' = 0 /\ exists p, e_pending (w_ep w') = l1 ++ p :: l2 /\ 0 < p_seg_remaining p /\ D p))) w.
Proof.
  intros HD Ho Hm31. pose proof Ho as (Hw & Hm & Hi & p & E & Hid & Hty & Hd & Hn & Hr & HDp).
  destruct (pends_split (wi_pend _ _ _ _ Hw) _ _ _ E) as [Hl1 _]. rewrite Hid in Hl1.
  destruct (pends_lookup (wi_pend _ _ _ _ Hw) p) as (Hp & _ & _ & _); [rewrite E; apply elem_of_app; right; apply list_elem_of_here|].
  destruct (owns_nothing p Hp) as [Em Ec]; [by rewrite Hty|].
  apply wp_bind. eapply wp_pend_deref; [done..|]. destruct (p_seg_remaining p =? 0) eqn:Ez.
  - apply wp_bind. eapply wp_pend_remove; [exact E|done..|]. apply wp_ret. split; [|split; [exact Hm|split; [exact Hi|left; split_and!; [lia|done|done]]]].
    eapply wi_remove; [exact Hw|exact E|done|right; by rewrite Hid|right; by rewrite Hid|done..].
  - apply wp_bind. rewrite <- Hid in Hw. destruct (negb _); [|apply wp_ret].
    + eapply wp_pend_upd; [exact E|done..|]. apply wp_ret. split; [|split; [exact Hm|split; [exact Hi|right; split; [done|]]]].
      * eapply (wi_settle _ l1 (p <| p_error := - r |>) l2); [|done|by cbn; rewrite Hty|unfold pend_busy; cbn; rewrite Hty; lia].
        eapply wi_update; [exact Hw|exact E|done|done|cbn; lia|cbn; lia|by left].
      * exists (p <| p_error := - r |>). split_and!; [done|cbn; lia|by apply HD].
    + apply wp_ret. split; [|split; [done|split; [exact Hi|right; split; [done|]]]].
      * eapply wi_settle; [exact Hw|exact E|by rewrite Hty|]. unfold pend_busy. rewrite Hty. lia.
      * exists p. split_and!; [done|lia|done].
Qed.

Lemma rma_flags_ok wr : has (rma_comp_flags wr) UTIL_FLAG_AUX = false.
Proof. by destruct wr. Qed.

(** What the result of a one-sided operation means: nothing was started, or
    the operation [p] waits for the notifications of its segments. *)
Definition rma_of (context fl len : Z) (gen : bool) (p : rds_pending) : Prop :=
  p_type p = RDS_PEND_RMA /\ p_context p = context /\ p_flags p = fl /\ p_len p = len /\ p_no_comp p = negb gen.
Definition rma_started (context fl len : Z) (gen : bool) w w' : Prop :=
  exists p, rma_of context fl len gen p /\ 0 < p_seg_remaining p /\ e_pending (w_ep w') = e_pending (w_ep w) ++ [p] /\
    e_rndzv_tx_inflight (w_ep w') = e_rndzv_tx_inflight (w_ep w) /\ w_cqs w' = w_cqs w.
Definition rma_outcome (context fl len : Z) (gen : bool) (r : Z) w w' : Prop :=
  (r <> 0 \/ len = 0) /\ unstarted w w' \/ r = 0 /\ rma_started context fl len gen w w'.

Lemma rma_common_spec iov remote_fi remote_off key wr context flags w :
  world_ok w -> e_op_id (w_ep w) + 1 < 2 ^ 64 -> iov_ok iov ->
  wp (rds_rma_common iov remote_fi remote_off key wr context flags) (fun r w' => world_ok w' /\ moved 1 w w' /\
    rma_outcome context (rma_comp_flags wr) (rds_iov_len iov) (has (Z.lor (e_tx_op_flags (w_ep w)) flags) FI_COMPLETION) r w w') w.
Proof.
  intros Hw Hop Hiov. assert (H1 : moved 1 w w) by (eapply (moved_weaken 0); [apply moved_refl|lia]).
  assert (Hno : forall r w', r <> 0 -> unstarted w w' ->
    rma_outcome context (rma_comp_flags wr) (rds_iov_len iov) (has (Z.lor (e_tx_op_flags (w_ep w)) flags) FI_COMPLETION) r w w') by (left; auto).
  unfold rds_rma_common. cbn zeta. destruct (_ >? _) eqn:Et; [apply wp_ret; auto using unstarted_refl|].
  assert (Htot : rds_iov_len iov <= 2 ^ 28) by (unfold RDS_MAX_MSG_SIZE in Et; lia).
  apply wp_bind, wp_av_addr; [apply Hw|]. destruct (ofi_av_get_addr _ _) as [dest|]; [|apply wp_ret; auto using unstarted_refl].
  apply wp_bind, wp_av_addrlen; [apply Hw|]. apply wp_bind, (alloc_spec [] []); [done|done|apply rma_flags_ok|..].
  { intros k'. apply wp_ret. split_and!; [by apply wi_k|exact H1|by apply Hno]. }
  intros w1 id Hw1 Hm1 _ _ _ E1 Hfr Hi1 Hc1 Ht1. apply wp_bind, wp_ep_get, wp_bind. rewrite Ht1. set (gen := has _ _) in *.
  set (D0 := fun p => p_type p = RDS_PEND_RMA /\ p_context p = context /\ p_flags p = rma_comp_flags wr). set (D := rma_of context (rma_comp_flags wr) (rds_iov_len iov) gen).
  eapply wp_mono; [apply (rma_upd_spec D0 D id _ (e_pending (w_ep w)) [] 0 0 0 0 w1); [|lia|lia|]|].
  { split; [exact Hw1|]. split; [exact (moved_refl w1)|]. split; [done|]. eexists. split_and!; [exact E1|done..]. }
  { intros p Hp Hp2. split; [done|]. split_and!; [done|apply Hp|apply Hp2|]. intros (? & ? & ?). by split_and!. }
  cbn beta. intros _ w2 Ho2. apply wp_bind.
  eapply wp_mono; [eapply (rma_loop_spec D _ _ _ _ _ _ _ _ _ _ _ _ 0 0); [done|exact Hiov|exact Ho2|done|lia|lia|lia]|].
  cbn beta. intros r w3 (n' & Hn & Hn' & Ho3). eapply wp_mono; [eapply rma_close_spec; [|exact Ho3|lia]; done|]. cbn beta.
  intros r' w4 (Hw4 & Hm4 & [= I4 C4] & Hor). split_and!; [done|exact (moved_trans 1 0 _ _ _ Hm1 Hm4)|].
  assert (Hlen : rds_iov_len iov = iov_total iov) by (apply (ofi_total_iov_len_ok iov Hiov)). pose proof (iov_total_nonneg iov (proj1 Hiov)).
  destruct Hor as [(Hz & -> & E4)|(-> & p & E4 & Hp & HDp)].
  - left. rewrite app_nil_r in E4. split; [|split_and!; congruence]. destruct (decide (r = 0)); [right; lia|by left].
  - right. split; [done|]. exists p. split_and!; congruence || done.
Qed.

Lemma inject_write_spec buf len dest_addr addr key w :
  world_ok w -> e_op_id (w_ep w) + 1 < 2 ^ 64 ->
  wp (rds_inject_write buf len dest_addr addr key) (fun _ w' => world_ok w' /\ moved 1 w w') w.
Proof.
  intros Hw Hop. assert (H1 : moved 1 w w) by (eapply (moved_weaken 0); [apply moved_refl|lia]).
  unfold rds_inject_write. apply wp_bind, wp_gets. destruct (_ >? _); [by apply wp_ret|].
  apply wp_bind, wp_sys_alloc. intros [bounce|] k1; [|apply wp_ret; split; [by apply wi_k|exact H1]].
  apply wp_bind, wp_gets, wp_bind, wp_modify.
  match goal with |- wp _ _ ?wg => assert (Hwg : world_ok wg) by (by apply wi_mem, wi_k);
    assert (Hmg : moved 1 w wg) by exact H1; assert (Eop : e_op_id (w_ep wg) = e_op_id (w_ep w)) by done;
    assert (Hm0 : moved 0 w wg) by exact (moved_refl w); set (w0 := wg) in * end. clearbody w0.
  apply wp_bind, wp_av_addr; [apply Hwg|]. destruct (ofi_av_get_addr _ _) as [dest|]; [|by apply wp_ret].
  apply wp_bind, (alloc_spec [] []); [done|lia|done|..].
  { intros k'. apply wp_ret. split; [by apply wi_k|exact Hmg]. }
  intros w1 id Hw1 Hm1 _ _ _ E1 Hfr _ _ _. apply wp_bind. eapply wp_pend_upd; [exact E1|done|done|].
  match goal with |- wp _ _ (set_pend w1 (_ ++ ?q :: _)) => set (p' := q) end.
  assert (Hw2 : world_inv [] [] (Some id) (set_pend w1 (e_pending (w_ep w0) ++ p' :: []))).
  { eapply (wi_update _ _ _ _ _ _ _ p'); [exact Hw1|exact E1|done..|by left]. }
  pose proof (moved_trans 0 1 _ _ _ Hm0 Hm1) as Hm2.
  apply wp_bind, wp_av_addrlen; [apply Hw2|]. apply wp_bind, wp_post_rdma. intros r k' log'.
  apply (wi_net _ _ _ _ k' log') in Hw2. destruct (negb (r =? 0)).
  - apply wp_bind. eapply (wp_pend_remove _ _ p'); [done..|]. apply wp_ret. split; [|exact Hm2].
    eapply (wi_remove (Some id) _ _ p'); [exact Hw2|done|done|by right|by left|done..].
  - apply wp_ret. split; [|exact Hm2]. eapply (wi_settle _ _ p'); [exact Hw2|done|done|done].
Qed.
End SafetyTx.
