(* ===== verification/SafetyEp.v ===== *)
(** * The invariant is preserved: progress, completion queues, regions

    The progress engine over the socket, reads of the bound completion
    queues, cancellation, application memory regions and cache
    invalidation. *)

From stdpp Require Import sorting.
From S2P Require Import Prelude Iov Wire Config Kernel Cq CqFifo Av MrCache MrCacheInv State Mr.
From S2P Require Import MrInv Pending Ring Msg RingRx Progress Ep Frame Inv Rules PendInv Safety.
From S2P Require Import Pres Footprint SafetyRing SafetyRx RingPoll.

(** The assumption on the network: a datagram that carries the magic number
    of the provider has one of the operation codes of the protocol (and its
    segment count is what two bytes can hold).  Nothing is assumed of its
    length, its sender, the other fields or the payload, nor of datagrams
    without the magic number.  [rds_handle_inbound] does not check the
    operation code, and Limits.unknown_op_overreads shows what happens
    without the assumption; endpoints keep it for each other
    (Traffic.endpoint_speaks_protocol). *)
Class KnownOps (K : Type) `{!Kernel K} : Prop :=
  known_ops : forall sock n c (k : K) src bytes trunc cmsgs,
    (k_recvmsg sock n c k).1 = RecvMsg src bytes trunc cmsgs ->
    RDS_HDR_SIZE <= Z.of_nat (length bytes) -> inbound_ok (rds_hdr_of_bytes bytes).

#[export] Instance quiet_known_ops : KnownOps quiet_state.
Proof.
  intros sock n c k src bytes trunc cmsgs. cbn [k_recvmsg quiet_kernel].
  destruct (qs_inbox k) as [|[src' msg] l]; cbn [fst]; [done|]. intros [= <- <- <- <-] _.
  unfold quiet_datagram. rewrite rds_hdr_roundtrip; [done|]. unfold rds_hdr_ok. cbn.
  unfold RDS_HDR_MAGIC, RDS_OP_EAGER. pose proof (u64_range (Z.of_nat (length msg))). lia.
Qed.

Section SafetyEp.
Context {K : Type} `{!Kernel K} `{!MrAgainEnds K}.
Implicit Types w : world K.

(** ** Progress *)

Lemma reap_spec cmsgs w :
  world_ok w -> wp (rds_reap_notifies cmsgs) (fun _ w' => world_ok w' /\ moved 0 w w') w.
Proof.
  revert w. induction cmsgs as [|c cmsgs IH]; intros w Hw; cbn [rds_reap_notifies].
  { apply wp_ret. split; [done|apply moved_refl]. }
  apply wp_bind. apply wp_mono with (Q := fun _ w' => world_ok w' /\ moved 0 w w').
  { destruct (_ || _); [apply wp_ret; split; [done|apply moved_refl]|by apply rdma_notify_spec]. }
  intros _ w1 [Hw1 Hm1]. eapply wp_mono; [by apply IH|]. cbn beta. intros _ w2 [Hw2 Hm2].
  split; [done|]. exact (moved_trans 0 0 _ _ _ Hm1 Hm2).
Qed.

Lemma progress_msg_spec src bytes trunc cmsgs w :
  world_ok w -> e_op_id (w_ep w) + 1 < 2 ^ 64 ->
  (RDS_HDR_SIZE <= Z.of_nat (length bytes) -> inbound_ok (rds_hdr_of_bytes bytes)) ->
  wp (progress_msg src bytes trunc cmsgs) (fun _ w' => world_ok w' /\ moved 1 w w') w.
Proof.
  intros Hw Hop Hin. unfold progress_msg. apply wp_bind. eapply wp_mono; [by apply reap_spec|]. cbn beta.
  intros _ w1 [Hw1 Hm1]. assert (H1 : moved 1 w w1) by (by eapply (moved_weaken 0); [|lia]).
  destruct trunc; [by apply wp_ret|]. destruct (_ <? _) eqn:El; [by apply wp_ret|].
  apply wp_bind, wp_ep_get. rewrite (wi_av _ _ _ _ Hw1). cbn [negb]. apply wp_bind, wp_gets.
  eapply wp_mono; [apply handle_inbound_spec; [done| |apply Hin; lia]|].
  - destruct Hm1 as [? _]. lia.
  - cbn beta. intros _ w2 [Hw2 Hm2]. split; [done|]. exact (moved_trans 0 1 _ _ _ Hm1 Hm2).
Qed.

Lemma progress_loop_spec `{!KnownOps K} n w :
  world_ok w -> e_op_id (w_ep w) + Z.of_nat n < 2 ^ 64 ->
  wp (progress_loop n) (fun _ w' => world_ok w' /\ moved (Z.of_nat n) w w') w.
Proof.
  revert w. induction n as [|n IH]; intros w Hw Hop; cbn [progress_loop].
  { apply wp_ret. split; [done|apply moved_refl]. }
  apply wp_bind, wp_ep_get, wp_bind, wp_ep_get, wp_bind. unfold wp at 1, sys_recvmsg.
  pose proof (known_ops (e_sock (w_ep w)) (e_rx_buf_size (w_ep w)) (e_cmsg_size (w_ep w)) (w_k w)) as Ht.
  destruct (k_recvmsg _ _ _ _) as [[errno|src bytes trunc cmsgs] k'].
  - apply wp_ret. split; [by apply wi_k|]. eapply (moved_weaken 0); [exact (moved_refl w)|lia].
  - apply wp_bind. eapply wp_mono; [apply progress_msg_spec; [by apply wi_k|w_simpl; lia|by eapply (Ht src bytes trunc cmsgs)]|].
    cbn beta. intros _ w1 [Hw1 Hm1]. eapply wp_mono; [apply IH; [done|]|].
    + destruct Hm1 as [Hm1 _]. w_simpl. lia.
    + cbn beta. intros _ w2 [Hw2 Hm2]. split; [done|]. replace (Z.of_nat (S n)) with (1 + Z.of_nat n) by lia.
      exact (moved_trans 1 _ _ _ _ Hm1 Hm2).
Qed.

(** Operations one progress pass can start. *)
Definition progress_ids w : Z := ring_ids w + RDS_PROGRESS_BUDGET.

Lemma ep_progress_spec `{!KnownOps K} w :
  world_ok w -> rings_sane w -> e_op_id (w_ep w) + progress_ids w < 2 ^ 64 ->
  wp rds_ep_progress (fun _ w' => world_ok w' /\ moved (progress_ids w) w w') w.
Proof.
  intros Hw Hrd Hop. pose proof (ring_ids_pos w Hrd) as Hpos. unfold rds_ep_progress, progress_ids in *. apply wp_bind, wp_ep_get. destruct (_ <? 0).
  { apply wp_ret. split; [done|]. eapply (moved_weaken 0); [apply moved_refl|unfold RDS_PROGRESS_BUDGET in *; lia]. }
  apply wp_bind. eapply wp_mono; [apply wp_wlp; [by apply progress_deferred_spec|]|].
  { apply still_progress_deferred. }
  cbn beta. intros _ w1 [[Hw1 Hm1] Ht%still_touched]. destruct (touched_sane _ _ Ht Hrd) as [Hrd1 Ei1].
  apply wp_bind. eapply wp_mono; [apply ring_progress_spec; [done|done|]|].
  { destruct Hm1 as [? _]. unfold RDS_PROGRESS_BUDGET in *. lia. }
  cbn beta. rewrite Ei1. intros _ w2 [Hw2 Hm2]. pose proof (moved_trans 0 _ _ _ _ Hm1 Hm2) as Hm.
  eapply wp_mono; [apply progress_loop_spec; [done|]|].
  - rewrite Z2Nat.id by done. destruct Hm as [? _]. lia.
  - cbn beta. rewrite Z2Nat.id by done. intros _ w3 [Hw3 Hm3]. split; [done|]. exact (moved_trans _ _ _ _ _ Hm Hm3).
Qed.

(** ** The bound completion queues *)

Lemma bound_ok_insert cqs o b id q q' cs' :
  bound_ok cqs o b -> cqs !! id = Some q -> cq_rep q' cs' -> (is_Some (ucq_src q') <-> is_Some (ucq_src q)) ->
  bound_ok (<[id := q']> cqs) o b.
Proof.
  intros Hb Hq Hr Hs id' ->. destruct (Hb id' eq_refl) as (q1 & cs & Hq1 & Hr1 & Hs1).
  destruct (decide (id = id')) as [->|Hne].
  - simplify_eq. rewrite lookup_insert_eq. exists q', cs'. split_and!; auto. intros ?. by apply Hs, Hs1.
  - rewrite lookup_insert_ne by done. eauto.
Qed.

Definition bound_cq w (id : Z) : Prop := e_tx_cq (w_ep w) = Some id \/ e_rx_cq (w_ep w) = Some id.

Lemma bound_cq_rep w id : world_ok w -> bound_cq w id -> exists q cs, w_cqs w !! id = Some q /\ cq_rep q cs.
Proof.
  intros Hw Hb. destruct (wi_cqs _ _ _ _ Hw) as [Ht Hr].
  destruct Hb as [Hb|Hb]; [destruct (Ht id Hb) as (q & cs & ? & ? & _)|destruct (Hr id Hb) as (q & cs & ? & ? & _)]; eauto.
Qed.

(** An operation on a bound queue that keeps it well formed. *)
Lemma cq_run_spec {A} id (op : CQ (K := K) A) w :
  world_ok w -> bound_cq w id ->
  (forall q k cs, cq_rep q cs -> wp op (fun _ '(q', _) => (exists cs', cq_rep q' cs') /\
     (is_Some (ucq_src q') <-> is_Some (ucq_src q))) (q, k)) ->
  wp (cq_run id op) (fun _ w' => world_ok w' /\ moved 0 w w') w.
Proof.
  intros Hw Hb Hop. destruct (bound_cq_rep _ _ Hw Hb) as (q & cs & Hq & Hr).
  pose proof (Hop q (w_k w) cs Hr) as Hwp. unfold wp in Hwp |- *. unfold cq_run. rewrite Hq.
  destruct (op (q, w_k w)) as [[a [q' k']]|]; [|done]. destruct Hwp as [[cs' Hr'] Hs].
  split; [|exact (moved_refl w)]. eapply wi_env; [exact Hw|done..|].
  destruct (wi_cqs _ _ _ _ Hw) as [Ht Hx]. split; by eapply bound_ok_insert.
Qed.

Lemma cq_op_keeps op (q : util_cq) (k : K) cs :
  cq_rep q cs -> cq_op_ok (bool_decide (is_Some (ucq_src q))) op ->
  wp (cq_exec op) (fun _ '(q', _) => (exists cs', cq_rep q' cs') /\ (is_Some (ucq_src q') <-> is_Some (ucq_src q))) (q, k).
Proof.
  intros Hr Hok. pose proof (cq_exec_sim op q k cs Hr Hok) as Hs. unfold wp in Hs |- *.
  destruct (cq_exec op (q, k)) as [[r [q' k']]|] eqn:E; [|done]. destruct Hs as (cs' & _ & Hr').
  split; [eauto|]. by apply (cq_exec_static _ _ _ _ _ _ E).
Qed.

Lemma moved_bound n w w' id : moved n w w' -> bound_cq w id -> bound_cq w' id.
Proof. intros (_ & _ & E) [Hb|Hb]; unfold bound_of in E; [left|right]; congruence. Qed.

Lemma readfrom_spec `{!KnownOps K} id count w :
  world_ok w -> bound_cq w id -> 0 <= count -> rings_sane w ->
  e_op_id (w_ep w) + progress_ids w < 2 ^ 64 ->
  wp (ofi_cq_readfrom id count) (fun _ w' => world_ok w' /\ moved (progress_ids w) w w') w.
Proof.
  intros Hw Hb Hc Hrd Hop. unfold ofi_cq_readfrom. apply wp_bind.
  apply wp_mono with (Q := fun _ w' => world_ok w' /\ moved (progress_ids w) w w').
  { unfold ofi_cq_progress. apply wp_bind, wp_ep_get. destruct (bool_decide _); [by apply ep_progress_spec|].
    apply wp_ret. split; [done|]. eapply (moved_weaken 0); [apply moved_refl|]. pose proof (ring_ids_pos w Hrd). unfold progress_ids, RDS_PROGRESS_BUDGET. lia. }
  intros _ w1 [Hw1 Hm1]. eapply wp_mono; [apply cq_run_spec; [done|by eapply moved_bound|]|].
  - intros q k cs Hr. pose proof (cq_op_keeps (OpRead count) q k cs Hr Hc) as Hk. unfold wp in *. cbn [cq_exec] in Hk.
    by destruct (ofi_cq_read_entries q count) as [[[r out] q']|].
  - cbn beta. intros _ w2 [Hw2 Hm2]. split; [done|]. rewrite <- (Z.add_0_r (progress_ids w)). exact (moved_trans _ 0 _ _ _ Hm1 Hm2).
Qed.

Lemma readerr_spec id n b w :
  world_ok w -> bound_cq w id ->
  wp (cq_run id (ofi_cq_readerr n b)) (fun _ w' => world_ok w' /\ moved 0 w w') w.
Proof.
  intros Hw Hb. apply cq_run_spec; [done..|]. intros q k cs Hr.
  pose proof (cq_op_keeps (OpReadErr n b) q k cs Hr I) as Hk. unfold wp in *. cbn [cq_exec] in Hk. unfold bind in Hk.
  by destruct (ofi_cq_readerr n b (q, k)) as [[[r err] [q' k']]|].
Qed.

(** ** Cancellation *)

Lemma cancel_in_spec tagged context w :
  world_ok w -> wp (cancel_in tagged context) (fun _ w' => world_ok w' /\ moved 0 w w') w.
Proof.
  intros Hw. unfold cancel_in. apply wp_bind, wp_ep_get. destruct (find_split _ _) as [[[l1 rx] l2]|] eqn:Ef.
  2: { apply wp_ret. split; [done|apply moved_refl]. }
  apply find_split_Some in Ef as (E & _ & _). apply wp_bind, wp_ep_upd.
  match goal with |- wp _ _ ?wg => assert (Hw1 : world_ok wg); [|assert (Hm1 : moved 0 w wg) by exact (proj1 (queues_moved w tagged (l1 ++ l2) []));
    revert Hw1 Hm1; generalize wg; intros w1 Hw1 Hm1] end.
  { apply wi_set_posted; [done|]. pose proof (wi_match _ _ _ _ tagged Hw) as Hm. rewrite E in Hm. by eapply match_ok_posted_sub. }
  apply wp_bind, wp_ep_get, wp_bind. destruct (e_rx_cq (w_ep w1)) as [id|] eqn:Ecq; [|by apply wp_ret, wp_ret].
  apply wp_bind. eapply wp_mono; [apply cq_run_spec; [done|by right|]|].
  - intros q k cs Hr. pose proof (cq_op_keeps (OpWriteErr (cancel_err context rx)) q k cs Hr ltac:(done)) as Hk.
    unfold wp in *. cbn [cq_exec] in Hk. unfold bind in Hk. by destruct (ofi_cq_write_error _ (q, k)) as [[r [q' k']]|].
  - cbn beta. intros _ w2 [Hw2 Hm2]. apply wp_ret, wp_ret. split; [done|]. exact (moved_trans 0 0 _ _ _ Hm1 Hm2).
Qed.

Lemma cancel_spec context w :
  world_ok w -> wp (rds_ep_cancel context) (fun _ w' => world_ok w' /\ moved 0 w w') w.
Proof.
  intros Hw. unfold rds_ep_cancel. apply wp_bind. eapply wp_mono; [by apply cancel_in_spec|]. cbn beta. intros b w1 [Hw1 Hm1].
  destruct b; [by apply wp_ret|]. apply wp_bind. eapply wp_mono; [by apply cancel_in_spec|]. cbn beta. intros b w2 [Hw2 Hm2].
  apply wp_ret. split; [done|]. exact (moved_trans 0 0 _ _ _ Hm1 Hm2).
Qed.

(** ** Application regions *)

(** Regions the provider itself holds. *)
Definition internal w : list Z := all_pend_mrs (e_pending (w_ep w)) ++ all_peer_mrs (e_peers (w_ep w)).

(** A region the application registered and has not closed; the endpoint
    that was lent to register it still exists. *)
Definition app_mr w (h : Z) : Prop :=
  exists m, d_mrs (w_dom w) !! h = Some m /\ mr_ref m = 1 /\ is_Some (ep_sock_of w (mr_ep m)) /\ (h ∉ internal w).

Lemma wi_set_mrs w k mrs next :
  world_ok w -> mrs_ok mrs next (e_self (w_ep w)) (internal w) ->
  world_ok (w <| w_k := k |> <| w_dom ::= fun d => d <| d_mrs := mrs |> <| d_next_mr := next |> |>).
Proof.
  intros Hw Hm. eapply wi_rebuild; [exact Hw|done..| |apply Hw|exact Hm|apply Hw].
  by eapply cqs_ok_bound; [..|exact (wi_cqs _ _ _ _ Hw)].
Qed.

Lemma mrs_ok_other mrs next self l h m :
  mrs_ok mrs next self l -> (h ∉ l) -> h <= next -> mrs_ok (<[h := m]> mrs) (Z.max next (h + 1)) self l.
Proof.
  intros [Hnd Hl Hnx] Hh Hle. split; [done| |].
  - intros x Hx. destruct (Hl x Hx) as (mx & ? & ?). exists mx. rewrite lookup_insert_ne by (by intros ->). auto.
  - intros x [mx [[<- _]|[_ Hx]]%lookup_insert_Some]; [lia|]. assert (x < next) by (apply Hnx; eauto). lia.
Qed.

Lemma mrs_ok_del mrs next self l h : mrs_ok mrs next self l -> (h ∉ l) -> mrs_ok (delete h mrs) next self l.
Proof.
  intros [Hnd Hl Hnx] Hh. split; [done| |].
  - intros x Hx. destruct (Hl x Hx) as (mx & ? & ?). exists mx. rewrite lookup_delete_ne by (by intros ->). auto.
  - intros x [mx [_ Hx]%lookup_delete_Some]. apply Hnx. eauto.
Qed.

Lemma next_fresh w : world_ok w -> d_next_mr (w_dom w) ∉ internal w.
Proof.
  intros Hw Hin. destruct (wi_mrs _ _ _ _ Hw) as [_ Hl Hnx]. destruct (Hl _ Hin) as (m & Hm & _).
  assert (d_next_mr (w_dom w) < d_next_mr (w_dom w)) by (apply Hnx; eauto). lia.
Qed.

(** Registration through the endpoint lent to the domain. *)
Lemma wp_reg_for ep s buf len access dest (Q : Z + Z -> world K -> Prop) w :
  ep_sock_of w ep = Some s ->
  (forall err k', Q (inl err) (w <| w_k := k' |>)) ->
  (forall cookie k', Q (inr (d_next_mr (w_dom w)))
     (w <| w_k := k' |> <| w_dom ::= fun d =>
        d <| d_mrs := <[d_next_mr (w_dom w) := mkMr ep cookie (rds_cookie_off cookie) buf len access 1 0]> (d_mrs (w_dom w)) |>
          <| d_next_mr := d_next_mr (w_dom w) + 1 |> |>)) ->
  wp (rds_reg_internal ep buf len access dest) Q w.
Proof.
  intros Hs H1 H2. unfold rds_reg_internal. apply wp_bind. eapply wp_sock_of; [exact Hs|].
  apply wp_bind. unfold rds_kernel_reg. destruct (len >? _).
  { apply wp_ret, wp_ret. specialize (H1 (- FI_EINVAL) (w_k w)). by destruct w. }
  apply wp_bind, wp_sys_get_mr. intros [err|cookie] k' _; [by apply wp_ret, wp_ret|].
  apply wp_ret, wp_bind, wp_sys_alloc. intros [a|] k''.
  - apply wp_bind, wp_gets, wp_bind, wp_dom_upd, wp_ret. specialize (H2 cookie k'').
    rewrite (Z.add_comm _ 1) in H2. exact H2.
  - apply wp_bind. eapply wp_sock_of; [exact Hs|]. unfold rds_kernel_free. apply wp_bind, wp_sys_free_mr.
    intros k3. apply wp_ret. exact (H1 _ k3).
Qed.

Lemma regattr_spec attr w :
  world_ok w ->
  wp (rds_mr_regattr attr) (fun '(r, o) w' => world_ok w' /\ moved 0 w w' /\
    match o with Some h => r = 0 /\ app_mr w' h | None => r <> 0 end) w.
Proof.
  intros Hw. assert (Hno : forall r, r <> 0 -> wp (ret (r, None)) (fun '(r, o) w' => world_ok w' /\ moved 0 w w' /\
    match o with Some h => r = 0 /\ app_mr w' h | None => r <> 0 end) w).
  { intros r Hr. apply wp_ret. split_and!; [done|apply moved_refl|done]. }
  destruct attr as [[[|v [|]] access]|]; cbn [rds_mr_regattr]; try by apply Hno.
  apply wp_bind, wp_gets. destruct (d_reg_ep (w_dom w)) as [ep|] eqn:Er; [|by apply Hno].
  destruct (wi_reg _ _ _ _ Hw ep Er) as [s Hs]. apply wp_bind. eapply wp_reg_for; [exact Hs|..].
  - intros err k'. apply wp_ret. split_and!; [by apply wi_k|exact (moved_refl w)|done].
  - intros cookie k'. apply wp_bind, wp_dom_upd, wp_ret. set (h := d_next_mr (w_dom w)).
    set (m := mkMr ep cookie (rds_cookie_off cookie) (iov_base v) (iov_len v) access 1 cookie).
    assert (Em : forall m0 : gmap Z rds_mr, alter (fun m => m <| mr_key := mr_cookie m |>) h
      (<[h := mkMr ep cookie (rds_cookie_off cookie) (iov_base v) (iov_len v) access 1 0]> m0) = <[h := m]> m0).
    { intros m0. by rewrite alter_insert_eq. }
    match goal with |- world_ok ?wg /\ _ => assert (Ew : wg = w <| w_k := k' |> <| w_dom ::= fun d =>
      d <| d_mrs := <[h := m]> (d_mrs (w_dom w)) |> <| d_next_mr := h + 1 |> |>) end.
    { unfold set_field. cbn. by rewrite Em. }
    rewrite Ew. split_and!; [|exact (moved_refl w)|done|].
    + apply wi_set_mrs; [done|]. replace (h + 1) with (Z.max h (h + 1)) by lia.
      apply mrs_ok_other; [exact (wi_mrs _ _ _ _ Hw)|by apply next_fresh|lia].
    + exists m. split_and!; [apply lookup_insert_eq|done|by exists s|exact (next_fresh w Hw)].
Qed.

Lemma mr_close_spec h w :
  world_ok w -> app_mr w h ->
  wp (rds_mr_close h) (fun r w' => r = 0 /\ world_ok w' /\ moved 0 w w' /\ d_mrs (w_dom w') !! h = None) w.
Proof.
  intros Hw (m & Hm & Hr & [s Hs] & Hi). unfold rds_mr_close. apply wp_bind. cbn [rds_mr_put].
  apply wp_bind, wp_gets, wp_bind. eapply wp_of_opt; [exact Hm|]. apply wp_bind, wp_dom_upd. rewrite Hr.
  cbn [negb Z.sub Z.add Z.opp Z.pos_sub Z.eqb]. apply wp_bind. eapply (wp_sock_of _ s); [exact Hs|].
  unfold rds_kernel_free. apply wp_bind, wp_sys_free_mr. intros k'. apply wp_dom_upd, wp_ret.
  assert (E : delete h (insert h (m <| mr_ref := 1 - 1 |>) (d_mrs (w_dom w))) = delete h (d_mrs (w_dom w)))
    by apply delete_insert_eq.
  match goal with |- _ /\ world_ok ?wg /\ _ => assert (Ew : wg = w <| w_k := k' |> <| w_dom ::= fun d =>
    d <| d_mrs := delete h (d_mrs (w_dom w)) |> <| d_next_mr := d_next_mr (w_dom w) |> |>) end.
  { unfold set_field. cbn. by rewrite <- E. }
  rewrite Ew. split_and!; [done| |exact (moved_refl w)|apply lookup_delete_eq].
  apply wi_set_mrs; [done|]. apply mrs_ok_del; [exact (wi_mrs _ _ _ _ Hw)|done].
Qed.

(** ** Cache invalidation *)

Lemma mem_notify_spec addr len w :
  world_ok w -> caching w = true -> wp (ofi_mr_cache_notify addr len) (fun _ w' => world_ok w' /\ moved 0 w w') w.
Proof.
  intros Hw Hon. destruct (wi_cache _ _ _ _ Hw) as [ot Hc]. rewrite Hon in Hc.
  eapply wp_mono; [apply (notify_spec (owner_ok w) addr len w ([] ++ all_pend_cmrs (e_pending (w_ep w)) ++ ot)); [apply owner_ok_refl; exact (wi_reg _ _ _ _ Hw)|exact Hc]|].
  cbn beta. intros _ w' ([_ (c & k & ->)] & Hc' & _). split; [|exact (moved_refl w)].
  eapply wi_rebuild; [exact Hw|done..| |apply Hw|apply Hw|exists ot].
  - by eapply cqs_ok_bound; [..|exact (wi_cqs _ _ _ _ Hw)].
  - change (caching (set_cache w c k)) with (caching w). by rewrite Hon.
Qed.
End SafetyEp.
