(* ===== verification/Emits.v ===== *)
(** * Programs that send well-formed messages and leave counters alone

    [emits m]: whatever the program [m] hands to the socket is a well-formed
    message of the protocol, and no counter changes.  The tactic [emits]
    proves such facts by following the program; here for everything up to
    the progress engine. *)

From stdpp Require Import sorting.
From S2P Require Import Prelude Iov Wire Config Kernel Cq CqFifo Av MrCache MrCacheInv State Mr.
From S2P Require Import MrInv Pending Ring Msg Rma RingRx Progress Ep Segments Pres Frame Inv Rules PendInv Safety.
From S2P Require Import SafetyRing SafetyRx SafetyTx SafetyEp.

(** ** Messages *)

(** The payload that goes with a header. *)
Definition body_ok (hdr : rds_hdr) (n : Z) : Prop :=
  h_op hdr = RDS_OP_EAGER /\ n = h_size hdr \/
  h_op hdr = RDS_OP_RTS /\ n = h_seg_cnt hdr * RDS_SEG_SIZE \/
  h_op hdr = RDS_OP_FIN /\ n = 0 \/
  (h_op hdr = RDS_OP_RING_REQ \/ h_op hdr = RDS_OP_RING_ACK) /\ n = RDS_RING_INFO_SIZE.

Definition wire_ok (bytes : list Z) : Prop :=
  let hdr := rds_hdr_of_bytes bytes in
  RDS_HDR_SIZE <= Z.of_nat (length bytes) /\ h_magic hdr = RDS_HDR_MAGIC /\ 0 <= h_seg_cnt hdr < 2 ^ 16 /\
  body_ok hdr (Z.of_nat (length bytes) - RDS_HDR_SIZE).

(** A datagram, as opposed to an RDMA request. *)
Definition sent_ok (s : sent) : Prop := sn_rdma s = None -> wire_ok (sn_payload s).

Lemma wire_inbound bytes : wire_ok bytes -> inbound_ok (rds_hdr_of_bytes bytes).
Proof.
  intros (_ & _ & Hs & Hb). split; [done|]. intros _. unfold RDS_OP_EAGER, RDS_OP_RING_ACK.
  destruct Hb as [[-> _]|[[-> _]|[[-> _]|[[-> | ->] _]]]]; unfold RDS_OP_EAGER, RDS_OP_RTS, RDS_OP_FIN, RDS_OP_RING_REQ, RDS_OP_RING_ACK; lia.
Qed.

(** The fields of a header that fix the shape of its message survive,
    whatever the others hold. *)
Lemma hdr_shape h bs : 0 <= h_magic h < 2 ^ 32 -> 0 <= h_op h < 2 ^ 8 -> 0 <= h_seg_cnt h < 2 ^ 16 -> 0 <= h_size h < 2 ^ 64 ->
  let h' := rds_hdr_of_bytes (rds_hdr_bytes h ++ bs) in
  h_magic h' = h_magic h /\ h_op h' = h_op h /\ h_seg_cnt h' = h_seg_cnt h /\ h_size h' = h_size h.
Proof.
  intros H1 H2 H3 H4. cbn zeta. unfold rds_hdr_bytes, rds_hdr_of_bytes. cbn [h_magic h_op h_seg_cnt h_size]. rewrite <- !app_assoc. split_and!; solve_field.
Qed.

Lemma wire_of_hdr h bs :
  h_magic h = RDS_HDR_MAGIC -> 0 <= h_seg_cnt h < 2 ^ 16 -> 0 <= h_size h < 2 ^ 64 -> body_ok h (Z.of_nat (length bs)) -> wire_ok (rds_hdr_bytes h ++ bs).
Proof.
  intros Hm Hs Hz Hb. assert (Hop : 0 <= h_op h < 2 ^ 8).
  { destruct Hb as [[-> _]|[[-> _]|[[-> _]|[[-> | ->] _]]]]; done. }
  destruct (hdr_shape h bs) as (E1 & E2 & E3 & E4); [by rewrite Hm|done..|]. unfold wire_ok. cbn zeta. rewrite E1, E3, length_app, rds_hdr_bytes_length.
  unfold RDS_HDR_SIZE. split_and!; [lia|done|lia|lia|]. replace (Z.of_nat (40 + length bs) - 40) with (Z.of_nat (length bs)) by lia.
  unfold body_ok in *. by rewrite E2, E3, E4.
Qed.

Lemma wire_eager tagged flags tag data bs : Z.of_nat (length bs) < 2 ^ 64 ->
  wire_ok (rds_hdr_bytes (eager_hdr tagged flags tag data (Z.of_nat (length bs))) ++ bs).
Proof. intros H. apply wire_of_hdr; cbn; [done|done|lia|by left]. Qed.

Lemma wire_fin id : wire_ok (rds_hdr_bytes (fin_hdr id)).
Proof. rewrite <- (app_nil_r (rds_hdr_bytes _)). apply wire_of_hdr; cbn; [done..|]. right. right. by left. Qed.

Lemma wire_ctrl op info : op = RDS_OP_RING_REQ \/ op = RDS_OP_RING_ACK -> wire_ok (rds_hdr_bytes (ctrl_hdr op) ++ rds_ring_info_bytes info).
Proof.
  intros Hop. apply wire_of_hdr; [done|done|done|]. right. right. right. split; [exact Hop|].
  unfold rds_ring_info_bytes. by rewrite !length_app, !le_enc_length.
Qed.

Lemma wire_rts tagged flags tag data size id segs : 0 <= size < 2 ^ 64 -> Z.of_nat (length segs) < 2 ^ 16 ->
  wire_ok (rds_hdr_bytes (rts_hdr tagged flags tag data size (Z.of_nat (length segs)) id) ++ rds_segs_bytes segs).
Proof.
  intros Hs Hn. assert (E : u16 (Z.of_nat (length segs)) = Z.of_nat (length segs)) by (unfold u16; apply Z.mod_small; lia).
  apply wire_of_hdr; [done| |done|].
  - change (h_seg_cnt _) with (u16 (Z.of_nat (length segs))). lia.
  - right. left. split; [done|]. change (h_seg_cnt _) with (u16 (Z.of_nat (length segs))). rewrite E.
    rewrite rds_segs_bytes_length. unfold RDS_SEG_SIZE. lia.
Qed.

(** ** Programs that only send well-formed messages *)

Section Emits.
Context {K : Type} `{!Kernel K}.
Implicit Types w : world K.

(** The messages sent are well formed; and no counter, reference or binding
    has changed. *)
Definition logs w w' : Prop := exists l, w_log w' = w_log w ++ l /\ Forall sent_ok l.
Definition grows w w' : Prop := logs w w' /\ cntr_part w' = cntr_part w /\ obj_part w' = obj_part w.
Definition emits {A} (m : St K A) : Prop := forall w, wlp m (fun _ w' => grows w w') w.

Lemma logs_same w w' : w_log w' = w_log w -> logs w w'.
Proof. intros E. exists []. by rewrite app_nil_r. Qed.
Lemma logs_trans w1 w2 w3 : logs w1 w2 -> logs w2 w3 -> logs w1 w3.
Proof. intros (l1 & E1 & H1) (l2 & E2 & H2). exists (l1 ++ l2). rewrite E2, E1, app_assoc. split; [done|]. by apply Forall_app. Qed.
Lemma grows_same w w' : seen w' = seen w -> grows w w'.
Proof. intros E. pose proof (f_equal snd E) as E'. split_and!; [apply logs_same; exact (f_equal fst E)|exact (f_equal fst E')|exact (f_equal snd E')]. Qed.
Lemma grows_trans w1 w2 w3 : grows w1 w2 -> grows w2 w3 -> grows w1 w3.
Proof. intros (H1 & E1 & F1) (H2 & E2 & F2). split_and!; [by eapply logs_trans|congruence..]. Qed.

Lemma emits_pres {A} (m : St K A) : pres seen m -> emits m.
Proof. intros Hm w. eapply wlp_mono; [apply Hm|]. cbn beta. intros a w'. apply grows_same. Qed.
Lemma emits_bind {A B} (m : St K A) (k : A -> St K B) : emits m -> (forall a, emits (k a)) -> emits (bind m k).
Proof.
  intros Hm Hk w. apply wlp_bind. eapply wlp_mono; [apply Hm|]. cbn beta. intros a w1 H1.
  eapply wlp_mono; [apply Hk|]. cbn beta. intros b w2. by apply grows_trans.
Qed.
Lemma emits_sendmsg n p ra : (ra = None -> wire_ok p) -> emits (sys_sendmsg n p ra).
Proof.
  intros Hp w. apply wlp_of_wp, wp_sys_sendmsg. intros errno k'. split; [|done]. eexists. split; [reflexivity|]. by apply Forall_singleton.
Qed.
Lemma emits_recvmsg n c : emits (sys_recvmsg n c).
Proof. intros w. unfold wlp, sys_recvmsg. destruct (k_recvmsg _ _ _ _). by apply grows_same. Qed.
End Emits.

Create HintDb emits.
#[export] Hint Resolve emits_recvmsg : emits.
Ltac emits_step :=
  first
    [ solve [auto 1 with emits nocore]
    | solve [apply emits_pres; pres_step]
    | apply emits_bind; [|intros ?]
    | match goal with
      | |- emits (if ?b then _ else _) => destruct b
      | |- emits (match ?x with _ => _ end) => destruct x
      | |- emits (let '_ := ?x in _) => destruct x
      end ].
Ltac emits := repeat emits_step.

Section Handlers.
Context {K : Type} `{!Kernel K}.
Implicit Types w : world K.

(** ** The building blocks *)

Lemma emits_post_rdma d n c o iov wr nt t : emits (K := K) (rds_post_rdma d n c o iov wr nt t).
Proof. unfold rds_post_rdma. emits. by apply emits_sendmsg. Qed.
Lemma emits_fin_raw peer id : emits (K := K) (rds_send_fin_raw peer id).
Proof. unfold rds_send_fin_raw. apply emits_bind; [|intros; emits]. apply emits_sendmsg. intros _. apply wire_fin. Qed.
Hint Resolve emits_post_rdma emits_fin_raw : emits.
Lemma emits_send_fin peer id : emits (K := K) (rds_send_fin peer id).
Proof. unfold rds_send_fin, rds_defer_fin, rds_defer_enqueue. emits. Qed.
Lemma emits_cq_tx c f l e : emits (K := K) (rds_cq_write_tx c f l e).
Proof. unfold rds_cq_write_tx. emits. Qed.
Lemma emits_cq_rx c f l d t s e : emits (K := K) (rds_cq_write_rx c f l d t s e).
Proof. unfold rds_cq_write_rx. emits. Qed.
Lemma emits_mr_put o : emits (K := K) (rds_mr_put o).
Proof. unfold rds_mr_put, rds_kernel_free, sys_free_mr. emits. Qed.
Hint Resolve emits_send_fin emits_cq_tx emits_cq_rx emits_mr_put : emits.
Lemma emits_mr_put_all l : emits (K := K) (rds_mr_put_all l).
Proof. induction l; cbn [rds_mr_put_all]; emits. Qed.
Lemma emits_cache_put h : emits (K := K) (rds_reg_cache_put h).
Proof.
  unfold rds_reg_cache_put, ofi_mr_cache_delete, entry_of, set_entry, upd, util_mr_free_entry, util_mr_entry_free, upd.
  cbn [co_delete_region rds_cache_owner]. unfold rds_cache_delete_region, rds_kernel_free, sys_free_mr. emits.
Qed.
Hint Resolve emits_mr_put_all emits_cache_put : emits.
Lemma emits_cache_put_all l : emits (K := K) (rds_reg_cache_put_all l).
Proof. induction l; cbn [rds_reg_cache_put_all]; emits. Qed.
Lemma emits_reg_internal e b n a d : emits (K := K) (rds_reg_internal e b n a d).
Proof. unfold rds_reg_internal, rds_kernel_reg, rds_kernel_free, sys_free_mr. emits. Qed.
Lemma emits_pend_upd id f : emits (K := K) (pend_upd id f).
Proof. unfold pend_upd. emits. Qed.
Lemma emits_pend_remove id : emits (K := K) (pend_remove id).
Proof. unfold pend_remove. emits. Qed.
Lemma emits_pend_deref id : emits (K := K) (pend_deref id).
Proof. unfold pend_deref, rds_pending_find. emits. Qed.
Lemma emits_pending_alloc t c f : emits (K := K) (rds_pending_alloc t c f).
Proof. unfold rds_pending_alloc, rds_next_id. emits. Qed.
Hint Resolve emits_cache_put_all emits_reg_internal emits_pend_upd emits_pend_remove emits_pend_deref emits_pending_alloc : emits.
Lemma emits_complete id : emits (K := K) (rds_pending_complete id).
Proof. unfold rds_pending_complete, rds_pending_release_mrs. emits. Qed.
Lemma emits_finalize id : emits (K := K) (rds_rndzv_rx_finalize id).
Proof. unfold rds_rndzv_rx_finalize. emits. Qed.
Hint Resolve emits_complete emits_finalize : emits.

(** ** The ring *)

Lemma emits_ring_ctrl h op : op = RDS_OP_RING_REQ \/ op = RDS_OP_RING_ACK -> emits (K := K) (rds_ring_send_ctrl h op).
Proof.
  intros Hop. unfold rds_ring_send_ctrl, peer_deref, mr_cookie_of. emits. apply emits_sendmsg. intros _. by apply wire_ctrl.
Qed.
Lemma emits_ring_req h : emits (K := K) (rds_ring_send_ctrl h RDS_OP_RING_REQ).
Proof. apply emits_ring_ctrl. by left. Qed.
Lemma emits_ring_ack h : emits (K := K) (rds_ring_send_ctrl h RDS_OP_RING_ACK).
Proof. apply emits_ring_ctrl. by right. Qed.
Hint Resolve emits_ring_req emits_ring_ack : emits.
Lemma emits_peer_create addr : emits (K := K) (rds_peer_create addr).
Proof. unfold rds_peer_create, rds_av_addr, av_addrlen_get, write_mem, ring_reg. emits. Qed.
Lemma emits_peer_deref h : emits (K := K) (peer_deref h).
Proof. unfold peer_deref. emits. Qed.
Lemma emits_peer_upd h f : emits (K := K) (peer_upd h f).
Proof. unfold peer_upd. emits. Qed.
Lemma emits_peer_find a : emits (K := K) (rds_peer_find a).
Proof. unfold rds_peer_find. emits. Qed.
Hint Resolve emits_peer_create emits_peer_deref emits_peer_upd emits_peer_find : emits.
Lemma emits_ring_send src dest tag data c f tagged gen op : emits (K := K) (rds_ring_send src dest tag data c f tagged gen op).
Proof. unfold rds_ring_send, ring_send_ready, ring_send_connect, rds_ring_refresh_credit, read_mem, write_mem. emits. Qed.
Lemma emits_handle_ctrl hdr payload fi : emits (K := K) (rds_ring_handle_ctrl hdr payload fi).
Proof. unfold rds_ring_handle_ctrl, rds_ring_adopt. emits. Qed.
Hint Resolve emits_ring_send emits_handle_ctrl : emits.

(** ** Inbound messages *)

Lemma emits_set_posted tagged l : emits (K := K) (ep_upd (set_posted tagged l)).
Proof. apply emits_pres, pres_ep_upd. intros. by destruct tagged. Qed.
Lemma emits_set_unexp tagged l : emits (K := K) (ep_upd (set_unexp tagged l)).
Proof. apply emits_pres, pres_ep_upd. intros. by destruct tagged. Qed.
Hint Resolve emits_set_posted emits_set_unexp : emits.

Lemma emits_read_loop n segs id iov off eff peer : emits (K := K) (rndzv_read_loop n segs id iov off eff peer).
Proof.
  revert segs off. induction n as [|n IH]; intros segs off; cbn [rndzv_read_loop]; [emits|].
  unfold rds_defer_read, rds_defer_enqueue. emits.
Qed.
Hint Resolve emits_read_loop : emits.
Lemma emits_start_read rx hdr segs n peer src : emits (K := K) (rds_start_rndzv_read rx hdr segs n peer src).
Proof. unfold rds_start_rndzv_read. emits. Qed.
Lemma emits_deliver rx hdr payload src : emits (K := K) (rds_deliver_eager rx hdr payload src).
Proof. unfold rds_deliver_eager. emits. Qed.
Lemma emits_enqueue hdr payload src fi tagged : emits (K := K) (rds_enqueue_unexp hdr payload src fi tagged).
Proof. unfold rds_enqueue_unexp. emits; apply emits_pres, pres_ep_upd; intros; by destruct tagged. Qed.
Hint Resolve emits_start_read emits_deliver emits_enqueue : emits.
Lemma emits_inbound hdr payload src fi : emits (K := K) (rds_handle_inbound hdr payload src fi).
Proof. unfold rds_handle_inbound, rds_pending_find, rds_match_posted. emits. Qed.
Lemma emits_notify t s : emits (K := K) (rds_handle_rdma_notify t s).
Proof. unfold rds_handle_rdma_notify, rds_pending_find. emits. Qed.
Hint Resolve emits_inbound emits_notify : emits.

(** ** Progress *)

Lemma emits_deferred_body i d : emits (K := K) (deferred_body i d).
Proof. unfold deferred_body, deferred_remove, rds_pending_find. emits. Qed.
Hint Resolve emits_deferred_body : emits.
Lemma emits_deferred fuel i b : emits (K := K) (deferred_loop fuel i b).
Proof. revert i b. induction fuel as [|fuel IH]; intros i b; cbn [deferred_loop]; emits. Qed.
Lemma emits_return_credit h : emits (K := K) (rds_ring_return_credit h).
Proof. unfold rds_ring_return_credit, write_mem. emits. Qed.
Lemma emits_ring_deliver h s a : emits (K := K) (rds_ring_deliver h s a).
Proof. unfold rds_ring_deliver, read_mem. emits. Qed.
Hint Resolve emits_deferred emits_return_credit emits_ring_deliver : emits.
Lemma emits_poll_slot h p a n : emits (K := K) (poll_slot h p a n).
Proof. unfold poll_slot, read_mem. emits. Qed.
Hint Resolve emits_poll_slot : emits.
Lemma emits_poll_loop fuel h b : emits (K := K) (poll_loop fuel h b).
Proof. revert b. induction fuel as [|fuel IH]; intros b; cbn [poll_loop]; unfold read_mem; emits. Qed.
Hint Resolve emits_poll_loop : emits.
Lemma emits_poll_peer h : emits (K := K) (rds_ring_poll_peer h).
Proof. unfold rds_ring_poll_peer. emits. Qed.
Hint Resolve emits_poll_peer : emits.
Lemma emits_ring_loop l : emits (K := K) (ring_progress_loop l).
Proof. induction l as [|h l IH]; cbn [ring_progress_loop]; emits. Qed.
Lemma emits_reap l : emits (K := K) (rds_reap_notifies l).
Proof. induction l as [|c l IH]; cbn [rds_reap_notifies]; emits. Qed.
Hint Resolve emits_ring_loop emits_reap : emits.
Lemma emits_progress_msg src bytes trunc cmsgs : emits (K := K) (progress_msg src bytes trunc cmsgs).
Proof. unfold progress_msg. emits. Qed.
Hint Resolve emits_progress_msg : emits.
Lemma emits_progress_loop n : emits (K := K) (progress_loop n).
Proof. induction n as [|n IH]; cbn [progress_loop]; emits. Qed.
Hint Resolve emits_progress_loop : emits.
Lemma emits_progress : emits (K := K) rds_ep_progress.
Proof. unfold rds_ep_progress, rds_progress_deferred, rds_ring_progress. emits. Qed.
Hint Resolve emits_progress : emits.


(** ** Socket set-up *)

Lemma emits_sys_k {A} (f : K -> A * K) : emits (sys_k f).
Proof. intros w. unfold wlp, sys_k. destruct (f (w_k w)). by apply grows_same. Qed.
Hint Resolve emits_sys_k : emits.
Lemma emits_init_socket info : emits (K := K) (rds_ep_init_socket info).
Proof. unfold rds_ep_init_socket, init_socket_fail, set_buf, rds_setname. emits. Qed.
End Handlers.

#[export] Hint Resolve emits_set_posted emits_set_unexp emits_post_rdma emits_fin_raw emits_send_fin emits_cq_tx emits_cq_rx emits_mr_put emits_mr_put_all emits_cache_put emits_cache_put_all emits_reg_internal emits_pend_upd emits_pend_remove emits_pend_deref emits_pending_alloc emits_complete emits_finalize emits_ring_req emits_ring_ack emits_peer_create emits_peer_deref emits_peer_upd emits_peer_find emits_ring_send emits_handle_ctrl emits_read_loop emits_start_read emits_deliver emits_enqueue emits_inbound emits_notify emits_deferred_body emits_deferred emits_return_credit emits_ring_deliver emits_poll_slot emits_poll_loop emits_poll_peer emits_ring_loop emits_reap emits_progress_msg emits_progress_loop emits_progress emits_sys_k emits_init_socket : emits.
