(* ===== verification/Refs.v ===== *)
(** * References between objects

    Every object counts who refers to it: the domain its endpoints, queues,
    counters and address vector, a queue, a counter and the vector the
    endpoints bound to them.  This file states that the counts are exact and
    proves it for the calls that open, bind and close objects; the data path
    leaves them alone ([Emits]). *)

From S2P Require Import Prelude Iov Wire Config Kernel Attr Cq CqFifo Av AvIp MrCache MrCacheInv State Mr.
From S2P Require Import MrInv Pending Ring Msg Rma RingRx Progress Ep Cntr Objects Segments Pres Frame Inv Rules PendInv Safety.
From S2P Require Import SafetyRing SafetyRx RingPoll SafetyTx SafetyEp Emits.

(** How often a counter is bound to an endpoint. *)
Definition bound_count (m : gmap Z Z) (id : Z) : Z := Z.of_nat (length (filter (eq id) (map_to_list m).*2)).

Lemma bound_count_insert m i id id' : m !! i = None ->
  bound_count (<[i := id]> m) id' = (if id =? id' then 1 else 0) + bound_count m id'.
Proof.
  intros Hi. unfold bound_count. rewrite (map_to_list_insert m i id Hi). cbn [fmap list_fmap snd]. rewrite filter_cons.
  destruct (Z.eqb_spec id id') as [->|Hne]; [rewrite decide_True by done; cbn [length]; lia|]. rewrite decide_False by congruence. lia.
Qed.

Lemma bound_count_pos m id : 0 <= bound_count m id.
Proof. unfold bound_count. lia. Qed.

(** The two counts of a counter, and whether it is imported. *)
Definition counts (c : util_cntr) : Z * Z * bool := (cn_cnt c, cn_err c, is_peer_cntr c).

(** One reference where [c] is the queue [id]. *)
Definition cq_use (c : option Z) (id : Z) : Z := if bool_decide (c = Some id) then 1 else 0.
Lemma cq_use_none id : cq_use None id = 0.
Proof. unfold cq_use. by rewrite bool_decide_eq_false_2. Qed.
Definition cq_uses (e : rds_ep) (id : Z) : Z := cq_use (e_tx_cq e) id + cq_use (e_rx_cq e) id.

Definition opt_one {A} (o : option A) : Z := match o with Some _ => 1 | None => 0 end.

(** References the world does not show: those of other endpoints, the other
    objects of the domain and the other domains of the fabric. *)
Record holders := mkHolders { hd_domain : Z; hd_av : Z; hd_cqs : Z -> Z; hd_cntrs : Z -> Z; hd_fabric : nat }.

Record holders_ok (x : holders) : Prop := {
  ho_domain : 0 <= hd_domain x; ho_av : 0 <= hd_av x;
  ho_cqs : forall id, 0 <= hd_cqs x id; ho_cntrs : forall id, 0 <= hd_cntrs x id }.

(** Nobody else. *)
Definition alone : holders := mkHolders 0 0 (fun _ => 0) (fun _ => 0) 0.

Lemma alone_ok : holders_ok alone.
Proof. by split. Qed.

(** The fabric counts its domains, and the domain is one of them. *)
Definition fabric_ok (others : nat) (o : objects) : Prop :=
  NoDup (uf_domain_list (ob_fabric o)) /\ length (uf_domain_list (ob_fabric o)) = S others /\ uf_ref (ob_fabric o) = Z.of_nat (S others) /\
  ud_self (ob_domain o) ∈ uf_domain_list (ob_fabric o).

Section Refs.
Context {K : Type} `{!Kernel K}.
Implicit Types w : world K.

(** What the endpoint holds, while it exists. *)
Definition own w (n : Z) : Z := if w_live w then n else 0.

Record refs_ok (x : holders) w : Prop := {
  ro_cqs : forall id r, ob_cq_refs (w_obj w) !! id = Some r -> r = hd_cqs x id + own w (cq_uses (w_ep w) id);
  ro_av : forall r, ob_av (w_obj w) = Some r -> r = hd_av x + own w (if e_av (w_ep w) then 1 else 0);
  ro_cntrs : forall id c, w_cntrs w !! id = Some c -> cn_ref c = hd_cntrs x id + own w (bound_count (e_cntrs (w_ep w)) id);
  ro_domain : ud_ref (ob_domain (w_obj w)) =
    hd_domain x + own w 1 + Z.b2z (caching w) + opt_one (ob_av (w_obj w)) + Z.of_nat (size (ob_cq_refs (w_obj w))) + Z.of_nat (size (w_cntrs w));
  ro_new_cq : forall id, ob_cq_refs (w_obj w) !! id = None -> hd_cqs x id = 0 /\ own w (cq_uses (w_ep w) id) = 0;
  ro_new_cntr : forall id, w_cntrs w !! id = None -> hd_cntrs x id = 0 /\ own w (bound_count (e_cntrs (w_ep w)) id) = 0;
  ro_ep : e_ref (w_ep w) = 0;
  ro_fabric : fabric_ok (hd_fabric x) (w_obj w) }.

Lemma refs_part x w w' : cntr_part w' = cntr_part w -> obj_part w' = obj_part w -> refs_ok x w -> refs_ok x w'.
Proof.
  unfold cntr_part, obj_part. intros E1 E2 [H1 H2 H3 H4 H5 H6 H7 H8]. injection E1 as A1 A2 A3. injection E2 as B1 B2 B3 B4 B5 B6 B7.
  unfold own, cq_uses in *. split; unfold own, cq_uses; rewrite ?A1, ?A2, ?A3, ?B1, ?B2, ?B3, ?B4, ?B5, ?B6, ?B7; done.
Qed.

Lemma grows_refs x w w' : grows w w' -> refs_ok x w -> refs_ok x w'.
Proof. intros (_ & E1 & E2). by apply refs_part. Qed.

(** The endpoint invariant, with exact references. *)
Definition sys_ok (x : holders) w : Prop := world_ok w /\ holders_ok x /\ refs_ok x w.

(** A queue the endpoint is bound to has a reference. *)
Lemma bound_not_closable x w id : holders_ok x -> refs_ok x w -> w_live w = true -> ob_cq_refs (w_obj w) !! id = Some 0 ->
  e_tx_cq (w_ep w) <> Some id /\ e_rx_cq (w_ep w) <> Some id.
Proof.
  intros Hx Hr Hl E. pose proof (ro_cqs _ _ Hr id 0 E) as H. pose proof (ho_cqs _ Hx id). unfold own, cq_uses, cq_use in H. rewrite Hl in H.
  split; intros E'; rewrite E' in H; rewrite (bool_decide_eq_true_2 (Some id = Some id)) in H by done; case_bool_decide; lia.
Qed.

(** ** Opening and closing objects *)

Lemma size_insert_new {A} (m : gmap Z A) i a : m !! i = None -> Z.of_nat (size (<[i := a]> m)) = Z.of_nat (size m) + 1.
Proof. intros H. rewrite map_size_insert_None by done. lia. Qed.
Lemma size_delete_old {A} (m : gmap Z A) i a : m !! i = Some a -> Z.of_nat (size (delete i m)) = Z.of_nat (size m) - 1.
Proof.
  intros H. rewrite map_size_delete_Some by (by eexists). assert (size m <> 0%nat) by (intros E%map_size_empty_iff; by subst). lia.
Qed.

Lemma own_pos w n : 0 <= n -> 0 <= own w n.
Proof. unfold own. by destruct (w_live w). Qed.
Lemma cq_uses_pos e id : 0 <= cq_uses e id.
Proof. unfold cq_uses, cq_use. by repeat case_bool_decide. Qed.

(** The count of the domain changes. *)
Definition dom_plus (n : Z) w : world K := w <| w_obj ::= fun o => o <| ob_domain ::= fun d => d <| ud_ref ::= Z.add n |> |> |>.

Lemma refs_open_cntr x w id c :
  refs_ok x w -> w_cntrs w !! id = None -> cn_ref c = 0 -> refs_ok x (dom_plus 1 w <| w_cntrs ::= insert id c |>).
Proof.
  intros [H1 H2 H3 H4 H5 H6 H7 H8] Hn Hc. destruct (H6 id Hn) as [Hx Hb]. split; [exact H1|exact H2| | |exact H5| |exact H7|exact H8]; unfold own, caching, dom_plus in *; w_simpl.
  - intros id' c'. destruct (decide (id = id')) as [<-|Hne]; [|rewrite lookup_insert_ne by done; apply H3]. rewrite lookup_insert_eq. intros [= <-]. lia.
  - cbn. rewrite size_insert_new by done. lia.
  - intros id' [E _]%lookup_insert_None. by apply H6.
Qed.

Lemma refs_close_cntr x w id c :
  holders_ok x -> refs_ok x w -> w_cntrs w !! id = Some c -> cn_ref c = 0 -> refs_ok x (dom_plus (-1) (w <| w_cntrs ::= delete id |>)).
Proof.
  intros Hx [H1 H2 H3 H4 H5 H6 H7 H8] Hc Hr. pose proof (ho_cntrs _ Hx id). pose proof (own_pos w _ (bound_count_pos (e_cntrs (w_ep w)) id)). pose proof (H3 id c Hc).
  split; [exact H1|exact H2| | |exact H5| |exact H7|exact H8]; unfold own, caching, dom_plus in *; w_simpl.
  - intros id' c'. rewrite lookup_delete_Some. intros [_ E]. by apply H3.
  - cbn. rewrite (size_delete_old _ _ _ Hc). lia.
  - intros id' [<-|E]%lookup_delete_None; [split; lia|]. by apply H6.
Qed.

(** The cache gives up its reference. *)
Lemma refs_cache_off x w d :
  refs_ok x w -> caching w = true -> d_cache_enabled d = false -> refs_ok x (dom_plus (-1) (w <| w_dom := d |>)).
Proof.
  intros [H1 H2 H3 H4 H5 H6 H7 H8] Hon Hoff. split; [exact H1|exact H2|exact H3| |exact H5|exact H6|exact H7|exact H8].
  unfold own, caching, dom_plus in *; w_simpl; cbn. rewrite Hoff, Hon in *. cbn in *. lia.
Qed.

Lemma refs_close_av x w :
  refs_ok x w -> ob_av (w_obj w) = Some 0 -> refs_ok x (dom_plus (-1) w <| w_obj ::= fun o => o <| ob_av := None |> |>).
Proof.
  intros [H1 H2 H3 H4 H5 H6 H7 H8] Ha. split; [exact H1|done|exact H3| |exact H5|exact H6|exact H7|exact H8]. unfold own, caching, dom_plus in *; w_simpl; cbn.
  rewrite Ha in H4. cbn in H4. lia.
Qed.

Lemma refs_open_av x w a :
  refs_ok x w -> w_live w = false -> hd_av x = 0 -> ob_av (w_obj w) = None ->
  refs_ok x (dom_plus 1 w <| w_avec := a |> <| w_obj ::= fun o => o <| ob_av := Some 0 |> |>).
Proof.
  intros [H1 H2 H3 H4 H5 H6 H7 H8] Hl Hx Ha. split; [exact H1| |exact H3| |exact H5|exact H6|exact H7|exact H8]; unfold own, caching, dom_plus in *; w_simpl; cbn; rewrite ?Hl in *.
  - intros r [= <-]. lia.
  - rewrite Ha in H4. cbn in H4. lia.
Qed.

Lemma refs_open_cq x w id f :
  refs_ok x w -> ob_cq_refs (w_obj w) !! id = None ->
  refs_ok x (dom_plus 1 w <| w_cqs ::= f |> <| w_obj ::= fun o => o <| ob_cq_refs ::= insert id 0 |> |>).
Proof.
  intros [H1 H2 H3 H4 H5 H6 H7 H8] Hn. destruct (H5 id Hn) as [Hx Hb]. split; [|exact H2|exact H3| | |exact H6|exact H7|exact H8]; unfold own, caching, dom_plus in *; w_simpl; cbn.
  - intros id' r. destruct (decide (id = id')) as [<-|Hne]; [|rewrite lookup_insert_ne by done; apply H1]. rewrite lookup_insert_eq. intros [= <-]. lia.
  - rewrite size_insert_new by done. lia.
  - intros id' [E _]%lookup_insert_None. by apply H5.
Qed.

Lemma refs_close_cq x w id f :
  holders_ok x -> refs_ok x w -> ob_cq_refs (w_obj w) !! id = Some 0 ->
  refs_ok x (dom_plus (-1) (w <| w_cqs ::= f |>) <| w_obj ::= fun o => o <| ob_cq_refs ::= delete id |> |>).
Proof.
  intros Hx [H1 H2 H3 H4 H5 H6 H7 H8] Hc. pose proof (ho_cqs _ Hx id). pose proof (own_pos w _ (cq_uses_pos (w_ep w) id)). pose proof (H1 id 0 Hc).
  split; [|exact H2|exact H3| | |exact H6|exact H7|exact H8]; unfold own, caching, dom_plus in *; w_simpl; cbn.
  - intros id' r'. rewrite lookup_delete_Some. intros [_ E]. by apply H1.
  - rewrite (size_delete_old _ _ _ Hc). lia.
  - intros id' [<-|E]%lookup_delete_None; [split; lia|]. by apply H5.
Qed.

(** ** Closing an endpoint *)

(** [n] more references to the queue [c], if there is one. *)
Definition bump (n : Z) (c : option Z) (m : gmap Z Z) : gmap Z Z := match c with Some id => alter (Z.add n) id m | None => m end.

Lemma lookup_bump n c m id : bump n c m !! id = (fun r => r + n * cq_use c id) <$> m !! id.
Proof.
  unfold bump, cq_use. destruct c as [i|]; [|rewrite bool_decide_eq_false_2 by done; destruct (m !! id); [|done]; cbn; f_equal; lia].
  destruct (decide (i = id)) as [->|Hne].
  - rewrite lookup_alter_eq, bool_decide_eq_true_2 by done. destruct (m !! id); [|done]. cbn. f_equal. lia.
  - rewrite lookup_alter_ne, bool_decide_eq_false_2 by congruence. destruct (m !! id); [|done]. cbn. f_equal. lia.
Qed.

Lemma size_bump n c m : size (bump n c m) = size m.
Proof.
  destruct c as [i|]; [|done]. cbn. rewrite <- !(size_dom (D := gset Z)). f_equal. apply dom_alter_L.
Qed.

Lemma foldr_alter_lookup (f : util_cntr -> util_cntr) (m : gmap Z util_cntr) l id :
  foldr (alter f) m l !! id = Nat.iter (length (filter (eq id) l)) f <$> m !! id.
Proof.
  induction l as [|i l IH]; cbn [foldr]; [cbn; by destruct (m !! id)|]. rewrite filter_cons. destruct (decide (id = i)) as [->|Hne].
  - rewrite lookup_alter_eq, IH. cbn [length Nat.iter]. by destruct (m !! i).
  - by rewrite lookup_alter_ne.
Qed.

Lemma foldr_alter_size (f : util_cntr -> util_cntr) (m : gmap Z util_cntr) l : size (foldr (alter f) m l) = size m.
Proof.
  induction l as [|i l IH]; [done|]. cbn [foldr]. rewrite <- IH, <- !(size_dom (D := gset Z)). f_equal. apply dom_alter_L.
Qed.

(** Counters without the references of an endpoint. *)
Definition unref (c : util_cntr) : util_cntr := c <| cn_ref ::= Z.add (-1) |>.
Definition cntrs_without (bound : gmap Z Z) (m : gmap Z util_cntr) : gmap Z util_cntr := foldr (alter unref) m (map_to_list bound).*2.

Lemma unref_iter n c : let c' := Nat.iter n unref c in cn_ref c' = cn_ref c - Z.of_nat n /\ counts c' = counts c.
Proof.
  induction n as [|n IH]; cbn [Nat.iter]; [split; [cbn; lia|done]|]. destruct IH as [E1 E2]. split; [|exact E2].
  etransitivity; [exact (f_equal (Z.add (-1)) E1)|]. lia.
Qed.

Lemma without_lookup bound m id c' : cntrs_without bound m !! id = Some c' ->
  exists c, m !! id = Some c /\ cn_ref c' = cn_ref c - bound_count bound id /\ counts c' = counts c.
Proof.
  unfold cntrs_without. rewrite foldr_alter_lookup. destruct (m !! id) as [c|]; [|done]. intros [= <-]. exists c. split; [done|]. apply unref_iter.
Qed.

(** The objects once the endpoint has let go of them. *)
Definition obj_left w : objects :=
  w_obj w <| ob_cq_refs ::= fun m => bump (-1) (e_rx_cq (w_ep w)) (bump (-1) (e_tx_cq (w_ep w)) m) |>
          <| ob_av ::= fun o => if e_av (w_ep w) then Z.add (-1) <$> o else o |>
          <| ob_domain ::= fun d => d <| ud_ref ::= Z.add (-1) |> |>.

Lemma wp_endpoint_close (Q : unit -> world K -> Prop) w :
  Q tt (w <| w_cntrs ::= cntrs_without (e_cntrs (w_ep w)) |> <| w_ep ::= fun e => e <| e_cq_lists := [] |> <| e_cntr_lists := [] |> |> <| w_obj := obj_left w |>) ->
  wp ofi_endpoint_close Q w.
Proof.
  intros HQ. unfold ofi_endpoint_close. apply wp_bind, wp_ep_get, wp_bind.
  assert (Hu : forall c (P : unit -> world K -> Prop) w0, P tt (w0 <| w_obj ::= fun o => o <| ob_cq_refs ::= bump (-1) c |> |>) -> wp (cq_unref c) P w0).
  { intros [id|] P w0 HP; [by apply wp_modify|]. apply wp_ret. by destruct w0 as [? ? ? ? ? ? ? ? ? ? []]. }
  apply Hu, wp_bind, wp_ep_get, wp_bind, Hu, wp_bind, wp_ep_get, wp_bind, wp_modify, wp_bind, wp_ep_upd, wp_bind, wp_ep_get, wp_bind. w_simpl.
  destruct w as [? e ? ? ? ? ? ? ? ? [? ? ? ?]]; unfold obj_left in HQ; cbn in *; destruct (e_av e); [apply wp_modify|apply wp_ret]; apply wp_modify; exact HQ.
Qed.

(** The references of a live endpoint are given back. *)
Lemma refs_left x w w' :
  refs_ok x w -> w_live w = true -> w_live w' = false -> w_obj w' = obj_left w -> w_cntrs w' = cntrs_without (e_cntrs (w_ep w)) (w_cntrs w) ->
  caching w' = caching w -> e_ref (w_ep w') = 0 -> refs_ok x w'.
Proof.
  intros [H1 H2 H3 H4 H5 H6 H7 H8] Hl Hl' Eo Ec En Er. unfold own in *. rewrite Hl in *. unfold obj_left in Eo.
  split; unfold own; rewrite ?Hl', ?Eo, ?Ec, ?En, ?Er; cbn.
  - intros id r. rewrite !lookup_bump. destruct (ob_cq_refs (w_obj w) !! id) as [r0|] eqn:E; [|done]. intros [= <-]. rewrite (H1 id r0 E). unfold cq_uses. lia.
  - intros r. destruct (ob_av (w_obj w)) as [r0|]; [|by destruct (e_av _)]. specialize (H2 r0 eq_refl). destruct (e_av (w_ep w)); intros [= <-]; lia.
  - intros id c (c0 & E & -> & _)%without_lookup. rewrite (H3 id c0 E). lia.
  - rewrite !size_bump. unfold cntrs_without. rewrite foldr_alter_size. replace (opt_one _) with (opt_one (ob_av (w_obj w))); [lia|].
    by destruct (e_av (w_ep w)), (ob_av (w_obj w)).
  - intros id. rewrite !lookup_bump. destruct (ob_cq_refs (w_obj w) !! id) eqn:E; [done|]. intros _. split; [|done]. by apply H5.
  - intros id. unfold cntrs_without. rewrite foldr_alter_lookup. destruct (w_cntrs w !! id) eqn:E; [done|]. intros _. split; [|done]. by apply H6.
  - done.
  - exact H8.
Qed.

(** ** Creating an endpoint *)

(** The endpoint is bound to nothing. *)
Definition unbound w : Prop := (e_tx_cq (w_ep w), e_rx_cq (w_ep w), e_av (w_ep w), e_cntrs (w_ep w)) = (None, None, false, ∅).

(** One more reference to the domain. *)
Definition one_more (x : holders) : holders := mkHolders (hd_domain x + 1) (hd_av x) (hd_cqs x) (hd_cntrs x) (hd_fabric x).

Lemma unbound_own w : unbound w -> (forall id, own w (cq_uses (w_ep w) id) = 0) /\ (forall id, own w (bound_count (e_cntrs (w_ep w)) id) = 0) /\
  own w (if e_av (w_ep w) then 1 else 0) = 0.
Proof. unfold unbound, own. intros [= E1 E2 E3 E4]. unfold cq_uses. rewrite E1, E2, E3, E4. split_and!; [intros id..|]; by destruct (w_live w). Qed.

Lemma dead_own w n : w_live w = false -> own w n = 0.
Proof. unfold own. by intros ->. Qed.

Lemma refs_started x w : refs_ok (one_more x) w -> w_live w = false -> unbound w -> refs_ok x (w <| w_live := true |>).
Proof.
  intros [H1 H2 H3 H4 H5 H6 H7 H8] Hl Hu. match goal with |- refs_ok _ ?w1 => destruct (unbound_own w1 Hu) as (U1 & U2 & U3) end.
  setoid_rewrite (dead_own w _ Hl) in H1. setoid_rewrite (dead_own w _ Hl) in H2. setoid_rewrite (dead_own w _ Hl) in H3.
  rewrite (dead_own w _ Hl) in H4. split; [intros id r; rewrite U1; apply H1|intros r; rewrite U3; apply H2|intros id c; rewrite U2; apply H3| | | |exact H7|exact H8].
  - unfold own, caching in *. w_simpl. cbn in *. lia.
  - intros id E. rewrite U1. split; [|done]. by apply H5.
  - intros id E. rewrite U2. split; [|done]. by apply H6.
Qed.

(** An endpoint that is not finished goes away again. *)
Lemma refs_unstarted x w w' :
  refs_ok (one_more x) w -> w_live w = false -> unbound w -> w_live w' = false -> w_obj w' = obj_left w ->
  w_cntrs w' = cntrs_without (e_cntrs (w_ep w)) (w_cntrs w) -> caching w' = caching w -> e_ref (w_ep w') = 0 -> refs_ok x w'.
Proof.
  intros Hr Hl Hu Hl' Eo Ec En Er. pose proof (refs_started x w Hr Hl Hu) as Hs.
  exact (refs_left x (w <| w_live := true |>) w' Hs eq_refl Hl' Eo Ec En Er).
Qed.

(** ** Binding *)

(** The counts of a counter change, its references do not. *)
Lemma refs_alter_cntr x w f id : (forall c, cn_ref (f c) = cn_ref c) -> refs_ok x w -> refs_ok x (w <| w_cntrs ::= alter f id |>).
Proof.
  intros Hf [H1 H2 H3 H4 H5 H6 H7 H8]. split; [exact H1|exact H2| | |exact H5| |exact H7|exact H8]; unfold own in *; w_simpl.
  - intros id' c'. rewrite lookup_alter_Some. intros [(-> & c & Hc & ->)|[_ Hc]]; [rewrite Hf|]; by apply H3.
  - by rewrite H4, <- (foldr_alter_size f (w_cntrs w) [id]).
  - intros id' E%lookup_alter_None. by apply H6.
Qed.

Lemma refs_bind_cntr x w i id :
  refs_ok x w -> w_live w = true -> e_cntrs (w_ep w) !! i = None -> is_Some (w_cntrs w !! id) ->
  refs_ok x (w <| w_ep ::= fun e => e <| e_cntrs ::= insert i id |> |> <| w_cntrs ::= alter (fun c => c <| cn_ref ::= Z.add 1 |>) id |>).
Proof.
  intros [H1 H2 H3 H4 H5 H6 H7 H8] Hl Hi [c Hc]. unfold own in *. rewrite Hl in *.
  split; unfold own; w_simpl; rewrite ?Hl; [exact H1|exact H2| | |exact H5| |exact H7|exact H8].
  - intros id' c'. rewrite bound_count_insert by done. destruct (Z.eqb_spec id id') as [<-|Hne].
    + rewrite lookup_alter_eq, Hc. intros [= <-]. cbn. rewrite (H3 id c Hc). lia.
    + rewrite lookup_alter_ne by done. apply H3.
  - rewrite H4. do 2 f_equal. rewrite <- !(size_dom (D := gset Z)). f_equal. symmetry. apply dom_alter_L.
  - intros id'. rewrite lookup_alter_None, bound_count_insert by done. intros E. destruct (Z.eqb_spec id id') as [<-|]; [by rewrite E in Hc|]. by apply H6.
Qed.

(** A queue for one of the two directions. *)
Lemma refs_bind_cq x w w' id :
  refs_ok x w -> w_live w = true -> w_live w' = true -> is_Some (ob_cq_refs (w_obj w) !! id) ->
  (forall id', cq_uses (w_ep w') id' = cq_use (Some id) id' + cq_uses (w_ep w) id') ->
  w_obj w' = w_obj w <| ob_cq_refs ::= bump 1 (Some id) |> -> w_cntrs w' = w_cntrs w -> e_cntrs (w_ep w') = e_cntrs (w_ep w) ->
  (e_av (w_ep w'), e_ref (w_ep w'), caching w') = (e_av (w_ep w), e_ref (w_ep w), caching w) -> refs_ok x w'.
Proof.
  intros [H1 H2 H3 H4 H5 H6 H7 H8] Hl Hl' Hop Hu Eo Ec Eb [= Ea Er En]. unfold own in *. rewrite Hl in *.
  split; unfold own; rewrite ?Hl', ?Eo, ?Ec, ?Eb, ?Ea, ?Er, ?En; cbn [set_field objects_eta ob_cq_refs ob_av ob_domain]; [|exact H2|exact H3| | |exact H6|exact H7|exact H8].
  - intros id' r. rewrite lookup_bump, Hu. destruct (ob_cq_refs (w_obj w) !! id') as [r0|] eqn:E; [|done]. intros [= <-]. rewrite (H1 id' r0 E). lia.
  - by rewrite size_bump.
  - intros id'. rewrite lookup_bump, Hu. destruct (ob_cq_refs (w_obj w) !! id') eqn:E; [done|]. intros _. destruct (H5 id' E) as [? ->]. split; [done|].
    unfold cq_use. rewrite bool_decide_eq_false_2; [done|]. intros [= ->]. destruct Hop as [? Hop]. congruence.
Qed.

Lemma refs_bind_av x w : refs_ok x w -> w_live w = true -> e_av (w_ep w) = false -> 
  refs_ok x (w <| w_ep ::= fun e => e <| e_av := true |> |> <| w_obj ::= fun o => o <| ob_av ::= fmap (Z.add 1) |> |>).
Proof.
  intros [H1 H2 H3 H4 H5 H6 H7 H8] Hl Ha. unfold own in *. rewrite Hl, Ha in *.
  split; unfold own; w_simpl; rewrite ?Hl; cbn [set_field objects_eta ob_cq_refs ob_av ob_domain]; [exact H1| |exact H3| |exact H5|exact H6|exact H7|exact H8].
  - intros r. destruct (ob_av (w_obj w)) as [r0|]; [|done]. specialize (H2 r0 eq_refl). intros [= <-]. lia.
  - rewrite H4. by destruct (ob_av (w_obj w)).
Qed.
End Refs.
