(* ===== verification/CntrSpec.v ===== *)
(** * Counters, specified

    Every call on a counter that exists is defined and keeps the endpoint
    invariant; reading one runs the progress engine and returns what the
    application last made of it. *)

From S2P Require Import Prelude Iov Wire Config Kernel Cq CqFifo Av MrCache MrCacheInv State Mr.
From S2P Require Import MrInv Pending Ring Msg Rma RingRx Progress Ep Cntr Segments Pres Frame Inv Rules PendInv Safety.
From S2P Require Import SafetyRing SafetyRx RingPoll SafetyTx SafetyEp Emits Refs.

Section CntrSpec.
Context {K : Type} `{!Kernel K}.
Implicit Types w : world K.

(** The counter exists. *)
Definition open_cntr w (id : Z) : Prop := is_Some (w_cntrs w !! id).

Definition cntr_val w (id : Z) : option (Z * Z * bool) := counts <$> w_cntrs w !! id.

Lemma wp_cntr_get {A} (f : util_cntr -> A) id c Q w : w_cntrs w !! id = Some c -> Q (f c) w -> wp (cntr_get f id) Q w.
Proof. intros E HQ. unfold cntr_get. apply wp_bind, wp_gets. rewrite E. by apply wp_bind, wp_ret, wp_ret. Qed.

(** The endpoint does not depend on counters. *)
Lemma wi_cntrs w f : world_ok w -> world_ok (w <| w_cntrs ::= f |>).
Proof. intros Hw. eapply wi_env; [exact Hw|done..|]. by eapply cqs_ok_bound; [..|exact (wi_cqs _ _ _ _ Hw)]. Qed.
Lemma wi_cntr_lists w f l : world_ok w -> world_ok (w <| w_ep ::= fun e => e <| e_cntrs ::= f |> <| e_cntr_lists := l |> |>).
Proof. intros Hw. eapply wi_env; [exact Hw|done..|]. by eapply cqs_ok_bound; [..|exact (wi_cqs _ _ _ _ Hw)]. Qed.

Lemma wi_obj w f : world_ok w -> world_ok (w <| w_obj ::= f |>).
Proof. intros Hw. eapply wi_env; [exact Hw|done..|]. by eapply cqs_ok_bound; [..|exact (wi_cqs _ _ _ _ Hw)]. Qed.

Lemma grows_cntr_val w w' id : grows w w' -> cntr_val w' id = cntr_val w id.
Proof. intros [_ [[= E _ _] _]]. unfold cntr_val. by rewrite E. Qed.

Lemma open_cntr_val w w' id : cntr_val w' id = cntr_val w id -> open_cntr w id -> open_cntr w' id.
Proof. unfold open_cntr, cntr_val. intros E [c Hc]. rewrite Hc in E. destruct (w_cntrs w' !! id); [by eexists|done]. Qed.

(** ** Reading *)

Lemma emits_cntr_progress id : emits (K := K) (ofi_cntr_progress id).
Proof. unfold ofi_cntr_progress. emits. Qed.
Lemma emits_cntr_get {A} (f : util_cntr -> A) id : emits (K := K) (cntr_get f id).
Proof. unfold cntr_get. emits. Qed.
Hint Resolve emits_cntr_progress emits_cntr_get : emits.
Lemma emits_cntr_read id : emits (K := K) (fi_cntr_read id).
Proof. unfold fi_cntr_read, ofi_cntr_read, ofi_peer_cntr_read. emits. Qed.
Lemma emits_cntr_readerr id : emits (K := K) (fi_cntr_readerr id).
Proof. unfold fi_cntr_readerr, ofi_cntr_readerr. emits. Qed.

Section Progress.
Context `{!MrAgainEnds K, !KnownOps K}.

Lemma cntr_progress_spec id w :
  world_ok w -> rings_sane w -> e_op_id (w_ep w) + progress_ids w < 2 ^ 64 ->
  wp (ofi_cntr_progress id) (fun _ w' => (world_ok w' /\ moved (progress_ids w) w w') /\ grows w w') w.
Proof.
  intros Hw Hrd Hop. eapply (wp_wlp _ _ _ w); [|apply emits_cntr_progress]. unfold ofi_cntr_progress. apply wp_bind, wp_ep_get.
  destruct (bool_decide _); [by apply ep_progress_spec|]. apply wp_ret. split; [done|]. eapply (moved_weaken 0); [apply moved_refl|].
  pose proof (ring_ids_pos w Hrd). unfold progress_ids, RDS_PROGRESS_BUDGET. lia.
Qed.

(** A read returns the count the counter had before the progress pass. *)
Lemma cntr_read_spec id c w :
  world_ok w -> rings_sane w -> e_op_id (w_ep w) + progress_ids w < 2 ^ 64 -> w_cntrs w !! id = Some c ->
  wp (fi_cntr_read id) (fun r w' => (world_ok w' /\ moved (progress_ids w) w w') /\ grows w w' /\ r = if is_peer_cntr c then 0 else cn_cnt c) w.
Proof.
  intros Hw Hrd Hop Ec. unfold fi_cntr_read. apply wp_bind. eapply wp_cntr_get; [exact Ec|].
  destruct (is_peer_cntr c); unfold ofi_peer_cntr_read, ofi_cntr_read; apply wp_bind; (eapply wp_mono; [by apply cntr_progress_spec|]);
    cbn beta; intros _ w1 [Hw1 Hg]; [by apply wp_ret|]. pose proof Hg as [_ [[= E _ _] _]]. eapply wp_cntr_get; [by rewrite E|done].
Qed.

Lemma cntr_readerr_spec id c w :
  world_ok w -> rings_sane w -> e_op_id (w_ep w) + progress_ids w < 2 ^ 64 -> w_cntrs w !! id = Some c ->
  wp (fi_cntr_readerr id) (fun r w' => (world_ok w' /\ moved (progress_ids w) w w') /\ grows w w' /\ r = if is_peer_cntr c then 0 else cn_err c) w.
Proof.
  intros Hw Hrd Hop Ec. unfold fi_cntr_readerr. apply wp_bind. eapply wp_cntr_get; [exact Ec|].
  destruct (is_peer_cntr c).
  - apply wp_ret. split_and!; [done| |by apply grows_same|done]. eapply (moved_weaken 0); [apply moved_refl|].
    pose proof (ring_ids_pos w Hrd). unfold progress_ids, RDS_PROGRESS_BUDGET. lia.
  - apply wp_bind. eapply wp_mono; [by apply cntr_progress_spec|]. cbn beta. intros _ w1 [Hw1 Hg]. pose proof Hg as [_ [[= E _ _] _]].
    eapply wp_cntr_get; [by rewrite E|done].
Qed.
End Progress.

(** ** Changing *)

(** What a call on a counter leaves alone. *)
Definition cntr_step w w' : Prop := world_ok w' /\ moved 0 w w' /\ w_log w' = w_log w.

Lemma cntr_step_refl w : world_ok w -> cntr_step w w.
Proof. intros Hw. split_and!; [done|apply moved_refl|done]. Qed.
Lemma cntr_step_trans w1 w2 w3 : cntr_step w1 w2 -> cntr_step w2 w3 -> cntr_step w1 w3.
Proof. intros (_ & M1 & L1) (W2 & M2 & L2). split_and!; [done|exact (moved_trans 0 0 _ _ _ M1 M2)|congruence]. Qed.
Lemma cntr_step_cntrs w f : world_ok w -> cntr_step w (w <| w_cntrs ::= f |>).
Proof. intros Hw. split_and!; [by apply wi_cntrs|split_and!; [w_simpl; lia|done..]|done]. Qed.

Lemma alter_val f id w id' :
  cntr_val (w <| w_cntrs ::= alter f id |>) id' =
    if id =? id' then (fun c => counts (f c)) <$> w_cntrs w !! id else cntr_val w id'.
Proof.
  unfold cntr_val. cbn. destruct (Z.eqb_spec id id') as [<-|Hne]; [|by rewrite lookup_alter_ne]. rewrite lookup_alter_eq. by destruct (w_cntrs w !! id).
Qed.

(** Add or set, one or the other count. *)
Lemma cntr_change_spec f id w : (forall c, cn_ref (f c) = cn_ref c) -> world_ok w -> open_cntr w id ->
  wp (peer <- cntr_get is_peer_cntr id ;; if (peer : bool) then ret (- FI_ENOSYS) else cntr_upd f id ;;; ret 0)
    (fun r w' => cntr_step w w' /\ (forall x, refs_ok x w -> refs_ok x w') /\ forall id', cntr_val w' id' =
       if id =? id' then (fun c => if is_peer_cntr c then counts c else counts (f c)) <$> w_cntrs w !! id else cntr_val w id') w.
Proof.
  intros Hf Hw [c Hc]. apply wp_bind. eapply wp_cntr_get; [exact Hc|]. rewrite Hc. cbn [fmap option_fmap option_map]. destruct (is_peer_cntr c) eqn:Ep.
  - apply wp_ret. split_and!; [by apply cntr_step_refl|done|]. intros id'. destruct (Z.eqb_spec id id') as [<-|]; [|done]. unfold cntr_val. by rewrite Hc.
  - apply wp_bind, wp_modify, wp_ret. split_and!; [by apply cntr_step_cntrs|intros x; by apply refs_alter_cntr|]. intros id'. rewrite alter_val, Hc. done.
Qed.

(** ** Binding *)

(** What binding the counter [id] does. *)
Definition bind_step (id : Z) w w' : Prop :=
  cntr_step w w' /\ (forall id', cntr_val w' id' = cntr_val w id') /\ (open_cntr w id -> forall x, refs_ok x w -> refs_ok x w').

Lemma bind_step_trans id w1 w2 w3 : bind_step id w1 w2 -> bind_step id w2 w3 -> bind_step id w1 w3.
Proof.
  intros (S1 & V1 & R1) (S2 & V2 & R2). split_and!; [by eapply cntr_step_trans|intros; by rewrite V2|].
  intros Ho x Hx. apply R2; [by apply (open_cntr_val w1)|auto].
Qed.

Lemma bind_index w i id : world_ok w -> e_cntrs (w_ep w) !! i = None ->
  bind_step id w (w <| w_ep ::= fun e => e <| e_cntrs ::= insert i id |> |> <| w_cntrs ::= alter (fun c => c <| cn_ref ::= Z.add 1 |>) id |>).
Proof.
  intros Hw Hi. split_and!.
  - split_and!; [|split_and!; [w_simpl; lia|done..]|done].
    apply wi_cntrs. exact (wi_cntr_lists w (insert i id) (e_cntr_lists (w_ep w)) Hw).
  - intros id'. rewrite alter_val. destruct (Z.eqb_spec id id') as [<-|]; [|done]. unfold cntr_val. cbn. by destruct (w_cntrs w !! id).
  - intros Ho x Hr. by apply refs_bind_cntr; [|exact (wi_live _ _ _ _ Hw)|..].
Qed.

Lemma bind_cntrs_spec l id flags w :
  world_ok w -> NoDup l.*1 -> (forall i f, (i, f) ∈ l -> has flags f = true -> e_cntrs (w_ep w) !! i = None) ->
  wp (bind_cntrs l id flags) (fun _ w' => bind_step id w w') w.
Proof.
  revert w. induction l as [|[i f] l IH]; intros w Hw Hnd Hfree; cbn [bind_cntrs].
  { apply wp_ret. split_and!; [by apply cntr_step_refl|done|done]. }
  cbn in Hnd. apply NoDup_cons in Hnd as [Hi Hnd]. apply wp_bind. destruct (has flags f) eqn:Ef.
  - apply wp_bind, wp_ep_upd, wp_modify. pose proof (bind_index w i id Hw (Hfree i f ltac:(by left) Ef)) as Hb.
    eapply wp_mono; [apply IH; [apply Hb|done|]|].
    + intros i' f' Hin Ef'. cbn. rewrite lookup_insert_ne; [by apply (Hfree i' f'); [right|]|]. intros <-. apply Hi. by apply (list_elem_of_fmap_2 fst) in Hin.
    + cbn beta. intros _ w' Hw'. by eapply bind_step_trans.
  - apply wp_ret. apply IH; [done|done|]. intros i' f' Hin. apply (Hfree i' f'). by right.
Qed.

(** Binding a counter always returns; it changes no count, nor anything of
    the endpoint besides, and the references stay exact. *)
Lemma bind_cntr_spec id flags w : world_ok w -> wp (rds_ep_bind (Some (FI_CLASS_CNTR id)) flags) (fun _ w' => bind_step id w w') w.
Proof.
  intros Hw. assert (H0 : bind_step id w w) by (split_and!; [by apply cntr_step_refl|done|done]).
  unfold rds_ep_bind. destruct (negb _); [by apply wp_ret|]. unfold ofi_ep_bind_cntr. apply wp_bind, wp_ep_get. destruct (negb _); [by apply wp_ret|].
  destruct (existsb _ _) eqn:Ex; [by apply wp_ret|]. apply wp_bind. eapply wp_mono; [apply bind_cntrs_spec; [done| |]|].
  - cbn. apply (bool_decide_unpack _). by vm_compute.
  - intros i f Hin Hf. apply not_true_iff_false in Ex. destruct (e_cntrs (w_ep w) !! i) eqn:E; [|done]. exfalso. apply Ex, existsb_exists.
    exists (i, f). split; [by apply list_elem_of_In|]. rewrite Hf, E. done.
  - cbn beta. intros _ w1 Hb. unfold fid_list_insert2. apply wp_bind, wp_ep_get. destruct (bool_decide _); [by apply wp_ret|].
    apply wp_bind, wp_sys_alloc. assert (Hw1 : world_ok w1) by apply Hb.
    assert (Hs : forall l k', bind_step id w1 (w1 <| w_k := k' |> <| w_ep ::= fun e => e <| e_cntr_lists := l |> |>)).
    { intros l k'. split_and!; [|done|by intros _ x [? ? ? ? ? ? ? ?]]. split_and!; [|split_and!; [w_simpl; lia|done..]|done].
      exact (wi_cntr_lists _ (fun m => m) l (wi_k _ _ _ _ k' Hw1)). }
    intros [p|] k'; [apply wp_bind, wp_ep_upd, wp_ret|apply wp_ret]; (eapply bind_step_trans; [exact Hb|]); [apply Hs|].
    split_and!; [|done|by intros _ x [? ? ? ? ? ? ? ?]]. split_and!; [by apply wi_k|split_and!; [w_simpl; lia|done..]|done].
Qed.

(** ** Opening and closing *)

Lemma cntr_step_k w k' : world_ok w -> cntr_step w (w <| w_k := k' |>).
Proof. intros Hw. split_and!; [by apply wi_k|split_and!; [w_simpl; lia|done..]|done]. Qed.
Lemma cntr_step_obj w f : world_ok w -> cntr_step w (w <| w_obj ::= f |>).
Proof. intros Hw. split_and!; [by apply wi_obj|split_and!; [w_simpl; lia|done..]|done]. Qed.

Lemma cntr_step_dom n w : world_ok w -> cntr_step w (dom_plus n w).
Proof. apply cntr_step_obj. Qed.

Lemma same_k w : w <| w_k := w_k w |> = w.
Proof. by destruct w. Qed.

Lemma cntr_init_spec a wait_open poll_add w :
  wp (ofi_cntr_init (Some a) wait_open poll_add) (fun r w' => exists k', match r with
    | inl e => e <> 0 /\ w' = w <| w_k := k' |>
    | inr c => w' = dom_plus 1 (w <| w_k := k' |>) /\ cn_ref c = 0 /\ counts c = (0, 0, has (ca_flags a) FI_PEER) end) w.
Proof.
  unfold ofi_cntr_init. destruct (Z.eqb_spec (ofi_check_cntr_attr (Some a)) 0) as [_|Hne]; cbn [negb]; [|apply wp_ret; exists (w_k w); by rewrite same_k].
  destruct (_ && negb (wait_open =? 0)) eqn:E1; [apply wp_ret; exists (w_k w); rewrite same_k; split; [|done]; by apply andb_true_iff in E1 as [_ E1%negb_true_iff%Z.eqb_neq]|].
  assert (Hend : forall ops w0 k', w0 = w <| w_k := k' |> -> is_peer_cntr (mkCntr 0 0 0 (ca_flags a) ops false false) = has (ca_flags a) FI_PEER ->
    forall wait internal, wp (if wait && negb (poll_add =? 0) then ret (inl poll_add) else dom_ref 1 ;;; ret (inr (mkCntr 0 0 0 (ca_flags a) ops wait internal)))
      (fun r w' => exists k', match r with inl e => e <> 0 /\ w' = w <| w_k := k' |>
        | inr c => w' = dom_plus 1 (w <| w_k := k' |>) /\ cn_ref c = 0 /\ counts c = (0, 0, has (ca_flags a) FI_PEER) end) w0).
  { intros ops w0 k' -> Hp wait internal. destruct (wait && _) eqn:E2; [apply wp_ret; exists k'; split; [|done]; by apply andb_true_iff in E2 as [_ E2%negb_true_iff%Z.eqb_neq]|].
    apply wp_bind, wp_modify, wp_ret. exists k'. split_and!; [done|done|]. unfold counts. cbn. f_equal. exact Hp. }
  apply wp_bind. destruct (has (ca_flags a) FI_PEER) eqn:Ep.
  - apply wp_ret. by apply (Hend _ _ (w_k w)); [rewrite same_k|].
  - apply wp_bind, wp_sys_alloc. intros [p|] k'; apply wp_ret; [|apply wp_ret; by exists k'].
    apply (Hend _ _ k'); [done|]. by destruct (ca_wait_obj a).
Qed.

(** Opening returns for every attribute that is given; on success the new
    counter stands at 0, nothing refers to it, and no other changes. *)
Lemma cntr_open_spec id a wait_open poll_add w : world_ok w ->
  wp (rds_cntr_open id (Some a) wait_open poll_add) (fun r w' => cntr_step w w' /\
    (w_cntrs w !! id = None -> forall x, refs_ok x w -> refs_ok x w') /\
    (cntr_part w' = cntr_part w \/ exists c, r = 0 /\ cn_ref c = 0 /\ counts c = (0, 0, has (ca_flags a) FI_PEER) /\
       cntr_part w' = (<[id := c]> (w_cntrs w), e_cntrs (w_ep w), e_cntr_lists (w_ep w)))) w.
Proof.
  intros Hw. unfold rds_cntr_open. apply wp_bind, wp_sys_alloc.
  intros [p|] k1; [|apply wp_ret; split_and!; [by apply cntr_step_k|by intros _ x [? ? ? ? ? ? ? ?]|by left]].
  apply wp_bind. eapply wp_mono; [apply cntr_init_spec|]. cbn beta. intros [e|c] w1 (k' & Hw1).
  - destruct Hw1 as [_ ->]. apply wp_ret. split_and!; [|by intros _ x [? ? ? ? ? ? ? ?]|by left]. exact (cntr_step_k w k' Hw).
  - destruct Hw1 as (-> & Hr & Hc). apply wp_bind, wp_modify, wp_ret. split_and!.
    + eapply cntr_step_trans; [exact (cntr_step_k w k' Hw)|]. assert (Hk := wi_k _ _ _ _ k' Hw).
      eapply cntr_step_trans; [exact (cntr_step_dom 1 _ Hk)|]. apply cntr_step_cntrs, (cntr_step_dom 1 _ Hk).
    + intros Hn x Hx. apply (refs_open_cntr x (w <| w_k := k1 |> <| w_k := k' |>)); [|done|done]. by destruct Hx.
    + right. by exists c.
Qed.

(** Closing succeeds exactly when nothing refers to the counter. *)
Lemma cntr_close_spec id c w : world_ok w -> w_cntrs w !! id = Some c ->
  wp (util_cntr_close id) (fun r w' => cntr_step w w' /\ (forall x, holders_ok x -> refs_ok x w -> refs_ok x w') /\
    if cn_ref c =? 0 then r = 0 /\ w_cntrs w' = delete id (w_cntrs w) else r = - FI_EBUSY /\ w_cntrs w' = w_cntrs w) w.
Proof.
  intros Hw Hc. apply wp_bind. eapply wp_cntr_get; [exact Hc|]. destruct (cn_ref c =? 0) eqn:E; cbn [negb].
  - apply wp_bind, wp_modify, wp_bind, wp_modify, wp_ret. split_and!; try done.
    + eapply cntr_step_trans; [by apply (cntr_step_cntrs w (delete id))|]. by apply cntr_step_obj, wi_cntrs.
    + intros x Hx Hr. by eapply refs_close_cntr; [..|apply Z.eqb_eq].
  - apply wp_ret. split_and!; [by apply cntr_step_refl|done..].
Qed.

End CntrSpec.
