(* ===== verification/ObjSpec.v ===== *)
(** * Opening and closing objects, specified

    What the calls on fabric, domain, queues and address vector leave behind,
    outcome by outcome, and that they keep the endpoint invariant and exact
    references. *)

From stdpp Require Import strings.
From S2P Require Import Prelude Iov Wire Config Kernel Attr Getinfo Cq CqFifo Av AvIp Rbt MrCache MrCacheInv State Mr.
From S2P Require Import MrInv Pending Ring Msg Rma RingRx Progress Ep Cntr Objects Segments Pres Frame Inv Rules PendInv Safety.
From S2P Require Import SafetyRing SafetyRx RingPoll SafetyTx SafetyEp Emits Refs CntrSpec.

Section ObjSpec.
Context {K : Type} `{!Kernel K}.
Implicit Types w : world K.

Lemma k_twice w k1 k2 : w <| w_k := k1 |> <| w_k := k2 |> = w <| w_k := k2 |>.
Proof. by destruct w. Qed.

(** ** Queues *)

Lemma wi_cqs_insert w id q : world_ok w -> e_tx_cq (w_ep w) <> Some id -> e_rx_cq (w_ep w) <> Some id -> world_ok (w <| w_cqs ::= insert id q |>).
Proof.
  intros Hw Ht Hr. eapply wi_env; [exact Hw|done..|]. pose proof (wi_cqs _ _ _ _ Hw) as [H1 H2].
  split; intros i E; [destruct (H1 i E) as (q0 & l & Eq & Hq)|destruct (H2 i E) as (q0 & l & Eq & Hq)]; exists q0, l; (split; [|done]); w_simpl; by rewrite lookup_insert_ne by congruence.
Qed.
Lemma wi_cqs_delete w id : world_ok w -> e_tx_cq (w_ep w) <> Some id -> e_rx_cq (w_ep w) <> Some id -> world_ok (w <| w_cqs ::= delete id |>).
Proof.
  intros Hw Ht Hr. eapply wi_env; [exact Hw|done..|]. pose proof (wi_cqs _ _ _ _ Hw) as [H1 H2].
  split; intros i E; [destruct (H1 i E) as (q0 & l & Eq & Hq)|destruct (H2 i E) as (q0 & l & Eq & Hq)]; exists q0, l; (split; [|done]); w_simpl; by rewrite lookup_delete_ne by congruence.
Qed.

(** The queue an attribute structure asks for. *)
Definition new_cq (attr : fi_cq_attr) w : util_cq :=
  util_cq_init (qa_size attr) (has (ud_caps (ob_domain (w_obj w))) FI_SOURCE) (format_of (qa_format attr)).

(** The world with one more queue. *)
Definition cq_opened (id : Z) (attr : fi_cq_attr) w : world K :=
  dom_plus 1 w <| w_cqs ::= fun m => if has (qa_flags attr) FI_PEER then m else <[id := new_cq attr w]> m |>
               <| w_obj ::= fun o => o <| ob_cq_refs ::= insert id 0 |> |>.

Lemma init_peer_cq_spec attr w :
  wp (util_init_peer_cq attr) (fun r w' => exists k', w' = w <| w_k := k' |> /\ (r = inl (- FI_ENOMEM) \/ r = inr (new_cq attr w))) w.
Proof.
  unfold util_init_peer_cq. apply wp_bind, wp_sys_alloc. intros [p|] k1; [|apply wp_ret; exists k1; by split; [|left]].
  apply wp_bind, wp_gets. cbn zeta. apply wp_bind, wp_sys_alloc. intros [p2|] k2; [|apply wp_ret; exists k2; rewrite k_twice; by split; [|left]].
  destruct (has _ FI_SOURCE) eqn:E; w_simpl; [|apply wp_ret; exists k2; rewrite k_twice; split; [done|right]; unfold new_cq; by rewrite E].
  apply wp_bind, wp_sys_alloc. intros p3 k3. apply wp_ret. exists k3. rewrite !k_twice. split; [done|].
  destruct p3; [right; unfold new_cq; by rewrite E|by left].
Qed.

Lemma cq_open_spec id attr wait_open poll_add w :
  wp (rds_cq_open id attr wait_open poll_add) (fun r w' => exists k', r <> 0 /\ w' = w <| w_k := k' |> \/ r = 0 /\ w' = cq_opened id attr (w <| w_k := k' |>)) w.
Proof.
  unfold rds_cq_open. apply wp_bind, wp_sys_alloc. intros [p|] k1; [|apply wp_ret; exists k1; by left]. apply wp_bind.
  enough (H : wp (ofi_cq_init attr wait_open poll_add) (fun r w' => exists k', match r with
    | inl e => e <> 0 /\ w' = w <| w_k := k' |>
    | inr q => q = (if has (qa_flags attr) FI_PEER then None else Some (new_cq attr w)) /\ w' = dom_plus 1 (w <| w_k := k' |>) end) (w <| w_k := k1 |>)).
  { eapply wp_mono; [exact H|]. cbn beta. intros [e|q] w1 (k' & Hq); [apply wp_ret; exists k'; by left|]. destruct Hq as [-> ->]. apply wp_bind.
    unfold cq_opened. destruct (has (qa_flags attr) FI_PEER); [apply wp_ret|apply wp_modify]; apply wp_bind, wp_modify, wp_ret; exists k'; right; (split; [done|]).
    - by destruct w as [? ? ? ? ? ? ? ? ? ? []].
    - done. }
  unfold ofi_cq_init. destruct (Z.eqb_spec (ofi_check_cq_attr attr) 0) as [_|Hne]; cbn [negb]; [|apply wp_ret; by exists k1].
  assert (Hend : forall q w0 k', w0 = w <| w_k := k' |> -> q = (if has (qa_flags attr) FI_PEER then None else Some (new_cq attr w)) ->
    forall internal wait, wp (if internal && negb (wait_open =? 0) then ret (inl wait_open) else if wait && negb (poll_add =? 0) then ret (inl poll_add) else dom_ref 1 ;;; ret (inr q))
      (fun r w' => exists k', match r with inl e => e <> 0 /\ w' = w <| w_k := k' |>
        | inr q => q = (if has (qa_flags attr) FI_PEER then None else Some (new_cq attr w)) /\ w' = dom_plus 1 (w <| w_k := k' |>) end) w0).
  { intros q w0 k' -> -> internal wait. destruct (internal && _) eqn:E1; [apply wp_ret; exists k'; split; [|done]; by apply andb_true_iff in E1 as [_ E1%negb_true_iff%Z.eqb_neq]|].
    destruct (wait && _) eqn:E2; [apply wp_ret; exists k'; split; [|done]; by apply andb_true_iff in E2 as [_ E2%negb_true_iff%Z.eqb_neq]|].
    apply wp_bind, wp_modify, wp_ret. by exists k'. }
  apply wp_bind. destruct (has (qa_flags attr) FI_PEER) eqn:Ep; [apply wp_ret; by apply (Hend _ _ k1)|]. apply wp_bind.
  eapply wp_mono; [apply init_peer_cq_spec|]. cbn beta. intros r w2 (k2 & -> & [-> | ->]); apply wp_ret; [apply wp_ret; exists k2; rewrite k_twice; by split|].
  by apply (Hend _ _ k2); [apply k_twice|].
Qed.

(** With an endpoint open. *)
Lemma cq_open_ok x id attr wait_open poll_add w :
  world_ok w -> refs_ok x w -> ob_cq_refs (w_obj w) !! id = None ->
  wp (rds_cq_open id attr wait_open poll_add) (fun _ w' => cntr_step w w' /\ refs_ok x w' /\ cntr_part w' = cntr_part w) w.
Proof.
  intros Hw Hr Hn. eapply wp_mono; [apply cq_open_spec|]. cbn beta. intros r w' (k' & [[_ ->]|[_ ->]]); [split_and!; [by apply cntr_step_k|by destruct Hr|done]|].
  assert (Hk := wi_k _ _ _ _ k' Hw). assert (Hu : e_tx_cq (w_ep w) <> Some id /\ e_rx_cq (w_ep w) <> Some id).
  { destruct (ro_new_cq _ _ Hr id Hn) as [_ Hu]. unfold own, cq_uses, cq_use in Hu. rewrite (wi_live _ _ _ _ Hw) in Hu. by repeat case_bool_decide. }
  split_and!.
  - split_and!; [|split_and!; [unfold cq_opened, dom_plus; w_simpl; lia|done..]|done]. apply (wi_obj (dom_plus 1 (w <| w_k := k' |>) <| w_cqs ::= _ |>)).
    destruct (has (qa_flags attr) FI_PEER); [|destruct Hu; by apply (wi_cqs_insert _ id (new_cq attr (w <| w_k := k' |>)) (proj1 (cntr_step_dom 1 _ Hk)))].
    pose proof (proj1 (cntr_step_dom 1 _ Hk)) as Hd. by destruct w.
  - apply (refs_open_cq x (w <| w_k := k' |>)); [by destruct Hr|done].
  - done.
Qed.

(** A queue is closed exactly when no endpoint is bound to it. *)
Lemma cq_close_spec id r w : ob_cq_refs (w_obj w) !! id = Some r ->
  wp (rds_cq_close id) (fun e w' => if r =? 0 then e = 0 /\ w' = dom_plus (-1) (w <| w_cqs ::= delete id |>) <| w_obj ::= fun o => o <| ob_cq_refs ::= delete id |> |>
    else e = - FI_EBUSY /\ w' = w) w.
Proof.
  intros E. unfold rds_cq_close, ofi_cq_cleanup. apply wp_bind, wp_bind, wp_gets. rewrite E. apply wp_bind, wp_ret. destruct (r =? 0); cbn [negb].
  - apply wp_bind, wp_modify, wp_bind, wp_modify, wp_ret. cbn [Z.eqb negb]. by apply wp_bind, wp_modify, wp_ret.
  - apply wp_ret. by apply wp_ret.
Qed.

Lemma cq_close_ok x id w :
  world_ok w -> holders_ok x -> refs_ok x w -> is_Some (ob_cq_refs (w_obj w) !! id) ->
  wp (rds_cq_close id) (fun _ w' => cntr_step w w' /\ refs_ok x w' /\ cntr_part w' = cntr_part w) w.
Proof.
  intros Hw Hx Hr [r E]. eapply wp_mono; [by apply cq_close_spec|]. cbn beta. intros e w'. destruct (Z.eqb_spec r 0) as [->|_]; intros [_ ->]; cycle 1.
  { split_and!; [by apply cntr_step_refl|done..]. }
  destruct (bound_not_closable x w id Hx Hr (wi_live _ _ _ _ Hw) E) as [Ht Hrx]. split_and!; [|by apply refs_close_cq|done].
  split_and!; [|split_and!; [unfold cq_opened, dom_plus; w_simpl; lia|done..]|done]. apply (wi_obj (dom_plus (-1) (w <| w_cqs ::= delete id |>))), (wi_obj (w <| w_cqs ::= delete id |>)). by apply wi_cqs_delete.
Qed.

(** ** Fabric *)

Lemma fabric_spec attr name w : fba_name attr = Some name ->
  wp (rds_fabric attr) (fun r w' => exists k', r <> 0 /\ w' = w <| w_k := k' |> \/
    r = 0 /\ w' = w <| w_k := k' |> <| w_obj ::= fun o => o <| ob_fabric := mkFabric 0 name [] |> |>) w.
Proof.
  intros En. unfold rds_fabric. apply wp_bind, wp_sys_alloc. intros [p|] k1; [|apply wp_ret; exists k1; by left].
  unfold ofi_fabric_init. destruct (Z.eqb_spec (ofi_check_fabric_attr rds_fabric_attr attr) 0) as [_|Hne]; cbn [negb]; [|apply wp_ret; exists k1; by left].
  rewrite En. apply wp_bind, wp_sys_alloc. intros [q|] k2; [apply wp_bind, wp_modify|]; apply wp_ret; exists k2; [by right|by left].
Qed.

(** ** Domain *)

(** A new domain: nothing registered, and its cache, if it has one, empty. *)
Definition domain_fresh (d : rds_domain) : Prop :=
  d_reg_ep d = None /\ d_mrs d = ∅ /\ cache_on (d_cache_enabled d) (d_mr_cache d) [].

Lemma dom_plus_0 w : dom_plus 0 w = w.
Proof. by destruct w as [? ? ? ? ? ? ? ? ? ? [? [] ? ?]]. Qed.

Lemma cache_open_spec monitor max_cnt max_size setup w : w_dom w = domain_zero ->
  wp (rds_mr_cache_open monitor max_cnt max_size setup) (fun _ w' => exists d, domain_fresh d /\ w' = dom_plus (Z.b2z (d_cache_enabled d)) (w <| w_dom := d |>)) w.
Proof.
  intros E. assert (Hoff : domain_fresh (domain_zero <| d_cache_enabled := false |>)) by done.
  unfold rds_mr_cache_open. apply wp_bind, wp_gets. destruct (negb _).
  { apply wp_bind, wp_dom_upd, wp_ret. eexists. split; [exact Hoff|]. rewrite dom_plus_0. unfold set_field. cbn. by rewrite E. }
  cbn zeta. destruct (ofi_mr_cache_init monitor max_cnt max_size) as [e|c] eqn:Ei; [|destruct (negb (setup =? 0))].
  1-2: apply wp_bind, wp_dom_upd, wp_ret; eexists; (split; [exact Hoff|]); rewrite dom_plus_0; unfold set_field; cbn; by rewrite E.
  apply wp_bind, wp_modify, wp_bind, wp_dom_upd, wp_ret.
  eexists (domain_zero <| d_mr_cache := _ |> <| d_cache_enabled := true |>). split; [|unfold set_field; cbn; by rewrite E].
  split_and!; [done|done|]. apply init_ok in Ei. destruct (mc_cached_max_size c =? SIZE_MAX); [by eapply cache_ok_counters; [..|exact Ei]|exact Ei].
Qed.

(** The objects once the domain is there. *)
Definition domain_made (self : Z) (info : fi_info) (a : fi_domain_attr) (name : string) (o : objects) : objects :=
  o <| ob_domain := mkUtilDomain self 0 name (Z.lor (in_caps info) (dma_caps a)) (Z.lor (in_mode info) (dma_mode a)) (dma_mr_mode a)
         (in_addr_format info) (dma_av_type a) |>
    <| ob_fabric ::= fun f => f <| uf_domain_list ::= fun l => l ++ [self] |> <| uf_ref ::= Z.add 1 |> |>.

(** The map of regions must be there: without memory for it the call is
    undefined. *)
Lemma domain_open_spec self version info a name monitor max_cnt max_size setup w :
  (forall k, (k_alloc RBMAP_SIZE k).1 <> None) -> in_domain_attr info = Some a -> dma_name a = Some name ->
  wp (rds_domain_open self version (Some info) monitor max_cnt max_size setup) (fun r w' => exists k', r <> 0 /\ w' = w <| w_k := k' |> \/
    r = 0 /\ exists d, domain_fresh d /\
      w' = dom_plus (Z.b2z (d_cache_enabled d)) (w <| w_k := k' |> <| w_obj ::= domain_made self info a name |> <| w_dom := d |>)) w.
Proof.
  intros Hmap Ea En. unfold rds_domain_open. cbn zeta. destruct (Z.eqb_spec (ofi_prov_check_info rds_util_prov version (Some info)) 0) as [_|Hne]; cbn [negb].
  2: { apply wp_ret. exists (w_k w). left. by rewrite same_k. }
  apply wp_bind, wp_sys_alloc. intros [p|] k1; [|apply wp_ret; exists k1; by left]. unfold ofi_domain_init, util_domain_init. rewrite Ea, En.
  apply wp_bind, wp_bind, wp_bind, wp_sys_alloc. intros [q|] k2; [|apply wp_ret; cbn [Z.opp FI_ENOMEM Z.eqb negb]; apply wp_ret, wp_ret; exists k2; by left].
  apply wp_bind, wp_modify, wp_ret. cbn [Z.eqb negb]. apply wp_bind. unfold wp at 1, sys_alloc. w_simpl. specialize (Hmap k2).
  destruct (k_alloc RBMAP_SIZE k2) as [[m|] k3]; [|done]. apply wp_bind, wp_modify, wp_ret. cbn [Z.eqb negb]. apply wp_bind, wp_modify, wp_bind.
  eapply wp_mono; [by apply cache_open_spec|]. cbn beta. intros _ w' (d & Hd & ->). apply wp_ret. exists k3. right. split; [done|]. exists d. by split.
Qed.

(** ** Address vector *)

(** The vector an attribute structure asks for. *)
Definition new_av (fmt : fi_addr_format) (attr : fi_av_attr) (universe : Z) : util_av :=
  let '(addrlen, flags) := match fmt with FI_SOCKADDR_IN => (16, 0) | FI_SOCKADDR_IN6 => (28, 0) | _ => (28, OFI_AV_DYN_ADDRLEN) end in
  mkAv addrlen (roundup_power_of_two (if aa_count attr =? 0 then universe else aa_count attr)) 0 ∅ ∅ (Z.lor flags (aa_flags attr)).

Definition av_opened (attr : fi_av_attr) (universe : Z) w : world K :=
  dom_plus 1 w <| w_avec := new_av (ud_addr_format (ob_domain (w_obj w))) attr universe |> <| w_obj ::= fun o => o <| ob_av := Some 0 |> |>.

(** A caller cannot ask for addresses of any length. *)
Lemma verified_flags t attr : util_verify_av_attr t attr = 0 -> has (aa_flags attr) OFI_AV_DYN_ADDRLEN = false.
Proof.
  unfold util_verify_av_attr. destruct (negb _) eqn:E1; [intros H; rewrite H in E1; done|]. destruct (aa_name attr); [done|].
  destruct (Z.eqb_spec (Z.land (aa_flags attr) (Z.lnot (bits [FI_COMPLETION; FI_READ; FI_SYMMETRIC; FI_PEER]))) 0) as [E|_]; [|done]. intros _.
  unfold has. apply negb_false_iff, Z.eqb_eq. change OFI_AV_DYN_ADDRLEN with (Z.land (Z.lnot (bits [FI_COMPLETION; FI_READ; FI_SYMMETRIC; FI_PEER])) OFI_AV_DYN_ADDRLEN).
  by rewrite Z.land_assoc, E.
Qed.

(** A failure can leave the reference to the domain behind. *)
Lemma av_create_spec attr universe w :
  wp (ofi_ip_av_create attr universe) (fun r w' => exists k', let w1 := w <| w_k := k' |> in
    (r = 0 /\ has (aa_flags attr) OFI_AV_DYN_ADDRLEN = false) /\ w' = av_opened attr universe w1 \/ r <> 0 /\ (w' = w1 \/ w' = dom_plus 1 w1)) w.
Proof.
  unfold ofi_ip_av_create. apply wp_bind, wp_gets. set (fmt := ud_addr_format (ob_domain (w_obj w))).
  assert (Hfl : exists len fl, (match fmt with FI_SOCKADDR_IN => (16, 0) | FI_SOCKADDR_IN6 => (28, 0) | _ => (28, OFI_AV_DYN_ADDRLEN) end) = (len, fl) /\
    (Z.land fl (Z.lnot OFI_AV_DYN_ADDRLEN) =? 0) = true) by (destruct fmt; by eexists _, _).
  destruct Hfl as (len & fl & Efl & Hfl). rewrite Efl. set (attr' := match aa_type attr with FI_AV_UNSPEC => _ | _ => _ end).
  assert (Ea : aa_count attr' = aa_count attr /\ aa_flags attr' = aa_flags attr) by (unfold attr'; by destruct (aa_type attr)). destruct Ea as [E1 E2].
  clearbody attr'. apply wp_bind, wp_sys_alloc. intros [p|] k1; [|apply wp_ret; exists k1; right; split; [done|by left]].
  unfold ofi_av_init, ofi_av_init_lightweight. apply wp_bind, wp_bind, wp_bind, wp_gets.
  match goal with |- context [util_verify_av_attr ?t attr'] => destruct (Z.eqb_spec (util_verify_av_attr t attr') 0) as [Hv|Hne] end; cbn [negb].
  2: { apply wp_ret. rewrite (proj2 (Z.eqb_neq _ 0) Hne). cbn [negb]. apply wp_ret. rewrite (proj2 (Z.eqb_neq _ 0) Hne). cbn [negb]. apply wp_ret. exists k1. right. split; [done|by left]. }
  apply wp_bind, wp_modify, wp_ret. cbn [Z.eqb negb]. unfold util_av_init. rewrite Hfl. cbn [negb]. apply wp_bind, wp_sys_alloc. intros [q|] k2.
  - apply wp_bind, wp_modify, wp_ret. cbn [Z.eqb negb]. apply wp_bind, wp_modify, wp_ret. exists k2. left. split; [split; [done|]; apply verified_flags in Hv; by rewrite <- E2|].
    unfold av_opened, new_av. w_simpl. change (ud_addr_format (ob_domain (w_obj w))) with fmt. rewrite Efl, E1, E2. done.
  - apply wp_ret. cbn [Z.opp FI_ENOMEM Z.eqb negb]. apply wp_ret. exists k2. right. split; [done|by right].
Qed.

Lemma wp_av_close (Q : Z -> world K -> Prop) w :
  ob_av (w_obj w) = Some 0 -> Q 0 (dom_plus (-1) w <| w_obj ::= fun o => o <| ob_av := None |> |>) -> wp ip_av_close Q w.
Proof.
  intros E HQ. unfold ip_av_close, ofi_av_close, ofi_av_close_lightweight. apply wp_bind, wp_bind, wp_gets. rewrite E. apply wp_bind, wp_ret. cbn [Z.eqb negb].
  apply wp_bind, wp_modify, wp_ret. cbn [Z.eqb negb]. apply wp_bind, wp_modify, wp_ret. exact HQ.
Qed.
End ObjSpec.
