(* ===== verification/Startup.v ===== *)
(** * Bringing an endpoint up

    [rds_endpoint], [rds_ep_bind] and [rds_ep_ctrl] in the order an
    application calls them establish the endpoint invariant. *)

From stdpp Require Import sorting.
From S2P Require Import Prelude Iov Wire Config Kernel Attr Getinfo AttrSpec Cq CqFifo Av MrCache MrCacheInv State Mr.
From S2P Require Import MrInv Pending Ring Msg Ep Objects Pres Frame Inv Rules PendInv Safety SafetyTx Emits Refs.

Section Startup.
Context {K : Type} `{!Kernel K}.
Implicit Types w : world K.

Lemma wp_sys_k {A} (f : K -> A * K) (Q : A -> world K -> Prop) w :
  (forall r k', Q r (w <| w_k := k' |>)) -> wp (sys_k f) Q w.
Proof. intros HQ. unfold wp, sys_k. destruct (f (w_k w)). apply HQ. Qed.

(** The endpoint without its socket fields. *)
Definition ep_core (e : rds_ep) : rds_ep := e <| e_sock := 0 |> <| e_is_bound := false |> <| e_transport := 0 |>.

(** What socket set-up leaves alone. *)
Definition core_of w := (w_cfg w, w_live w, w_dom w, w_cqs w, w_avec w, ep_core (w_ep w)).

Lemma set_buf_spec size opt w :
  wp (set_buf size opt) (fun _ w' => core_of w' = core_of w) w.
Proof.
  unfold set_buf. destruct (negb _); [|by apply wp_ret]. apply wp_bind, wp_ep_get, wp_bind, wp_sys_k.
  intros r k'. by apply wp_ret.
Qed.

Lemma init_socket_fail_spec r w : wp (init_socket_fail r) (fun r' w' => r' = r /\ core_of w' = core_of w) w.
Proof. unfold init_socket_fail. apply wp_bind, wp_ep_get, wp_bind, wp_modify, wp_bind, wp_ep_upd, wp_ret. done. Qed.

Lemma init_socket_spec info w :
  wp (rds_ep_init_socket info) (fun _ w' => core_of w' = core_of w) w.
Proof.
  unfold rds_ep_init_socket. apply wp_bind, wp_sys_k. intros [err|sock] k1.
  { by apply wp_bind, wp_ep_upd, wp_ret. }
  assert (Hfail : forall r w1, core_of w1 = core_of w -> wp (init_socket_fail r) (fun _ w' => core_of w' = core_of w) w1).
  { intros r w1 E1. eapply wp_mono; [apply init_socket_fail_spec|]. cbn beta. intros ? w2 [_ ->]. done. }
  apply wp_bind, wp_ep_upd, wp_bind, wp_sys_k. intros r k2. destruct (negb _); [by apply Hfail|].
  apply wp_bind, wp_gets.
  match goal with |- wp _ _ ?wg => assert (Eg : core_of wg = core_of w) by done; revert Eg; generalize wg; intros w1 Eg end.
  apply wp_bind. eapply wp_mono; [apply set_buf_spec|]. cbn beta. intros _ w2 E2.
  apply wp_bind. eapply wp_mono; [apply set_buf_spec|]. cbn beta. intros _ w3 E3.
  apply wp_bind. apply wp_mono with (Q := fun _ w' => core_of w' = core_of w).
  { destruct (i ← info; in_src_addr i) as [addr|]; [|apply wp_ret; congruence].
    unfold rds_setname. apply wp_bind, wp_ep_get, wp_bind, wp_sys_k. intros r' k'.
    assert (Ek : core_of (w3 <| w_k := k' |>) = core_of w) by (transitivity (core_of w3); [done|congruence]).
    destruct (negb _); [by apply wp_ret|]. apply wp_bind, wp_ep_upd, wp_ret. exact Ek. }
  intros r' w4 E4. destruct (negb _); [by apply Hfail|]. apply wp_bind, wp_sys_k. intros r'' k'.
  destruct (negb _); [by apply Hfail|]. by apply wp_ret.
Qed.

(** A new endpoint: nothing posted, pending or connected. *)
Definition ep_new (cfg : rds_config) (self : Z) (info : fi_info) (av : bool) (tx rx : option Z) (e : rds_ep) : Prop :=
  (e_self e, e_caps e, e_av e, e_tx_cq e, e_rx_cq e) = (self, in_caps info, av, tx, rx) /\
  (e_rx_posted_msg e, e_rx_posted_tag e, e_rx_unexp_msg e, e_rx_unexp_tag e) = ([], [], [], []) /\
  (e_pending e, e_deferred e, e_rndzv_tx_inflight e, e_op_id e) = ([], [], 0, 0) /\
  (e_eager_rdma e, e_ring_slots e, e_ring_max_peers e) = (rds_eager_rdma cfg, u32 (rds_ring_slots cfg), u32 (rds_ring_max_peers cfg)) /\
  (e_peers e, e_peer_hash e, e_peer_lru e, e_peer_cnt e, e_next_peer e) = (∅, ∅, [], 0, 0).

(** The objects around the endpoint are those of [w0]. *)
Definition around w := (w_cfg w, w_dom w, w_cqs w, w_avec w).

Lemma ep_new_core cfg self info av tx rx e e' :
  ep_core e' = ep_core e -> ep_new cfg self info av tx rx e -> ep_new cfg self info av tx rx e'.
Proof. destruct e, e'. unfold ep_core, set_field. cbn. intros [= -> -> -> -> -> -> -> -> -> -> -> -> -> -> -> -> -> -> -> -> -> -> -> -> -> -> -> -> -> -> ->]. done. Qed.

Lemma endpoint_spec self version info w :
  wp (rds_endpoint self version (Some info)) (fun r w' => r = 0 -> ofi_prov_check_info rds_util_prov version (Some info) = 0 /\
    w_live w' = true /\ ep_new (w_cfg w) self info false None None (w_ep w') /\ around w' = around w) w.
Proof.
  unfold rds_endpoint. apply wp_bind, wp_sys_alloc. intros [a|] k1; [|by apply wp_ret].
  apply wp_bind, wp_modify, wp_bind. unfold rds_ep_ring_init. apply wp_bind, wp_gets, wp_ep_upd.
  unfold ofi_endpoint_init. destruct (in_ep_attr info), (in_rx_attr info) as [rxa|], (in_tx_attr info) as [txa|]; try by apply wp_bind, wp_ret.
  destruct (ofi_prov_check_info rds_util_prov version (Some info) =? 0) eqn:Ec; cbn [negb]; cycle 1.
  { apply wp_bind, wp_ret. rewrite Ec. apply wp_ret. intros H. by rewrite H in Ec. }
  apply wp_bind, wp_bind, wp_ep_upd, wp_bind, wp_modify, wp_ret. apply Z.eqb_eq in Ec.
  cbn [negb Z.eqb]. apply wp_bind, wp_gets, wp_bind, wp_ep_upd, wp_bind, wp_sys_alloc. intros [b|] k2; [|by apply wp_bind, wp_endpoint_close, wp_ret].
  apply wp_bind, wp_ep_upd, wp_bind, wp_sys_alloc. intros [c|] k3; [|by apply wp_bind, wp_endpoint_close, wp_ret].
  match goal with |- wp _ _ ?wg => assert (Hn : ep_new (w_cfg w) self info false None None (w_ep wg)) by done;
    assert (Ha : around wg = around w) by done; revert Hn Ha; generalize wg; intros w1 Hn Ha end.
  apply wp_bind. eapply wp_mono; [apply init_socket_spec|]. cbn beta. intros r w2 E2. destruct (r =? 0) eqn:Er; cbn [negb].
  - apply wp_bind, wp_modify, wp_ret. intros _. unfold core_of in E2. split_and!; [done|done| |].
    + eapply ep_new_core; [|exact Hn]. w_simpl. congruence.
    + unfold around in *. w_simpl. congruence.
  - apply wp_bind, wp_endpoint_close, wp_ret. lia.
Qed.

(** The structures fi_endpoint asks for are there. *)
Definition complete_info (info : option fi_info) : bool :=
  match info with
  | Some i => match in_ep_attr i, in_rx_attr i, in_tx_attr i with Some _, Some _, Some _ => true | _, _, _ => false end
  | None => false
  end.

Lemma prov_check_cases version i :
  ofi_prov_check_info rds_util_prov version (Some i) = - FI_ENODATA \/
  ofi_prov_check_info rds_util_prov version (Some i) = 0 /\ sub (in_caps i) (in_caps rds_info).
Proof.
  unfold ofi_prov_check_info, rds_util_prov. cbn [existsb]. rewrite orb_false_r. destruct (Z.eqb_spec (ofi_check_info rds_info version (Some i)) 0); [|by left].
  right. split; [done|]. by eapply ho_caps, check_info_hints.
Qed.

Lemma endpoint_init_spec version info w :
  wp (ofi_endpoint_init version info) (fun r w' =>
    if complete_info info && (ofi_prov_check_info rds_util_prov version info =? 0) then
      r = 0 /\ exists i rx tx, info = Some i /\ in_rx_attr i = Some rx /\ in_tx_attr i = Some tx /\ sub (in_caps i) (in_caps rds_info) /\
        w' = dom_plus 1 (w <| w_ep ::= fun e => e <| e_caps := in_caps i |> <| e_tx_op_flags := txa_op_flags tx |> <| e_rx_op_flags := rxa_op_flags rx |> |>)
    else r = (if complete_info info then - FI_ENODATA else - FI_EINVAL) /\ w' = w) w.
Proof.
  unfold ofi_endpoint_init, complete_info. destruct info as [i|]; [|by apply wp_ret].
  destruct (in_ep_attr i), (in_rx_attr i) as [rx|] eqn:Er, (in_tx_attr i) as [tx|] eqn:Et; try by apply wp_ret.
  destruct (prov_check_cases version i) as [->|[-> Hs]]; [by apply wp_ret|]. cbn [negb Z.eqb andb]. apply wp_bind, wp_ep_upd, wp_bind, wp_modify, wp_ret.
  split; [done|]. by exists i, rx, tx.
Qed.

(** C20: Attributes at fi_endpoint.  Creating an endpoint always returns.  It
    succeeds only for an info structure that has endpoint, transmit and
    receive attributes and passes the check fi_getinfo applies; the endpoint
    then has the capabilities and operation flags of that structure, and no
    capability the provider lacks.  Otherwise no endpoint exists; when the
    structure is incomplete or fails the check, the error says so
    (-FI_EINVAL, -FI_ENODATA) unless there was no memory for the endpoint,
    no socket has been opened, and the domain, its queues and its address
    vector are untouched. *)
Theorem endpoint_attributes self version info w :
  w_live w = false ->
  wp (rds_endpoint self version info) (fun r w' =>
    (r = 0 -> w_live w' = true /\ exists i rx tx, info = Some i /\ in_rx_attr i = Some rx /\ in_tx_attr i = Some tx /\
       ofi_prov_check_info rds_util_prov version info = 0 /\ sub (in_caps i) (in_caps rds_info) /\
       (e_caps (w_ep w'), e_tx_op_flags (w_ep w'), e_rx_op_flags (w_ep w')) = (in_caps i, txa_op_flags tx, rxa_op_flags rx)) /\
    (r <> 0 -> w_live w' = false) /\
    (complete_info info && (ofi_prov_check_info rds_util_prov version info =? 0) = false ->
       (r = - FI_ENOMEM /\ w_ep w' = w_ep w \/ r = (if complete_info info then - FI_ENODATA else - FI_EINVAL) /\ e_sock (w_ep w') = -1) /\
       around w' = around w)) w.
Proof.
  intros Hl. unfold rds_endpoint. apply wp_bind, wp_sys_alloc. intros [a|] k1; [|apply wp_ret; split_and!; [done|done|]; intros _; split; [by left|done]].
  apply wp_bind, wp_modify, wp_bind. unfold rds_ep_ring_init. apply wp_bind, wp_gets, wp_ep_upd.
  apply wp_bind. eapply wp_mono; [apply endpoint_init_spec|]. cbn beta. intros r w1. destruct (complete_info info && _) eqn:Ec; cycle 1.
  { intros [-> ->]. assert (E : ((if complete_info info then - FI_ENODATA else - FI_EINVAL) =? 0) = false) by (by destruct (complete_info info)).
    rewrite E. apply wp_ret. split_and!; [intros H; by rewrite H in E|done|]. intros _. split; [by right|done]. }
  intros (-> & i & rx & tx & Ei & Er & Et & Hs & ->). apply andb_true_iff in Ec as [_ Ec%Z.eqb_eq]. cbn [negb Z.eqb].
  apply wp_bind, wp_gets, wp_bind, wp_ep_upd, wp_bind, wp_sys_alloc. intros [b|] k2; [|by apply wp_bind, wp_endpoint_close, wp_ret].
  apply wp_bind, wp_ep_upd, wp_bind, wp_sys_alloc. intros [c|] k3; [|by apply wp_bind, wp_endpoint_close, wp_ret].
  match goal with |- wp _ _ ?wg => assert (Hn : (e_caps (w_ep wg), e_tx_op_flags (w_ep wg), e_rx_op_flags (w_ep wg)) = (in_caps i, txa_op_flags tx, rxa_op_flags rx)) by done;
    assert (Hlv : w_live wg = false) by done; revert Hn Hlv; generalize wg; intros w1 Hn Hlv end.
  apply wp_bind. eapply wp_mono; [apply init_socket_spec|]. cbn beta. intros r w2 E2. unfold core_of in E2. injection E2 as _ E3 _ _ _ E4.
  destruct (Z.eqb_spec r 0) as [->|Er0]; cbn [negb].
  - apply wp_bind, wp_modify, wp_ret. split_and!; [intros _|done|done]. split; [done|]. exists i, rx, tx. split_and!; try done. w_simpl. congruence.
  - apply wp_bind, wp_endpoint_close, wp_ret. split_and!; [done|intros _; w_simpl; congruence|done].
Qed.

(** ** References while an endpoint is created *)

(** The domain counts an endpoint that does not exist yet. *)
Definition starting (x : holders) (q : gmap Z Z) w : Prop :=
  refs_ok (one_more x) w /\ w_live w = false /\ unbound w /\ ob_cq_refs (w_obj w) = q.

Lemma starting_grows x q w w' : grows w w' -> starting x q w -> starting x q w'.
Proof.
  intros Hg (Hr & Hl & Hu & Hq). split; [by eapply grows_refs|]. destruct Hg as (_ & [= _ E _] & [= E0 E1 E2 E3 E4 _]). unfold unbound in *. split_and!; congruence.
Qed.

Lemma starting_step {A B} x q (m : St K A) (k : A -> St K B) (Q : B -> world K -> Prop) w :
  starting x q w -> emits m -> (forall a w', starting x q w' -> wlp (k a) Q w') -> wlp (bind m k) Q w.
Proof. intros Hs Hm Hk. apply wlp_bind. eapply wlp_mono; [apply Hm|]. cbn beta. intros a w' Hg. apply Hk. by eapply starting_grows. Qed.

(** An endpoint that exists is counted by its domain. *)
Definition started (x : holders) (q : gmap Z Z) (r : Z) w : Prop := refs_ok x w /\ (r = 0 -> w_live w = true /\ ob_cq_refs (w_obj w) = q).

Lemma starting_fail x q (r : Z) w : starting x q w -> r <> 0 -> wlp (ofi_endpoint_close ;;; ret r) (fun r w' => started x q r w') w.
Proof.
  intros (Hr & Hl & Hu & _) Hne. apply wlp_bind, wlp_of_wp, wp_endpoint_close, wlp_ret. split; [|done]. eapply refs_unstarted; [exact Hr|done|done|done|done|done|done|]. exact (ro_ep _ _ Hr).
Qed.

(** Whatever comes of creating an endpoint, the references are exact. *)
Lemma endpoint_refs x self version info w :
  w_live w = false -> refs_ok x w -> wlp (rds_endpoint self version info) (fun r w' => started x (ob_cq_refs (w_obj w)) r w') w.
Proof.
  intros Hl Hr. unfold rds_endpoint. apply wlp_bind, wlp_of_wp, wp_sys_alloc. intros [a|] k1; [|apply wlp_ret; split; [by destruct Hr|done]].
  set (q := ob_cq_refs (w_obj w)). apply wlp_bind, wlp_of_wp, wp_modify.
  match goal with |- wlp _ _ ?wg => assert (H1 : refs_ok x wg /\ w_live wg = false /\ unbound wg /\ ob_cq_refs (w_obj wg) = q) end.
  { split; [|done]. destruct Hr as [H1 H2 H3 H4 H5 H6 H7 H8]. unfold own in *. rewrite Hl in *. by split. }
  revert H1. match goal with |- refs_ok x ?wg /\ _ -> _ => generalize wg end. clearbody q. clear w Hl Hr k1. intros w (Hr & Hl & Hu & Hq).
  apply wlp_bind. eapply wlp_mono; [apply (emits_pres (K := K) rds_ep_ring_init); unfold rds_ep_ring_init; pres|]. cbn beta. intros _ w1 Hg.
  assert (H1 : refs_ok x w1 /\ w_live w1 = false /\ unbound w1 /\ ob_cq_refs (w_obj w1) = q).
  { split; [by eapply grows_refs|]. destruct Hg as (_ & [= _ E _] & [= E0 E1 E2 E3 E4 _]). unfold unbound in *. split_and!; congruence. }
  clear w Hr Hl Hu Hq Hg. destruct H1 as (Hr & Hl & Hu & Hq). apply wlp_bind, wlp_of_wp. eapply wp_mono; [apply endpoint_init_spec|]. cbn beta. intros r w2.
  destruct (complete_info info && _); cycle 1.
  { intros [-> ->]. destruct (negb _) eqn:E; [apply wlp_ret; split; [done|]; by destruct (complete_info info)|]. by destruct (complete_info info). }
  intros (-> & i & rx & tx & _ & _ & _ & _ & ->). cbn [negb Z.eqb].
  match goal with |- wlp _ _ ?wg => assert (Hs : starting x q wg) end.
  { split; [|done]. destruct Hr as [H1 H2 H3 H4 H5 H6 H7 H8]. unfold own, caching in *. rewrite Hl in *. split; unfold own, caching, dom_plus; w_simpl; rewrite ?Hl; cbn in *; try done. lia. }
  revert Hs. match goal with |- starting x q ?wg -> _ => generalize wg end. clear w1 Hr Hl Hu Hq. intros w Hs.
  apply (starting_step x q); [done|emits|]. intros cfg w1 H1. apply (starting_step x q); [done|emits|]. intros _ w2 H2.
  apply (starting_step x q); [done|emits|]. intros [b|] w3 H3; [|by apply starting_fail].
  apply (starting_step x q); [done|emits|]. intros _ w4 H4. apply (starting_step x q); [done|emits|]. intros [c|] w5 H5; [|by apply starting_fail].
  apply (starting_step x q); [done|emits|]. intros r w6 H6. destruct (Z.eqb_spec r 0) as [->|Hne]; cbn [negb]; [|by apply starting_fail].
  apply wlp_bind, wlp_of_wp, wp_modify, wlp_ret. destruct H6 as (Hr & Hl & Hu & Hq). split; [by apply refs_started|done].
Qed.

(** ** Binding and enabling *)

(** The objects an endpoint is built from. *)
Record domain_ready (x : holders) (info : fi_info) (txq rxq : Z) w : Prop := {
  dr_cfg : config_ok (w_cfg w);
  dr_tx : bound_ok (w_cqs w) (Some txq) false;
  dr_rx : bound_ok (w_cqs w) (Some rxq) (has (in_caps info) FI_SOURCE);
  dr_reg : forall ep, d_reg_ep (w_dom w) = Some ep -> is_Some (d_eps (w_dom w) !! ep);
  dr_mrs : forall h, is_Some (d_mrs (w_dom w) !! h) -> h < d_next_mr (w_dom w);
  dr_cache : exists held, cache_on (caching w) (the_cache w) held;
  dr_live : w_live w = false;
  dr_refs : holders_ok x /\ refs_ok x w;
  dr_open : is_Some (ob_cq_refs (w_obj w) !! txq) /\ is_Some (ob_cq_refs (w_obj w) !! rxq)
}.

(** The flags of a queue binding; with [sel] completions are reported only
    for the operations that ask for one. *)
Definition bind_flags (dir : Z) (sel : bool) : Z := if sel then Z.lor dir FI_SELECTIVE_COMPLETION else dir.

(** The calls an application makes, in order, until one fails. *)
Definition ep_open (self version : Z) (info : fi_info) (sel : bool) (txq rxq : Z) : St K Z :=
  r <- rds_endpoint self version (Some info) ;;
  if negb (r =? 0) then ret r
  else
    r <- rds_ep_bind (Some (FI_CLASS_CQ txq)) (bind_flags FI_TRANSMIT sel) ;;
    if negb (r =? 0) then ret r
    else
      r <- rds_ep_bind (Some (FI_CLASS_CQ rxq)) (bind_flags FI_RECV sel) ;;
      if negb (r =? 0) then ret r
      else
        r <- rds_ep_bind (Some FI_CLASS_AV) 0 ;;
        if negb (r =? 0) then ret r
        else rds_ep_ctrl FI_ENABLE.

(** What binding leaves alone besides the fields it sets. *)
Definition binding (cfg : rds_config) self info av tx rx w0 w : Prop :=
  w_live w = true /\ ep_new cfg self info av tx rx (w_ep w) /\ around w = around w0.

Lemma list_insert_spec cfg self info av tx rx w0 id w :
  binding cfg self info av tx rx w0 w ->
  wp (ep_list_insert id) (fun _ w' => binding cfg self info av tx rx w0 w') w.
Proof.
  intros Hb. unfold ep_list_insert, fid_list_insert2. apply wp_bind, wp_ep_get. destruct (bool_decide _); [by apply wp_ret|].
  apply wp_bind, wp_sys_alloc. intros [a|] k'; [|by apply wp_ret]. by apply wp_bind, wp_ep_upd, wp_ret.
Qed.

(** The flags of a queue binding are valid. *)
Lemma bind_cq_valid id dir sel : dir = FI_TRANSMIT \/ dir = FI_RECV ->
  rds_ep_bind (K := K) (Some (FI_CLASS_CQ id)) (bind_flags dir sel) = ofi_ep_bind_cq id (bind_flags dir sel).
Proof. intros [-> | ->]; by destruct sel. Qed.

Lemma bind_tx_spec cfg self info sel rx w0 id w :
  binding cfg self info false None rx w0 w ->
  wp (rds_ep_bind (Some (FI_CLASS_CQ id)) (bind_flags FI_TRANSMIT sel)) (fun _ w' => binding cfg self info false (Some id) rx w0 w') w.
Proof.
  intros (Hl & (E1 & Hrest) & Ha). rewrite bind_cq_valid by auto. unfold ofi_ep_bind_cq. apply wp_bind, wp_ep_get, wp_bind, wp_ep_get.
  assert (e_tx_cq (w_ep w) = None) as -> by congruence. destruct sel; cbn - [ep_list_insert cq_ref].
  all: apply wp_bind, wp_bind, wp_ep_upd, wp_modify, wp_bind, wp_ret. all: apply list_insert_spec.
  all: split; [done|]; split; [|done]; split; [|exact Hrest]; unfold set_field; cbn; congruence.
Qed.

Lemma bind_rx_spec cfg self info sel tx w0 id w :
  binding cfg self info false tx None w0 w ->
  wp (rds_ep_bind (Some (FI_CLASS_CQ id)) (bind_flags FI_RECV sel)) (fun _ w' => binding cfg self info false tx (Some id) w0 w') w.
Proof.
  intros (Hl & (E1 & Hrest) & Ha). rewrite bind_cq_valid by auto. unfold ofi_ep_bind_cq. apply wp_bind, wp_ep_get, wp_bind, wp_ep_get.
  assert (e_rx_cq (w_ep w) = None) as -> by congruence. destruct sel; cbn - [ep_list_insert cq_ref].
  all: apply wp_bind, wp_ret, wp_bind, wp_bind, wp_ep_upd, wp_modify. all: apply list_insert_spec.
  all: split; [done|]; split; [|done]; split; [|exact Hrest]; unfold set_field; cbn; congruence.
Qed.

(** Binding keeps the references exact and the open objects open. *)
Definition bound_step (x : holders) w w' : Prop :=
  refs_ok x w' /\ w_live w' = true /\ forall id, is_Some (ob_cq_refs (w_obj w) !! id) -> is_Some (ob_cq_refs (w_obj w') !! id).

Lemma bound_step_trans x w1 w2 w3 : bound_step x w1 w2 -> bound_step x w2 w3 -> bound_step x w1 w3.
Proof. intros (_ & _ & H1) (R & L & H2). split_and!; [done|done|auto]. Qed.

Lemma bound_grows x w w' : refs_ok x w -> w_live w = true -> grows w w' -> bound_step x w w'.
Proof. intros Hr Hl Hg. split; [by eapply grows_refs|]. destruct Hg as (_ & _ & [= E1 E2 _ _ _ _]). rewrite E1. split; [congruence|done]. Qed.

Lemma bound_bump x w w' id :
  refs_ok x w' -> w_live w' = true -> w_obj w' = w_obj w <| ob_cq_refs ::= bump 1 (Some id) |> -> bound_step x w w'.
Proof.
  intros Hr Hl Eo. split_and!; [done|done|]. intros id' [r E]. rewrite Eo. cbn [set_field objects_eta ob_cq_refs]. rewrite lookup_bump, E. by eexists.
Qed.

Lemma bind_cq_refs x id flags w :
  refs_ok x w -> w_live w = true -> is_Some (ob_cq_refs (w_obj w) !! id) -> wlp (ofi_ep_bind_cq id flags) (fun _ w' => bound_step x w w') w.
Proof.
  intros Hr Hl Ho. assert (H0 : bound_step x w w) by (by split_and!). unfold ofi_ep_bind_cq. apply wlp_bind, wlp_of_wp, wp_ep_get, wlp_bind, wlp_of_wp, wp_ep_get.
  destruct (negb _); [by apply wlp_ret|]. destruct (_ || _) eqn:Eb; [by apply wlp_ret|]. apply orb_false_iff in Eb as [Etx Erx]. cbn zeta. apply wlp_bind, wlp_of_wp.
  assert (Hu : forall (e e' : rds_ep), e_rx_cq e' = e_rx_cq e -> e_tx_cq e = None -> e_tx_cq e' = Some id -> forall id', cq_uses e' id' = cq_use (Some id) id' + cq_uses e id').
  { intros e e' E1 E2 E3 id'. unfold cq_uses. rewrite E1, E2, E3, cq_use_none. lia. }
  assert (Hv : forall (e e' : rds_ep), e_tx_cq e' = e_tx_cq e -> e_rx_cq e = None -> e_rx_cq e' = Some id -> forall id', cq_uses e' id' = cq_use (Some id) id' + cq_uses e id').
  { intros e e' E1 E2 E3 id'. unfold cq_uses. rewrite E1, E2, E3, cq_use_none. lia. }
  apply wp_mono with (Q := fun _ w1 => bound_step x w w1 /\ e_rx_cq (w_ep w1) = e_rx_cq (w_ep w)).
  { destruct (has flags FI_TRANSMIT); [|by apply wp_ret]. cbn in Etx. apply wp_bind, wp_ep_upd, wp_modify. split; [|done].
    eapply bound_bump; [|done|done]. eapply refs_bind_cq; [exact Hr|done|done|exact Ho| |done|done|done|done].
    apply Hu; [done|by destruct (e_tx_cq (w_ep w))|done]. }
  intros _ w1 [(Hr1 & Hl1 & Ho1) E1]. apply wlp_bind, wlp_of_wp. apply wp_mono with (Q := fun _ w2 => bound_step x w w2).
  { destruct (has flags FI_RECV); [|by apply wp_ret]. cbn in Erx. apply wp_bind, wp_ep_upd, wp_modify. apply (bound_step_trans x w w1); [done|].
    eapply bound_bump; [|done|done]. eapply refs_bind_cq; [exact Hr1|done|done|by apply Ho1| |done|done|done|done].
    apply Hv; [done|rewrite E1; by destruct (e_rx_cq (w_ep w))|done]. }
  intros _ w2 H2. destruct (has flags (Z.lor FI_TRANSMIT FI_RECV)); [|by apply wlp_ret].
  eapply wlp_mono; [apply (emits_pres (ep_list_insert id)); unfold ep_list_insert, fid_list_insert2; pres|]. cbn beta. intros r w3 Hg.
  eapply bound_step_trans; [exact H2|]. destruct H2 as (Hr2 & Hl2 & _). by apply bound_grows.
Qed.

Lemma emits_enable : emits (K := K) (rds_ep_ctrl FI_ENABLE).
Proof.
  apply emits_pres. unfold rds_ep_ctrl. pres. apply pres_dom_upd. intros w. unfold seen, obj_part, caching. w_simpl. by destruct (d_reg_ep (w_dom w)).
Qed.

(** The calls that bring an endpoint up leave exact references, however far
    they get. *)
Lemma open_refs x self version info sel txq rxq w :
  w_live w = false -> refs_ok x w -> is_Some (ob_cq_refs (w_obj w) !! txq) -> is_Some (ob_cq_refs (w_obj w) !! rxq) ->
  wlp (ep_open self version info sel txq rxq) (fun _ w' => refs_ok x w') w.
Proof.
  intros Hl Hr Ht Hx. unfold ep_open. apply wlp_bind. eapply wlp_mono; [by apply endpoint_refs|]. cbn beta. intros r w1 [Hr1 H1].
  destruct (Z.eqb_spec r 0) as [->|_]; cbn [negb]; [|by apply wlp_ret]. destruct (H1 eq_refl) as [Hl1 E1]. rewrite <- E1 in Ht, Hx. clear H1 E1.
  apply wlp_bind. rewrite bind_cq_valid by auto. eapply wlp_mono; [by apply bind_cq_refs|]. cbn beta. intros r w2 (Hr2 & Hl2 & Ho2).
  destruct (negb _); [by apply wlp_ret|]. apply wlp_bind. rewrite bind_cq_valid by auto. eapply wlp_mono; [apply bind_cq_refs; [done|done|by apply Ho2]|]. cbn beta.
  intros r' w3 (Hr3 & Hl3 & _). destruct (negb _); [by apply wlp_ret|]. apply wlp_bind.
  change (rds_ep_bind (Some FI_CLASS_AV) 0) with (ofi_ep_bind_av (K := K)). unfold ofi_ep_bind_av. apply wlp_bind, wlp_of_wp, wp_ep_get.
  assert (Hc : forall w4, refs_ok x w4 -> wlp (rds_ep_ctrl FI_ENABLE) (fun _ w' => refs_ok x w') w4).
  { intros w4 Hr4. eapply wlp_mono; [apply emits_enable|]. cbn beta. intros ? w5 Hg. by eapply grows_refs. }
  destruct (e_av (w_ep w3)) eqn:Ea; [apply wlp_ret; cbn [negb Z.eqb]; by apply wlp_ret|].
  apply wlp_bind, wlp_of_wp, wp_ep_upd, wlp_bind, wlp_of_wp, wp_modify, wlp_ret. cbn [negb Z.eqb]. apply Hc. by apply refs_bind_av.
Qed.

Lemma peers_ok_empty slots max rdma : slots <> 0 -> 0 <= max < 2 ^ 32 -> peers_ok slots max rdma ∅ ∅ [] 0 0.
Proof.
  assert (Hno : forall h (p : rds_peer), (∅ : gmap Z rds_peer) !! h = Some p -> False) by (intros h p; by rewrite lookup_empty).
  intros Hs Hm. split; try (intros; exfalso; by eapply Hno); try lia.
  - intros b h Hh. rewrite lookup_empty in Hh. by apply elem_of_nil in Hh.
  - intros b. rewrite lookup_empty. constructor.
  - constructor.
  - intros h. rewrite lookup_empty. split; [by intros ?%elem_of_nil|by intros [? ?]].
  - intros h [p Hp]. exfalso. by eapply Hno.
  - by rewrite map_size_empty.
Qed.

(** A new endpoint on a ready domain satisfies the invariant. *)
Lemma new_ok x self info txq rxq w0 w :
  domain_ready x info txq rxq w0 -> binding (w_cfg w0) self info true (Some txq) (Some rxq) w0 w ->
  world_ok (w <| w_dom ::= fun d => match d_reg_ep d with Some _ => d | None => d <| d_reg_ep := Some self |> end |>).
Proof.
  intros [[_ (k & Hk & Hsl) _ Hpe Hinf _] Htx Hrx Hreg Hmrs Hca _ _ _] (Hl & (E1 & E2 & E3 & E4 & E5) & Ha).
  unfold around in Ha. injection E1 as N1 N2 N3 N4 N5. injection E2 as Q1 Q2 Q3 Q4. injection E3 as P1 P2 P3 P4.
  injection E4 as R1 R2 R3. injection E5 as S1 S2 S3 S4 S5.
  assert (Ed : w_dom w = w_dom w0) by congruence. assert (Eq : w_cqs w = w_cqs w0) by congruence.
  assert (Ec : w_cfg w = w_cfg w0) by congruence.
  set (w' := w <| w_dom ::= _ |>). assert (Edom : d_mrs (w_dom w') = d_mrs (w_dom w0) /\
    d_next_mr (w_dom w') = d_next_mr (w_dom w0) /\ the_cache w' = the_cache w0 /\ d_eps (w_dom w') = d_eps (w_dom w0) /\ caching w' = caching w0).
  { unfold w', the_cache, caching. w_simpl. rewrite Ed. by destruct (d_reg_ep _). }
  destruct Edom as (D1 & D2 & D3 & D4 & D5). change (w_ep w) with (w_ep w') in *. split.
  - done.
  - done.
  - change (w_cfg w') with (w_cfg w). rewrite Ec. lia.
  - unfold cqs_ok. change (w_cqs w') with (w_cqs w). by rewrite Eq, N2, N4, N5.
  - intros ep Hep. unfold ep_sock_of. rewrite N1, D4. change (w_live w') with (w_live w). rewrite Hl.
    destruct (ep =? self) eqn:Eself; [eauto|]. unfold w' in Hep. cbn in Hep. rewrite Ed in Hep.
    destruct (d_reg_ep (w_dom w0)) as [ep0|] eqn:Er; [apply Hreg; congruence|]. cbn in Hep. injection Hep as <-. lia.
  - rewrite P1, P2, P3, P4. split; try constructor; lia.
  - rewrite D1, D2, P1, S1. unfold all_peer_mrs. rewrite map_to_list_empty. split; [constructor| |exact Hmrs].
    intros h Hh. by apply elem_of_nil in Hh.
  - rewrite D3, D5, P1. exact Hca.
  - rewrite R1, R2, R3, S1, S2, S3, S4, S5.
    assert (1 <= 2 ^ k <= 2 ^ 30) by (split; [apply (Z.pow_le_mono_r 2 0 k); lia|apply Z.pow_le_mono_r; lia]).
    rewrite Hsl, !u32_small by lia. apply peers_ok_empty; lia.
  - rewrite Q1, Q3. split; [constructor|constructor|]. intros rx u Hx. by apply elem_of_nil in Hx.
  - rewrite Q2, Q4. split; [constructor|constructor|]. intros rx u Hx. by apply elem_of_nil in Hx.
Qed.

Lemma open_spec x self version info sel txq rxq w :
  domain_ready x info txq rxq w ->
  wp (ep_open self version info sel txq rxq) (fun r w' => r = 0 -> sys_ok x w' /\ e_op_id (w_ep w') = 0 /\
    e_eager_rdma (w_ep w') = rds_eager_rdma (w_cfg w) /\ w_avec w' = w_avec w) w.
Proof.
  intros Hd. pose proof (dr_refs _ _ _ _ _ Hd) as [Hho Hre]. pose proof (dr_open _ _ _ _ _ Hd) as [Ho1 Ho2].
  enough (H : wp (ep_open self version info sel txq rxq) (fun r w' => r = 0 -> world_ok w' /\ e_op_id (w_ep w') = 0 /\
    e_eager_rdma (w_ep w') = rds_eager_rdma (w_cfg w) /\ w_avec w' = w_avec w) w).
  { eapply wp_mono; [eapply wp_wlp; [exact H|exact (open_refs x self version info sel txq rxq w (dr_live _ _ _ _ _ Hd) Hre Ho1 Ho2)]|].
    cbn beta. intros r w' [H1 H2] Hr. destruct (H1 Hr) as [Hw' Hrest]. split; [split_and!; [exact Hw'|done|done]|exact Hrest]. }
  unfold ep_open. apply wp_bind. eapply wp_mono; [apply endpoint_spec|]. cbn beta. intros r w1 Hw1.
  destruct (r =? 0) eqn:Er; cbn [negb]; [|apply wp_ret; lia]. apply Z.eqb_eq in Er. destruct (Hw1 Er) as [Hc Hw1']. clear r Er Hw1. rename Hw1' into Hw1.
  apply wp_bind. eapply wp_mono; [apply (bind_tx_spec (w_cfg w) self info sel None w); exact Hw1|]. cbn beta. intros r w2 Hw2.
  destruct (r =? 0) eqn:Er; cbn [negb]; [|apply wp_ret; lia]. clear r Er.
  apply wp_bind. eapply wp_mono; [apply (bind_rx_spec (w_cfg w) self info sel (Some txq) w); exact Hw2|]. cbn beta. intros r w3 Hw3.
  destruct (r =? 0) eqn:Er; cbn [negb]; [|apply wp_ret; lia]. clear r Er.
  destruct Hw3 as (Hl & (E1 & Hrest) & Ha). apply wp_bind. change (rds_ep_bind (Some FI_CLASS_AV) 0) with (ofi_ep_bind_av (K := K)). unfold ofi_ep_bind_av.
  apply wp_bind, wp_ep_get. assert (e_av (w_ep w3) = false) as -> by congruence. apply wp_bind, wp_ep_upd, wp_bind, wp_modify, wp_ret.
  cbn [negb Z.eqb]. match goal with |- wp _ _ ?wg => assert (Hw4 : binding (w_cfg w) self info true (Some txq) (Some rxq) w wg) end.
  { split; [done|]. split; [|done]. split; [|exact Hrest]. unfold set_field. cbn. congruence. }
  revert Hw4. match goal with |- binding _ _ _ _ _ _ _ ?wg -> _ => generalize wg end. intros w4 Hw4.
  cbn [rds_ep_ctrl]. apply wp_bind, wp_ep_get. destruct (_ || _); [by apply wp_ret|].
  destruct (negb (e_av _)); [by apply wp_ret|]. destruct (negb (e_is_bound _)); [by apply wp_ret|].
  apply wp_bind, wp_dom_upd, wp_ret. intros _. pose proof (new_ok _ _ _ _ _ _ _ Hd Hw4) as Hok.
  destruct Hw4 as (_ & (F1 & _ & F3 & F4 & _) & Fa). assert (e_self (w_ep w4) = self) as -> by congruence.
  unfold around in Fa. split_and!; [exact Hok|unfold set_field; cbn; congruence..].
Qed.
End Startup.
