(* ===== verification/Eager.v ===== *)
(** * Eager messages end to end

    The bytes an eager send hands to the socket, and what the receiving
    endpoint makes of them: the first posted receive that matches gets the
    message, in order, with the right completion; a message that arrives
    early waits in the unexpected queue and is delivered to the first
    receive that asks for it. *)

From stdpp Require Import sorting.
From S2P Require Import Prelude Iov Wire Config Kernel Cq CqFifo Av MrCache MrCacheInv State Mr.
From S2P Require Import MrInv Pending Ring Msg Progress Frame Inv Rules PendInv Safety SafetyRing.
From S2P Require Import SafetyRx SafetyTx.

(** The completion flags a receiver reports for a message sent with
    [flags]. *)
Definition recv_flags (tagged : bool) (flags : Z) : Z :=
  Z.lor (Z.lor FI_RECV (if tagged then FI_TAGGED else FI_MSG))
        (if has flags FI_REMOTE_CQ_DATA then FI_REMOTE_CQ_DATA else 0).

Lemma hf_flags_tagged tagged flags : has (hf_flags tagged flags) RDS_HF_TAGGED = tagged.
Proof. unfold hf_flags. by destruct tagged, (has flags FI_REMOTE_CQ_DATA). Qed.

Lemma hf_flags_data tagged flags : has (hf_flags tagged flags) RDS_HF_CQ_DATA = has flags FI_REMOTE_CQ_DATA.
Proof. unfold hf_flags. by destruct tagged, (has flags FI_REMOTE_CQ_DATA). Qed.

Lemma hf_flags_range tagged flags : 0 <= hf_flags tagged flags < 2 ^ 8.
Proof. unfold hf_flags. by destruct tagged, (has flags FI_REMOTE_CQ_DATA). Qed.

Lemma eager_hdr_ok tagged flags tag data size :
  0 <= tag < 2 ^ 64 -> 0 <= data < 2 ^ 64 -> 0 <= size < 2 ^ 64 -> rds_hdr_ok (eager_hdr tagged flags tag data size).
Proof.
  intros Ht Hd Hs. pose proof (hf_flags_range tagged flags). unfold rds_hdr_ok, eager_hdr, set_field. cbn.
  unfold RDS_HDR_MAGIC, RDS_OP_EAGER. lia.
Qed.

Section Eager.
Context {K : Type} `{!Kernel K}.
Implicit Types w : world K.

(** [w'] is [w] after the message [msg] went to the receive [rx]: a prefix
    of the message fills the receive's buffers, nothing else in memory
    changes, and a completion is reported when one is due; a message that
    does not fit is reported as truncated. *)
Definition delivered (rx : rds_rx_entry) (msg : list Z) (flags data tag src : Z) w w' : Prop :=
  let n := Z.min (Z.of_nat (length msg)) (iov_total (rx_iov rx)) in
  let err := if Z.of_nat (length msg) >? iov_total (rx_iov rx) then FI_ETRUNC else 0 in
  let dst := take (Z.to_nat n) (iov_addrs (rx_iov rx)) in
  w_mem w' <$> dst = take (Z.to_nat n) msg /\
  (forall x, (x ∉ dst) -> w_mem w' x = w_mem w x) /\
  (if rx_reports rx (w_ep w) || negb (err =? 0)
   then posted K (w_cqs w) (e_rx_cq (w_ep w)) (comp_of (rx_context rx) flags n data tag err) (rx_src w src err) (w_cqs w')
   else w_cqs w' = w_cqs w) /\
  w_ep w' = w_ep w /\ w_dom w' = w_dom w.

(** A receive as [rds_post_recv] builds it, over distinct bytes. *)
Definition rx_ok (rx : rds_rx_entry) : Prop :=
  iov_ok (rx_iov rx) /\ NoDup (iov_addrs (rx_iov rx)) /\ rx_total_len rx = iov_total (rx_iov rx).

Lemma deliver_exact rx hdr payload src w :
  cqs_ok w -> rx_ok rx ->
  wp (rds_deliver_eager rx hdr payload src) (fun _ w' =>
    delivered rx payload (rds_rx_flags hdr (hdr_tagged hdr)) (h_data hdr) (h_tag hdr) src w w') w.
Proof.
  intros Hw (Hiov & Hnd & Hlen). unfold rds_deliver_eager. apply wp_bind, wp_gets.
  pose proof (ofi_copy_to_iov_loop (rx_iov rx) 0 payload (Z.of_nat (length payload)) (w_mem w) (proj1 Hiov)
    ltac:(lia) ltac:(lia) Hnd) as Hcp.
  destruct (ofi_copy_to_iov _ _ _ _ _) as [m' copied]. cbv zeta in Hcp. change (Z.to_nat 0) with 0%nat in Hcp. rewrite drop_0, Nat2Z.id in Hcp.
  destruct Hcp as (Hc & Hm & Hfr). pose proof (iov_addrs_length _ (proj1 Hiov)) as Hal.
  set (n := Z.min (Z.of_nat (length payload)) (iov_total (rx_iov rx))).
  assert (Hn : copied = n) by (rewrite Hc, length_take; lia).
  assert (Hdst : take (length payload) (iov_addrs (rx_iov rx)) = take (Z.to_nat n) (iov_addrs (rx_iov rx))).
  { unfold n. destruct (Z.le_gt_cases (Z.of_nat (length payload)) (iov_total (rx_iov rx))).
    - f_equal. lia.
    - rewrite !take_ge by lia. done. }
  assert (Hlt : length (take (Z.to_nat n) (iov_addrs (rx_iov rx))) = Z.to_nat n) by (rewrite length_take; lia).
  rewrite Hdst, Hlt in *. apply wp_bind, wp_modify. cbn zeta. apply wp_bind, wp_ep_get. rewrite Hlen, Hn.
  set (err := if _ >? _ then _ else _). unfold delivered. fold n. fold err. cbn zeta.
  w_simpl. destruct (rx_reports rx (w_ep w) || negb (err =? 0)).
  - apply wp_cq_write_rx; [by eapply cqs_ok_bound; [..|exact Hw]|apply rx_flags_ok|]. intros cqs k' Hpo. by split_and!.
  - apply wp_ret. by split_and!.
Qed.

(** ** What goes on the wire *)

Lemma send_eager_wire iov dest destlen tag data context flags tagged gen w :
  world_ok w ->
  wp (rds_send_eager iov dest destlen tag data context flags tagged gen) (fun r w' => exists errno,
    w_log w' = w_log w ++ [mkSent (sa_name dest destlen)
      (rds_hdr_bytes (eager_hdr tagged flags tag data (ofi_total_iov_len iov)) ++ iov_gather (w_mem w) iov) None errno] /\
    r = send_status errno /\
    (if gen && (errno =? 0)
     then posted K (w_cqs w) (e_tx_cq (w_ep w)) (comp_of context (tx_comp_flags tagged) (ofi_total_iov_len iov) 0 0 0) None (w_cqs w')
     else w_cqs w' = w_cqs w)) w.
Proof.
  intros Hw. unfold rds_send_eager. cbn zeta. apply wp_bind, wp_gets, wp_bind, wp_sys_sendmsg. intros errno k'.
  assert (H0 : send_status 0 = 0) by done.
  destruct (errno =? 0) eqn:Ee; cbn [negb].
  - apply Z.eqb_eq in Ee as ->. apply wp_bind. destruct gen.
    + apply wp_cq_write_tx; [by eapply (cqs_ok_bound w); [..|exact (wi_cqs _ _ _ _ Hw)]|apply tx_flags_ok|].
      intros cqs k2 Hpo. apply wp_ret. exists 0. by split_and!.
    + apply wp_ret, wp_ret. exists 0. by split_and!.
  - apply wp_ret. exists errno. rewrite Ee, andb_false_r. by split_and!.
Qed.

(** ** The receiver *)

Lemma gather_length m iov : Forall (fun v => 0 <= iov_len v) iov -> Z.of_nat (length (iov_gather m iov)) = iov_total iov.
Proof. intros Hf. unfold iov_gather. rewrite length_fmap. by apply iov_addrs_length. Qed.

(** A well-formed datagram reaches the dispatcher. *)
Lemma wp_datagram hdr payload src (Q : unit -> world K -> Prop) w :
  e_av (w_ep w) = true -> rds_hdr_ok hdr ->
  wp (rds_handle_inbound hdr payload src (ofi_av_lookup_fi_addr (w_avec w) src)) Q w ->
  wp (progress_msg src (rds_hdr_bytes hdr ++ payload) false []) Q w.
Proof.
  intros Hav Hh HQ. unfold progress_msg. cbn [rds_reap_notifies]. apply wp_bind, wp_ret.
  replace (Z.of_nat (length (rds_hdr_bytes hdr ++ payload)) <? RDS_HDR_SIZE) with false
    by (symmetry; apply Z.ltb_ge; rewrite length_app, rds_hdr_bytes_length; unfold RDS_HDR_SIZE; lia).
  apply wp_bind, wp_ep_get. rewrite Hav. cbn [negb]. apply wp_bind, wp_gets.
  by rewrite rds_hdr_roundtrip, drop_app_length' by (done || by rewrite rds_hdr_bytes_length).
Qed.

(** Eager messages and complete descriptors go through matching. *)
Definition matchable (hdr : rds_hdr) (payload : list Z) : Prop :=
  h_magic hdr = RDS_HDR_MAGIC /\
  (h_op hdr = RDS_OP_EAGER \/ h_op hdr = RDS_OP_RTS /\ h_seg_cnt hdr * RDS_SEG_SIZE <= Z.of_nat (length payload)).

Lemma inbound_matchable hdr payload src fi : matchable hdr payload ->
  rds_handle_inbound (K := K) hdr payload src fi =
  bind (rds_match_posted hdr fi (hdr_tagged hdr)) (fun rx =>
    match rx with
    | Some rx => if h_op hdr =? RDS_OP_EAGER then rds_deliver_eager rx hdr payload fi
                 else rds_start_rndzv_read rx hdr (payload_segs (Z.to_nat (h_seg_cnt hdr)) payload) (Z.to_nat (h_seg_cnt hdr)) src fi
    | None => rds_enqueue_unexp hdr payload src fi (hdr_tagged hdr)
    end).
Proof.
  intros [Hm Hop]. unfold rds_handle_inbound. cbn zeta. rewrite Hm, Z.eqb_refl. cbn [negb].
  destruct Hop as [->|[-> Hl]]; [done|]. cbn [Z.eqb RDS_OP_RTS RDS_OP_FIN RDS_OP_RING_REQ RDS_OP_RING_ACK orb andb Pos.eqb].
  by rewrite (proj2 (Z.ltb_ge _ _) Hl).
Qed.

(** An eager datagram meets its receive. *)
Lemma eager_arrives tagged flags tag data msg src w l1 rx l2 :
  world_ok w -> 0 <= tag < 2 ^ 64 -> 0 <= data < 2 ^ 64 -> Z.of_nat (length msg) < 2 ^ 64 ->
  posted_list tagged (w_ep w) = l1 ++ rx :: l2 -> rx_ok rx ->
  let src_fi := ofi_av_lookup_fi_addr (w_avec w) src in
  Forall (fun r => posted_match tagged tag src_fi r = false) l1 -> posted_match tagged tag src_fi rx = true ->
  wp (progress_msg src (rds_hdr_bytes (eager_hdr tagged flags tag data (Z.of_nat (length msg))) ++ msg) false [])
     (fun _ w' => exists w1, w1 = w <| w_ep ::= set_posted tagged (l1 ++ l2) |> /\
        delivered rx msg (recv_flags tagged flags) data tag src_fi w1 w') w.
Proof.
  intros Hw Ht Hd Hl El Hrx src_fi Hno Hyes. set (hdr := eager_hdr _ _ _ _ _).
  assert (Htag : hdr_tagged hdr = tagged) by apply hf_flags_tagged. apply wp_datagram; [apply Hw|apply eager_hdr_ok; lia|].
  rewrite inbound_matchable by (split; [done|by left]). fold src_fi. rewrite Htag.
  unfold rds_match_posted. apply wp_bind, wp_bind, wp_ep_get. change (h_tag hdr) with tag.
  rewrite (proj2 (find_split_Some _ _ l1 rx l2)) by done. apply wp_bind, wp_ep_upd, wp_ret. change (h_op hdr =? RDS_OP_EAGER) with true.
  match goal with |- wp _ _ ?wg => set (w1 := wg) end.
  eapply wp_mono; [apply deliver_exact; [|exact Hrx]|].
  - destruct tagged; by eapply (cqs_ok_bound w); [..|exact (wi_cqs _ _ _ _ Hw)].
  - cbn beta. intros _ w' Hdel. exists w1. split; [done|]. rewrite Htag in Hdel. unfold rds_rx_flags in Hdel.
    change (h_flags hdr) with (hf_flags tagged flags) in Hdel. rewrite hf_flags_data in Hdel. exact Hdel.
Qed.

(** An eager datagram that no posted receive takes is queued. *)
Lemma eager_waits tagged flags tag data msg src w :
  world_ok w -> 0 <= tag < 2 ^ 64 -> 0 <= data < 2 ^ 64 -> Z.of_nat (length msg) < 2 ^ 64 ->
  let src_fi := ofi_av_lookup_fi_addr (w_avec w) src in
  let hdr := eager_hdr tagged flags tag data (Z.of_nat (length msg)) in
  Forall (fun r => posted_match tagged tag src_fi r = false) (posted_list tagged (w_ep w)) ->
  is_Some (k_alloc (UNEXP_SIZE + Z.of_nat (length msg)) (w_k w)).1 ->
  wp (progress_msg src (rds_hdr_bytes hdr ++ msg) false [])
     (fun _ w' => exists k', w' = w <| w_k := k' |> <| w_ep ::= set_unexp tagged
        (unexp_list tagged (w_ep w) ++ [mkUnexp hdr src_fi src 0 [] (Z.of_nat (length msg)) msg]) |>) w.
Proof.
  intros Hw Ht Hd Hl src_fi hdr Hno [a Ha].
  assert (Htag : hdr_tagged hdr = tagged) by apply hf_flags_tagged. apply wp_datagram; [apply Hw|apply eager_hdr_ok; lia|].
  rewrite inbound_matchable by (split; [done|by left]). fold src_fi. rewrite Htag.
  unfold rds_match_posted. apply wp_bind, wp_bind, wp_ep_get. change (h_tag hdr) with tag.
  rewrite (proj2 (find_split_None _ _) Hno). apply wp_ret. unfold rds_enqueue_unexp. change (h_op hdr) with RDS_OP_EAGER.
  cbn zeta. cbn [Z.eqb RDS_OP_EAGER Pos.eqb]. apply wp_bind. unfold wp at 1, sys_alloc.
  destruct (k_alloc _ _) as [r k'] eqn:Ea. cbn in Ha. subst r. apply wp_ep_upd. by exists k'.
Qed.

(** A receive takes the first queued eager message that satisfies it. *)
Lemma recv_takes iov addr tag ignore context flags tagged w l1 ux l2 :
  world_ok w -> (length iov <= RDS_IOV_LIMIT)%nat -> iov_ok iov -> NoDup (iov_addrs iov) ->
  unexp_list tagged (w_ep w) = l1 ++ ux :: l2 -> h_op (ux_hdr ux) = RDS_OP_EAGER ->
  Forall (fun u => unexp_match tagged addr tag ignore u = false) l1 -> unexp_match tagged addr tag ignore ux = true ->
  wp (rds_post_recv iov addr tag ignore context flags tagged) (fun r w' => r = 0 /\ exists w1,
    w1 = w <| w_ep ::= set_unexp tagged (l1 ++ l2) |> /\
    delivered (rx_of iov addr tag ignore context flags tagged) (ux_data ux)
      (rds_rx_flags (ux_hdr ux) tagged) (h_data (ux_hdr ux)) (h_tag (ux_hdr ux)) (ux_addr ux) w1 w') w.
Proof.
  intros Hw Hlim Hiov Hnd El Hop Hno Hyes. unfold rds_post_recv. rewrite (proj2 (Nat.ltb_ge _ _) Hlim). cbn zeta.
  unfold rds_match_unexp. apply wp_bind, wp_bind, wp_ep_get. rewrite (proj2 (find_split_Some _ _ l1 ux l2)) by done.
  apply wp_bind, wp_ep_upd, wp_ret. rewrite Hop. cbn [Z.eqb RDS_OP_EAGER Pos.eqb]. apply wp_bind.
  pose proof (mt_tagged _ _ _ (wi_match _ _ _ _ tagged Hw)) as Htg. rewrite El, Forall_app, Forall_cons in Htg.
  destruct Htg as (_ & Htag & _). match goal with |- wp _ _ ?wg => set (w1 := wg) end.
  eapply wp_mono; [apply deliver_exact|].
  - destruct tagged; by eapply (cqs_ok_bound w); [..|exact (wi_cqs _ _ _ _ Hw)].
  - split_and!; [done|done|]. by apply ofi_total_iov_len_ok.
  - cbn beta. intros _ w' Hdel. apply wp_ret. split; [done|]. exists w1. split; [done|]. by rewrite Htag in Hdel.
Qed.

(** C3: An eager message arrives as sent.  The datagram [rds_send_eager]
    hands to the socket, when it reaches an endpoint with a posted receive
    for it, goes to the first posted receive that matches its source and
    tag; that receive leaves the queue; its buffers hold the sender's bytes
    in order, as many as fit, and no other byte of memory changes; one
    completion reports the length, the tag, the remote data and the source,
    or truncation (unless it takes an overflow entry, being an error or the
    queue being full, that the allocator can refuse: [Frame.posted]). *)
Theorem eager_end_to_end iov dest destlen tag data context flags tagged gen (ws : world K) (wr : world K) src l1 rx l2 :
  world_ok ws -> world_ok wr -> iov_ok iov -> 0 <= tag < 2 ^ 64 -> 0 <= data < 2 ^ 64 ->
  posted_list tagged (w_ep wr) = l1 ++ rx :: l2 -> rx_ok rx ->
  Forall (fun r => posted_match tagged tag (ofi_av_lookup_fi_addr (w_avec wr) src) r = false) l1 ->
  posted_match tagged tag (ofi_av_lookup_fi_addr (w_avec wr) src) rx = true ->
  wp (rds_send_eager iov dest destlen tag data context flags tagged gen) (fun r ws' =>
    exists d errno, w_log ws' = w_log ws ++ [mkSent (sa_name dest destlen) d None errno] /\ r = send_status errno /\
      wp (progress_msg src d false []) (fun _ wr' =>
        delivered rx (iov_gather (w_mem ws) iov) (recv_flags tagged flags) data tag
          (ofi_av_lookup_fi_addr (w_avec wr) src) (wr <| w_ep ::= set_posted tagged (l1 ++ l2) |>) wr') wr) ws.
Proof.
  intros Hws Hwr Hiov Ht Hd El Hrx Hno Hyes. eapply wp_mono; [by apply send_eager_wire|]. cbn beta.
  intros r ws' (errno & Elog & Er & _). eexists _, errno. split_and!; [exact Elog|exact Er|].
  pose proof (gather_length (w_mem ws) iov (proj1 Hiov)) as Hgl. rewrite ofi_total_iov_len_ok, <- Hgl by done.
  eapply wp_mono; [eapply eager_arrives; [done|lia|lia|rewrite Hgl; apply Hiov|exact El|done..]|].
  cbn beta. intros _ wr' (w1 & -> & Hdel). exact Hdel.
Qed.

(** C16: A message that comes before its receive is not lost.  With no
    matching receive posted it joins the unexpected queue (when the
    allocator has room); the first receive that asks for it and matches no
    earlier queued message returns success at once, with exactly the bytes
    and metadata of the message. *)
Theorem early_message_delivered tagged flags tag data msg src iov addr rtag ignore context rflags w :
  world_ok w -> 0 <= tag < 2 ^ 64 -> 0 <= data < 2 ^ 64 -> Z.of_nat (length msg) < 2 ^ 64 ->
  (length iov <= RDS_IOV_LIMIT)%nat -> iov_ok iov -> NoDup (iov_addrs iov) ->
  let src_fi := ofi_av_lookup_fi_addr (w_avec w) src in
  let rx := rx_of iov addr rtag ignore context rflags tagged in
  Forall (fun r => posted_match tagged tag src_fi r = false) (posted_list tagged (w_ep w)) ->
  is_Some (k_alloc (UNEXP_SIZE + Z.of_nat (length msg)) (w_k w)).1 ->
  Forall (fun u => unexp_match tagged addr rtag ignore u = false) (unexp_list tagged (w_ep w)) ->
  posted_match tagged tag src_fi rx = true ->
  wp (progress_msg src (rds_hdr_bytes (eager_hdr tagged flags tag data (Z.of_nat (length msg))) ++ msg) false [] ;;;
      rds_post_recv iov addr rtag ignore context rflags tagged)
     (fun r w' => r = 0 /\ exists k', delivered rx msg (recv_flags tagged flags) data tag src_fi (w <| w_k := k' |>) w') w.
Proof.
  intros Hw Ht Hd Hl Hlim Hiov Hnd src_fi rx Hno Hal Huno Hyes.
  apply wp_bind. eapply wp_mono; [by apply eager_waits|]. cbn beta. intros _ w1 (k' & Ew1).
  fold src_fi in Ew1. set (ux := mkUnexp (eager_hdr tagged flags tag data (Z.of_nat (length msg))) src_fi src 0 [] (Z.of_nat (length msg)) msg) in *. set (w0 := w <| w_k := k' |>) in *.
  assert (Hw0 : world_ok w0) by (by apply wi_k).
  assert (Hw1 : world_ok w1).
  { rewrite Ew1. apply (wi_set_unexp [] [] None w0 tagged (unexp_list tagged (w_ep w) ++ [ux])); [done|].
    apply match_ok_add_unexp; [exact (wi_match _ _ _ _ tagged Hw0)|apply hf_flags_tagged|done|exact Hno]. }
  assert (El : unexp_list tagged (w_ep w1) = unexp_list tagged (w_ep w) ++ ux :: []) by (rewrite Ew1; by destruct tagged).
  eapply wp_mono; [eapply (recv_takes _ _ _ _ _ _ _ w1); [exact Hw1|done|done|done|exact El|done|exact Huno|exact Hyes]|].
  cbn beta. intros r w' (-> & w2 & Ew2 & Hdel). split; [done|]. exists k'. assert (Ew : w2 = w0).
  { rewrite Ew2, Ew1, app_nil_r. unfold w0. by destruct w as [? [] ? ? ? ? ? ? ?], tagged. }
  rewrite Ew in Hdel. unfold rds_rx_flags in Hdel. change (h_flags (ux_hdr ux)) with (hf_flags tagged flags) in Hdel.
  rewrite hf_flags_data in Hdel. exact Hdel.
Qed.
End Eager.
