(* ===== verification/Ops.v ===== *)
(** * Operations

    Every operation of the endpoint as one label, with what its caller owes,
    and the state machine they generate together with the events of the
    environment. *)

From stdpp Require Import sorting.
From S2P Require Import Prelude Iov Wire Config Kernel Attr Cq CqFifo Av MrCache MrCacheInv State Mr.
From S2P Require Import MrInv Pending Ring Msg Rma RingRx Progress Ep Cntr Objects Segments Frame Inv Rules.
From S2P Require Import PendInv Safety SafetyRing SafetyRx RingPoll SafetyTx SafetyEp Emits Refs CntrSpec.

(** The entry points of [fi_ops_msg], [fi_ops_tagged], [fi_ops_rma],
    [fi_ops], [fi_ops_mr] and [fi_ops_cq], and what happens around them:
    the application and remote peers change memory, the environment moves
    on, addresses are inserted and removed, mappings are invalidated. *)
Inductive ep_op {K : Type} :=
| Fi_recv (buf len src_addr context : Z)
| Fi_recvv (iov : list iovec) (src_addr context : Z)
| Fi_recvmsg (msg : fi_msg) (flags : Z)
| Fi_send (buf len dest_addr context : Z)
| Fi_sendv (iov : list iovec) (dest_addr context : Z)
| Fi_sendmsg (msg : fi_msg) (flags : Z)
| Fi_inject (buf len dest_addr : Z)
| Fi_senddata (buf len data dest_addr context : Z)
| Fi_trecv (buf len src_addr tag ignore context : Z)
| Fi_trecvv (iov : list iovec) (src_addr tag ignore context : Z)
| Fi_trecvmsg (msg : fi_msg_tagged) (flags : Z)
| Fi_tsend (buf len dest_addr tag context : Z)
| Fi_tsendv (iov : list iovec) (dest_addr tag context : Z)
| Fi_tsendmsg (msg : fi_msg_tagged) (flags : Z)
| Fi_tinject (buf len dest_addr tag : Z)
| Fi_tsenddata (buf len data dest_addr tag context : Z)
| Fi_write (buf len dest_addr addr key context : Z)
| Fi_writev (iov : list iovec) (dest_addr addr key context : Z)
| Fi_writemsg (msg : fi_msg_rma) (flags : Z)
| Fi_read (buf len src_addr addr key context : Z)
| Fi_readv (iov : list iovec) (src_addr addr key context : Z)
| Fi_readmsg (msg : fi_msg_rma) (flags : Z)
| Fi_inject_write (buf len dest_addr addr key : Z)
| Fi_cancel (context : Z)
| Fi_cq_readfrom (id count : Z)
| Fi_cq_readerr (id err_data_size : Z) (old_api : bool)
| Fi_mr_regattr (attr : option fi_mr_attr)
| Fi_mr_close (h : Z)
| Fi_cq_open (id : Z) (attr : fi_cq_attr) (wait_open poll_add : Z)
| Fi_cq_close (id : Z)
| Fi_cntr_open (id : Z) (attr : fi_cntr_attr) (wait_open poll_add : Z)
| Fi_cntr_close (id : Z)
| Fi_bind_cntr (id flags : Z)
| Fi_cntr_read (id : Z)
| Fi_cntr_readerr (id : Z)
| Fi_cntr_add (id value : Z)
| Fi_cntr_adderr (id value : Z)
| Fi_cntr_set (id value : Z)
| Fi_cntr_seterr (id value : Z)
| Ev_mem_notify (addr len : Z)
| Ev_memory (m : mem)
| Ev_kernel (k : K)
| Ev_av (av : util_av).
Arguments ep_op : clear implicits.

Section Ops.
Context {K : Type} `{!Kernel K}.
Implicit Types w : world K.

Definition ep_exec (op : ep_op K) : St K unit :=
  match op with
  | Fi_recv buf len a c => rds_recv buf len a c ;;; ret tt
  | Fi_recvv iov a c => rds_recvv iov a c ;;; ret tt
  | Fi_recvmsg msg f => rds_recvmsg msg f ;;; ret tt
  | Fi_send buf len d c => rds_send buf len d c ;;; ret tt
  | Fi_sendv iov d c => rds_sendv iov d c ;;; ret tt
  | Fi_sendmsg msg f => rds_sendmsg msg f ;;; ret tt
  | Fi_inject buf len d => rds_inject buf len d ;;; ret tt
  | Fi_senddata buf len data d c => rds_senddata buf len data d c ;;; ret tt
  | Fi_trecv buf len a t i c => rds_trecv buf len a t i c ;;; ret tt
  | Fi_trecvv iov a t i c => rds_trecvv iov a t i c ;;; ret tt
  | Fi_trecvmsg msg f => rds_trecvmsg msg f ;;; ret tt
  | Fi_tsend buf len d t c => rds_tsend buf len d t c ;;; ret tt
  | Fi_tsendv iov d t c => rds_tsendv iov d t c ;;; ret tt
  | Fi_tsendmsg msg f => rds_tsendmsg msg f ;;; ret tt
  | Fi_tinject buf len d t => rds_tinject buf len d t ;;; ret tt
  | Fi_tsenddata buf len data d t c => rds_tsenddata buf len data d t c ;;; ret tt
  | Fi_write buf len d a k c => rds_write buf len d a k c ;;; ret tt
  | Fi_writev iov d a k c => rds_writev iov d a k c ;;; ret tt
  | Fi_writemsg msg f => rds_writemsg msg f ;;; ret tt
  | Fi_read buf len s a k c => rds_read buf len s a k c ;;; ret tt
  | Fi_readv iov s a k c => rds_readv iov s a k c ;;; ret tt
  | Fi_readmsg msg f => rds_readmsg msg f ;;; ret tt
  | Fi_inject_write buf len d a k => rds_inject_write buf len d a k ;;; ret tt
  | Fi_cancel c => rds_ep_cancel c ;;; ret tt
  | Fi_cq_readfrom id n => ofi_cq_readfrom id n ;;; ret tt
  | Fi_cq_readerr id n b => cq_run id (ofi_cq_readerr n b) ;;; ret tt
  | Fi_mr_regattr attr => rds_mr_regattr attr ;;; ret tt
  | Fi_mr_close h => rds_mr_close h ;;; ret tt
  | Fi_cq_open id a wo pa => rds_cq_open id a wo pa ;;; ret tt
  | Fi_cq_close id => rds_cq_close id ;;; ret tt
  | Fi_cntr_open id a wo pa => rds_cntr_open id (Some a) wo pa ;;; ret tt
  | Fi_cntr_close id => util_cntr_close id ;;; ret tt
  | Fi_bind_cntr id f => rds_ep_bind (Some (FI_CLASS_CNTR id)) f ;;; ret tt
  | Fi_cntr_read id => fi_cntr_read id ;;; ret tt
  | Fi_cntr_readerr id => fi_cntr_readerr id ;;; ret tt
  | Fi_cntr_add id v => fi_cntr_add id v ;;; ret tt
  | Fi_cntr_adderr id v => fi_cntr_adderr id v ;;; ret tt
  | Fi_cntr_set id v => fi_cntr_set id v ;;; ret tt
  | Fi_cntr_seterr id v => fi_cntr_seterr id v ;;; ret tt
  | Ev_mem_notify a n => ofi_mr_cache_notify a n
  | Ev_memory m => modify (fun w => w <| w_mem := m |>)
  | Ev_kernel k => modify (fun w => w <| w_k := k |>)
  | Ev_av av => modify (fun w => w <| w_avec := av |>)
  end.

(** The buffers an operation hands over. *)
Definition op_iov (op : ep_op K) : list iovec :=
  match op with
  | Fi_send buf len _ _ | Fi_senddata buf len _ _ _ | Fi_tsend buf len _ _ _ | Fi_tsenddata buf len _ _ _ _
  | Fi_inject buf len _ | Fi_tinject buf len _ _
  | Fi_write buf len _ _ _ _ | Fi_read buf len _ _ _ _ => [mkIov buf len]
  | Fi_sendv iov _ _ | Fi_tsendv iov _ _ _ | Fi_writev iov _ _ _ _ | Fi_readv iov _ _ _ _ => iov
  | Fi_sendmsg msg _ => msg_iov msg
  | Fi_tsendmsg msg _ => mt_iov msg
  | Fi_writemsg msg _ | Fi_readmsg msg _ => mr_msg_iov msg
  | _ => []
  end.

(** What the caller owes: scatter lists describe memory, a completion queue
    is one the endpoint is bound to, a region, a counter or a queue is open
    (a new one gets a new name), ids do not wrap; and when the progress
    engine polls rings ([rings_sane]), the slots peers wrote there hold
    messages of the protocol that fit their slot, and no receive buffer was
    posted inside a ring.  Only a cache that was opened is notified of
    changes of memory. *)
Definition op_pre w (op : ep_op K) : Prop :=
  e_op_id (w_ep w) + RDS_PROGRESS_BUDGET < 2 ^ 64 /\ iov_ok (op_iov op) /\
  match op with
  | Fi_cq_readfrom id n => bound_cq w id /\ 0 <= n /\ rings_sane w /\ e_op_id (w_ep w) + progress_ids w < 2 ^ 64
  | Fi_cq_readerr id _ _ => bound_cq w id
  | Fi_mr_close h => app_mr w h
  | Fi_cntr_read id | Fi_cntr_readerr id => open_cntr w id /\ rings_sane w /\ e_op_id (w_ep w) + progress_ids w < 2 ^ 64
  | Fi_cntr_add id _ | Fi_cntr_adderr id _ | Fi_cntr_set id _ | Fi_cntr_seterr id _ | Fi_cntr_close id | Fi_bind_cntr id _ => open_cntr w id
  | Fi_cntr_open id _ _ _ => w_cntrs w !! id = None
  | Fi_cq_open id _ _ _ => ob_cq_refs (w_obj w) !! id = None
  | Fi_cq_close id => is_Some (ob_cq_refs (w_obj w) !! id)
  | Ev_mem_notify _ _ => caching w = true
  | _ => True
  end.

(** States the endpoint can be in. *)
Inductive ep_reach (w0 : world K) : world K -> Prop :=
| reach_start : ep_reach w0 w0
| reach_step w op w' :
    ep_reach w0 w -> op_pre w op -> ep_exec op w = Some (tt, w') -> ep_reach w0 w'.
End Ops.
