(* ===== verification/Effects.v ===== *)
(** * What operations do outside the endpoint

    For every operation of the endpoint: the messages it hands to the socket
    are well formed, the counters and the references between objects change
    as the operation says and not otherwise. *)

From stdpp Require Import sorting.
From S2P Require Import Prelude Iov Wire Config Kernel Attr Cq CqFifo Av MrCache MrCacheInv State Mr.
From S2P Require Import MrInv Pending Ring Msg Rma RingRx Progress Ep Cntr Objects Segments Pres Frame Inv Rules PendInv Safety.
From S2P Require Import SafetyRing SafetyRx SafetyTx SafetyEp Emits Refs CntrSpec ObjSpec Eager Ops.

Section Effects.
Context {K : Type} `{!Kernel K}.
Implicit Types w : world K.

(** ** Calls of the application *)

Lemma emits_post_recv iov a t i c f tagged : emits (K := K) (rds_post_recv iov a t i c f tagged).
Proof. unfold rds_post_recv, rds_match_unexp. emits; apply emits_pres, pres_ep_upd; intros; by destruct tagged. Qed.
Lemma emits_send_eager iov dest n tag data c f tagged gen : iov_ok iov -> emits (K := K) (rds_send_eager iov dest n tag data c f tagged gen).
Proof.
  intros Hiov. unfold rds_send_eager. emits. apply emits_sendmsg. intros _. rewrite ofi_total_iov_len_ok, <- (gather_length a) by apply Hiov.
  apply wire_eager. rewrite gather_length by apply Hiov. apply Hiov.
Qed.
Lemma emits_inject buf len d tag tagged : iov_ok [mkIov buf len] -> emits (K := K) (rds_generic_inject buf len d tag tagged).
Proof.
  intros Hiov. unfold rds_generic_inject, rds_av_addr, av_addrlen_get. 
  assert (He : forall dest n c f gen, emits (K := K) (rds_send_eager [mkIov buf len] dest n tag 0 c f tagged gen)) by (intros; by apply emits_send_eager). emits.
Qed.
Lemma emits_rma_loop fuel id iov dest al key off wr o total : emits (K := K) (rma_loop fuel id iov dest al key off wr o total).
Proof. revert o. induction fuel as [|fuel IH]; intros o; cbn [rma_loop]; emits. Qed.
Hint Resolve emits_post_recv emits_rma_loop : emits.
Lemma emits_rma iov r o k wr c f : emits (K := K) (rds_rma_common iov r o k wr c f).
Proof. unfold rds_rma_common, rds_av_addr, av_addrlen_get. emits. Qed.
Lemma emits_inject_write buf len d a k : emits (K := K) (rds_inject_write buf len d a k).
Proof. unfold rds_inject_write, rds_av_addr, av_addrlen_get, read_mem, write_mem. emits. Qed.
Lemma emits_cancel c : emits (K := K) (rds_ep_cancel c).
Proof. unfold rds_ep_cancel, cancel_in. emits. Qed.
Lemma emits_readfrom id n : emits (K := K) (ofi_cq_readfrom id n).
Proof. unfold ofi_cq_readfrom, ofi_cq_progress. emits. Qed.
Lemma emits_regattr attr : emits (K := K) (rds_mr_regattr attr).
Proof. unfold rds_mr_regattr. emits. Qed.
Lemma emits_mr_close h : emits (K := K) (rds_mr_close h).
Proof. unfold rds_mr_close. emits. Qed.
Hint Resolve emits_rma emits_inject_write emits_cancel emits_readfrom emits_regattr emits_mr_close : emits.

(** The segments of a descriptor are those registered. *)
Lemma register_segs cached chunks dest n segs mrs w :
  wlp (rndzv_register (K := K) cached chunks dest n segs mrs) (fun '(_, segs', mrs') _ => length segs' + length mrs = length mrs' + length segs)%nat w.
Proof.
  revert segs mrs w. induction chunks as [|c chunks IH]; intros segs mrs w; cbn [rndzv_register]; [apply wlp_ret; lia|].
  apply wlp_bind, wlp_of_wp, wp_ep_get, wlp_bind. eapply wlp_mono with (Q := fun _ _ => True); [unfold wlp; case_match; [by destruct p|done]|]. cbn beta.
  intros [err|[cookie h]] w1 _; [apply wlp_ret; lia|]. eapply wlp_mono; [apply IH|]. cbn beta. intros [[? ?] ?] _. rewrite !length_app. cbn [length]. lia.
Qed.

Context `{!MrAgainEnds K}.

Lemma emits_rndzv iov dest n tag data c f tagged gen d w :
  world_ok w -> iov_ok iov -> (length iov <= RDS_IOV_LIMIT)%nat -> iov_total iov <= RDS_MAX_MSG_SIZE ->
  wlp (rds_send_rndzv iov dest n tag data c f tagged gen d) (fun _ w' => grows w w') w.
Proof.
  intros Hw Hiov Hl Hmax. unfold rds_send_rndzv. apply wlp_bind, wlp_of_wp, wp_ep_get, wlp_bind, wlp_of_wp, wp_gets.
  destruct (_ >=? _); [by apply wlp_ret, grows_same|]. apply wlp_bind, wlp_of_wp, wp_gets. cbn zeta.
  destruct (_ >? _); [by apply wlp_ret, grows_same|].
  apply wlp_bind, wlp_of_wp, wp_sys_alloc. intros a1 k1. apply wlp_bind, wlp_of_wp, wp_sys_alloc. intros a2 k2.
  match goal with |- wlp _ _ ?wg => assert (Hwg : world_ok wg) by (by do 2 apply wi_k);
    assert (Hkg : seen wg = seen w) by done; set (w0 := wg) in * end.
  set (cached := d_cache_enabled (w_dom w)) in *. clearbody cached w0.
  destruct a1; [|by apply wlp_ret, grows_same]. destruct a2; [|by apply wlp_ret, grows_same]. apply wlp_bind.
  eapply wlp_mono; [eapply wlp_of_wp, (wp_wlp _ _ _ w0); [apply (register_spec cached _ _ _ [] []); by destruct cached|apply register_segs]|]. cbn beta.
  intros [[err segs] mrs] w1 [(_ & [_ El] & Hlen) Hsegs]. cbn [length] in *.
  assert (Hg : grows w w1) by (apply grows_same; congruence).
  match goal with |- wlp ?m _ _ => enough (He : emits (K := K) m) by (eapply wlp_mono; [apply He|]; cbn beta; intros ? ?; by apply grows_trans) end.
  assert (Hun : emits (K := K) (rndzv_unregister cached mrs)) by (unfold rndzv_unregister; destruct cached; emits).
  destruct (Z.eqb_spec err 0) as [->|Hne]; cbn [negb]; [|emits].
  destruct (rndzv_chunks_spec iov (proj1 Hiov)) as [Hn _]. pose proof (nseg_max iov (proj1 Hiov) Hl Hmax) as Hmx. specialize (Hlen eq_refl).
  assert (En : u64 (rndzv_nseg iov) = Z.of_nat (length segs)) by (rewrite u64_small by lia; lia). rewrite En.
  assert (Hrts : forall id, emits (K := K) (rndzv_send_rts (rds_hdr_bytes (rts_hdr tagged f tag data (ofi_total_iov_len iov) (Z.of_nat (length segs)) id) ++ rds_segs_bytes segs) dest n d)).
  { intros id. unfold rndzv_send_rts. emits. apply emits_sendmsg. intros _. apply wire_rts; [|lia]. rewrite ofi_total_iov_len_ok by done.
    pose proof (iov_total_nonneg iov (proj1 Hiov)). unfold RDS_MAX_MSG_SIZE in Hmax. lia. }
  emits.
Qed.

Lemma emits_generic_send iov d tag data c f tagged w :
  world_ok w -> iov_ok iov -> wlp (rds_generic_send iov d tag data c f tagged) (fun _ w' => grows w w') w.
Proof.
  intros Hw Hiov. unfold rds_generic_send. destruct (_ <? _)%nat eqn:El; [by apply wlp_ret, grows_same|]. apply Nat.ltb_ge in El.
  cbn zeta. destruct (_ >? _) eqn:Et; [by apply wlp_ret, grows_same|]. rewrite ofi_total_iov_len_ok in Et by done.
  apply wlp_bind, wlp_of_wp, wp_av_addr; [apply Hw|]. destruct (ofi_av_get_addr _ _) as [dest|]; [|by apply wlp_ret, grows_same].
  apply wlp_bind, wlp_of_wp, wp_av_addrlen; [apply Hw|]. do 3 apply wlp_bind, wlp_of_wp, wp_ep_get. apply wlp_bind, wlp_of_wp, wp_gets. apply wlp_bind.
  eapply wlp_mono; [eapply wlp_of_wp, (wp_wlp _ _ _ w); [by apply try_ring_spec|]|].
  { match goal with |- wlp ?m _ _ => assert (He : emits (K := K) m) by emits; apply He end. }
  cbn beta. intros r w1 [(Hw1 & _) Hg]. destruct (negb _); [by apply wlp_ret|]. destruct (_ <=? _).
  - eapply wlp_mono; [by apply emits_send_eager|]. cbn beta. intros ? ?. by apply grows_trans.
  - eapply wlp_mono; [apply emits_rndzv; [done|done|done|lia]|]. cbn beta. intros ? ?. by apply grows_trans.
Qed.

Lemma emits_mem_notify addr len w : world_ok w -> caching w = true -> wlp (ofi_mr_cache_notify addr len) (fun _ w' => grows w w') w.
Proof.
  intros Hw Hon. destruct (wi_cache _ _ _ _ Hw) as [ot Hc]. rewrite Hon in Hc. apply wlp_of_wp.
  eapply wp_mono; [apply (notify_spec (owner_ok w) addr len w ([] ++ all_pend_cmrs (e_pending (w_ep w)) ++ ot)); [apply owner_ok_refl; exact (wi_reg _ _ _ _ Hw)|exact Hc]|].
  cbn beta. intros _ w' ([_ (c & k & ->)] & _). by apply grows_same.
Qed.

Lemma wlp_drop {A} (m : St K A) (Q : world K -> Prop) w : wlp m (fun _ => Q) w -> wlp (m ;;; ret tt) (fun _ => Q) w.
Proof. intros Hm. apply wlp_bind. eapply wlp_mono; [exact Hm|]. cbn beta. intros ? ? ?. by apply wlp_ret. Qed.

(** ** What a counter sees *)

(** The operation opens or closes the counter. *)
Definition reopens (id : Z) (op : ep_op K) : bool :=
  match op with Fi_cntr_open i _ _ _ | Fi_cntr_close i => i =? id | _ => false end.

(** What an operation does to the counts of a counter. *)
Definition cntr_eff (id : Z) (v : Z * Z * bool) (op : ep_op K) : Z * Z * bool :=
  let '(c, e, imported) := v in
  match op with
  | Fi_cntr_add i n => if (i =? id) && negb imported then (u64 (c + n), e, imported) else v
  | Fi_cntr_adderr i n => if (i =? id) && negb imported then (c, u64 (e + n), imported) else v
  | Fi_cntr_set i n => if (i =? id) && negb imported then (u64 n, e, imported) else v
  | Fi_cntr_seterr i n => if (i =? id) && negb imported then (c, u64 n, imported) else v
  | _ => v
  end.

(** Messages well formed, counters as the operation says, references exact. *)
Definition traced (x : holders) (op : ep_op K) w w' : Prop :=
  logs w w' /\ (forall id, reopens id op = false -> cntr_val w' id = (fun v => cntr_eff id v op) <$> cntr_val w id) /\ refs_ok x w'.

(** Operations on the objects around the endpoint. *)
Definition object_op (op : ep_op K) : bool :=
  match op with
  | Fi_cq_open _ _ _ _ | Fi_cq_close _ => true
  | Fi_cntr_open _ _ _ _ | Fi_cntr_close _ | Fi_bind_cntr _ _ | Fi_cntr_add _ _ | Fi_cntr_adderr _ _ | Fi_cntr_set _ _ | Fi_cntr_seterr _ _ => true
  | _ => false
  end.

(** Operations that leave every counter alone. *)
Lemma quiet_traced x op w w' :
  logs w w' -> (forall id, cntr_val w' id = cntr_val w id) -> refs_ok x w' ->
  (forall id v, reopens id op = false -> cntr_eff id v op = v) -> traced x op w w'.
Proof. intros Hl Hv Hr Hop. split_and!; [done| |done]. intros id Hid. rewrite Hv. destruct (cntr_val w id) as [v|]; [cbn; by rewrite Hop|done]. Qed.

Lemma grows_traced x op w w' : object_op op = false -> refs_ok x w -> grows w w' -> traced x op w w'.
Proof.
  intros Hop Hr Hg. apply quiet_traced; [apply Hg|intros id; by apply grows_cntr_val|by eapply grows_refs|]. intros id [[c e] p] _. by destruct op.
Qed.

Lemma bind_traced x i flags w : sys_ok x w -> open_cntr w i ->
  wlp (rds_ep_bind (Some (FI_CLASS_CNTR i)) flags) (fun _ w' => traced x (Fi_bind_cntr i flags) w w') w.
Proof.
  intros (Hw & _ & Hr) Ho. apply wlp_of_wp. eapply wp_mono; [by apply bind_cntr_spec|]. cbn beta. intros _ w' ((_ & _ & El) & Hv & Hr').
  apply quiet_traced; [by apply logs_same|done|by apply Hr'|by intros id [[] ?]].
Qed.

(** Queues come and go without a counter noticing. *)
Lemma queue_traced x op w w' :
  match op with Fi_cq_open _ _ _ _ | Fi_cq_close _ => True | _ => False end ->
  cntr_step w w' -> refs_ok x w' -> cntr_part w' = cntr_part w -> traced x op w w'.
Proof.
  intros Hop (_ & _ & El) Hr [= E _ _]. apply quiet_traced; [by apply logs_same|intros id; unfold cntr_val; by rewrite E|done|]. intros id [[] ?] _. by destruct op.
Qed.

Lemma change_traced x f op i w :
  (forall c, cn_ref (f c) = cn_ref c) -> sys_ok x w -> open_cntr w i -> (forall id, reopens id op = false) ->
  (forall id c, cntr_eff id (counts c) op = if i =? id then if is_peer_cntr c then counts c else counts (f c) else counts c) ->
  wlp (peer <- cntr_get is_peer_cntr i ;; if (peer : bool) then ret (- FI_ENOSYS) else cntr_upd f i ;;; ret 0) (fun _ w' => traced x op w w') w.
Proof.
  intros Hf (Hw & _ & Hr) Hi Hre Heff. apply wlp_of_wp. eapply wp_mono; [by apply cntr_change_spec|]. cbn beta. intros _ w' ((_ & _ & El) & Hr' & Hv).
  split_and!; [by apply logs_same| |by apply Hr']. intros id _. rewrite Hv. unfold cntr_val.
  destruct (Z.eqb_spec i id) as [<-|Hne].
  - destruct (w_cntrs w !! i) as [c|]; [|done]. cbn [fmap option_fmap option_map]. by rewrite Heff, Z.eqb_refl.
  - destruct (w_cntrs w !! id) as [c|]; [|done]. cbn [fmap option_fmap option_map]. rewrite Heff. by rewrite (proj2 (Z.eqb_neq i id) Hne).
Qed.

Lemma open_traced x i a wo pa w : sys_ok x w -> w_cntrs w !! i = None ->
  wlp (rds_cntr_open i (Some a) wo pa) (fun _ w' => traced x (Fi_cntr_open i a wo pa) w w') w.
Proof.
  intros (Hw & _ & Hr) Hi. apply wlp_of_wp. eapply wp_mono; [by apply cntr_open_spec|]. cbn beta. intros r w' ((_ & _ & El) & Hr' & Hc).
  split_and!; [by apply logs_same| |by apply Hr']. intros id Hid. cbn in Hid. unfold cntr_val. destruct Hc as [[= E _ _]|(c & _ & _ & _ & [= E _ _])]; rewrite E.
  - destruct (w_cntrs w !! id) as [c|]; [|done]. by destruct (counts c) as [[? ?] ?] eqn:Ec; cbn; rewrite Ec.
  - rewrite lookup_insert_ne by lia. destruct (w_cntrs w !! id) as [c'|]; [|done]. by destruct (counts c') as [[? ?] ?] eqn:Ec; cbn; rewrite Ec.
Qed.

Lemma close_traced x i w : sys_ok x w -> open_cntr w i -> wlp (util_cntr_close i) (fun _ w' => traced x (Fi_cntr_close i) w w') w.
Proof.
  intros (Hw & Hx & Hr) [c Hc]. apply wlp_of_wp. eapply wp_mono; [by apply (cntr_close_spec i c)|]. cbn beta. intros r w' ((_ & _ & El) & Hr' & Hd).
  split_and!; [by apply logs_same| |by apply Hr']. intros id Hid. cbn in Hid.
  assert (w_cntrs w' !! id = w_cntrs w !! id) as E.
  { destruct (cn_ref c =? 0); destruct Hd as [_ ->]; [|done]. by rewrite lookup_delete_ne by lia. }
  unfold cntr_val. rewrite E. by destruct (w_cntrs w !! id) as [[]|].
Qed.

Lemma exec_emits x op w : sys_ok x w -> op_pre w op -> wlp (ep_exec op) (fun _ w' => traced x op w w') w.
Proof.
  intros Hs (_ & Hiov & Hop). pose proof Hs as (Hw & Hx & Hr). destruct (object_op op) eqn:Hc.
  - destruct op; try done; cbn [ep_exec] in *; apply wlp_drop; [| |by apply open_traced|by apply close_traced|by apply bind_traced|..].
    1-2: apply wlp_of_wp; eapply wp_mono; [by apply (cq_open_ok x) || by apply (cq_close_ok x)|]; cbn beta; intros ? w' (? & ? & ?); by apply queue_traced.
    all: apply change_traced; [done|done|done|done|]. all: intros j [? ? ? ? ops ? ?]; cbn; by destruct (id =? j), ops.
  - enough (He : wlp (ep_exec op) (fun _ w' => grows w w') w).
    { eapply wlp_mono; [exact He|]. cbn beta. intros _ w'. by apply grows_traced. }
    destruct op; try done; cbn [ep_exec op_iov] in *.
    all: try (apply wlp_drop; by apply emits_generic_send).
    all: try (apply wlp_drop; by apply emits_inject).
    all: try (apply wlp_drop; match goal with |- wlp ?m _ _ => assert (He : emits (K := K) m) by (unfold rds_recv, rds_recvv, rds_recvmsg, rds_trecv, rds_trecvv,
      rds_trecvmsg, rds_write, rds_writev, rds_writemsg, rds_read, rds_readv, rds_readmsg; emits); apply He end).
    + by apply emits_mem_notify.
    + by apply grows_same.
    + by apply grows_same.
    + by apply grows_same.
Qed.
End Effects.
