(* ===== verification/Reach.v ===== *)
(** * Endpoint safety

    No allowed operation of an endpoint is ever undefined, and all of them
    keep the endpoint invariant and exact references. *)

From stdpp Require Import sorting.
From S2P Require Import Prelude Iov Wire Config Kernel Attr Cq CqFifo Av MrCache MrCacheInv State Mr.
From S2P Require Import MrInv Pending Ring Msg Rma RingRx Progress Ep Cntr Objects Segments Frame Inv Rules.
From S2P Require Import PendInv Safety SafetyRing SafetyRx RingPoll SafetyTx SafetyEp Emits Refs CntrSpec ObjSpec Startup Ops Effects.

Section Reach.
Context {K : Type} `{!Kernel K}.
Implicit Types w : world K.

Context `{!MrAgainEnds K, !KnownOps K}.

Lemma exec_unit {A} n (m : St K A) w :
  wp m (fun _ w' => world_ok w' /\ moved n w w') w -> wp (m ;;; ret tt) (fun _ w' => world_ok w') w.
Proof. intros Hm. apply wp_bind. eapply wp_mono; [exact Hm|]. cbn beta. intros a w' [Hw' _]. by apply wp_ret. Qed.

Lemma rma_common_safe iov remote_fi remote_off key wr context flags w :
  world_ok w -> e_op_id (w_ep w) + 1 < 2 ^ 64 -> iov_ok iov ->
  wp (rds_rma_common iov remote_fi remote_off key wr context flags) (fun _ w' => world_ok w' /\ moved 1 w w') w.
Proof. intros. eapply wp_mono; [by apply rma_common_spec|]. cbn beta. intros r w' (? & ? & _). done. Qed.

Lemma rma_msg_spec msg wr flags w :
  world_ok w -> e_op_id (w_ep w) + 1 < 2 ^ 64 -> iov_ok (mr_msg_iov msg) ->
  wp (if wr : bool then rds_writemsg msg flags else rds_readmsg msg flags) (fun _ w' => world_ok w' /\ moved 1 w w') w.
Proof.
  intros Hw Hop Hiov. assert (H1 : moved 1 w w) by (eapply (moved_weaken 0); [apply moved_refl|lia]).
  unfold rds_writemsg, rds_readmsg. destruct wr, (mr_rma_iov msg) as [|[a k] [|]]; try (by apply wp_ret); by apply rma_common_safe.
Qed.

Lemma exec_world_ok x op w : sys_ok x w -> op_pre w op -> wp (ep_exec op) (fun _ w' => world_ok w') w.
Proof.
  intros (Hw & Hho & Hre) (Hid & Hiov & Hop). assert (H1 : e_op_id (w_ep w) + 1 < 2 ^ 64) by (unfold RDS_PROGRESS_BUDGET in Hid; lia).
  destruct op; cbn [ep_exec op_iov] in *.
  all: try (apply (exec_unit 1); by apply post_recv_spec).
  all: try (apply (exec_unit 1); eapply wp_mono; [by apply generic_send_spec|]; cbn beta; intros ? w' (? & ? & _); done).
  all: try (apply (exec_unit 1); by apply rma_common_safe).
  all: try (apply (exec_unit 0); eapply wp_mono; [by apply generic_inject_spec|]; cbn beta; intros ? w' [? ?%quietly_moved]; done).
  all: try (apply (exec_unit 0); eapply wp_mono; [by apply cntr_change_spec|]; cbn beta; intros ? w' [(? & ? & _) _]; done).
  - apply (exec_unit 1). exact (rma_msg_spec msg true flags w Hw H1 Hiov).
  - apply (exec_unit 1). exact (rma_msg_spec msg false flags w Hw H1 Hiov).
  - apply (exec_unit 1). by apply inject_write_spec.
  - apply (exec_unit 0). by apply cancel_spec.
  - destruct Hop as (Hb & Hn & Hrd & Hid'). apply (exec_unit (progress_ids w)). by apply readfrom_spec.
  - apply (exec_unit 0). by apply readerr_spec.
  - apply (exec_unit 0). eapply wp_mono; [by apply regattr_spec|]. intros [r o] w' (? & ? & _). done.
  - apply (exec_unit 0). eapply wp_mono; [by apply mr_close_spec|]. cbn beta. intros r w' (_ & ? & ? & _). done.
  - apply (exec_unit 0). eapply wp_mono; [by apply (cq_open_ok x)|]. cbn beta. by intros ? w' [(? & ? & _) _].
  - apply (exec_unit 0). eapply wp_mono; [by apply (cq_close_ok x)|]. cbn beta. by intros ? w' [(? & ? & _) _].
  - apply (exec_unit 0). eapply wp_mono; [by apply cntr_open_spec|]. cbn beta. by intros ? w' [(? & ? & _) _].
  - apply (exec_unit 0). destruct Hop as [c Hc]. eapply wp_mono; [by apply (cntr_close_spec id c)|]. cbn beta. by intros ? w' [(? & ? & _) _].
  - apply (exec_unit 0). eapply wp_mono; [by apply bind_cntr_spec|]. cbn beta. by intros ? w' ((? & ? & _) & _).
  - destruct Hop as ([c Hc] & Hrd & Hid'). apply (exec_unit (progress_ids w)). eapply wp_mono; [by apply (cntr_read_spec id c)|]. cbn beta. by intros ? w' [? _].
  - destruct Hop as ([c Hc] & Hrd & Hid'). apply (exec_unit (progress_ids w)). eapply wp_mono; [by apply (cntr_readerr_spec id c)|]. cbn beta. by intros ? w' [? _].
  - eapply wp_mono; [by apply mem_notify_spec|]. cbn beta. by intros ? w' [? _].
  - apply wp_modify. by apply wi_mem.
  - apply wp_modify. by apply wi_k.
  - apply wp_modify. eapply wi_env; [exact Hw|done..|]. by eapply cqs_ok_bound; [..|exact (wi_cqs _ _ _ _ Hw)].
Qed.

Lemma exec_ok x op w : sys_ok x w -> op_pre w op -> wp (ep_exec op) (fun _ w' => sys_ok x w') w.
Proof.
  intros Hs Hpre. pose proof Hs as (Hw & Hho & Hre). eapply wp_mono; [eapply (wp_wlp _ _ _ w); [by apply (exec_world_ok x)|by apply exec_emits]|].
  cbn beta. intros _ w' [Hw' (_ & _ & Hr)]. by split_and!.
Qed.

Lemma reach_ok x w0 w : sys_ok x w0 -> ep_reach w0 w -> sys_ok x w.
Proof.
  intros H0. induction 1 as [|w op w' _ IH Hpre E]; [done|]. pose proof (exec_ok x op w IH Hpre) as Hwp.
  unfold wp in Hwp. by rewrite E in Hwp.
Qed.

End Reach.

Section Safe.
Context {K : Type} `{!Kernel K}.

(** C1: Endpoint safety, for a kernel that answers a registration with
    EAGAIN only finitely often in a row ([MrAgainEnds]) and delivers no
    datagram that carries the magic number of the provider and an operation
    code outside the protocol ([KnownOps]); what can happen without them is
    in Again.search_eagain_never_returns and Limits.unknown_op_overreads.
    Opening an endpoint on a ready domain is always defined; once it is
    enabled, in every state reachable by any sequence of API calls, socket traffic, RDMA notifications, memory changes and
    cache invalidations, the endpoint invariant holds (unique operation
    ids, every region and cache entry held by exactly one owner, exact
    in-flight and parked counts, no idle pending operation, no posted
    receive that matches a queued message, a consistent peer table,
    well-formed completion queues), every queue, counter, address vector and
    domain counts exactly the objects that refer to it, and every operation
    the caller may issue ([op_pre]: scatter lists describe memory, objects passed are open,
    fewer than 2^64 operations, slots written into polled rings hold
    messages that fit) is defined: no use after free, no failed assertion, no
    out-of-bounds descriptor, no endless loop. *)
Theorem endpoint_safe (Hagain : MrAgainEnds K) (Hops : KnownOps K) x self version info sel txq rxq (w0 : world K) :
  domain_ready x info txq rxq w0 ->
  wp (ep_open self version info sel txq rxq) (fun r w1 => r = 0 -> forall w, ep_reach w1 w ->
    world_ok w /\ refs_ok x w /\ forall op, op_pre w op -> is_Some (ep_exec op w)) w0.
Proof.
  intros Hd. eapply wp_mono; [by apply open_spec|]. cbn beta. intros r w1 Hw1 Hr w Hw. destruct (Hw1 Hr) as [Hok _].
  pose proof (reach_ok _ _ _ Hok Hw) as Hokw. pose proof Hokw as (? & _ & ?). split_and!; [done|done|]. intros op Hpre.
  pose proof (exec_ok x op w Hokw Hpre) as Hwp. unfold wp in Hwp. by destruct (ep_exec op w).
Qed.
End Safe.
