(* ===== verification/RingSend.v ===== *)
(** * What the two sides of an eager ring do to it

    The effect of [rds_ring_send] on the sender's counters, staging slots and
    socket, and of one round of [rds_ring_poll_peer] on the receiver's
    counter and memory, for every run of the code that is defined. *)

From S2P Require Import Prelude Iov Wire Config Kernel Cq Av MrCache MrCacheInv State Mr Pending.
From S2P Require Import Ring Msg RingRx RingLink Pres Footprint Frame Rules SafetyRing RingPoll.

(** ** Windows of memory *)

Lemma mem_read_drop m a k n : 0 <= n -> drop (Z.to_nat n) (mem_read m a k) = mem_read m (a + n) (k - n).
Proof. intros Hn. unfold mem_read. by rewrite <- fmap_drop, seqZ_drop. Qed.

Lemma mem_read_take m a k n : take (Z.to_nat n) (mem_read m a k) = mem_read m a (Z.min n k).
Proof. unfold mem_read. by rewrite <- fmap_take, seqZ_take. Qed.

Lemma mem_read_split m a n k : 0 <= n <= k -> mem_read m a k = mem_read m a n ++ mem_read m (a + n) (k - n).
Proof.
  intros Hn. rewrite <- (take_drop (Z.to_nat n) (mem_read m a k)), mem_read_take, mem_read_drop by lia. by rewrite Z.min_l by lia.
Qed.

(** Writing inside a window. *)
Lemma mem_read_write_in m a k j bs :
  0 <= j -> j + Z.of_nat (length bs) <= k ->
  mem_read (mem_write m (a + j) bs) a k =
  take (Z.to_nat j) (mem_read m a k) ++ bs ++ drop (Z.to_nat (j + Z.of_nat (length bs))) (mem_read m a k).
Proof.
  intros Hj Hk. rewrite (mem_read_split _ a j k) by lia.
  rewrite (mem_read_split _ (a + j) (Z.of_nat (length bs)) (k - j)) by lia.
  rewrite mem_read_write_same, mem_read_take, mem_read_drop by lia. rewrite !mem_read_write_disjoint by lia.
  rewrite Z.min_l by lia. do 2 f_equal. f_equal; lia.
Qed.

(** ** A staged slot *)

#[export] Instance rds_ring_slot_eta : Settable rds_ring_slot := fun s =>
  mkSlot (sl_len s) (sl_flags s) (sl_op s) (sl_resv s) (sl_tag s) (sl_data s) (sl_ack s).

(** [m'] is [m] with a slot laid out at [a]; the bytes between the payload
    and the generation word are whatever they were. *)
Record staged (a size : Z) (s : rds_ring_slot) (payload : list Z) (gen : Z) (m m' : mem) : Prop := {
  sg_frame : forall x, ~ (a <= x < a + size) -> m' x = m x;
  sg_hdr : mem_read m' a RDS_RING_HDR_SIZE = rds_ring_slot_bytes s;
  sg_payload : mem_read m' (rds_slot_payload a) (Z.of_nat (length payload)) = payload;
  sg_gen : mem_read m' (rds_slot_gen a size) RDS_RING_GEN_SIZE = le_enc 4 gen }.

Lemma staged_writes a size s payload gen m :
  RDS_RING_HDR_SIZE + Z.of_nat (length payload) + RDS_RING_GEN_SIZE <= size ->
  staged a size s payload gen m
    (mem_write (mem_write (mem_write m a (rds_ring_slot_bytes s)) (rds_slot_payload a) payload) (rds_slot_gen a size) (le_enc 4 gen)).
Proof.
  unfold rds_slot_payload, rds_slot_gen, RDS_RING_HDR_SIZE, RDS_RING_GEN_SIZE. intros Hs.
  pose proof (rds_ring_slot_bytes_length s) as L1. pose proof (le_enc_length 4 gen) as L2.
  split; unfold rds_slot_payload, rds_slot_gen, RDS_RING_HDR_SIZE, RDS_RING_GEN_SIZE.
  - intros x Hx. rewrite !mem_write_out by lia. done.
  - rewrite !mem_read_write_disjoint by lia. change 32 with (Z.of_nat 32). rewrite <- L1. apply mem_read_write_same.
  - rewrite mem_read_write_disjoint by lia. apply mem_read_write_same.
  - change 4 with (Z.of_nat 4) at 3. rewrite <- L2 at 2. apply mem_read_write_same.
Qed.

(** The generation word of a slot in memory. *)
Lemma slot_gen_read size m a : RDS_RING_GEN_SIZE <= size ->
  slot_gen size (mem_read m a size) = le_dec (mem_read m (rds_slot_gen a size) RDS_RING_GEN_SIZE).
Proof.
  unfold slot_gen, rds_slot_gen, RDS_RING_GEN_SIZE. intros Hs. rewrite mem_read_drop by lia. do 2 f_equal; lia.
Qed.

(** ** Sending *)

Section Sending.
Context {K : Type} `{!Kernel K}.
Implicit Types w : world K.

(** What sending leaves alone besides the peer's counters. *)
Definition tx_geo (e : rds_ep) := (e_eager_rdma e, e_ring_slot_size e, e_ring_payload e).

(** A peer that is connected to a ring of [N] slots of [size] bytes. *)
Record tx_peer (N size : Z) w (p : rds_peer) : Prop := {
  tp_state : pe_state p = RDS_PEER_READY;
  tp_rem : pe_rem_slots p = N /\ pe_rem_slot_size p = size;
  tp_geo : tx_geo (w_ep w) = (true, size, size - RDS_RING_HDR_SIZE - RDS_RING_GEN_SIZE);
  tp_cell : pe_credit_cell p + 8 <= pe_tx_stage p \/ pe_tx_stage p + N * size <= pe_credit_cell p }.

Definition cell_of w (p : rds_peer) : Z := le_dec (mem_read (w_mem w) (pe_credit_cell p) 8).

(** The request for slot [k], in the log. *)
Definition slot_req (N size : Z) (p : rds_peer) (k : Z) (a : rds_rdma_args) : Prop :=
  ra_remote_addr a = k mod N * size /\ ra_local a = [mkIov (pe_tx_stage p + k mod N * size) size].

(** The outcome of a send to a connected peer: no room, or a staged slot and
    one RDMA request. *)
Definition ring_sent (N size : Z) (h : Z) (p : rds_peer) (src : ring_src) (s : rds_ring_slot) (r : Z) w w' : Prop :=
  let tail := Z.max (cell_of w p) (pe_tx_tail p) in
  let head := pe_tx_head p in
  tx_geo (w_ep w') = tx_geo (w_ep w) /\
  exists head', e_peers (w_ep w') = <[h := p <| pe_tx_tail := tail |> <| pe_tx_head := head' |>]> (e_peers (w_ep w)) /\
  ((r <> 0 /\ N <= head - tail /\ head' = head /\ w_mem w' = w_mem w) \/
   (head - tail < N /\
    (exists resv m1 payload, payload = ring_src_bytes src (ring_src_len src) m1 /\
      (forall x, ~ (pe_tx_stage p + head mod N * size <= x < pe_tx_stage p + head mod N * size + size) -> m1 x = w_mem w x) /\
      staged (pe_tx_stage p + head mod N * size) size (s <| sl_resv := resv |>) payload (ring_want N head) (w_mem w) (w_mem w')) /\
    (if r =? 0 then head' = head + 1 /\ exists sn a, w_log w' = w_log w ++ [sn] /\ sn_rdma sn = Some a /\ slot_req N size p head a
     else head' = head))).

(** The slot header of a send. *)
Definition send_slot (p : rds_peer) (src : ring_src) (tag data flags : Z) (tagged : bool) (op : Z) : rds_ring_slot :=
  mkSlot (u32 (ring_src_len src)) (hf_flags tagged flags) op 0 tag data (pe_rx_head p).

Lemma send_cq_quiet c f n e : pres (fun w => (w_ep w, w_mem w, w_log w)) (rds_cq_write_tx (K := K) c f n e).
Proof. unfold rds_cq_write_tx. pres. Qed.

(** A source whose bytes fit a slot. *)
Definition src_ok (src : ring_src) : Prop :=
  match src with SrcIov iov => iov_ok iov | SrcBytes _ => True end.

Lemma ring_src_length src m : src_ok src -> Z.of_nat (length (ring_src_bytes src (ring_src_len src) m)) = ring_src_len src.
Proof.
  destruct src as [iov|bs]; cbn; [|done]. intros Hiov. rewrite ofi_total_iov_len_ok by done.
  pose proof (iov_total_nonneg _ (proj1 Hiov)) as Hp. unfold ofi_copy_from_iov.
  assert (Hl : Z.of_nat (length (ofi_copy_iov_to_buf iov 0 (iov_total iov) m [])) = iov_total iov).
  { rewrite copy_from_iov_loop by (apply Hiov || lia). cbn. rewrite length_fmap, length_take, drop_0, <- iov_addrs_length by apply Hiov. lia. }
  destruct iov as [|v [|v2 iov]]; [exact Hl| |exact Hl]. change (iov_total [v]) with (iov_len v + 0) in *.
  rewrite mem_read_length. destruct (Z.gtb_spec 0 (iov_len v)); lia.
Qed.

Lemma send_ready_effect N size h p src tag data context flags tagged gen_comp op w :
  0 < N < 2 ^ 31 -> RDS_RING_HDR_SIZE + RDS_RING_GEN_SIZE <= size < 2 ^ 32 -> tx_peer N size w p -> e_peers (w_ep w) !! h = Some p ->
  0 <= pe_tx_tail p <= pe_tx_head p -> pe_tx_head p + 1 < 2 ^ 64 -> cell_of w p <= pe_tx_head p ->
  src_ok src -> RDS_RING_HDR_SIZE + ring_src_len src + RDS_RING_GEN_SIZE <= size ->
  wlp (ring_send_ready h src (ring_src_len src) tag data context flags tagged gen_comp op)
    (fun r w' => ring_sent N size h p src (send_slot p src tag data flags tagged op) r w w') w.
Proof.
  intros HN Hsz [Hst [Es Ez] Hgeo Hcell] Hp Ht Hh Hc Hsrc Hfit. unfold ring_send_ready.
  set (tail := Z.max (cell_of w p) (pe_tx_tail p)). set (p1 := p <| pe_tx_tail := tail |>).
  apply wlp_bind, wlp_mono with (Q := fun _ w1 => w_mem w1 = w_mem w /\ w_log w1 = w_log w /\ tx_geo (w_ep w1) = tx_geo (w_ep w) /\
    e_peers (w_ep w1) = <[h := p1]> (e_peers (w_ep w))).
  { unfold rds_ring_refresh_credit. apply wlp_of_wp, wp_bind. eapply wp_peer_deref; [exact Hp|]. apply wp_bind, wp_gets. cbn zeta.
    change (le_dec _) with (cell_of w p). rewrite Z.gtb_ltb. destruct (Z.ltb_spec (pe_tx_tail p) (cell_of w p)).
    - apply wp_ep_upd. w_simpl. split_and!; [done..|]. rewrite (alter_as_insert _ _ p) by done.
      unfold p1, tail. by rewrite Z.max_l by lia.
    - apply wp_ret. split_and!; [done..|]. symmetry. apply insert_id. unfold p1, tail. rewrite Z.max_r by lia. rewrite Hp. by destruct p. }
  intros _ w1 (Em & El & Eg & Ep). apply wlp_bind, wlp_of_wp. eapply wp_peer_deref; [rewrite Ep; apply lookup_insert_eq|].
  change (pe_tx_head p1) with (pe_tx_head p). change (pe_tx_tail p1) with tail. change (pe_rem_slots p1) with (pe_rem_slots p). rewrite Es.
  assert (Htl : 0 <= tail <= pe_tx_head p) by lia. rewrite u64_small by lia. set (head := pe_tx_head p) in *.
  rewrite Z.geb_leb. destruct (Z.leb_spec N (head - tail)) as [Hfull|Hroom].
  { apply wlp_ret. split; [done|]. exists head. split; [etrans; [exact Ep|]; unfold p1, head; by destruct p|]. left. split_and!; [done|lia|done|done]. }
  rewrite (proj2 (Z.eqb_neq N 0)) by lia. apply wlp_bind, wlp_of_wp, wp_ep_get. cbn zeta.
  assert (Esz : e_ring_slot_size (w_ep w1) = size) by (unfold tx_geo in *; congruence). rewrite Esz.
  change (u32 (u32 (head / N) + 1)) with (ring_want N head). change (pe_tx_stage p1) with (pe_tx_stage p).
  pose proof (Z.mod_pos_bound head N ltac:(lia)) as Hi. set (a := pe_tx_stage p + head mod N * size).
  do 2 (apply wlp_bind, wlp_of_wp, wp_gets; apply wlp_bind, wlp_of_wp, wp_modify). apply wlp_bind, wlp_of_wp, wp_modify. w_simpl.
  change (pe_rx_head p1) with (pe_rx_head p). set (resv := le_dec _).
  set (sl := mkSlot _ _ _ _ _ _ _). set (m1 := mem_write (w_mem w1) a (rds_ring_slot_bytes sl)).
  set (m3 := mem_write (mem_write m1 (rds_slot_payload a) (ring_src_bytes src (ring_src_len src) m1)) (rds_slot_gen a size) (le_enc 4 (ring_want N head))).
  assert (Hsg : staged a size sl (ring_src_bytes src (ring_src_len src) m1) (ring_want N head) (w_mem w)
    m3).
  { unfold m3, m1. rewrite Em. apply staged_writes. rewrite ring_src_length by done. lia. }
  apply wlp_bind, wlp_of_wp, wp_post_rdma_log; [done|]. intros errno k' _. w_simpl.
  assert (Eg1 : tx_geo (w_ep w1) = tx_geo (w_ep w)) by done.
  assert (Hslot : exists resv m1 payload, payload = ring_src_bytes src (ring_src_len src) m1 /\
    (forall x, ~ (a <= x < a + size) -> m1 x = w_mem w x) /\
    staged a size ((send_slot p src tag data flags tagged op) <| sl_resv := resv |>) payload (ring_want N head) (w_mem w) m3).
  { exists resv, m1, (ring_src_bytes src (ring_src_len src) m1). split_and!; [done| |exact Hsg].
    intros x Hx. unfold m1. rewrite Em. apply mem_write_out. rewrite rds_ring_slot_bytes_length. unfold RDS_RING_HDR_SIZE, RDS_RING_GEN_SIZE in Hsz. lia. }
  clear Hsg. destruct (Z.eqb_spec (send_status errno) 0) as [E0|E0]; cbn [negb].
  - apply wlp_bind, wlp_of_wp, wp_ep_upd. match goal with |- wlp _ _ ?wg => set (w2 := wg) end.
    assert (Hw2 : exists w3, w_ep w2 = w_ep w3 /\ w_mem w2 = w_mem w3 /\ w_log w2 = w_log w3 /\ ring_sent N size h p src (send_slot p src tag data flags tagged op) 0 w w3).
    { exists w2. split_and!; [done..|]. split; [done|]. exists (head + 1). split.
      - unfold w2. w_simpl. match goal with |- context [e_peers (w_ep (set_net ?x ?y ?z))] => change (e_peers (w_ep (set_net x y z))) with (e_peers (w_ep w1)) end.
        rewrite Ep, (alter_as_insert _ _ p1), insert_insert_eq by apply lookup_insert_eq. unfold p1, head. f_equal.
        unfold set_field. cbn. by rewrite u64_small by lia.
      - right. split_and!; [done|exact Hslot|]. split; [done|]. eexists _, _. split; [unfold w2; w_simpl; rewrite <- El; reflexivity|]. split; [reflexivity|].
        split; [|done]. cbn. rewrite Ez. apply u64_small. change (pe_tx_head p) with head. unfold RDS_RING_HDR_SIZE, RDS_RING_GEN_SIZE in Hsz.
        split; [apply Z.mul_nonneg_nonneg; lia|]. apply (Z.le_lt_trans _ (2 ^ 31 * 2 ^ 32)); [apply Z.mul_le_mono_nonneg; lia|done]. }
    clearbody w2. destruct Hw2 as (w3 & E1 & E2 & E3 & Hs3). apply wlp_bind.
    apply wlp_mono with (Q := fun _ w4 => (w_ep w4, w_mem w4, w_log w4) = (w_ep w2, w_mem w2, w_log w2)).
    { destruct gen_comp; [apply send_cq_quiet|by apply wlp_ret]. }
    intros _ w4 [= F1 F2 F3]. apply wlp_ret. unfold ring_sent in *. rewrite F1, F2, F3, E1, E2, E3. exact Hs3.
  - apply wlp_ret. split; [done|]. exists head. split; [etrans; [exact Ep|]; unfold p1, head; by destruct p|]. right. split_and!; [done|exact Hslot|].
    by rewrite (proj2 (Z.eqb_neq _ 0)).
Qed.
(** [rds_ring_send] to a peer it finds and that is connected. *)
Lemma ring_send_effect N size h p src dest tag data context flags tagged gen_comp op w :
  0 < N < 2 ^ 31 -> RDS_RING_HDR_SIZE + RDS_RING_GEN_SIZE <= size < 2 ^ 32 -> tx_peer N size w p -> e_peers (w_ep w) !! h = Some p ->
  0 <= pe_tx_tail p <= pe_tx_head p -> pe_tx_head p + 1 < 2 ^ 64 -> cell_of w p <= pe_tx_head p -> src_ok src ->
  chain_find (e_peers (w_ep w)) (bucket (w_ep w) (rds_peer_hash dest)) dest = Some (Some h) ->
  wlp (rds_ring_send src dest tag data context flags tagged gen_comp op) (fun r w' => (r <> 0 /\ w' = w) \/
    (RDS_RING_HDR_SIZE + ring_src_len src + RDS_RING_GEN_SIZE <= size /\ ring_sent N size h p src (send_slot p src tag data flags tagged op) r w w')) w.
Proof.
  intros HN Hsz Htx Hp Ht Hh Hc Hsrc Hfind. pose proof (tp_geo _ _ _ _ Htx) as [= G1 G2 G3]. unfold rds_ring_send.
  apply wlp_bind, wlp_of_wp, wp_ep_get. rewrite G1. cbn [negb]. cbn zeta. apply wlp_bind, wlp_of_wp, wp_ep_get. rewrite G3, Z.gtb_ltb.
  destruct (Z.ltb_spec (size - RDS_RING_HDR_SIZE - RDS_RING_GEN_SIZE) (ring_src_len src)) as [Hbig|Hfit].
  { apply wlp_ret. by left. }
  apply wlp_bind. unfold rds_peer_find. apply wlp_bind, wlp_of_wp, wp_ep_get. rewrite Hfind. apply wp_ret. apply wlp_bind, wlp_of_wp, wp_ret.
  apply wlp_bind, wlp_of_wp, wp_ep_upd. apply wlp_bind, wlp_of_wp. eapply wp_peer_deref; [exact Hp|].
  rewrite bool_decide_true by exact (tp_state _ _ _ _ Htx).
  eapply wlp_mono; [eapply (send_ready_effect N size h p src); try done; [by destruct Htx|lia]|].
  cbn beta. intros r w' Hs. right. split; [lia|exact Hs].
Qed.
End Sending.

(** ** Receiving *)

Section Receiving.
Context {K : Type} `{!Kernel K}.
Implicit Types w : world K.

(** Memory outside the posted buffers, up to the credit cell at [c]. *)
Definition credited (c v : Z) w w' : Prop :=
  exists m1, (forall x, (x ∉ rx_addrs w) -> m1 x = w_mem w x) /\ (w_mem w' = m1 \/ w_mem w' = mem_write m1 c (le_enc 8 v)).

(** The peer [q] of the ring [h] keeps its place; its read index is [head]. *)
Definition ring_moved (h : Z) (q : rds_peer) (head : Z) w w' : Prop :=
  geo (w_ep w') = geo (w_ep w) /\ (forall x, x ∈ rx_addrs w' -> x ∈ rx_addrs w) /\
  (forall h', h' <> h -> e_peers (w_ep w') !! h' = e_peers (w_ep w) !! h') /\
  exists q', e_peers (w_ep w') !! h = Some q' /\ static q' = static q /\ pe_rx_head q' = head.

(** What one consumed slot changes. *)
Definition ring_advanced (h : Z) (q : rds_peer) (head : Z) w w' : Prop :=
  ring_moved h q head w w' /\ credited (pe_credit_tx_addr q) head w w'.

Lemma ring_moved_trans h q a b w1 w2 w3 :
  ring_moved h q a w1 w2 ->
  (forall q', e_peers (w_ep w2) !! h = Some q' -> static q' = static q -> pe_rx_head q' = a -> ring_moved h q' b w2 w3) ->
  ring_moved h q b w1 w3.
Proof.
  intros (G1 & R1 & O1 & q1 & E1 & S1 & H1) H2. destruct (H2 q1 E1 S1 H1) as (G2 & R2 & O2 & q2 & E2 & S2 & H2').
  split_and!; [congruence|auto|intros h' Hne; by rewrite O2, O1|]. exists q2. split_and!; congruence.
Qed.

Lemma peer_upd_effect h q f w :
  e_peers (w_ep w) !! h = Some q -> static (f q) = static q ->
  wp (peer_upd h f) (fun _ w' => ring_moved h q (pe_rx_head (f q)) w w' /\ w_mem w' = w_mem w /\ e_peers (w_ep w') !! h = Some (f q)) w.
Proof.
  intros Hq Hs. apply wp_ep_upd. w_simpl. rewrite lookup_alter_eq, Hq. split_and!; try done.
  split_and!; try done; [intros h' Hne; cbn; by rewrite lookup_alter_ne|]. exists (f q). split_and!; try done. cbn. by rewrite lookup_alter_eq, Hq.
Qed.

Lemma touched_moved h q w w' : e_peers (w_ep w) !! h = Some q -> touched w w' -> ring_moved h q (pe_rx_head q) w w'.
Proof.
  intros Hq Ht. pose proof (touched_polled h w w' Ht) as Hpl. destruct Ht as (E & _). unfold ring_part in E.
  split_and!; [apply Hpl|apply Hpl|apply Hpl|]. exists q. split_and!; [congruence|done|done].
Qed.

Lemma return_credit_effect h q w :
  e_peers (w_ep w) !! h = Some q -> wlp (rds_ring_return_credit h) (fun _ w' =>
    ring_moved h q (pe_rx_head q) w w' /\
    w_mem w' = mem_write (w_mem w) (pe_credit_tx_addr q) (le_enc 8 (pe_rx_head q))) w.
Proof.
  intros Hq. unfold rds_ring_return_credit. apply wlp_of_wp, wp_bind. eapply wp_peer_deref; [exact Hq|].
  apply wp_bind, wp_modify, wp_bind, wp_post_rdma. intros r k' log'. destruct (r =? 0).
  - eapply wp_mono; [apply (peer_upd_effect h q); [exact Hq|done]|]. cbn beta. intros _ w' (Hm & Em & _). split; [exact Hm|exact Em].
  - apply wp_ret. split; [|done]. split_and!; try done. by exists q.
Qed.

Lemma deliver_touched h q slotp w :
  e_peers (w_ep w) !! h = Some q -> slot_sane (e_ring_slot_size (w_ep w)) (w_mem w) slotp ->
  wlp (rds_ring_deliver h (rds_ring_slot_of_bytes (mem_read (w_mem w) slotp RDS_RING_HDR_SIZE)) (rds_slot_payload slotp)) (fun _ => touched w) w.
Proof.
  intros Hq Hsane. unfold rds_ring_deliver. apply wlp_bind, wlp_of_wp. eapply wp_peer_deref; [exact Hq|].
  set (s := rds_ring_slot_of_bytes _) in *. destruct (Z.eqb_spec (sl_op s) RDS_OP_EAGER) as [Eo|Eo].
  - apply wlp_bind, wlp_of_wp, wp_gets. apply inbound_touches. by left.
  - destruct (Z.ltb_spec (sl_len s) RDS_HDR_SIZE) as [El|El]; [apply wlp_ret; by apply still_touched|].
    do 2 apply wlp_bind, wlp_of_wp, wp_gets. destruct Hsane as [Hs|[Hs|(_ & Hm & _)]]; [done|fold s in Hs; lia|by apply inbound_touches].
Qed.

Lemma poll_slot_effect h q slotp slots w :
  e_peers (w_ep w) !! h = Some q -> slot_sane (e_ring_slot_size (w_ep w)) (w_mem w) slotp -> 0 <= pe_rx_head q -> pe_rx_head q + 1 < 2 ^ 64 ->
  wlp (poll_slot h q slotp slots) (fun _ w' => ring_advanced h q (pe_rx_head q + 1) w w') w.
Proof.
  intros Hq Hsane H0 Hh. unfold poll_slot. apply wlp_bind, wlp_of_wp, wp_gets. cbn zeta. set (s := rds_ring_slot_of_bytes _).
  apply wlp_bind, wlp_mono with (Q := fun _ w1 => ring_moved h q (pe_rx_head q) w w1 /\ w_mem w1 = w_mem w).
  { apply wlp_of_wp. destruct (_ >? _).
    - eapply wp_mono; [by apply (peer_upd_effect h q)|]. cbn beta. intros _ w1 (? & ? & _). done.
    - apply wp_ret. split; [|done]. split_and!; try done. by exists q. }
  intros _ w1 [Hm1 Em1]. pose proof Hm1 as (G1 & R1 & _ & q1 & Hq1 & S1 & E1). apply wlp_bind.
  assert (Esz : e_ring_slot_size (w_ep w1) = e_ring_slot_size (w_ep w)) by (unfold geo in G1; congruence).
  eapply wlp_mono; [unfold s; rewrite <- Em1; apply (deliver_touched h q1); [done|by rewrite Esz, Em1]|].
  cbn beta. intros _ w2 Ht. pose proof (touched_moved h q1 _ _ Hq1 Ht) as Hm2. pose proof Hm2 as (_ & _ & _ & q2 & Hq2 & S2 & E2).
  apply wlp_bind, wlp_of_wp. eapply wp_mono; [by apply (peer_upd_effect h q2)|]. cbn beta.
  set (f := fun p : rds_peer => p <| pe_rx_head ::= fun n => u64 (n + 1) |>).
  intros _ w3 (Hm3 & Em3 & Hq3). apply wlp_bind, wlp_of_wp. eapply wp_peer_deref; [exact Hq3|].
  assert (Eh : pe_rx_head (f q2) = pe_rx_head q + 1) by (unfold f; cbn; rewrite u64_small by lia; lia).
  assert (Hm : ring_moved h q (pe_rx_head q + 1) w w3).
  { eapply ring_moved_trans; [exact Hm1|]. intros q1' Hq1' _ _. assert (q1' = q1) as -> by congruence.
    eapply ring_moved_trans; [exact Hm2|]. intros q2' Hq2' _ _. assert (q2' = q2) as -> by congruence. rewrite <- Eh. exact Hm3. }
  assert (Hfr : forall x, (x ∉ rx_addrs w) -> w_mem w3 x = w_mem w x).
  { intros x Hx. rewrite Em3. destruct Ht as (_ & _ & Hmem). rewrite Hmem, Em1; [done|]. intros Hx'. by apply Hx, R1. }
  destruct (_ >=? _); [|apply wlp_ret; split; [exact Hm|]; exists (w_mem w3); auto].
  eapply wlp_mono; [by eapply return_credit_effect|]. cbn beta. intros _ w4 [Hm4 Em4]. split.
  - eapply ring_moved_trans; [exact Hm|]. intros q' Hq' _ _. rewrite Hq3 in Hq'. injection Hq' as <-. rewrite <- Eh. exact Hm4.
  - exists (w_mem w3). split; [done|]. right. etrans; [exact Em4|]. rewrite <- Eh.
    by replace (pe_credit_tx_addr q) with (pe_credit_tx_addr q2) by (unfold static in S1, S2; congruence).
Qed.
End Receiving.
