(* ===== verification/RingHand.v ===== *)
(** * What a poll of the ring hands over

    A slot of the ring, read as bytes, names one message.  Consuming a slot
    is running the inbound handler on exactly that message, between
    book-keeping of the ring that touches nothing but the counters of the
    peer, its credit word and the socket. *)

From S2P Require Import Prelude Iov Wire Config Kernel Cq Av MrCache MrCacheInv State Mr MrInv Pending.
From S2P Require Import Ring Msg RingRx RingLink Pres Footprint Frame Inv Rules Safety SafetyRing RingPoll RingSend.

(** The message in the bytes of a slot: header and payload, none in a runt. *)
Definition slot_msg (bs : list Z) : option (rds_hdr * list Z) :=
  let s := rds_ring_slot_of_bytes (take 32 bs) in
  let payload := drop 32 bs in
  if sl_op s =? RDS_OP_EAGER then Some (slot_eager_hdr s, take (Z.to_nat (sl_len s)) payload)
  else if sl_len s <? RDS_HDR_SIZE then None
  else Some (rds_hdr_of_bytes (take 40 payload), take (Z.to_nat (sl_len s - RDS_HDR_SIZE)) (drop 40 payload)).

(** The payload lies in the slot, before its generation word. *)
Definition slot_fits (size : Z) (bs : list Z) : Prop :=
  let s := rds_ring_slot_of_bytes (take 32 bs) in
  0 <= sl_len s /\ RDS_RING_HDR_SIZE + sl_len s + RDS_RING_GEN_SIZE <= size.

Section RingHand.
Context {K : Type} `{!Kernel K}.
Implicit Types w : world K.

(** Handling the message of a slot that came from the peer [p]. *)
Definition hand_over (p : rds_peer) (bs : list Z) : St K unit :=
  match slot_msg bs with
  | Some (hdr, payload) => rds_handle_inbound hdr payload (pe_sa p) (pe_addr p)
  | None => ret tt
  end.

(** Book-keeping of the ring [h]: the counters of its peer, the credit word,
    and what the socket was given. *)
Definition recounted (p p' : rds_peer) : Prop :=
  exists tail head sent, p' = p <| pe_tx_tail := tail |> <| pe_rx_head := head |> <| pe_rx_credit_sent := sent |>.

Definition books (h : Z) w w' : Prop :=
  exists p p' m k log, e_peers (w_ep w) !! h = Some p /\ recounted p p' /\
    w' = w <| w_ep ::= fun e => e <| e_peers ::= insert h p' |> |> <| w_mem := m |> <| w_k := k |> <| w_log := log |> /\
    forall x, ~ (pe_credit_tx_addr p <= x < pe_credit_tx_addr p + 8) -> m x = w_mem w x.

(** One slot consumed: the message of [bs] went to the handler, and the read
    index is one further. *)
Definition handed (h : Z) (bs : list Z) w w' : Prop :=
  exists p w1 w2 p', e_peers (w_ep w) !! h = Some p /\ books h w w1 /\ hand_over p bs w1 = Some (tt, w2) /\ books h w2 w' /\
    e_peers (w_ep w') !! h = Some p' /\ pe_rx_head p' = u64 (pe_rx_head p + 1).

(** The slots [ds] consumed one after the other, and nothing else. *)
Inductive drains (h : Z) : world K -> list (list Z) -> world K -> Prop :=
| drains_end w : drains h w [] w
| drains_credit w w' : books h w w' -> pe_rx_head <$> e_peers (w_ep w') !! h = pe_rx_head <$> e_peers (w_ep w) !! h -> drains h w [] w'
| drains_slot w bs w1 ds w' : handed h bs w w1 -> drains h w1 ds w' -> drains h w (bs :: ds) w'.

(** ** Book-keeping *)

Lemma world_ext w w' :
  w_cfg w = w_cfg w' -> w_ep w = w_ep w' -> w_live w = w_live w' -> w_dom w = w_dom w' -> w_cqs w = w_cqs w' -> w_cntrs w = w_cntrs w' ->
  w_avec w = w_avec w' -> w_mem w = w_mem w' -> w_k w = w_k w' -> w_log w = w_log w' -> w_obj w = w_obj w' -> w = w'.
Proof. destruct w, w'. cbn. by intros -> -> -> -> -> -> -> -> -> -> ->. Qed.

Lemma same_peers (e : rds_ep) h p : e_peers e !! h = Some p -> e <| e_peers ::= insert h p |> = e.
Proof. intros Hp. destruct e. unfold set_field. cbn in *. by rewrite insert_id. Qed.

Lemma alter_peers (e : rds_ep) h p f : e_peers e !! h = Some p -> e <| e_peers ::= alter f h |> = e <| e_peers ::= insert h (f p) |>.
Proof.
  intros Hp. destruct e. unfold set_field. cbn in *. f_equal. apply map_eq. intros i. destruct (decide (i = h)) as [->|Hne].
  - by rewrite lookup_alter_eq, lookup_insert_eq, Hp.
  - by rewrite lookup_alter_ne, lookup_insert_ne.
Qed.

Lemma insert_peers (e : rds_ep) h p p' : e <| e_peers ::= insert h p |> <| e_peers ::= insert h p' |> = e <| e_peers ::= insert h p' |>.
Proof. destruct e. unfold set_field. cbn. by rewrite insert_insert_eq. Qed.

Lemma books_refl h p w : e_peers (w_ep w) !! h = Some p -> books h w w.
Proof.
  intros Hp. exists p, p, (w_mem w), (w_k w), (w_log w). split_and!; [done| | |done].
  - exists (pe_tx_tail p), (pe_rx_head p), (pe_rx_credit_sent p). by destruct p.
  - apply world_ext; w_simpl; try done. by rewrite same_peers.
Qed.

Lemma books_peer h w w' p : books h w w' -> e_peers (w_ep w) !! h = Some p ->
  exists p', e_peers (w_ep w') !! h = Some p' /\ recounted p p' /\ pe_sa p' = pe_sa p /\ pe_addr p' = pe_addr p.
Proof.
  intros (p0 & p' & m & k & log & Hp & Hr & -> & _) Hp0. simplify_eq. exists p'. split_and!; [by w_simpl; rewrite lookup_insert_eq|done|..].
  all: by destruct Hr as (? & ? & ? & ->).
Qed.

Lemma recounted_trans p1 p2 p3 : recounted p1 p2 -> recounted p2 p3 -> recounted p1 p3.
Proof. intros (t1 & h1 & s1 & ->) (t2 & h2 & s2 & ->). by exists t2, h2, s2. Qed.

Lemma books_trans h w1 w2 w3 : books h w1 w2 -> books h w2 w3 -> books h w1 w3.
Proof.
  intros (p & p1 & m1 & k1 & l1 & Hp & Hr1 & -> & Hm1) (p1' & p2 & m2 & k2 & l2 & Hp1 & Hr2 & -> & Hm2).
  revert Hp1 Hm2. w_simpl. rewrite lookup_insert_eq. intros [= <-] Hm2. exists p, p2, m2, k2, l2. split_and!; [done|by eapply recounted_trans| |].
  - apply world_ext; w_simpl; try done. by rewrite insert_peers.
  - assert (E : pe_credit_tx_addr p1 = pe_credit_tx_addr p) by (by destruct Hr1 as (? & ? & ? & ->)). rewrite E in Hm2.
    intros x Hx. rewrite Hm2 by done. by apply Hm1.
Qed.

Lemma books_upd h p f w :
  e_peers (w_ep w) !! h = Some p -> recounted p (f p) ->
  wp (peer_upd h f) (fun _ w' => books h w w' /\ e_peers (w_ep w') !! h = Some (f p) /\ w_mem w' = w_mem w) w.
Proof.
  intros Hp Hr. apply wp_ep_upd. w_simpl. rewrite lookup_alter_eq, Hp. split_and!; try done.
  exists p, (f p), (w_mem w), (w_k w), (w_log w). split_and!; [done..| |done].
  apply world_ext; w_simpl; try done. by apply alter_peers.
Qed.

Lemma books_credit h p w :
  e_peers (w_ep w) !! h = Some p ->
  wp (rds_ring_return_credit h) (fun _ w' => books h w w' /\ pe_rx_head <$> e_peers (w_ep w') !! h = Some (pe_rx_head p)) w.
Proof.
  intros Hp. unfold rds_ring_return_credit. apply wp_bind. eapply wp_peer_deref; [exact Hp|].
  apply wp_bind, wp_modify, wp_bind, wp_post_rdma. intros r k' log'.
  match goal with |- context [set_net ?wm k' log'] => set (w1 := set_net wm k' log') end.
  assert (H1 : books h w w1).
  { exists p, p, (w_mem w1), k', log'. split_and!; [done| | |].
    - exists (pe_tx_tail p), (pe_rx_head p), (pe_rx_credit_sent p). by destruct p.
    - unfold w1, set_net. apply world_ext; w_simpl; try done. by rewrite same_peers.
    - intros x Hx. apply mem_write_out. rewrite le_enc_length. lia. }
  destruct (r =? 0); [|apply wp_ret; split; [done|]; change (e_peers (w_ep w1)) with (e_peers (w_ep w)); by rewrite Hp].
  eapply wp_mono; [apply (books_upd h p); [done|]|].
  { exists (pe_tx_tail p), (pe_rx_head p), (pe_rx_head p). by destruct p. }
  cbn beta. intros _ w' (H2 & Hp' & _). split; [by eapply books_trans|]. by rewrite Hp'.
Qed.

Lemma drains_books h w ds w1 w2 :
  drains h w ds w1 -> books h w1 w2 -> pe_rx_head <$> e_peers (w_ep w2) !! h = pe_rx_head <$> e_peers (w_ep w1) !! h -> drains h w ds w2.
Proof.
  induction 1 as [w|w w1 Hb E|w bs w0 ds w1 Hh _ IH]; intros Hb2 E2.
  - by apply drains_credit.
  - apply drains_credit; [by eapply books_trans|congruence].
  - eapply drains_slot; [exact Hh|by apply IH].
Qed.

(** ** A slot *)

(** Delivering a slot of the ring is handling the message of its bytes. *)
Lemma deliver_hands h p slotp size w :
  e_peers (w_ep w) !! h = Some p -> slot_fits size (mem_read (w_mem w) slotp size) ->
  rds_ring_deliver h (rds_ring_slot_of_bytes (mem_read (w_mem w) slotp RDS_RING_HDR_SIZE)) (rds_slot_payload slotp) w =
    hand_over p (mem_read (w_mem w) slotp size) w.
Proof.
  intros Hp Hfit. unfold slot_fits, hand_over, slot_msg, RDS_RING_HDR_SIZE, RDS_RING_GEN_SIZE, RDS_HDR_SIZE in *. cbn zeta in *.
  change 40%nat with (Z.to_nat 40). change 32%nat with (Z.to_nat 32) in *. rewrite !mem_read_drop, !mem_read_take in * by lia.
  destruct (Z.min_spec 32 size) as [[? E]|[? E]]; rewrite E in *.
  2: { exfalso. lia. }
  clear E. set (s := rds_ring_slot_of_bytes _) in *.
  unfold rds_ring_deliver, peer_deref, ep_get, read_mem, bind, gets, of_opt, ret, rds_slot_payload, RDS_RING_HDR_SIZE, RDS_HDR_SIZE. rewrite Hp.
  destruct (sl_op s =? RDS_OP_EAGER); [by rewrite Z.min_l by lia|]. destruct (sl_len s <? 40) eqn:El; [done|].
  by rewrite !Z.min_l by lia.
Qed.

Lemma poll_slot_hands h q slotp slots w :
  let size := e_ring_slot_size (w_ep w) in
  e_peers (w_ep w) !! h = Some q -> slot_sane size (w_mem w) slotp -> slot_fits size (mem_read (w_mem w) slotp size) ->
  wlp (poll_slot h q slotp slots) (fun _ w' => handed h (mem_read (w_mem w) slotp size) w w') w.
Proof.
  intros size Hq Hsane Hfit. unfold poll_slot. apply wlp_bind, wlp_of_wp, wp_gets. cbn zeta.
  apply wlp_bind, wlp_mono with (Q := fun _ w1 => books h w w1 /\ w_mem w1 = w_mem w /\ pe_rx_head <$> e_peers (w_ep w1) !! h = Some (pe_rx_head q)).
  { apply wlp_of_wp. destruct (_ >? _); [|apply wp_ret; split_and!; [by eapply books_refl|done|by rewrite Hq]].
    eapply wp_mono; [apply (books_upd h q); [done|]|].
    { exists (sl_ack (rds_ring_slot_of_bytes (mem_read (w_mem w) slotp RDS_RING_HDR_SIZE))), (pe_rx_head q), (pe_rx_credit_sent q). by destruct q. }
    cbn beta. intros _ w1 (? & E & ?). split_and!; [done..|]. by rewrite E. }
  intros _ w1 (Hb1 & Em1 & Eh1). destruct (books_peer h w w1 q Hb1 Hq) as (q1 & Hq1 & Hr1 & Esa & Ead).
  assert (Esz : e_ring_slot_size (w_ep w1) = size) by (by destruct Hb1 as (? & ? & ? & ? & ? & _ & _ & -> & _)).
  apply wlp_bind. rewrite <- Em1. rewrite <- Em1 in Hfit, Hsane.
  pose proof (deliver_hands h q1 slotp size w1 Hq1 Hfit) as Ed. pose proof (deliver_touched h q1 slotp w1 Hq1 ltac:(by rewrite Esz)) as Ht.
  unfold wlp at 1. unfold wlp in Ht. rewrite Ed in Ht |- *.
  destruct (hand_over q1 (mem_read (w_mem w1) slotp size) w1) as [[[] w2]|] eqn:Eh; [|done].
  assert (Hq2 : e_peers (w_ep w2) !! h = Some q1) by (destruct Ht as (E & _); unfold ring_part in E; congruence).
  apply wlp_bind, wlp_of_wp. eapply wp_mono; [apply (books_upd h q1); [done|]|].
  { exists (pe_tx_tail q1), (u64 (pe_rx_head q1 + 1)), (pe_rx_credit_sent q1). by destruct q1. }
  cbn beta. intros _ w3 (Hb3 & Hq3 & _). apply wlp_bind, wlp_of_wp. eapply wp_peer_deref; [exact Hq3|].
  assert (Eh1' : pe_rx_head q1 = pe_rx_head q) by (rewrite Hq1 in Eh1; by injection Eh1).
  assert (Hfin : forall w4, books h w3 w4 -> pe_rx_head <$> e_peers (w_ep w4) !! h = Some (u64 (pe_rx_head q1 + 1)) ->
    handed h (mem_read (w_mem w1) slotp size) w w4).
  { intros w4 Hb4 E4. destruct (e_peers (w_ep w4) !! h) as [q4|] eqn:E; [|done]. injection E4 as E4.
    exists q, w1, w2, q4. split_and!; [done..| |by eapply books_trans|done|congruence]. unfold hand_over in *. by rewrite <- Esa, <- Ead. }
  destruct (_ >=? _).
  - apply wlp_of_wp. eapply wp_mono; [by apply (books_credit h (q1 <| pe_rx_head ::= fun n => u64 (n + 1) |>))|]. cbn beta.
    intros _ w4 [Hb4 E4]. by apply Hfin.
  - apply wlp_ret. apply Hfin; [by eapply books_refl|]. by rewrite Hq3.
Qed.
End RingHand.
