(* ===== verification/RingEnd.v ===== *)
(** * The eager ring, end to end

    Two endpoints joined by a ring and the network between them: the sender
    runs [rds_ring_send], the receiver the rounds of [rds_ring_poll_peer],
    and the network carries out the RDMA requests the code hands to the
    socket, in any order, each in ascending address order with the
    generation word last.  Every step of this system is a step of the
    protocol of [RingLink]. *)

From S2P Require Import Prelude Iov Wire Config Kernel Cq Av MrCache MrCacheInv State Mr MrInv Pending.
From S2P Require Import Ring Msg RingRx RingLink Pres Footprint Frame Inv Rules Safety SafetyRing RingPoll RingSend RingHand.

Lemma field_take o n k bs : (o + n <= k)%nat -> field o n (take k bs) = field o n bs.
Proof. intros H. unfold field. rewrite !take_drop_commute, take_take. by rewrite Nat.min_l by lia. Qed.

Lemma hdr_take bs : rds_hdr_of_bytes (take 40 bs) = rds_hdr_of_bytes bs.
Proof. unfold rds_hdr_of_bytes. by rewrite !field_take by lia. Qed.

Section RingEnd.
Context {K : Type} `{!Kernel K} (N size hs hr : Z).
Implicit Types w : world K.

(** ** The system *)

(** The bytes of slot [i] in the sender's staging area and in the receiver's
    ring, and the receiver's credit word. *)
Definition stage_of w (p : rds_peer) (i : Z) : list Z := mem_read (w_mem w) (pe_tx_stage p + i * size) size.
Definition ring_of w (q : rds_peer) (i : Z) : list Z := mem_read (w_mem w) (pe_rx_ring q + i * size) size.
Definition credit_of w (q : rds_peer) : Z := le_dec (mem_read (w_mem w) (pe_credit_tx_addr q) 8).

(** The receiving end of the ring: no receive buffer of the application and
    no credit word lies in the ring. *)
Record rx_peer w (q : rds_peer) : Prop := {
  xp_state : pe_state q = RDS_PEER_READY;
  xp_geo : e_ring_slots (w_ep w) = N /\ e_ring_slot_size (w_ep w) = size;
  xp_ring : forall x, pe_rx_ring q <= x < pe_rx_ring q + N * size -> (x ∉ rx_addrs w) /\ ~ in_cell (w_ep w) x;
  xp_cell : forall x, pe_credit_tx_addr q <= x < pe_credit_tx_addr q + 8 -> x ∉ rx_addrs w }.

(** Both ends, the requests under way with the bytes landed, the credit
    carried by slots of the other direction, and the slots the sender has
    posted so far. *)
Record ringsys := mkSys {
  rs_tx : world K; rs_rx : world K; rs_flight : list (rds_rdma_args * Z); rs_acks : list Z;
  rs_sent : list (list Z) }.

#[export] Instance ringsys_eta : Settable ringsys := fun s =>
  mkSys (rs_tx s) (rs_rx s) (rs_flight s) (rs_acks s) (rs_sent s).

(** What travels in a slot: an eager message, or a descriptor or FIN with
    its header. *)
Definition payload_sane (op : Z) (src : ring_src) : Prop :=
  op = RDS_OP_EAGER \/
  exists bs, src = SrcBytes bs /\ RDS_HDR_SIZE <= Z.of_nat (length bs) /\ ring_msg (rds_hdr_of_bytes bs) /\
    0 <= h_seg_cnt (rds_hdr_of_bytes bs) < 2 ^ 16.

Record send_pre w (p : rds_peer) (src : ring_src) (dest op : Z) : Prop := {
  sp_peer : e_peers (w_ep w) !! hs = Some p;
  sp_dest : chain_find (e_peers (w_ep w)) (bucket (w_ep w) (rds_peer_hash dest)) dest = Some (Some hs);
  sp_src : src_ok src /\ 0 <= op < 2 ^ 8 /\ payload_sane op src;
  sp_count : pe_tx_head p + 1 < 2 ^ 64 }.

(** The last request handed to the socket. *)
Definition last_req w : option rds_rdma_args := last (w_log w) ≫= sn_rdma.

(** Bytes [j] to [j'] of the local buffer [v] of a request land. *)
Definition rdma_land (a : rds_rdma_args) (v : iovec) (q : rds_peer) (j j' : Z) (s : ringsys) : world K :=
  (rs_rx s) <| w_mem ::= fun m => mem_write m (pe_rx_ring q + ra_remote_addr a + j)
                                   (mem_read (w_mem (rs_tx s)) (iov_base v + j) (j' - j)) |>.

(** What the rest of an endpoint may do to its end of the ring: nothing. *)
Definition tx_part (p : rds_peer) :=
  (pe_state p, pe_rem_slots p, pe_rem_slot_size p, pe_tx_head p, pe_tx_tail p, pe_tx_stage p, pe_credit_cell p).
Definition tx_frame w w' : Prop :=
  exists p p', e_peers (w_ep w) !! hs = Some p /\ e_peers (w_ep w') !! hs = Some p' /\ tx_part p' = tx_part p /\
    tx_geo (w_ep w') = tx_geo (w_ep w) /\
    (forall x, pe_tx_stage p <= x < pe_tx_stage p + N * size \/ pe_credit_cell p <= x < pe_credit_cell p + 8 -> w_mem w' x = w_mem w x).
Definition rx_frame w w' : Prop :=
  exists q q', e_peers (w_ep w) !! hr = Some q /\ e_peers (w_ep w') !! hr = Some q' /\
    (static q', pe_rx_head q') = (static q, pe_rx_head q) /\ rx_peer w' q' /\
    (forall x, pe_rx_ring q <= x < pe_rx_ring q + N * size \/ pe_credit_tx_addr q <= x < pe_credit_tx_addr q + 8 -> w_mem w' x = w_mem w x).

Inductive sys_step : ringsys -> ringsys -> Prop :=
| sys_refused s p src dest tag data context flags tagged gen op r tx' :
    send_pre (rs_tx s) p src dest op -> r <> 0 ->
    rds_ring_send src dest tag data context flags tagged gen op (rs_tx s) = Some (r, tx') ->
    sys_step s (s <| rs_tx := tx' |>)
| sys_send s p src dest tag data context flags tagged gen op tx' a v :
    send_pre (rs_tx s) p src dest op ->
    rds_ring_send src dest tag data context flags tagged gen op (rs_tx s) = Some (0, tx') ->
    last_req tx' = Some a -> ra_local a = [v] ->
    sys_step s (s <| rs_tx := tx' |> <| rs_flight ::= cons (a, 0) |>
                  <| rs_sent ::= fun l => l ++ [mem_read (w_mem tx') (iov_base v) (iov_len v)] |>)
| sys_land s q f1 a j f2 v j' :
    e_peers (w_ep (rs_rx s)) !! hr = Some q -> rs_flight s = f1 ++ (a, j) :: f2 -> ra_local a = [v] ->
    j <= j' <= iov_len v - RDS_RING_GEN_SIZE ->
    sys_step s (s <| rs_rx := rdma_land a v q j j' s |> <| rs_flight := f1 ++ (a, j') :: f2 |>)
| sys_arrive s q f1 a j f2 v :
    e_peers (w_ep (rs_rx s)) !! hr = Some q -> rs_flight s = f1 ++ (a, j) :: f2 -> ra_local a = [v] ->
    sys_step s (s <| rs_rx := rdma_land a v q j (iov_len v) s |> <| rs_flight := f1 ++ f2 |>)
| sys_poll s q rx' :
    e_peers (w_ep (rs_rx s)) !! hr = Some q ->
    let slotp := slot_addr (w_ep (rs_rx s)) q (u32 (pe_rx_head q mod e_ring_slots (w_ep (rs_rx s)))) in
    gen_at (w_ep (rs_rx s)) (w_mem (rs_rx s)) q (pe_rx_head q) = ring_want (e_ring_slots (w_ep (rs_rx s))) (pe_rx_head q) ->
    poll_slot hr q slotp (e_ring_slots (w_ep (rs_rx s))) (rs_rx s) = Some (tt, rx') ->
    sys_step s (s <| rs_rx := rx' |>)
| sys_credit s rx' :
    rds_ring_return_credit hr (rs_rx s) = Some (tt, rx') -> sys_step s (s <| rs_rx := rx' |>)
| sys_credit_land s p q :
    e_peers (w_ep (rs_tx s)) !! hs = Some p -> e_peers (w_ep (rs_rx s)) !! hr = Some q ->
    sys_step s (s <| rs_tx ::= fun w => w <| w_mem ::= fun m =>
      mem_write m (pe_credit_cell p) (mem_read (w_mem (rs_rx s)) (pe_credit_tx_addr q) 8) |> |>)
| sys_piggyback s q :
    e_peers (w_ep (rs_rx s)) !! hr = Some q -> sys_step s (s <| rs_acks ::= cons (pe_rx_head q) |>)
| sys_absorb s v :
    v ∈ rs_acks s ->
    sys_step s (s <| rs_tx ::= fun w => w <| w_ep ::= fun e => e <| e_peers ::=
      alter (fun p => if v >? pe_tx_tail p then p <| pe_tx_tail := v |> else p) hs |> |> |>)
| sys_tx s tx' : tx_frame (rs_tx s) tx' -> sys_step s (s <| rs_tx := tx' |>)
| sys_rx s rx' : rx_frame (rs_rx s) rx' -> sys_step s (s <| rs_rx := rx' |>).

(** Two endpoints that have just connected. *)
Record sys_init (s : ringsys) : Prop := {
  si_tx : exists p, e_peers (w_ep (rs_tx s)) !! hs = Some p /\ tx_peer N size (rs_tx s) p /\
    pe_tx_head p = 0 /\ pe_tx_tail p = 0 /\ cell_of (rs_tx s) p = 0;
  si_rx : exists q, e_peers (w_ep (rs_rx s)) !! hr = Some q /\ rx_peer (rs_rx s) q /\ pe_rx_head q = 0 /\
    credit_of (rs_rx s) q = 0 /\ forall i, 0 <= i < N -> ring_of (rs_rx s) q i = replicate (Z.to_nat size) 0;
  si_net : rs_flight s = [] /\ rs_acks s = [] /\ rs_sent s = [] }.

(** A run of the system: the states after each of its steps. *)
Fixpoint run (s : ringsys) (tr : list ringsys) : Prop :=
  match tr with
  | [] => True
  | s1 :: tr' => sys_step s s1 /\ run s1 tr'
  end.

Fixpoint run_end (s : ringsys) (tr : list ringsys) : ringsys :=
  match tr with
  | [] => s
  | s1 :: tr' => run_end s1 tr'
  end.

(** The slots the receiver hands to its inbound handler over a run: at each
    step its read index stays, or one slot is handed over. *)
Inductive hands : ringsys -> list ringsys -> list (list Z) -> Prop :=
| hands_end s : hands s [] []
| hands_none s s1 tr ds :
    pe_rx_head <$> e_peers (w_ep (rs_rx s1)) !! hr = pe_rx_head <$> e_peers (w_ep (rs_rx s)) !! hr ->
    hands s1 tr ds -> hands s (s1 :: tr) ds
| hands_slot s bs s1 tr ds :
    handed hr bs (rs_rx s) (rs_rx s1) -> hands s1 tr ds -> hands s (s1 :: tr) (bs :: ds).

(** ** The protocol state of a system *)

(** A slot the receiver can handle. *)
Definition slot_bytes_sane (bs : list Z) : Prop :=
  let s := rds_ring_slot_of_bytes (take 32 bs) in
  let hdr := rds_hdr_of_bytes (take 40 (drop 32 bs)) in
  slot_fits size bs /\ (sl_op s = RDS_OP_EAGER \/ sl_len s < RDS_HDR_SIZE \/
  RDS_RING_HDR_SIZE + RDS_HDR_SIZE <= size /\ ring_msg hdr /\ 0 <= h_seg_cnt hdr < 2 ^ 16).

Record rep (s : ringsys) (l : link) (p q : rds_peer) : Prop := {
  rp_tx : e_peers (w_ep (rs_tx s)) !! hs = Some p;
  rp_txp : tx_peer N size (rs_tx s) p;
  rp_rx : e_peers (w_ep (rs_rx s)) !! hr = Some q;
  rp_rxp : rx_peer (rs_rx s) q;
  rp_count : lk_head l = pe_tx_head p /\ lk_tail l = pe_tx_tail p /\ lk_rx_head l = pe_rx_head q;
  rp_credit : lk_cell l = cell_of (rs_tx s) p /\ lk_credit l = credit_of (rs_rx s) q;
  rp_stage : forall i, 0 <= i < N -> lk_stage l i = stage_of (rs_tx s) p i;
  rp_ring : forall i, 0 <= i < N -> lk_ring l i = ring_of (rs_rx s) q i;
  rp_flight : Forall2 (fun a k => slot_req N size p k.1 a.1 /\ a.2 = k.2) (rs_flight s) (lk_flight l);
  rp_hist : lk_acks l = rs_acks s /\ lk_sent l = rs_sent s;
  rp_sane : Forall slot_bytes_sane (rs_sent s);
  rp_bound : pe_tx_head p < 2 ^ 64 }.

Hypothesis HN : 0 < N < 2 ^ 31.
Hypothesis Hsize : RDS_RING_HDR_SIZE + RDS_RING_GEN_SIZE <= size < 2 ^ 32.

Lemma size_pos : 36 <= size.
Proof. unfold RDS_RING_HDR_SIZE, RDS_RING_GEN_SIZE in Hsize. lia. Qed.

(** Slots do not overlap and lie in their area. *)
Lemma slot_apart i j : i <> j -> i * size + size <= j * size \/ j * size + size <= i * size.
Proof. pose proof size_pos. intros. assert (i < j \/ j < i) as [?|?] by lia; [left|right]; nia. Qed.
Lemma slot_inside i : 0 <= i < N -> 0 <= i * size /\ i * size + size <= N * size.
Proof. pose proof size_pos. nia. Qed.

Lemma mod_slot k : 0 <= k mod N < N.
Proof. apply Z.mod_pos_bound. lia. Qed.

Lemma slot_sane_mem m a : slot_bytes_sane (mem_read m a size) -> slot_sane size m a.
Proof.
  pose proof size_pos. unfold slot_bytes_sane, slot_sane, rds_slot_payload, RDS_RING_HDR_SIZE, RDS_HDR_SIZE. cbn zeta.
  change 40%nat with (Z.to_nat 40). change 32%nat with (Z.to_nat 32). rewrite mem_read_take, mem_read_drop, mem_read_take, Z.min_l by lia.
  intros [_ [?|[?|(? & ? & ?)]]]; auto. right. right. by rewrite Z.min_l in * by lia.
Qed.

(** Fields of a slot header survive whatever the reserved bytes are. *)
Lemma slot_op_roundtrip s : 0 <= sl_op s < 2 ^ 8 -> sl_op (rds_ring_slot_of_bytes (rds_ring_slot_bytes s)) = sl_op s.
Proof. intros H. unfold rds_ring_slot_bytes, rds_ring_slot_of_bytes. cbn [sl_op]. solve_field. Qed.

Lemma slot_len_roundtrip s : 0 <= sl_len s < 2 ^ 32 -> sl_len (rds_ring_slot_of_bytes (rds_ring_slot_bytes s)) = sl_len s.
Proof. intros H. unfold rds_ring_slot_bytes, rds_ring_slot_of_bytes. cbn [sl_len]. solve_field. Qed.

(** A staged slot is one the receiver can handle. *)
Lemma staged_sane a s payload gen m m' src m1 :
  staged a size s payload gen m m' -> payload = ring_src_bytes src (ring_src_len src) m1 ->
  0 <= sl_op s < 2 ^ 8 -> payload_sane (sl_op s) src -> RDS_RING_HDR_SIZE + Z.of_nat (length payload) + RDS_RING_GEN_SIZE <= size ->
  sl_len s = Z.of_nat (length payload) ->
  slot_bytes_sane (mem_read m' a size).
Proof.
  pose proof size_pos. unfold slot_bytes_sane, slot_fits, RDS_RING_HDR_SIZE, RDS_RING_GEN_SIZE, RDS_HDR_SIZE in *. intros [_ Hh Hp _] Epl Hop Hsane Hfit Hlen. cbn zeta.
  unfold rds_slot_payload, RDS_RING_HDR_SIZE in Hh, Hp. change 40%nat with (Z.to_nat 40). change 32%nat with (Z.to_nat 32).
  rewrite mem_read_take, mem_read_drop, mem_read_take, Z.min_l by lia. rewrite Hh, slot_op_roundtrip, slot_len_roundtrip by lia.
  split; [lia|].
  destruct Hsane as [?|(bs & -> & Hl & Hm & Hc)]; [by left|]. cbn in Epl. subst payload. unfold RDS_HDR_SIZE in Hl. right. right.
  rewrite Z.min_l by lia. replace (mem_read m' (a + 32) 40) with (take 40 bs).
  - rewrite hdr_take. split_and!; lia || done.
  - change 40%nat with (Z.to_nat 40). rewrite <- Hp at 1. rewrite mem_read_take. by rewrite Z.min_l by lia.
Qed.

(** ** The sender *)

(** The staging area after slot [k] was laid out. *)
Lemma stage_after p k s payload gen w w' i :
  staged (pe_tx_stage p + k mod N * size) size s payload gen (w_mem w) (w_mem w') -> 0 <= i < N ->
  slot_set (k mod N) (stage_of w' p (k mod N)) (stage_of w p) i = stage_of w' p i.
Proof.
  intros Hst Hi. destruct (decide (i = k mod N)) as [->|Hne]; [by rewrite slot_set_eq|]. rewrite slot_set_ne by done.
  unfold stage_of. symmetry. apply mem_read_agree. intros x Hx. apply (sg_frame _ _ _ _ _ _ _ Hst).
  pose proof (slot_apart i (k mod N) Hne). lia.
Qed.

Lemma cell_after p k s payload gen w w' p' :
  staged (pe_tx_stage p + k mod N * size) size s payload gen (w_mem w) (w_mem w') -> tx_peer N size w p ->
  pe_credit_cell p' = pe_credit_cell p -> cell_of w' p' = cell_of w p.
Proof.
  intros Hst Htx E. unfold cell_of. rewrite E. f_equal. apply mem_read_agree. intros x Hx. apply (sg_frame _ _ _ _ _ _ _ Hst).
  pose proof (slot_inside _ (mod_slot k)). destruct (tp_cell _ _ _ _ Htx); lia.
Qed.

Lemma tx_peer_upd w w' p p' :
  tx_peer N size w p -> tx_geo (w_ep w') = tx_geo (w_ep w) -> pe_state p' = pe_state p -> pe_rem_slots p' = pe_rem_slots p ->
  pe_rem_slot_size p' = pe_rem_slot_size p -> pe_tx_stage p' = pe_tx_stage p -> pe_credit_cell p' = pe_credit_cell p -> tx_peer N size w' p'.
Proof. intros [H1 H2 H3 H4] E1 E2 E3 E4 E5 E6. split; congruence. Qed.
(** The receiver's half of the protocol state. *)
Definition rx_half (l : link) := (lk_rx_head l, lk_ring l, lk_credit l, lk_acks l).

Lemma rep_tx_gen s l p q tx' l' p' fl se :
  rep s l p q -> e_peers (w_ep tx') !! hs = Some p' -> tx_peer N size tx' p' ->
  lk_head l' = pe_tx_head p' /\ lk_tail l' = pe_tx_tail p' -> lk_cell l' = cell_of tx' p' ->
  (forall i, 0 <= i < N -> lk_stage l' i = stage_of tx' p' i) ->
  Forall2 (fun a k => slot_req N size p' k.1 a.1 /\ a.2 = k.2) fl (lk_flight l') -> lk_sent l' = se -> Forall slot_bytes_sane se ->
  rx_half l' = rx_half l -> pe_tx_head p' < 2 ^ 64 ->
  rep (s <| rs_tx := tx' |> <| rs_flight := fl |> <| rs_sent := se |>) l' p' q.
Proof.
  intros [H1 H2 H3 H4 (Hc1 & Hc2 & Hc3) [Hd1 Hd2] H7 H8 H9 (Hh1 & Hh2) H11 H12] E1 E2 [E4 E4'] E5 E6 E7 E8 E8' E9 E10.
  unfold rx_half in E9. injection E9 as F1 F2 F3 F4. split; cbn; try done; try congruence.
  - split_and!; congruence.
  - split; congruence.
  - intros i Hi. rewrite F2. by apply H8.
  - split_and!; congruence.
Qed.

Lemma slot_req_same p p' k a : pe_tx_stage p' = pe_tx_stage p -> slot_req N size p k a -> slot_req N size p' k a.
Proof. intros E [H1 H2]. split; congruence. Qed.

Lemma flight_same p p' fl (lf : list (Z * Z)) : pe_tx_stage p' = pe_tx_stage p ->
  Forall2 (fun a k => slot_req N size p k.1 a.1 /\ a.2 = k.2) fl lf -> Forall2 (fun a k => slot_req N size p' k.1 a.1 /\ a.2 = k.2) fl lf.
Proof. intros E H. eapply Forall2_impl; [exact H|]. intros a k [? ?]. split; [by eapply slot_req_same|done]. Qed.

Lemma rep_tx s l p q tx' l' p' :
  rep s l p q -> e_peers (w_ep tx') !! hs = Some p' -> tx_peer N size tx' p' -> pe_tx_stage p' = pe_tx_stage p ->
  lk_head l' = pe_tx_head p' /\ lk_tail l' = pe_tx_tail p' -> lk_cell l' = cell_of tx' p' ->
  (forall i, 0 <= i < N -> lk_stage l' i = stage_of tx' p' i) ->
  lk_flight l' = lk_flight l -> lk_sent l' = lk_sent l -> rx_half l' = rx_half l -> pe_tx_head p' < 2 ^ 64 ->
  rep (s <| rs_tx := tx' |>) l' p' q.
Proof.
  intros Hr E1 E2 E3 E4 E5 E6 E7 E8 E9 E10.
  enough (rep (s <| rs_tx := tx' |> <| rs_flight := rs_flight s |> <| rs_sent := rs_sent s |>) l' p' q) by (by destruct s).
  eapply rep_tx_gen; try done.
  - rewrite E7. eapply flight_same; [exact E3|exact (rp_flight _ _ _ _ Hr)].
  - rewrite E8. apply (rp_hist _ _ _ _ Hr).
  - apply Hr.
Qed.

Lemma rep_bounds s l p q : link_ok N size l -> rep s l p q ->
  0 <= pe_tx_tail p <= pe_rx_head q /\ pe_rx_head q <= pe_tx_head p <= pe_tx_tail p + N /\ cell_of (rs_tx s) p <= pe_rx_head q.
Proof.
  intros [Ho (Hc & _) _ _ _ _ _ _ _ _] [_ _ _ _ (E1 & E2 & E3) [E4 _] _ _ _ _ _ _]. rewrite <- E1, <- E2, <- E3, <- E4. lia.
Qed.

Lemma ring_want_range k : 0 <= ring_want N k < 2 ^ 32.
Proof. unfold ring_want, u32. apply Z.mod_pos_bound. done. Qed.

(** The generation of a slot just staged. *)
Lemma staged_gen p k s payload w w' :
  staged (pe_tx_stage p + k mod N * size) size s payload (ring_want N k) (w_mem w) (w_mem w') ->
  slot_gen size (stage_of w' p (k mod N)) = ring_want N k.
Proof.
  intros Hst. unfold stage_of. rewrite slot_gen_read by (pose proof size_pos; unfold RDS_RING_GEN_SIZE; lia).
  rewrite (sg_gen _ _ _ _ _ _ _ Hst). apply le_dec_enc_small. apply (ring_want_range k).
Qed.

Lemma stage_length w p i : Z.of_nat (length (stage_of w p i)) = size.
Proof. unfold stage_of. rewrite mem_read_length. pose proof size_pos. lia. Qed.

(** A send is a refresh of the credit, then perhaps a staged slot, then
    perhaps a posted write. *)
Lemma sim_send s l p q src dest tag data context flags tagged gen op r tx' :
  link_ok N size l -> rep s l p q -> send_pre (rs_tx s) p src dest op ->
  rds_ring_send src dest tag data context flags tagged gen op (rs_tx s) = Some (r, tx') ->
  exists l' p', rtc (link_step N size) l l' /\
    if r =? 0 then exists a, last_req tx' = Some a /\ ra_local a = [mkIov (pe_tx_stage p + pe_tx_head p mod N * size) size] /\
      rep (s <| rs_tx := tx' |> <| rs_flight := (a, 0) :: rs_flight s |> <| rs_sent := rs_sent s ++ [stage_of tx' p (pe_tx_head p mod N)] |>) l' p' q
    else rep (s <| rs_tx := tx' |>) l' p' q.
Proof.
  intros Hl Hr [Hp Hd (Hsrc & Hop & Hsane) Hcnt] Erun. pose proof (rep_bounds _ _ _ _ Hl Hr) as (B1 & B2 & B3).
  pose proof (rp_txp _ _ _ _ Hr) as Htx. destruct (rp_count _ _ _ _ Hr) as (C1 & C2 & C3). destruct (rp_credit _ _ _ _ Hr) as [C4 _].
  pose proof (ring_send_effect N size hs p src dest tag data context flags tagged gen op (rs_tx s) HN Hsize Htx Hp ltac:(lia) Hcnt ltac:(lia) Hsrc Hd) as He.
  unfold wlp in He. rewrite Erun in He. destruct He as [[Hne ->]|(Hfit & Eg & head' & Ep & Hor)].
  { exists l, p. split; [apply rtc_refl|]. rewrite (proj2 (Z.eqb_neq r 0)) by done. by destruct s. }
  set (tail := Z.max _ _) in *. set (p' := p <| pe_tx_tail := tail |> <| pe_tx_head := head' |>) in *.
  assert (Hp' : e_peers (w_ep tx') !! hs = Some p') by (rewrite Ep; apply lookup_insert_eq).
  assert (Htx' : tx_peer N size tx' p') by (by eapply tx_peer_upd; [exact Htx|..]).
  set (l1 := l <| lk_tail ::= Z.max (lk_cell l) |>). assert (H1 : link_step N size l l1) by constructor.
  assert (T1 : lk_tail l1 = tail) by (unfold l1, tail; cbn; by rewrite C2, C4).
  destruct Hor as [(Hne & Hfull & Eh & Em)|(Hroom & (resv & m1 & payload & Epl & _ & Hst) & Hif)].
  { exists l1, p'. split; [by apply rtc_once|]. rewrite (proj2 (Z.eqb_neq r 0)) by done. apply (rep_tx s l p q); try done.
    - unfold p'. cbn. by rewrite Eh.
    - cbn. unfold cell_of. rewrite Em. exact C4.
    - intros i Hi. cbn. rewrite (rp_stage _ _ _ _ Hr) by done. unfold stage_of. by rewrite Em.
    - unfold p'. cbn. lia. }
  set (bs := stage_of tx' p (pe_tx_head p mod N)). set (l2 := l1 <| lk_stage ::= slot_set (lk_head l1 mod N) bs |>).
  assert (Hd1 : lk_head l1 = pe_tx_head p) by exact C1.
  assert (H2 : link_step N size l1 l2) by (apply link_stage; [lia|apply stage_length]).
  assert (Hcell : cell_of tx' p' = lk_cell l) by (rewrite C4; by eapply cell_after).
  assert (Hstage : forall i, 0 <= i < N -> lk_stage l2 i = stage_of tx' p' i).
  { intros i Hi. unfold l2. cbn. rewrite C1. change (stage_of tx' p' i) with (stage_of tx' p i). erewrite <- stage_after by done.
    unfold slot_set. destruct (i =? _); [done|]. by apply (rp_stage _ _ _ _ Hr). }
  assert (Hsn : slot_bytes_sane bs).
  { eapply staged_sane; [exact Hst|exact Epl|done|done|..]; rewrite Epl, ring_src_length by done; [lia|].
    pose proof (ring_src_length src m1 Hsrc). unfold RDS_RING_HDR_SIZE, RDS_RING_GEN_SIZE in *. cbn. rewrite u32_small; lia. }
  destruct (Z.eqb_spec r 0) as [->|Hne].
  - cbn in Hif. destruct Hif as (Eh & sn & a & Elog & Ea & Hreq).
    set (l3 := l2 <| lk_head := lk_head l2 + 1 |> <| lk_flight ::= cons (lk_head l2, 0) |> <| lk_sent ::= fun h => h ++ [lk_stage l2 (lk_head l2 mod N)] |>).
    assert (Hst2 : lk_stage l2 (lk_head l2 mod N) = bs) by (unfold l2; cbn; by rewrite slot_set_eq).
    assert (H3 : link_step N size l2 l3).
    { apply link_post; [change (lk_head l1 - lk_tail l1 < N); lia|]. rewrite Hst2. change (lk_head l2) with (lk_head l). rewrite C1. by eapply staged_gen. }
    exists l3, p'. split; [by repeat (eapply rtc_l; [eassumption|]); apply rtc_refl|]. exists a. split_and!.
    + unfold last_req. by rewrite Elog, last_snoc.
    + apply Hreq.
    + eapply (rep_tx_gen s l p q); try done.
      * unfold p'. cbn. split; [lia|exact T1].
      * apply Forall2_cons. split; [|by eapply flight_same; [|exact (rp_flight _ _ _ _ Hr)]]. split; [|done]. cbn. rewrite C1. by eapply slot_req_same.
      * cbn. rewrite slot_set_eq. f_equal. apply (rp_hist _ _ _ _ Hr).
      * apply Forall_app. split; [apply Hr|]. by apply Forall_singleton.
      * unfold p'. cbn. lia.
  - exists l2, p'. split; [by repeat (eapply rtc_l; [eassumption|]); apply rtc_refl|].
    apply (rep_tx s l p q); try done; [unfold p'; cbn; split; [lia|exact T1]|unfold p'; cbn; lia].
Qed.
(** ** The network *)

Definition tx_half (l : link) := (lk_head l, lk_tail l, lk_stage l, lk_cell l, lk_acks l, lk_sent l).

Lemma rep_rx s l p q rx' l' q' fl :
  rep s l p q -> e_peers (w_ep rx') !! hr = Some q' -> rx_peer rx' q' -> lk_rx_head l' = pe_rx_head q' ->
  lk_credit l' = credit_of rx' q' -> (forall i, 0 <= i < N -> lk_ring l' i = ring_of rx' q' i) ->
  Forall2 (fun a k => slot_req N size p k.1 a.1 /\ a.2 = k.2) fl (lk_flight l') -> tx_half l' = tx_half l ->
  rep (s <| rs_rx := rx' |> <| rs_flight := fl |>) l' p q'.
Proof.
  intros [H1 H2 H3 H4 (Hc1 & Hc2 & Hc3) [Hd1 Hd2] H7 H8 H9 (Hh1 & Hh2) H11 H12] E1 E2 E3 E4 E5 E6 E8.
  unfold tx_half in E8. injection E8 as F1 F2 F3 F4 F5 F6. split; cbn; try done; try congruence.
  - split_and!; congruence.
  - split; congruence.
  - intros i Hi. rewrite F3. by apply H7.
  - split_and!; congruence.
Qed.

(** Bytes [j] to [j'] of a staged slot in the ring. *)
Lemma land_read (m mt : mem) ring st i k j j' :
  0 <= j <= j' -> j' <= size ->
  mem_read (mem_write m (ring + k * size + j) (mem_read mt (st + j) (j' - j))) (ring + i * size) size =
  slot_set k (land j j' (mem_read mt st size) (mem_read m (ring + k * size) size)) (fun i => mem_read m (ring + i * size) size) i.
Proof.
  intros Hj Hj'. destruct (decide (i = k)) as [->|Hne].
  - rewrite slot_set_eq. rewrite mem_read_write_in by (rewrite ?mem_read_length; lia). unfold land. do 2 f_equal.
    + replace (Z.to_nat j' - Z.to_nat j)%nat with (Z.to_nat (j' - j)) by lia. rewrite mem_read_drop, mem_read_take by lia. f_equal. lia.
    + rewrite mem_read_length. f_equal. lia.
  - rewrite slot_set_ne by done. apply mem_read_write_disjoint. rewrite mem_read_length. pose proof (slot_apart i k Hne). lia.
Qed.

Lemma rx_peer_mem w m' q : rx_peer w q -> rx_peer (w <| w_mem := m' |>) q.
Proof. intros [H1 H2 H3 H4]. by split. Qed.

(** Landing leaves the credit word alone. *)
Lemma land_credit w q k j j' bs :
  rx_peer w q -> e_peers (w_ep w) !! hr = Some q -> 0 <= k < N -> 0 <= j <= j' -> j' <= size -> Z.of_nat (length bs) = j' - j ->
  credit_of (w <| w_mem ::= fun m => mem_write m (pe_rx_ring q + k * size + j) bs |>) q = credit_of w q.
Proof.
  intros Hrx Hq Hk Hj Hj' Hl. unfold credit_of. f_equal. apply mem_read_agree. intros x Hx. apply mem_write_out. intros Hin.
  pose proof (slot_inside k Hk). apply (proj2 (xp_ring _ _ Hrx x ltac:(lia))). by exists hr, q.
Qed.

Lemma sim_land s l p q f1 a j f2 v j' :
  link_ok N size l -> rep s l p q -> rs_flight s = f1 ++ (a, j) :: f2 -> ra_local a = [v] -> j <= j' <= iov_len v \/ j' = iov_len v ->
  exists g1 k g2, lk_flight l = g1 ++ (k, j) :: g2 /\ iov_len v = size /\ forall l' fl,
    l' = l <| lk_ring ::= slot_set (k mod N) (land j j' (lk_stage l (k mod N)) (lk_ring l (k mod N))) |> <| lk_flight := fl |> ->
    (forall fs, Forall2 (fun a k => slot_req N size p k.1 a.1 /\ a.2 = k.2) fs fl ->
      rep (s <| rs_rx := rdma_land a v q j j' s |> <| rs_flight := fs |>) l' p q) /\
    Forall2 (fun a k => slot_req N size p k.1 a.1 /\ a.2 = k.2) (f1 ++ f2) (g1 ++ g2) /\
    Forall2 (fun a k => slot_req N size p k.1 a.1 /\ a.2 = k.2) (f1 ++ (a, j') :: f2) (g1 ++ (k, j') :: g2).
Proof.
  intros Hl Hr Ef Ev Hj'. pose proof (rp_flight _ _ _ _ Hr) as Hfl. rewrite Ef in Hfl.
  apply Forall2_app_inv_l in Hfl as (g1 & g2' & Hg1 & Hg2' & Eg). apply Forall2_cons_inv_l in Hg2' as ([k jk] & g2 & [Hreq Ej] & Hg2 & ->).
  cbn in Hreq, Ej. subst jk. pose proof Hreq as [Hra Hla]. rewrite Hla in Ev. injection Ev as <-. cbn [iov_len iov_base] in *.
  exists g1, k, g2. split_and!; [done|done|]. intros l' fl ->.
  destruct (lo_flight _ _ _ Hl k j) as (Hk & Hj & _); [rewrite Eg; set_solver|]. pose proof (rp_rxp _ _ _ _ Hr) as Hrx.
  assert (j <= j' <= size) by (unfold RDS_RING_GEN_SIZE in Hj; lia). clear Hj'.
  split_and!; [|by apply Forall2_app|by apply Forall2_app; [|apply Forall2_cons]].
  intros fs Hfs. eapply (rep_rx s l p q); try done.
  - apply Hr.
  - by apply rx_peer_mem.
  - apply Hr.
  - etrans; [apply (rp_credit _ _ _ _ Hr)|]. symmetry. unfold rdma_land. rewrite Hra.
    apply (land_credit _ _ _ _ j'); [done|apply Hr|apply mod_slot|lia|lia|rewrite mem_read_length; lia].
  - intros i Hi. cbn. unfold ring_of, rdma_land. cbn. rewrite Hra, land_read by lia.
    rewrite (rp_stage _ _ _ _ Hr), (rp_ring _ _ _ _ Hr) by apply mod_slot. unfold slot_set. destruct (i =? _); [done|]. by apply (rp_ring _ _ _ _ Hr).
Qed.
(** ** The receiver *)

Lemma moved_rx_peer w w' q head :
  rx_peer w q -> e_peers (w_ep w) !! hr = Some q -> ring_moved hr q head w w' ->
  exists q', e_peers (w_ep w') !! hr = Some q' /\ rx_peer w' q' /\ static q' = static q /\ pe_rx_head q' = head.
Proof.
  intros [H1 [H2 H3] H4 H5] Hq (Eg & Hrx & Ho & q' & Hq' & Es & Eh). exists q'. unfold static in Es. injection Es as E1 E2 E3.
  unfold geo in Eg. injection Eg as G1 G2 G3 G4. split_and!; try done; [|unfold static; congruence]. split.
  - congruence.
  - by rewrite G1, G2.
  - rewrite E1. intros x Hx. destruct (H4 x Hx) as [Hn Hc]. split; [auto|]. intros (h & r & Hr & Hxr). apply Hc.
    destruct (decide (h = hr)) as [->|Hne]; [exists hr, q; split; [done|]; by simplify_eq; rewrite <- E3|exists h, r; by rewrite <- Ho].
  - rewrite E3. intros x Hx Hin. by apply (H5 x Hx), Hrx.
Qed.

(** The ring and the credit word after a part of the poll. *)
Lemma credited_ring w w' q q' v i :
  rx_peer w q -> e_peers (w_ep w) !! hr = Some q -> credited (pe_credit_tx_addr q) v w w' -> static q' = static q -> 0 <= i < N ->
  ring_of w' q' i = ring_of w q i.
Proof.
  intros Hrx Hq (m1 & Hm1 & Hor) Es Hi. unfold static in Es. injection Es as E1 E2 E3. unfold ring_of. rewrite E1. apply mem_read_agree.
  intros x Hx. pose proof (slot_inside i Hi). destruct (xp_ring _ _ Hrx x ltac:(lia)) as [Hn Hc]. destruct Hor as [->| ->]; [by apply Hm1|].
  rewrite mem_write_out; [by apply Hm1|]. rewrite le_enc_length. intros Hin. apply Hc. exists hr, q. split; [done|lia].
Qed.

Lemma credited_credit w w' q q' v :
  rx_peer w q -> credited (pe_credit_tx_addr q) v w w' -> static q' = static q -> 0 <= v < 2 ^ 64 ->
  credit_of w' q' = credit_of w q \/ credit_of w' q' = v.
Proof.
  intros Hrx (m1 & Hm1 & Hor) Es Hv. unfold static in Es. injection Es as E1 E2 E3. unfold credit_of. rewrite E3. destruct Hor as [->| ->]; [left|right].
  - f_equal. apply mem_read_agree. intros x Hx. apply Hm1, (xp_cell _ _ Hrx). lia.
  - change 8 with (Z.of_nat 8). rewrite <- (le_enc_length 8 v) at 2. rewrite mem_read_write_same. by apply le_dec_enc_small.
Qed.

(** From one receiver world to the next, with the read index at [head]. *)
Lemma rep_advanced s l p q rx' head l' :
  rep s l p q -> ring_advanced hr q head (rs_rx s) rx' -> 0 <= head < 2 ^ 64 ->
  lk_rx_head l' = head -> lk_ring l' = lk_ring l -> lk_credit l' = lk_credit l -> lk_flight l' = lk_flight l -> tx_half l' = tx_half l ->
  exists l'' q', rtc (link_step N size) l' l'' /\ pe_rx_head q' = head /\ rep (s <| rs_rx := rx' |>) l'' p q'.
Proof.
  intros Hr [Hm Hc] Hh E1 E2 E3 E4 E5. pose proof (rp_rxp _ _ _ _ Hr) as Hrx. pose proof (rp_rx _ _ _ _ Hr) as Hq.
  destruct (moved_rx_peer _ _ _ _ Hrx Hq Hm) as (q' & Hq' & Hrx' & Es & Eh).
  assert (Hring : forall i, 0 <= i < N -> lk_ring l' i = ring_of rx' q' i).
  { intros i Hi. rewrite E2, (rp_ring _ _ _ _ Hr) by done. symmetry. by eapply credited_ring. }
  assert (Hrep : forall l'', tx_half l'' = tx_half l' -> lk_rx_head l'' = lk_rx_head l' -> lk_ring l'' = lk_ring l' -> lk_flight l'' = lk_flight l' ->
    lk_credit l'' = credit_of rx' q' -> rep (s <| rs_rx := rx' |>) l'' p q').
  { intros l'' F1 F2 F3 F4 F6. enough (rep (s <| rs_rx := rx' |> <| rs_flight := rs_flight s |>) l'' p q') by (by destruct s).
    eapply (rep_rx s l p q); try done; try congruence.
    - by rewrite F3.
    - rewrite F4, E4. apply Hr. }
  destruct (rp_credit _ _ _ _ Hr) as [_ Ec]. destruct (credited_credit _ _ _ _ _ Hrx Hc Es Hh) as [E|E].
  - exists l', q'. split_and!; [apply rtc_refl|done|]. apply Hrep; congruence.
  - exists (l' <| lk_credit := lk_rx_head l' |>), q'. split_and!; [apply rtc_once, link_credit|done|]. apply Hrep; try done. cbn. congruence.
Qed.

Lemma poll_slotp s l p q : rep s l p q ->
  slot_addr (w_ep (rs_rx s)) q (u32 (pe_rx_head q mod e_ring_slots (w_ep (rs_rx s)))) = pe_rx_ring q + pe_rx_head q mod N * size.
Proof.
  intros Hr. destruct (xp_geo _ _ (rp_rxp _ _ _ _ Hr)) as [-> E]. unfold slot_addr. rewrite E.
  pose proof (mod_slot (pe_rx_head q)). rewrite u32_small by lia. done.
Qed.

(** The generation word the receiver tests. *)
Lemma gen_at_link s l p q k : rep s l p q ->
  gen_at (w_ep (rs_rx s)) (w_mem (rs_rx s)) q k = slot_gen size (lk_ring l (k mod N)).
Proof.
  intros Hr. rewrite (rp_ring _ _ _ _ Hr) by apply mod_slot. unfold ring_of. pose proof size_pos.
  rewrite slot_gen_read by (unfold RDS_RING_GEN_SIZE; lia). unfold gen_at, slot_addr. destruct (xp_geo _ _ (rp_rxp _ _ _ _ Hr)) as [-> ->].
  pose proof (mod_slot k). by rewrite u32_small by lia.
Qed.

(** A slot with the expected generation was sent and can be handled. *)
Lemma poll_sane s l p q :
  link_ok N size l -> rep s l p q -> gen_at (w_ep (rs_rx s)) (w_mem (rs_rx s)) q (pe_rx_head q) = ring_want N (pe_rx_head q) ->
  pe_rx_head q < pe_tx_head p /\ slot_sane (e_ring_slot_size (w_ep (rs_rx s))) (w_mem (rs_rx s)) (pe_rx_ring q + pe_rx_head q mod N * size) /\
  lk_ring l (lk_rx_head l mod N) = ring_of (rs_rx s) q (pe_rx_head q mod N) /\
  slot_gen size (lk_ring l (lk_rx_head l mod N)) = ring_want N (lk_rx_head l) /\
  rs_sent s !! Z.to_nat (pe_rx_head q) = Some (ring_of (rs_rx s) q (pe_rx_head q mod N)) /\ slot_fits size (ring_of (rs_rx s) q (pe_rx_head q mod N)).
Proof.
  intros Hl Hr Hgen. rewrite (gen_at_link _ _ _ _ _ Hr) in Hgen. destruct (rp_count _ _ _ _ Hr) as (C1 & C2 & C3). rewrite <- C3 in Hgen at 1 2.
  destruct (poll_ok N size ltac:(lia) l Hl Hgen) as [Hsent Hok]. pose proof (lo_order _ _ _ Hok) as Ho. cbn in Ho.
  assert (Hring : lk_ring l (lk_rx_head l mod N) = ring_of (rs_rx s) q (pe_rx_head q mod N)) by (rewrite C3; apply (rp_ring _ _ _ _ Hr), mod_slot).
  rewrite (proj2 (rp_hist _ _ _ _ Hr)), C3, <- C3, Hring, C3 in Hsent.
  assert (Hsn : slot_bytes_sane (ring_of (rs_rx s) q (pe_rx_head q mod N))) by exact (Forall_lookup_1 _ _ _ _ (rp_sane _ _ _ _ Hr) Hsent).
  split_and!; [lia| |done|done|done|apply Hsn]. destruct (xp_geo _ _ (rp_rxp _ _ _ _ Hr)) as [_ ->]. by apply slot_sane_mem.
Qed.

Lemma sim_poll s l p q rx' :
  link_ok N size l -> rep s l p q ->
  let slotp := slot_addr (w_ep (rs_rx s)) q (u32 (pe_rx_head q mod e_ring_slots (w_ep (rs_rx s)))) in
  gen_at (w_ep (rs_rx s)) (w_mem (rs_rx s)) q (pe_rx_head q) = ring_want (e_ring_slots (w_ep (rs_rx s))) (pe_rx_head q) ->
  poll_slot hr q slotp (e_ring_slots (w_ep (rs_rx s))) (rs_rx s) = Some (tt, rx') ->
  exists l' q' bs, rtc (link_step N size) l l' /\ pe_rx_head q' = pe_rx_head q + 1 /\ rep (s <| rs_rx := rx' |>) l' p q' /\
    rs_sent s !! Z.to_nat (pe_rx_head q) = Some bs /\ handed hr bs (rs_rx s) rx'.
Proof.
  intros Hl Hr slotp Hgen Erun. unfold slotp in *. rewrite (poll_slotp _ _ _ _ Hr) in *. clear slotp.
  destruct (xp_geo _ _ (rp_rxp _ _ _ _ Hr)) as [EN Esz]. rewrite EN in Hgen, Erun. destruct (rp_count _ _ _ _ Hr) as (C1 & C2 & C3).
  destruct (poll_sane s l p q Hl Hr Hgen) as (Hlt & Hsane & Hring & Hgen' & Hsent & Hfit). set (l1 := l <| lk_rx_head := lk_rx_head l + 1 |> <| lk_seen ::= fun h => h ++ [lk_ring l (lk_rx_head l mod N)] |>).
  pose proof (rep_bounds _ _ _ _ Hl Hr) as (B1 & B2 & _). pose proof (rp_bound _ _ _ _ Hr) as Hb.
  pose proof (poll_slot_effect hr q _ N (rs_rx s) (rp_rx _ _ _ _ Hr) Hsane ltac:(lia) ltac:(lia)) as He. unfold wlp in He. rewrite Erun in He.
  destruct (rep_advanced s l p q rx' (pe_rx_head q + 1) l1 Hr He) as (l2 & q' & Hs & Eq & Hr2); try done; [lia|cbn; lia|].
  exists l2, q', (ring_of (rs_rx s) q (pe_rx_head q mod N)). split_and!; [eapply rtc_l; [by apply link_poll|exact Hs]|done..|].
  pose proof (poll_slot_hands hr q (pe_rx_ring q + pe_rx_head q mod N * size) N (rs_rx s) (rp_rx _ _ _ _ Hr) Hsane) as Hh.
  cbn zeta in Hh. rewrite Esz in Hh. specialize (Hh Hfit). unfold wlp in Hh. by rewrite Erun in Hh.
Qed.

Lemma sim_credit s l p q rx' :
  link_ok N size l -> rep s l p q -> rds_ring_return_credit hr (rs_rx s) = Some (tt, rx') ->
  exists l' q', rtc (link_step N size) l l' /\ pe_rx_head q' = pe_rx_head q /\ rep (s <| rs_rx := rx' |>) l' p q'.
Proof.
  intros Hl Hr Erun. pose proof (return_credit_effect hr q (rs_rx s) (rp_rx _ _ _ _ Hr)) as He. unfold wlp in He. rewrite Erun in He.
  destruct He as [Hm Em]. pose proof (rep_bounds _ _ _ _ Hl Hr) as (B1 & B2 & _). pose proof (rp_bound _ _ _ _ Hr) as Hb.
  destruct (rep_advanced s l p q rx' (pe_rx_head q) l Hr) as (l' & q' & Hs & Eq & Hr'); try done; [|lia|apply Hr|].
  - split; [done|]. exists (w_mem (rs_rx s)). auto.
  - by exists l', q'.
Qed.

(** ** Credit, and the rest of the two endpoints *)

Lemma sim_credit_land s l p q :
  rep s l p q ->
  rep (s <| rs_tx ::= fun w => w <| w_mem ::= fun m => mem_write m (pe_credit_cell p) (mem_read (w_mem (rs_rx s)) (pe_credit_tx_addr q) 8) |> |>)
    (l <| lk_cell := lk_credit l |>) p q.
Proof.
  intros Hr. pose proof (rp_txp _ _ _ _ Hr) as Htx. set (bs := mem_read (w_mem (rs_rx s)) (pe_credit_tx_addr q) 8).
  set (tx' := rs_tx s <| w_mem ::= fun m => mem_write m (pe_credit_cell p) bs |>). assert (Hbs : length bs = 8%nat) by apply mem_read_length.
  enough (rep (s <| rs_tx := tx' |>) (l <| lk_cell := lk_credit l |>) p q) by (by destruct s).
  apply (rep_tx s l p q); try done; try apply Hr.
  - by eapply tx_peer_upd.
  - split; apply (rp_count _ _ _ _ Hr).
  - cbn. etrans; [apply (rp_credit _ _ _ _ Hr)|]. unfold credit_of, cell_of, tx'. cbn. fold bs. f_equal.
    change 8 with (Z.of_nat 8). by rewrite <- Hbs, mem_read_write_same.
  - intros i Hi. cbn. rewrite (rp_stage _ _ _ _ Hr) by done. symmetry. unfold stage_of, tx'. cbn. apply mem_read_write_disjoint.
    rewrite Hbs. pose proof (slot_inside i Hi). destruct (tp_cell _ _ _ _ Htx); lia.
Qed.

Lemma sim_piggyback s l p q :
  rep s l p q -> rep (s <| rs_acks ::= cons (pe_rx_head q) |>) (l <| lk_acks ::= cons (lk_rx_head l) |>) p q.
Proof.
  intros [H1 H2 H3 H4 (Hc1 & Hc2 & Hc3) H6 H7 H8 H9 (Hh1 & Hh2) H11 H12]. split; cbn; try done. split_and!; [congruence|done..].
Qed.

Lemma sim_absorb s l p q v :
  rep s l p q ->
  exists p', rep (s <| rs_tx ::= fun w => w <| w_ep ::= fun e => e <| e_peers ::=
      alter (fun p => if v >? pe_tx_tail p then p <| pe_tx_tail := v |> else p) hs |> |> |>)
    (l <| lk_tail ::= Z.max v |>) p' q.
Proof.
  intros Hr. pose proof (rp_txp _ _ _ _ Hr) as Htx. set (up := fun p : rds_peer => if v >? pe_tx_tail p then p <| pe_tx_tail := v |> else p).
  set (tx' := rs_tx s <| w_ep ::= fun e => e <| e_peers ::= alter up hs |> |>).
  set (p' := p <| pe_tx_tail := Z.max v (pe_tx_tail p) |>).
  exists p'. enough (rep (s <| rs_tx := tx' |>) (l <| lk_tail ::= Z.max v |>) p' q) by (by destruct s).
  destruct (rp_count _ _ _ _ Hr) as (C1 & C2 & C3). apply (rep_tx s l p q); try done; try apply Hr.
  - unfold tx'. cbn. rewrite lookup_alter_eq, (rp_tx _ _ _ _ Hr). cbn. f_equal. unfold up, p'. rewrite Z.gtb_ltb.
    destruct (Z.ltb_spec (pe_tx_tail p) v); [by rewrite Z.max_l by lia|]. rewrite Z.max_r by lia. by destruct p.
  - by eapply tx_peer_upd.
  - cbn. by rewrite C1, C2.
Qed.

Lemma sim_tx_frame s l p q tx' : rep s l p q -> tx_frame (rs_tx s) tx' -> exists p', rep (s <| rs_tx := tx' |>) l p' q.
Proof.
  intros Hr (p0 & p' & Hp & Hp' & Ep & Eg & Hm). rewrite (rp_tx _ _ _ _ Hr) in Hp. injection Hp as <-. exists p'.
  unfold tx_part in Ep. injection Ep as E1 E2 E3 E4 E5 E6 E7. pose proof (rp_count _ _ _ _ Hr) as (C1 & C2 & C3).
  apply (rep_tx s l p q); try done; try congruence.
  - eapply tx_peer_upd; [apply Hr|..]; congruence.
  - split; congruence.
  - etrans; [apply (rp_credit _ _ _ _ Hr)|]. unfold cell_of. rewrite E7. f_equal. symmetry. apply mem_read_agree. intros x Hx. apply Hm. lia.
  - intros i Hi. rewrite (rp_stage _ _ _ _ Hr) by done. unfold stage_of. rewrite E6. symmetry. apply mem_read_agree. intros x Hx. apply Hm.
    pose proof (slot_inside i Hi). lia.
  - rewrite E4. apply Hr.
Qed.

Lemma sim_rx_frame s l p q rx' : rep s l p q -> rx_frame (rs_rx s) rx' -> exists q', pe_rx_head q' = pe_rx_head q /\ rep (s <| rs_rx := rx' |>) l p q'.
Proof.
  intros Hr (q0 & q' & Hq & Hq' & Eq & Hrx' & Hm). rewrite (rp_rx _ _ _ _ Hr) in Hq. injection Hq as <-. exists q'.
  unfold static in Eq. injection Eq as E1 E2 E3 E4. split; [done|]. pose proof (rp_count _ _ _ _ Hr) as (C1 & C2 & C3).
  enough (rep (s <| rs_rx := rx' |> <| rs_flight := rs_flight s |>) l p q') by (by destruct s).
  eapply (rep_rx s l p q); try done; try apply Hr; try congruence.
  - etrans; [apply (rp_credit _ _ _ _ Hr)|]. unfold credit_of. rewrite E3. f_equal. symmetry. apply mem_read_agree. intros x Hx. apply Hm. lia.
  - intros i Hi. rewrite (rp_ring _ _ _ _ Hr) by done. unfold ring_of. rewrite E1. symmetry. apply mem_read_agree. intros x Hx. apply Hm.
    pose proof (slot_inside i Hi). lia.
Qed.

(** ** The simulation *)

(** What a step does at the receiver: nothing to its read index, or the next
    slot sent is handed over. *)
Definition takes s s' (q q' : rds_peer) : Prop :=
  pe_rx_head q' = pe_rx_head q \/
  pe_rx_head q' = pe_rx_head q + 1 /\ exists bs, rs_sent s !! Z.to_nat (pe_rx_head q) = Some bs /\ handed hr bs (rs_rx s) (rs_rx s').

Lemma sim_step s s' l p q :
  link_ok N size l -> rep s l p q -> sys_step s s' -> exists l' p' q', rtc (link_step N size) l l' /\ rep s' l' p' q' /\ takes s s' q q'.
Proof.
  intros Hl Hr Hs. destruct Hs as [s p0 src dest tag data context flags tagged gen op r tx' Hpre Hne Erun
    |s p0 src dest tag data context flags tagged gen op tx' a v Hpre Erun Ea Ev|s q0 f1 a j f2 v j' Hq Ef Ev Hj|s q0 f1 a j f2 v Hq Ef Ev
    |s q0 rx' Hq slotp Hgen Erun|s rx' Erun|s p0 q0 Hp Hq|s q0 Hq|s v Hv|s tx' Hf|s rx' Hf].
  - assert (p0 = p) as -> by (pose proof (sp_peer _ _ _ _ _ Hpre); pose proof (rp_tx _ _ _ _ Hr); congruence).
    destruct (sim_send s l p q _ _ _ _ _ _ _ _ _ _ _ Hl Hr Hpre Erun) as (l' & p' & Hst & Hif).
    rewrite (proj2 (Z.eqb_neq r 0)) in Hif by done. exists l', p', q. split_and!; [done..|by left].
  - assert (p0 = p) as -> by (pose proof (sp_peer _ _ _ _ _ Hpre); pose proof (rp_tx _ _ _ _ Hr); congruence).
    destruct (sim_send s l p q _ _ _ _ _ _ _ _ _ _ _ Hl Hr Hpre Erun) as (l' & p' & Hst & a' & Ea' & Ev' & Hr').
    rewrite Ea in Ea'. injection Ea' as <-. rewrite Ev in Ev'. injection Ev' as ->. exists l', p', q. split_and!; [done..|by left].
  - assert (q0 = q) as -> by (pose proof (rp_rx _ _ _ _ Hr); congruence).
    destruct (sim_land s l p q f1 a j f2 v j' Hl Hr Ef Ev) as (g1 & k & g2 & Eg & Esz & Hl'); [unfold RDS_RING_GEN_SIZE in Hj; lia|].
    edestruct Hl' as (Hrep & _ & Hfl); [reflexivity|]. eexists _, p, q. split_and!; [|apply Hrep, Hfl|by left].
    apply rtc_once. apply (link_land _ _ l g1 k j g2); [done|lia].
  - assert (q0 = q) as -> by (pose proof (rp_rx _ _ _ _ Hr); congruence).
    destruct (sim_land s l p q f1 a j f2 v (iov_len v) Hl Hr Ef Ev) as (g1 & k & g2 & Eg & Esz & Hl'); [by right|].
    edestruct Hl' as (Hrep & Hfl & _); [reflexivity|]. eexists _, p, q. split_and!; [|apply Hrep, Hfl|by left]. rewrite Esz.
    apply rtc_once. by apply (link_arrive _ _ l g1 k j g2).
  - assert (q0 = q) as -> by (pose proof (rp_rx _ _ _ _ Hr); congruence).
    destruct (sim_poll s l p q rx' Hl Hr Hgen Erun) as (l' & q' & bs & Hst & Eq & Hr' & Hsent & Hh). exists l', p, q'.
    split_and!; [done..|]. right. split; [done|]. by exists bs.
  - destruct (sim_credit s l p q rx' Hl Hr Erun) as (l' & q' & Hst & Eq & Hr'). exists l', p, q'. split_and!; [done..|by left].
  - assert (p0 = p) as -> by (pose proof (rp_tx _ _ _ _ Hr); congruence). assert (q0 = q) as -> by (pose proof (rp_rx _ _ _ _ Hr); congruence).
    eexists _, p, q. split_and!; [apply rtc_once, link_credit_land|by apply sim_credit_land|by left].
  - assert (q0 = q) as -> by (pose proof (rp_rx _ _ _ _ Hr); congruence).
    eexists _, p, q. split_and!; [apply rtc_once, link_piggyback|by apply sim_piggyback|by left].
  - destruct (sim_absorb s l p q v Hr) as [p' Hr']. eexists _, p', q. split_and!; [|exact Hr'|by left]. apply rtc_once, link_absorb.
    by rewrite (proj1 (rp_hist _ _ _ _ Hr)).
  - destruct (sim_tx_frame s l p q tx' Hr Hf) as [p' Hr']. exists l, p', q. split_and!; [apply rtc_refl|done|by left].
  - destruct (sim_rx_frame s l p q rx' Hr Hf) as (q' & Eq & Hr'). exists l, p, q'. split_and!; [apply rtc_refl|done|by left].
Qed.

Lemma sim_init s : sys_init s -> exists l p q, link_ok N size l /\ rep s l p q /\ pe_rx_head q = 0.
Proof.
  intros [(p & Hp & Htx & E1 & E2 & E3) (q & Hq & Hrx & E4 & E5 & E6) (E7 & E8 & E9)].
  exists (link_init size (stage_of (rs_tx s) p)), p, q. split; [apply link_init_ok; [lia|lia|intros; apply stage_length]|].
  split; [|done]. split; cbn; try done; try (by rewrite ?E1, ?E2, ?E3, ?E4, ?E5, ?E7, ?E8, ?E9). intros i Hi. by rewrite E6.
Qed.

Lemma sim_reach s s' : sys_init s -> rtc sys_step s s' -> exists l p q, link_ok N size l /\ rep s' l p q.
Proof.
  intros (l & p & q & Hl & Hr & _)%sim_init Hs. revert l p q Hl Hr. induction Hs as [s|s s1 s2 Hst _ IH]; intros l p q Hl Hr; [by exists l, p, q|].
  destruct (sim_step _ _ _ _ _ Hl Hr Hst) as (l' & p' & q' & Hls & Hr' & _). eapply IH; [|exact Hr']. eapply link_steps_ok; [lia|lia|done|done].
Qed.

(** The slots of index [a] to [b]. *)
Definition slots_between (a b : Z) (sent : list (list Z)) : list (list Z) := drop (Z.to_nat a) (take (Z.to_nat b) sent).

Lemma slots_between_nil a sent : slots_between a a sent = [].
Proof. unfold slots_between. apply drop_ge. rewrite length_take. lia. Qed.

Lemma slots_between_cons a b bs sent : 0 <= a < b -> sent !! Z.to_nat a = Some bs ->
  slots_between a b sent = bs :: slots_between (a + 1) b sent.
Proof.
  intros Hab Hs. unfold slots_between. rewrite (drop_S _ bs).
  - do 2 f_equal. lia.
  - by rewrite lookup_take_lt by lia.
Qed.

Lemma step_sent s s' : sys_step s s' -> rs_sent s `prefix_of` rs_sent s'.
Proof. destruct 1; try done. by eexists. Qed.

Lemma run_sent s tr : run s tr -> rs_sent s `prefix_of` rs_sent (run_end s tr).
Proof.
  revert s. induction tr as [|s1 tr IH]; intros s; [done|]. intros [Hs Hr]. etrans; [by apply step_sent|by apply IH].
Qed.

(** Over a run the receiver hands over the slots from the one its read index
    was at to the one it is at. *)
Lemma sim_run s l p q tr :
  link_ok N size l -> rep s l p q -> run s tr -> exists l' p' q', link_ok N size l' /\ rep (run_end s tr) l' p' q' /\
    pe_rx_head q <= pe_rx_head q' /\ hands s tr (slots_between (pe_rx_head q) (pe_rx_head q') (rs_sent (run_end s tr))).
Proof.
  revert s l p q. induction tr as [|s1 tr IH]; intros s l p q Hl Hr Hrun.
  { exists l, p, q. split_and!; [done..|]. rewrite slots_between_nil. constructor. }
  cbn [run_end]. destruct Hrun as [Hst Hrun]. destruct (sim_step _ _ _ _ _ Hl Hr Hst) as (l1 & p1 & q1 & Hls & Hr1 & Ht).
  assert (Hl1 : link_ok N size l1) by (by eapply link_steps_ok; [lia|lia|..]).
  destruct (IH s1 l1 p1 q1 Hl1 Hr1 Hrun) as (l' & p' & q' & Hl' & Hr' & Hle & Hh). exists l', p', q'.
  pose proof (rep_bounds _ _ _ _ Hl Hr) as (B1 & _). destruct Ht as [Eq|[Eq (bs & Hsent & Hhd)]].
  - rewrite Eq in *. split_and!; [done..|]. apply hands_none; [|done]. rewrite (rp_rx _ _ _ _ Hr1), (rp_rx _ _ _ _ Hr). cbn. congruence.
  - rewrite Eq in *. split_and!; [done..|lia|]. rewrite (slots_between_cons _ _ bs); [|lia|].
    + by apply hands_slot.
    + eapply prefix_lookup_Some; [exact Hsent|]. etrans; [by apply step_sent|by apply run_sent].
Qed.
End RingEnd.
