(* ===== verification/RingLive.v ===== *)
(** * What the eager ring delivers

    Consequences of the simulation of [RingEnd]: every slot sent is handed
    over exactly once and in order, a poll consumes everything that has
    arrived and is made of steps of the system, and a credit whose write
    the socket refused is not sent again until another slot arrives. *)

From S2P Require Import Prelude Iov Wire Config Kernel Cq Av MrCache MrCacheInv State Mr MrInv Pending.
From S2P Require Import Ring Msg RingRx RingLink Pres Footprint Frame Inv Rules Safety SafetyRing RingPoll Eager RingSend RingHand RingEnd.

(** The fields of a slot header that the receiver uses, whatever the reserved
    bytes hold. *)
Lemma slot_fields s : let t := rds_ring_slot_of_bytes (rds_ring_slot_bytes s) in
  0 <= sl_len s < 2 ^ 32 -> 0 <= sl_flags s < 2 ^ 8 -> 0 <= sl_op s < 2 ^ 8 -> 0 <= sl_tag s < 2 ^ 64 -> 0 <= sl_data s < 2 ^ 64 ->
  sl_op t = sl_op s /\ sl_len t = sl_len s /\ slot_eager_hdr t = slot_eager_hdr s.
Proof.
  intros t H1 H2 H3 H4 H5. assert (E : sl_op t = sl_op s /\ sl_len t = sl_len s /\ sl_flags t = sl_flags s /\ sl_tag t = sl_tag s /\ sl_data t = sl_data s).
  { unfold t, rds_ring_slot_bytes, rds_ring_slot_of_bytes. cbn [sl_len sl_flags sl_op sl_tag sl_data]. split_and!; solve_field. }
  destruct E as (E1 & E2 & E3 & E4 & E5). unfold slot_eager_hdr. by rewrite E2, E3, E4, E5.
Qed.

Section RingLive.
Context {K : Type} `{!Kernel K} (N size hs hr : Z).
Hypothesis HN : 0 < N < 2 ^ 31.
Hypothesis Hsize : RDS_RING_HDR_SIZE + RDS_RING_GEN_SIZE <= size < 2 ^ 32.

Notation ringsys := (ringsys (K := K)).
Notation step := (sys_step N size hs hr).
Notation rep := (rep N size hs hr).

(** ** A poll is a sequence of steps *)

(** From [s] to [s'] by steps of the receiver only. *)
Definition rx_run (s s' : ringsys) : Prop :=
  rtc step s s' /\ rs_tx s' = rs_tx s /\ rs_flight s' = rs_flight s /\ rs_sent s' = rs_sent s.

Lemma rx_run_refl s : rx_run s s.
Proof. split_and!; done. Qed.

Lemma rx_run_trans s1 s2 s3 : rx_run s1 s2 -> rx_run s2 s3 -> rx_run s1 s3.
Proof. intros (? & ? & ? & ?) (? & ? & ? & ?). split_and!; [by etrans|congruence..]. Qed.

(** A state the poll may be called in. *)
Record pollable (s : ringsys) (l : link) (p q : rds_peer) : Prop := {
  po_link : link_ok N size l;
  po_rep : rep s l p q;
  po_world : world_ok (rs_rx s);
  po_ids : e_op_id (w_ep (rs_rx s)) + (pe_tx_head p - pe_rx_head q) < 2 ^ 64 }.

Lemma poll_slot_run `{!MrAgainEnds K} s l p q :
  pollable s l p q -> gen_at (w_ep (rs_rx s)) (w_mem (rs_rx s)) q (pe_rx_head q) = ring_want N (pe_rx_head q) ->
  wp (poll_slot hr q (slot_addr (w_ep (rs_rx s)) q (u32 (pe_rx_head q mod N))) N) (fun _ w' =>
    exists s' l' q' bs, rs_rx s' = w' /\ rx_run s s' /\ pollable s' l' p q' /\ pe_rx_head q' = pe_rx_head q + 1 /\
      rs_sent s !! Z.to_nat (pe_rx_head q) = Some bs /\ handed hr bs (rs_rx s) w') (rs_rx s).
Proof.
  intros [Hl Hr Hw Hid] Hgen. destruct (poll_sane N size hs hr HN Hsize s l p q Hl Hr Hgen) as (Hlt & Hsane & _).
  destruct (xp_geo _ _ _ _ (rp_rxp _ _ _ _ _ _ _ _ Hr)) as [EN Esz]. pose proof (rp_rx _ _ _ _ _ _ _ _ Hr) as Hq.
  pose proof (poll_slotp N size hs hr HN s l p q Hr) as Esl. rewrite EN in Esl.
  pose proof (poll_slot_step hr (pe_rx_ring q + pe_rx_head q mod N * size) N q (rs_rx s) Hw ltac:(lia) Hq (xp_state _ _ _ _ (rp_rxp _ _ _ _ _ _ _ _ Hr)) Hsane) as Hs.
  rewrite Esl. unfold wp in *. destruct (poll_slot _ _ _ _ _) as [[[] w']|] eqn:Erun; [|done]. destruct Hs as (Hw' & [Hmv _] & _ & _).
  edestruct (sim_poll N size hs hr HN Hsize s l p q w' Hl Hr) as (l' & q' & bs & Hls & Eq & Hr' & Hsent & Hh); [by rewrite EN|by rewrite EN, Esl|].
  exists (s <| rs_rx := w' |>), l', q', bs. split_and!; [done| |split; [|exact Hr'|done|]|done..].
  - split_and!; [|done..]. apply rtc_once. pose proof (sys_poll N size hs hr s q w' Hq) as Hst. cbn zeta in Hst. rewrite EN, Esl in Hst. by apply Hst.
  - by eapply (link_steps_ok N size); [lia|lia|exact Hls|].
  - cbn. lia.
Qed.

Lemma poll_loop_run `{!MrAgainEnds K} fuel s l p q drained :
  pollable s l p q -> pe_tx_head p - pe_rx_head q <= Z.of_nat fuel ->
  wp (poll_loop fuel hr drained) (fun d w' => exists s' l' q', rs_rx s' = w' /\ rx_run s s' /\ pollable s' l' p q' /\
    gen_at (w_ep w') (w_mem w') q' (pe_rx_head q') <> ring_want N (pe_rx_head q') /\
    pe_rx_head q <= pe_rx_head q' /\ drains hr (rs_rx s) (slots_between (pe_rx_head q) (pe_rx_head q') (rs_sent s)) w') (rs_rx s).
Proof.
  revert s l q drained. induction fuel as [|fuel IH]; intros s l q drained Hpo Hf; pose proof Hpo as [Hl Hr Hw Hid].
  all: destruct (xp_geo _ _ _ _ (rp_rxp _ _ _ _ _ _ _ _ Hr)) as [EN Esz]; pose proof (rp_rx _ _ _ _ _ _ _ _ Hr) as Hq.
  all: cbn [poll_loop]; apply wp_bind; eapply wp_peer_deref; [exact Hq|]; apply wp_bind, wp_ep_get, wp_bind, wp_ep_get.
  all: rewrite (proj2 (Z.eqb_neq (e_ring_slots (w_ep (rs_rx s))) 0)) by lia; cbn zeta; apply wp_bind, wp_gets.
  all: change (le_dec (mem_read _ _ 4)) with (gen_at (w_ep (rs_rx s)) (w_mem (rs_rx s)) q (pe_rx_head q));
    change (u32 (u32 (pe_rx_head q / e_ring_slots (w_ep (rs_rx s))) + 1)) with (ring_want (e_ring_slots (w_ep (rs_rx s))) (pe_rx_head q)); rewrite EN.
  all: destruct (Z.eqb_spec (gen_at (w_ep (rs_rx s)) (w_mem (rs_rx s)) q (pe_rx_head q)) (ring_want N (pe_rx_head q))) as [Em|Em]; cbn [negb].
  2, 4: apply wp_ret; exists s, l, q; rewrite slots_between_nil; split_and!; auto using rx_run_refl, drains_end; lia.
  - exfalso. destruct (poll_sane N size hs hr HN Hsize s l p q Hl Hr Em) as (Hlt & _). lia.
  - apply wp_bind. eapply wp_mono; [by apply (poll_slot_run s l p q)|]. cbn beta. intros _ w1 (s1 & l1 & q1 & bs & <- & Hrun & Hpo1 & Eq & Hsent & Hh).
    eapply wp_mono; [apply (IH s1 l1 q1 true Hpo1); lia|]. cbn beta. intros d w2 (s2 & l2 & q2 & <- & Hrun2 & Hpo2 & Hg & Hle & Hd).
    exists s2, l2, q2. split_and!; [done|by eapply rx_run_trans|done|done|lia|]. pose proof (rep_bounds N size hs hr s l p q Hl Hr) as (B1 & _).
    rewrite (slots_between_cons _ _ bs); [|lia|done]. eapply drains_slot; [exact Hh|]. destruct Hrun as (_ & _ & _ & Es). by rewrite <- Es, <- Eq.
Qed.

(** Why a poll stops: everything was consumed, or the next slot is still
    under way. *)
Definition caught_up (s : ringsys) (p q : rds_peer) : Prop :=
  pe_rx_head q = pe_tx_head p \/ exists a j, (a, j) ∈ rs_flight s /\ ra_remote_addr a = pe_rx_head q mod N * size.

(** A slot sent and not yet consumed is in the ring, or on its way. *)
Lemma rest_in_ring (s : ringsys) l p q k :
  link_ok N size l -> rep s l p q -> pe_rx_head q <= k < pe_tx_head p ->
  rs_sent s !! Z.to_nat k = Some (ring_of size (rs_rx s) q (k mod N)) \/ exists a j, (a, j) ∈ rs_flight s /\ ra_remote_addr a = k mod N * size.
Proof.
  intros Hl Hr Hk. destruct (rp_count _ _ _ _ _ _ _ _ Hr) as (C1 & C2 & C3). destruct (decide (k ∈ (lk_flight l).*1)) as [Hin|Hnin]; [right|left].
  - apply list_elem_of_fmap in Hin as ([k' j] & Ek & Hin). cbn in Ek. subst k'. apply list_elem_of_lookup in Hin as [i Hi].
    destruct (Forall2_lookup_r _ _ _ _ _ (rp_flight _ _ _ _ _ _ _ _ Hr) Hi) as ([a j'] & Ha & [Hreq _]).
    exists a, j'. split; [by eapply list_elem_of_lookup_2|apply Hreq].
  - rewrite <- (rp_ring _ _ _ _ _ _ _ _ Hr) by apply (mod_slot N HN). rewrite (lo_landed _ _ _ Hl); [|lia|done].
    rewrite <- (proj2 (rp_hist _ _ _ _ _ _ _ _ Hr)). apply (lo_stage _ _ _ Hl). lia.
Qed.

Lemma stop_reason s l p q :
  link_ok N size l -> rep s l p q -> gen_at (w_ep (rs_rx s)) (w_mem (rs_rx s)) q (pe_rx_head q) <> ring_want N (pe_rx_head q) -> caught_up s p q.
Proof.
  intros Hl Hr. rewrite (gen_at_link N size hs hr HN Hsize s l p q _ Hr). destruct (rp_count _ _ _ _ _ _ _ _ Hr) as (C1 & C2 & C3). intros Hg.
  pose proof (rep_bounds N size hs hr s l p q Hl Hr) as (B1 & B2 & _). destruct (decide (pe_rx_head q = pe_tx_head p)) as [|Hne]; [by left|right].
  destruct (rest_in_ring s l p q (pe_rx_head q) Hl Hr ltac:(lia)) as [Hin|?]; [|done]. exfalso. apply Hg.
  rewrite (rp_ring _ _ _ _ _ _ _ _ Hr) by apply (mod_slot N HN). rewrite <- (proj2 (rp_hist _ _ _ _ _ _ _ _ Hr)) in Hin.
  destruct (lo_stage _ _ _ Hl (pe_rx_head q)) as [Hst Hgen]; [lia|]. rewrite Hst in Hin. injection Hin as <-. exact Hgen.
Qed.

(** A poll of the ring runs to its end, is made of steps of the system,
    hands over slot after slot and leaves nothing that has arrived. *)
Lemma poll_peer_run `{!MrAgainEnds K} s l p q :
  pollable s l p q ->
  wp (rds_ring_poll_peer hr) (fun _ w' => exists s' l' q', rs_rx s' = w' /\ rx_run s s' /\ pollable s' l' p q' /\ caught_up s' p q' /\
    pe_rx_head q <= pe_rx_head q' /\ drains hr (rs_rx s) (slots_between (pe_rx_head q) (pe_rx_head q') (rs_sent s)) w') (rs_rx s).
Proof.
  intros Hpo. pose proof Hpo as [Hl Hr Hw Hid]. pose proof (rep_bounds N size hs hr s l p q Hl Hr) as (B1 & B2 & _).
  destruct (xp_geo _ _ _ _ (rp_rxp _ _ _ _ _ _ _ _ Hr)) as [EN _].
  unfold rds_ring_poll_peer. apply wp_bind, wp_ep_get, wp_bind. rewrite EN. eapply wp_mono; [apply (poll_loop_run _ s l p q false Hpo); lia|].
  cbn beta. intros d w1 (s1 & l1 & q1 & <- & Hrun & Hpo1 & Hg & Hle & Hdr). pose proof Hpo1 as [Hl1 Hr1 Hw1 Hid1]. pose proof (rp_rx _ _ _ _ _ _ _ _ Hr1) as Hq1.
  pose proof (stop_reason s1 l1 p q1 Hl1 Hr1 Hg) as Hcu.
  apply wp_bind. eapply wp_peer_deref; [exact Hq1|]. destruct (_ && _); [|apply wp_ret; by exists s1, l1, q1].
  pose proof (credit_step hr q1 (rs_rx s1) Hw1 Hq1 (xp_state _ _ _ _ (rp_rxp _ _ _ _ _ _ _ _ Hr1))) as Hc.
  pose proof (books_credit hr q1 (rs_rx s1) Hq1) as Hb. unfold wp in *.
  destruct (rds_ring_return_credit hr (rs_rx s1)) as [[[] w2]|] eqn:Erun; [|done]. destruct Hc as (Hw2 & [Hmv _] & _ & _). destruct Hb as [Hb Eb].
  destruct (sim_credit N size hs hr HN Hsize s1 l1 p q1 w2 Hl1 Hr1 Erun) as (l2 & q2 & Hls & Eq & Hr2).
  exists (s1 <| rs_rx := w2 |>), l2, q2. rewrite Eq. split_and!; [done| | | |done|].
  - eapply rx_run_trans; [exact Hrun|]. split_and!; [|done..]. by apply rtc_once, sys_credit.
  - split; [by eapply (link_steps_ok N size); [lia|lia|exact Hls|]|done|done|cbn; lia].
  - unfold caught_up. by rewrite Eq.
  - eapply drains_books; [exact Hdr|done|]. by rewrite Eb, Hq1.
Qed.

(** The network keeps the receiver's invariant. *)
Lemma land_world_ok a v q j j' (s : ringsys) : world_ok (rs_rx s) -> world_ok (rdma_land a v q j j' s).
Proof. unfold rdma_land. by apply wi_mem. Qed.

(** ** The theorems *)

(** C4: The eager ring is a reliable ordered channel.  However sends, polls,
    credit returns and the landing of RDMA writes interleave - the writes in
    any order, each in pieces with its generation word last, as the head of
    rds_eager.c assumes - what the receiver hands to its inbound handler over
    the run, message by message, is the first [rx_head] slots the sender
    posted, byte for byte, none lost, repeated, torn or reordered.  The
    sender is never more than a ring ahead, and each slot not yet handed over
    is whole in the ring or still being written. *)
Theorem ring_exactly_once s0 tr :
  sys_init N size hs hr s0 -> run N size hs hr s0 tr ->
  let s := run_end s0 tr in
  exists p q, e_peers (w_ep (rs_tx s)) !! hs = Some p /\ e_peers (w_ep (rs_rx s)) !! hr = Some q /\
    hands hr s0 tr (take (Z.to_nat (pe_rx_head q)) (rs_sent s)) /\
    Z.of_nat (length (rs_sent s)) = pe_tx_head p /\ pe_rx_head q <= pe_tx_head p <= pe_rx_head q + N /\
    forall k, pe_rx_head q <= k < pe_tx_head p ->
      rs_sent s !! Z.to_nat k = Some (ring_of size (rs_rx s) q (k mod N)) \/
      exists a j, (a, j) ∈ rs_flight s /\ ra_remote_addr a = k mod N * size.
Proof.
  intros Hi Hrun s. destruct (sim_init N size hs hr HN Hsize s0 Hi) as (l0 & p0 & q0 & Hl0 & Hr0 & E0).
  destruct (sim_run N size hs hr HN Hsize s0 l0 p0 q0 tr Hl0 Hr0 Hrun) as (l & p & q & Hl & Hr & Hle & Hh). fold s in Hr, Hh.
  exists p, q. rewrite E0 in Hh. change (hands hr s0 tr (take (Z.to_nat (pe_rx_head q)) (rs_sent s))) in Hh.
  pose proof (rep_bounds N size hs hr s l p q Hl Hr) as (B1 & B2 & _). destruct (rp_hist _ _ _ _ _ _ _ _ Hr) as (_ & E1).
  destruct (rp_count _ _ _ _ _ _ _ _ Hr) as (C1 & C2 & C3). pose proof (lo_sent _ _ _ Hl) as L1. rewrite E1, C1 in L1.
  split_and!; [apply Hr|apply Hr|done|done|lia|lia|]. intros k Hk. by eapply rest_in_ring.
Qed.

(** C8: A poll of a ring makes progress.  In any reachable state of the two
    endpoints, when the receiver satisfies its invariant, has operation ids
    left and the kernel does not put registrations off for ever, the poll of
    the receiver's ring returns and keeps the invariant.  It has run the
    inbound handler on the message of each slot from its read index on, one
    after the other and nothing else besides book-keeping; it stops when
    every slot sent has been handed over or the next one is still being
    written by the network.  The poll is a sequence of steps of the system. *)
Theorem ring_poll_drains (Hagain : MrAgainEnds K) s0 s q :
  sys_init N size hs hr s0 -> rtc step s0 s -> world_ok (rs_rx s) -> e_op_id (w_ep (rs_rx s)) + N < 2 ^ 64 ->
  e_peers (w_ep (rs_rx s)) !! hr = Some q ->
  wp (rds_ring_poll_peer hr) (fun _ w' => world_ok w' /\ (exists s', rs_rx s' = w' /\ rx_run s s') /\
    exists q', e_peers (w_ep w') !! hr = Some q' /\ pe_rx_head q <= pe_rx_head q' /\
      drains hr (rs_rx s) (slots_between (pe_rx_head q) (pe_rx_head q') (rs_sent s)) w' /\
      (pe_rx_head q' = Z.of_nat (length (rs_sent s)) \/
       exists a j, (a, j) ∈ rs_flight s /\ ra_remote_addr a = pe_rx_head q' mod N * size)) (rs_rx s).
Proof.
  intros Hi Hs Hw Hid Hq. destruct (sim_reach N size hs hr HN Hsize s0 s Hi Hs) as (l & p & q0 & Hl & Hr).
  assert (q0 = q) as -> by (pose proof (rp_rx _ _ _ _ _ _ _ _ Hr); congruence).
  pose proof (rep_bounds N size hs hr s l p q Hl Hr) as (B1 & B2 & _).
  eapply wp_mono; [apply (poll_peer_run s l p q); split; [done..|lia]|]. cbn beta. intros _ w' (s' & l' & q' & <- & Hrun & [Hl' Hr' Hw' _] & Hcu & Hle & Hdr).
  split_and!; [done|by exists s'|]. exists q'. split_and!; [apply Hr'|done|done|]. destruct Hrun as (_ & _ & Ef & Ese).
  destruct Hcu as [Eh|Hfl]; [left|right; by rewrite <- Ef].
  destruct (rp_hist _ _ _ _ _ _ _ _ Hr') as (_ & E1). destruct (rp_count _ _ _ _ _ _ _ _ Hr') as (C1 & C2 & C3).
  pose proof (lo_sent _ _ _ Hl') as L1. rewrite E1, Ese in L1. lia.
Qed.

(** A slot an eager send staged, at [slotp] in the memory of a receiver. *)
Lemma deliver_staged a s payload gen m m' h q slotp (w : world K) :
  staged a size s payload gen m m' -> sl_op s = RDS_OP_EAGER -> sl_len s = Z.of_nat (length payload) ->
  0 <= sl_flags s < 2 ^ 8 -> 0 <= sl_tag s < 2 ^ 64 -> 0 <= sl_data s < 2 ^ 64 ->
  RDS_RING_HDR_SIZE + Z.of_nat (length payload) + RDS_RING_GEN_SIZE <= size ->
  mem_read (w_mem w) slotp size = mem_read m' a size -> e_peers (w_ep w) !! h = Some q ->
  rds_ring_deliver h (rds_ring_slot_of_bytes (mem_read (w_mem w) slotp RDS_RING_HDR_SIZE)) (rds_slot_payload slotp) w =
    rds_handle_inbound (slot_eager_hdr s) payload (pe_sa q) (pe_addr q) w.
Proof.
  intros [_ Hh Hp _] Hop Hlen Hf Ht Hd Hfit Hcopy Hq.
  assert (Hsub : forall o n, 0 <= o -> o + n <= size -> mem_read (w_mem w) (slotp + o) n = mem_read m' (a + o) n).
  { intros o n Ho Hn. replace n with (Z.min n (size - o)) by lia. rewrite <- !mem_read_take, <- !mem_read_drop by lia. by rewrite Hcopy. }
  unfold rds_slot_payload, RDS_RING_HDR_SIZE, RDS_RING_GEN_SIZE in *.
  pose proof (Hsub 0 32 ltac:(lia) ltac:(lia)) as E0. rewrite !Z.add_0_r, Hh in E0. rewrite E0.
  destruct (slot_fields s) as (F1 & F2 & F3); [rewrite Hlen; lia|done|by rewrite Hop|done..|].
  revert F1 F2 F3. generalize (rds_ring_slot_of_bytes (rds_ring_slot_bytes s)). intros t F1 F2 F3.
  unfold rds_ring_deliver, peer_deref, ep_get, read_mem, bind, gets, of_opt, ret. rewrite Hq. cbn -[rds_handle_inbound mem_read slot_eager_hdr].
  rewrite F1, Hop, F2, F3, Hlen. cbn -[rds_handle_inbound mem_read slot_eager_hdr]. by rewrite (Hsub 32), Hp by lia.
Qed.

(** C17: The ring is equivalent to the socket.  Delivering the slot that a
    successful eager send staged - at whatever address of whatever receiver
    its bytes were copied to - is handling the eager datagram that the same
    send would have put on the wire: the same header and the bytes gathered
    from the caller's buffers. *)
Theorem ring_slot_is_datagram (tx tx' rx : world K) p iov dest tag data context flags tagged gen h q slotp :
  tx_peer N size tx p -> e_peers (w_ep tx) !! hs = Some p ->
  0 <= pe_tx_tail p <= pe_tx_head p -> pe_tx_head p + 1 < 2 ^ 64 -> cell_of tx p <= pe_tx_head p ->
  iov_ok iov -> 0 <= tag < 2 ^ 64 -> 0 <= data < 2 ^ 64 ->
  (forall x, x ∈ iov_addrs iov -> ~ (pe_tx_stage p <= x < pe_tx_stage p + N * size)) ->
  chain_find (e_peers (w_ep tx)) (bucket (w_ep tx) (rds_peer_hash dest)) dest = Some (Some hs) ->
  rds_ring_send (SrcIov iov) dest tag data context flags tagged gen RDS_OP_EAGER tx = Some (0, tx') ->
  mem_read (w_mem rx) slotp size = mem_read (w_mem tx') (pe_tx_stage p + pe_tx_head p mod N * size) size ->
  e_peers (w_ep rx) !! h = Some q ->
  rds_ring_deliver h (rds_ring_slot_of_bytes (mem_read (w_mem rx) slotp RDS_RING_HDR_SIZE)) (rds_slot_payload slotp) rx =
    rds_handle_inbound (eager_hdr tagged flags tag data (ofi_total_iov_len iov)) (iov_gather (w_mem tx) iov) (pe_sa q) (pe_addr q) rx.
Proof.
  intros Htx Hp Ht Hh Hc Hiov Htag Hdata Hout Hd Erun Hcopy Hq.
  pose proof (ring_send_effect N size hs p (SrcIov iov) dest tag data context flags tagged gen RDS_OP_EAGER tx HN Hsize Htx Hp Ht Hh Hc Hiov Hd) as He.
  unfold wlp in He. rewrite Erun in He. destruct He as [[? _]|(Hfit & _ & head' & _ & [(? & _)|(_ & (resv & m1 & payload & Epl & Hm1 & Hst) & _)])]; [done..|].
  assert (Hpl : payload = iov_gather (w_mem tx) iov).
  { rewrite Epl. cbn [ring_src_bytes ring_src_len]. rewrite ofi_total_iov_len_ok by done. pose proof (iov_total_nonneg iov (proj1 Hiov)).
    rewrite copy_from_iov_eq by (done || lia). rewrite drop_0, <- iov_addrs_length, Nat2Z.id, firstn_all by apply Hiov.
    apply list_fmap_ext. intros i x Hx. apply Hm1. pose proof (slot_inside N size Hsize _ (mod_slot N HN (pe_tx_head p))).
    pose proof (Hout x (list_elem_of_lookup_2 _ _ _ Hx)). lia. }
  pose proof (ring_src_length (SrcIov iov) m1 Hiov) as Hlen. rewrite <- Epl in Hlen. cbn [ring_src_len] in Hlen, Hfit.
  unfold RDS_RING_HDR_SIZE, RDS_RING_GEN_SIZE in Hfit, Hsize.
  rewrite (deliver_staged _ _ _ _ _ _ h q slotp rx Hst); try done; try apply hf_flags_range.
  - replace (slot_eager_hdr _) with (eager_hdr tagged flags tag data (ofi_total_iov_len iov)); [by rewrite Hpl|].
    unfold slot_eager_hdr, send_slot, eager_hdr. cbn [sl_len sl_flags sl_tag sl_data ring_src_len]. by rewrite u32_small by lia.
  - cbn. rewrite u32_small; lia.
  - unfold RDS_RING_HDR_SIZE, RDS_RING_GEN_SIZE. lia.
Qed.

(** C29: A poll that finds no new slot does nothing at all, even when
    [rx_credit_sent] is behind [rx_head]: a credit write that the socket
    refused is not posted again before another slot arrives, which a sender
    that waits for this credit does not send. *)
Theorem idle_poll_keeps_credit h q (w : world K) :
  e_peers (w_ep w) !! h = Some q -> e_ring_slots (w_ep w) <> 0 ->
  gen_at (w_ep w) (w_mem w) q (pe_rx_head q) <> ring_want (e_ring_slots (w_ep w)) (pe_rx_head q) ->
  rds_ring_poll_peer h w = Some (tt, w).
Proof.
  intros Hq Hn Hg. unfold rds_ring_poll_peer, bind, ep_get, gets. assert (El : forall fuel, poll_loop fuel h false w = Some (false, w)).
  { intros fuel. destruct fuel; cbn [poll_loop]; unfold peer_deref, ep_get, read_mem, bind, gets, of_opt, ret; rewrite Hq.
    all: rewrite (proj2 (Z.eqb_neq _ 0)) by done.
    all: change (le_dec (mem_read _ _ 4)) with (gen_at (w_ep w) (w_mem w) q (pe_rx_head q)).
    all: change (u32 (u32 (pe_rx_head q / e_ring_slots (w_ep w)) + 1)) with (ring_want (e_ring_slots (w_ep w)) (pe_rx_head q)).
    all: by rewrite (proj2 (Z.eqb_neq _ _) Hg). }
  rewrite El. unfold peer_deref, ep_get, bind, gets, of_opt, ret. by rewrite Hq.
Qed.

(** Messages to one peer can leave on two channels.  With the ring
    enabled, and also when the peer is connected, an inject that is larger
    than a slot but within the eager limit is not refused and does not wait
    for the ring: it leaves as a datagram, past the slots that are still in
    the ring. *)
Theorem inject_bypasses_ring buf len dest_addr tag tagged dest w :
  world_ok w -> iov_ok [mkIov buf len] -> e_eager_rdma (w_ep w) = true -> e_ring_payload (w_ep w) < len <= rds_eager_size (w_cfg w) ->
  ofi_av_get_addr (w_avec w) dest_addr = Some dest ->
  wp (rds_generic_inject buf len dest_addr tag tagged) (fun r w' => exists errno, r = send_status errno /\ e_peers (w_ep w') = e_peers (w_ep w) /\
    w_log w' = w_log w ++ [mkSent (sa_name dest (av_addrlen (w_avec w)))
      (rds_hdr_bytes (eager_hdr tagged 0 tag 0 len) ++ mem_read (w_mem w) buf len) None errno]) w.
Proof.
  intros Hw Hiov Hrd Hlen Hdest. unfold rds_generic_inject. apply wp_bind, wp_gets. replace (len >? rds_eager_size (w_cfg w)) with false by lia.
  apply wp_bind, wp_av_addr; [apply Hw|]. rewrite Hdest. apply wp_bind, wp_ep_get, wp_bind, wp_ep_get. rewrite Hrd.
  replace (len <=? e_ring_payload (w_ep w)) with false by lia. cbn [andb]. apply wp_bind, wp_ret. rewrite Z.eqb_refl. cbn [negb].
  apply wp_bind, wp_av_addrlen; [apply Hw|]. assert (El : ofi_total_iov_len [mkIov buf len] = len) by (rewrite ofi_total_iov_len_ok by done; cbn; lia).
  assert (Hp : pres (fun w => e_peers (w_ep w)) (rds_send_eager (K := K) [mkIov buf len] dest (av_addrlen (w_avec w)) tag 0 0 0 tagged false)) by (unfold rds_send_eager; pres).
  eapply wp_mono; [eapply (wp_wlp _ _ _ w); [by apply send_eager_wire|apply Hp]|]. cbn beta. intros r w' [(errno & Elog & Er & _) Ep].
  exists errno. split_and!; [done|done|]. rewrite Elog, El. unfold iov_gather, mem_read. change (iov_addrs [mkIov buf len]) with (seqZ buf len ++ []). by rewrite app_nil_r.
Qed.
End RingLive.
