(* ===== verification/Rendezvous.v ===== *)
(** * Rendezvous transfers

    What a rendezvous receiver asks of the network: the RDMA READs it posts
    move byte [i] of the sender's message to byte [i] of the receive buffer,
    for exactly the bytes that fit.  Programs that do not touch the history
    of the socket ([pres w_log]) are quiet. *)

From stdpp Require Import sorting.
From S2P Require Import Prelude Iov Wire Config Kernel Cq CqFifo Av MrCache MrCacheInv State Mr.
From S2P Require Import MrInv Pending Ring Msg Segments Frame Inv Rules PendInv Safety SafetyRing.
From S2P Require Import SafetyRx SafetyTx Eager Pres.

(** ** Programs that send nothing *)

Section Programs.
Context {K : Type} `{!Kernel K}.
Implicit Types w : world K.

Lemma quiet_cq_write_rx c f l d t s e : pres (@w_log K) (rds_cq_write_rx c f l d t s e).
Proof. unfold rds_cq_write_rx. pres. Qed.
Lemma quiet_cq_write_tx c f l e : pres (@w_log K) (rds_cq_write_tx c f l e).
Proof. unfold rds_cq_write_tx. pres. Qed.
Lemma quiet_pend_upd id f : pres (@w_log K) (pend_upd id f).
Proof. unfold pend_upd. pres. Qed.
Lemma quiet_pend_remove id : pres (@w_log K) (pend_remove id).
Proof. unfold pend_remove. pres. Qed.
Lemma quiet_pend_deref id : pres (@w_log K) (pend_deref id).
Proof. unfold pend_deref, rds_pending_find. pres. Qed.
Lemma quiet_pending_alloc t c f : pres (@w_log K) (rds_pending_alloc t c f).
Proof. unfold rds_pending_alloc, rds_next_id. pres. Qed.
Lemma quiet_defer_read p c o l t : pres (@w_log K) (rds_defer_read p c o l t).
Proof. unfold rds_defer_read, rds_defer_enqueue. pres. Qed.
End Programs.
#[export] Hint Resolve quiet_cq_write_rx quiet_cq_write_tx quiet_pend_upd quiet_pend_remove quiet_pend_deref
  quiet_pending_alloc quiet_defer_read : pres.

(** ** What an RDMA request moves *)

(** The pairs (local address, (remote cookie, remote offset)) a request
    transfers, in order. *)
Definition rdma_moves (s : sent) : list (Z * (Z * Z)) :=
  match sn_rdma s with
  | None => []
  | Some ra => zip (iov_addrs (ra_local ra))
                   ((fun i => (ra_cookie ra, ra_remote_addr ra + i)) <$> seqZ 0 (ra_remote_bytes ra))
  end.

(** The remote bytes a descriptor names, in message order. *)
Definition seg_source (s : rds_rndzv_seg) : list (Z * Z) :=
  (fun i => (seg_cookie s, seg_off s + i)) <$> seqZ 0 (seg_len s).
Definition segs_source (segs : list rds_rndzv_seg) : list (Z * Z) := mjoin (seg_source <$> segs).

(** A READ with notification for the operation [id]. *)
Definition is_read_for (peer : list Z) (id : Z) (s : sent) : Prop :=
  exists cookie off liov errno, s = rdma_sent peer (ofi_sizeofaddr peer) cookie off liov false true id errno.

Lemma slice_exact src off len dst got :
  iov_ok src -> (length src <= RDS_IOV_LIMIT)%nat -> 0 <= off -> 0 <= len -> off + len <= iov_total src ->
  rds_iov_slice src off len = (dst, got) ->
  iov_addrs dst = take (Z.to_nat len) (drop (Z.to_nat off) (iov_addrs src)) /\
  rds_iov_len dst = len /\ (length dst <= RDS_IOV_LIMIT)%nat /\ (0 < len -> dst <> []).
Proof.
  intros [HF HT] Hlim Ho Hl Hle E.
  apply slice_loop_spec in E as (ext & -> & -> & Hp & Hd & _ & Heq); [|done|lia|lia|done|done|cbn; lia].
  cbn [app length] in *. rewrite Z.sub_0_r in Heq. specialize (Heq ltac:(lia)).
  assert (Htot : iov_total ext = len).
  { rewrite <- (iov_addrs_length ext Hp), Heq, length_take, length_drop.
    pose proof (iov_addrs_length src HF). lia. }
  split_and!; [done| |done|].
  - unfold rds_iov_len. rewrite fold_total_iov; [lia|done|lia|rewrite Htot; lia].
  - intros Hpos ->. cbn in Htot. lia.
Qed.

Lemma seg_source_length s : 0 <= seg_len s -> Z.of_nat (length (seg_source s)) = seg_len s.
Proof. intros H. unfold seg_source. rewrite length_fmap, length_seqZ. lia. Qed.

Lemma seg_source_take s n : 0 <= n <= seg_len s ->
  take (Z.to_nat n) (seg_source s) = (fun i => (seg_cookie s, seg_off s + i)) <$> seqZ 0 n.
Proof. intros H. unfold seg_source. rewrite <- fmap_take, seqZ_take. f_equal. f_equal. lia. Qed.

(** One READ moves its part of the message. *)
Lemma read_moves peer id seg liov n errno (l : list Z) :
  0 <= n <= seg_len seg -> rds_iov_len liov = n -> iov_addrs liov = l ->
  rdma_moves (rdma_sent peer (ofi_sizeofaddr peer) (seg_cookie seg) (seg_off seg) liov false true id errno) =
  zip l (take (Z.to_nat n) (seg_source seg)).
Proof. intros Hn El <-. unfold rdma_moves, rdma_sent. cbn. by rewrite El, seg_source_take. Qed.

Section Reads.
Context {K : Type} `{!Kernel K}.
Implicit Types w : world K.

Lemma liov_ok_intro liov : liov <> [] -> (length liov <= RDS_IOV_LIMIT)%nat -> liov_ok liov = true.
Proof. intros Hne Hl. unfold liov_ok. rewrite (proj2 (Nat.ltb_ge _ _) Hl). by destruct liov. Qed.

(** The bookkeeping after one READ touches only the endpoint. *)
Lemma quiet_read_outcome id peer c o liov r : pres (@w_log K)
  (if r =? 0 then pend_upd id (fun p => p <| p_seg_remaining ::= incr32 |> <| p_seg_total ::= incr32 |>)
   else if r =? - FI_EAGAIN then
     d <- rds_defer_read peer c o liov id ;;
     if d =? 0 then pend_upd id (fun p => p <| p_seg_deferred ::= incr32 |> <| p_seg_total ::= incr32 |>)
     else pend_upd id (set_error FI_ENOMEM)
   else pend_upd id (set_error (- r))).
Proof. pres. Qed.

Lemma read_loop_log segs id iov off effective peer w :
  iov_ok iov -> (length iov <= RDS_IOV_LIMIT)%nat -> 0 <= off -> off <= effective -> effective <= iov_total iov ->
  Forall (fun s => 0 < seg_len s) segs -> effective - off <= sumZ (seg_len <$> segs) ->
  wlp (rndzv_read_loop (length segs) segs id iov off effective peer) (fun _ w' => exists reads,
    w_log w' = w_log w ++ reads /\ Forall (is_read_for peer id) reads /\
    mjoin (rdma_moves <$> reads) =
      zip (take (Z.to_nat (effective - off)) (drop (Z.to_nat off) (iov_addrs iov)))
          (take (Z.to_nat (effective - off)) (segs_source segs))) w.
Proof.
  intros Hiov Hlim. revert off w. induction segs as [|seg segs IH]; intros off w Ho Hle Hef Hs Hsum.
  { cbn in Hsum. replace (effective - off) with 0 by lia. apply wlp_ret. exists []. rewrite app_nil_r.
    split_and!; [done|constructor|done]. }
  apply Forall_cons in Hs as [Hs0 Hs]. change (sumZ (seg_len <$> seg :: segs)) with (seg_len seg + sumZ (seg_len <$> segs)) in Hsum.
  assert (0 <= sumZ (seg_len <$> segs)).
  { apply sumZ_nonneg. rewrite Forall_fmap. eapply Forall_impl; [exact Hs|]. cbn. lia. }
  cbn [length rndzv_read_loop]. destruct (off <? effective) eqn:Elt; cbn [negb].
  2: { replace (effective - off) with 0 by lia. apply wlp_ret. exists []. rewrite app_nil_r. split_and!; [done|constructor|done]. }
  cbn zeta. set (n := Z.min (seg_len seg) (effective - off)). assert (Hn : 0 < n <= seg_len seg /\ off + n <= effective) by lia.
  destruct (rds_iov_slice iov off n) as [liov got] eqn:Esl.
  apply slice_exact in Esl as (Ha & Hrl & Hll & Hne); [|done|done|lia|lia|lia]. apply wlp_bind, wlp_of_wp, wp_post_rdma_log.
  { intros Hbad. rewrite liov_ok_intro in Hbad; [done|apply Hne; lia|done]. }
  intros errno k' _. apply wlp_bind. eapply wlp_mono; [apply quiet_read_outcome|]. cbn beta. intros _ w1 E1.
  eapply wlp_mono; [apply (IH (off + n)); [lia|lia|lia|done|unfold n; lia]|].
  cbn beta. intros _ w2 (reads & E2 & Hr & Hmv). rewrite E1 in E2. cbn in E2. rewrite <- app_assoc in E2. cbn [app] in E2.
  eexists (_ :: reads). split_and!; [exact E2|constructor; [by eexists _, _, _, _|done]|].
  match goal with |- mjoin (_ <$> ?x :: _) = _ => change (mjoin (rdma_moves <$> x :: reads)) with (rdma_moves x ++ mjoin (rdma_moves <$> reads)) end.
  rewrite (read_moves _ _ seg _ n _ _ ltac:(lia) Hrl Ha), Hmv.
  assert (Hlz : length (take (Z.to_nat n) (drop (Z.to_nat off) (iov_addrs iov))) = length (take (Z.to_nat n) (seg_source seg))).
  { rewrite !length_take, length_drop. pose proof (iov_addrs_length iov (proj1 Hiov)). pose proof (seg_source_length seg ltac:(lia)). lia. }
  rewrite <- zip_with_app by exact Hlz.
  assert (Hz : Z.to_nat (effective - off) = (Z.to_nat n + Z.to_nat (effective - (off + n)))%nat) by lia.
  rewrite Hz. f_equal.
  - rewrite <- take_take_drop, drop_drop. do 3 f_equal. lia.
  - change (segs_source (seg :: segs)) with (seg_source seg ++ segs_source segs).
    pose proof (seg_source_length seg ltac:(lia)) as Hsl. rewrite take_app.
    destruct (Z.le_gt_cases (seg_len seg) (effective - off)).
    + rewrite !(take_ge (seg_source seg)) by lia. do 2 f_equal. lia.
    + replace (effective - (off + n)) with 0 by lia. cbn [Z.to_nat]. rewrite Nat.add_0_r, take_0.
      replace (Z.to_nat n - length (seg_source seg))%nat with 0%nat by lia. by rewrite take_0.
Qed.

Lemma send_fin_log peer id w :
  wlp (rds_send_fin peer id) (fun _ w' => exists errno, w_log w' = w_log w ++ [fin_sent peer id errno]) w.
Proof. apply wlp_of_wp, wp_send_fin; intros k' errno; [|intros _]; by exists errno. Qed.

Lemma finalize_log id w :
  wlp (rds_rndzv_rx_finalize id) (fun _ w' => exists f, w_log w' = w_log w ++ [f] /\ sn_rdma f = None) w.
Proof.
  unfold rds_rndzv_rx_finalize. apply wlp_bind. eapply wlp_mono; [apply quiet_pend_deref|]. cbn beta. intros p w1 E1.
  apply wlp_bind. eapply wlp_mono; [apply send_fin_log|]. cbn beta. intros _ w2 (errno & E2).
  eapply wlp_mono; [apply (pres_bind w_log _ (fun _ => pend_remove id)); pres|]. cbn beta. intros _ w3 E3.
  eexists. split; [rewrite E3, E2, E1; reflexivity|done].
Qed.

(** An allocation that succeeds. *)
Lemma pending_alloc_id type context flags w :
  0 <= e_op_id (w_ep w) -> e_op_id (w_ep w) + 1 < 2 ^ 64 -> is_Some (k_alloc PENDING_SIZE (w_k w)).1 ->
  wlp (rds_pending_alloc type context flags) (fun r w' => r = Some (e_op_id (w_ep w) + 1) /\ w_log w' = w_log w) w.
Proof.
  intros H0 H1 [a Ha]. unfold rds_pending_alloc. apply wlp_bind. unfold wlp at 1, sys_alloc.
  destruct (k_alloc _ _) as [r k']. cbn in Ha. subst r. unfold rds_next_id. apply wlp_bind, wlp_bind, wlp_bind.
  unfold wlp, ep_upd, modify, ep_get, gets, ret. cbn. rewrite u64_small by lia. rewrite (proj2 (Z.eqb_neq _ 0)) by lia. done.
Qed.

Context `{!MrAgainEnds K}.

Lemma start_read_moves rx hdr segs peer src w :
  world_ok w -> e_op_id (w_ep w) + 1 < 2 ^ 64 -> rx_ok rx -> (length (rx_iov rx) <= RDS_IOV_LIMIT)%nat ->
  Forall (fun s => 0 < seg_len s) segs -> sumZ (seg_len <$> segs) = h_size hdr -> Z.of_nat (length segs) < 2 ^ 16 ->
  is_Some (k_alloc PENDING_SIZE (w_k w)).1 ->
  let n := Z.to_nat (Z.min (h_size hdr) (iov_total (rx_iov rx))) in
  wp (rds_start_rndzv_read rx hdr segs (length segs) peer src) (fun _ w' => exists reads rest,
    w_log w' = w_log w ++ reads ++ rest /\
    mjoin (rdma_moves <$> reads) = zip (take n (iov_addrs (rx_iov rx))) (take n (segs_source segs)) /\
    Forall (is_read_for peer (e_op_id (w_ep w) + 1)) reads /\ Forall (fun s => sn_rdma s = None) rest) w.
Proof.
  intros Hw Hop (Hiov & Hnd & Hlen) Hlim Hpos Hsum Hcnt Hal n. pose proof (pn_op _ _ _ _ _ (wi_pend _ _ _ _ Hw)) as Hop0.
  pose proof (start_read_spec rx hdr segs (length segs) peer src w Hw Hop ltac:(lia) ltac:(lia)) as Hsafe.
  eapply wp_mono; [eapply (wp_wlp _ _ _ w Hsafe)|cbn beta; intros a w' [_ HQ]; exact HQ].
  unfold rds_start_rndzv_read. cbn zeta. apply wlp_bind. eapply wlp_mono; [apply pending_alloc_id; [lia|done|done]|].
  cbn beta. intros r w1 [-> E1]. apply wlp_bind, wlp_of_wp, wp_ep_get. apply wlp_bind.
  eapply wlp_mono; [apply quiet_pend_upd|]. cbn beta. intros _ w2 E2. rewrite Hlen.
  assert (0 <= h_size hdr). { rewrite <- Hsum. apply sumZ_nonneg. rewrite Forall_fmap. eapply Forall_impl; [exact Hpos|]. cbn. lia. }
  pose proof (iov_total_nonneg _ (proj1 Hiov)).
  apply wlp_bind. eapply wlp_mono; [apply read_loop_log; [done|done|lia|lia|lia|done|lia]|]. cbn beta.
  intros _ w3 (reads & E3 & Hr & Hmv). rewrite Z.sub_0_r in Hmv. change (Z.to_nat 0) with 0%nat in Hmv. rewrite drop_0 in Hmv.
  apply wlp_bind. eapply wlp_mono; [apply quiet_pend_deref|]. cbn beta. intros p w4 E4. destruct (_ && _).
  - eapply wlp_mono; [apply finalize_log|]. cbn beta. intros _ w5 (f & E5 & Hf). exists reads, [f].
    split_and!; [rewrite E5, E4, E3, E2, E1; by rewrite app_assoc|exact Hmv|done|by constructor].
  - apply wlp_ret. exists reads, []. rewrite app_nil_r.
    split_and!; [rewrite E4, E3, E2, E1; done|exact Hmv|done|constructor].
Qed.

(** C5: A rendezvous receive reads exactly the right bytes.  When the
    descriptor's segments add up to the announced size, the RDMA READs the
    receiver posts pair byte [i] of the message, as the descriptor names
    it, with byte [i] of the receive buffer, for every [i] below the
    smaller of message and buffer, in order and without repetition; they
    all carry the id of the new operation, and nothing else is asked of the
    RDMA engine. *)
Theorem rndzv_reads_cover rx hdr segs peer src w :
  world_ok w -> e_op_id (w_ep w) + 1 < 2 ^ 64 -> rx_ok rx -> (length (rx_iov rx) <= RDS_IOV_LIMIT)%nat ->
  Forall (fun s => 0 < seg_len s) segs -> sumZ (seg_len <$> segs) = h_size hdr -> Z.of_nat (length segs) < 2 ^ 16 ->
  is_Some (k_alloc PENDING_SIZE (w_k w)).1 ->
  let n := Z.to_nat (Z.min (h_size hdr) (iov_total (rx_iov rx))) in
  wp (rds_start_rndzv_read rx hdr segs (length segs) peer src) (fun _ w' => exists reads rest,
    w_log w' = w_log w ++ reads ++ rest /\
    mjoin (rdma_moves <$> reads) = zip (take n (iov_addrs (rx_iov rx))) (take n (segs_source segs)) /\
    Forall (is_read_for peer (e_op_id (w_ep w) + 1)) reads /\ Forall (fun s => sn_rdma s = None) rest) w.
Proof. apply start_read_moves. Qed.
End Reads.
