(* ===== verification/RndzvEnd.v ===== *)
(** * Rendezvous, end to end

    From the sender's buffer to the receiver's: the descriptor a rendezvous
    send puts on the wire names, byte by byte, the regions the sender keeps
    registered, and the receiver of that descriptor reads exactly those
    bytes into its own buffer. *)

From stdpp Require Import sorting.
From S2P Require Import Prelude Iov Wire Config Kernel Cq CqFifo Av MrCache MrCacheInv State Mr.
From S2P Require Import MrInv Pending Ring Msg Progress Segments Pres Frame Inv Rules PendInv Safety.
From S2P Require Import SafetyRing SafetyRx SafetyTx Eager Rendezvous.

(** ** Registered source buffers *)

(** The region [h] is registered over the chunk [c] and the segment names it. *)
Definition backs (mrs : gmap Z rds_mr) (c : iovec) (s : rds_rndzv_seg) (h : Z) : Prop :=
  exists m, mrs !! h = Some m /\ mr_cookie m = seg_cookie s /\ mr_buf m = iov_base c /\ mr_len m = iov_len c /\
    seg_off s = 0 /\ seg_len s = iov_len c /\ 0 <= seg_cookie s < 2 ^ 64.

(** The remote byte (cookie, offset) is the local byte at [a], in one of the
    regions [hs]. *)
Definition located (mrs : gmap Z rds_mr) (hs : list Z) (r : Z * Z) (a : Z) : Prop :=
  exists h m, h ∈ hs /\ mrs !! h = Some m /\ mr_cookie m = r.1 /\ a = mr_buf m + r.2 /\ 0 <= r.2 < mr_len m.

Lemma backs_located mrs chunks segs hs :
  Forall3 (backs mrs) chunks segs hs -> Forall2 (located mrs hs) (segs_source segs) (iov_addrs chunks).
Proof.
  induction 1 as [|c s h chunks segs hs (m & Hm & Hc & Hb & Hl & Ho & Hsl & _) _ IH]; [constructor|].
  change (segs_source (s :: segs)) with (seg_source s ++ segs_source segs). rewrite iov_addrs_cons. apply Forall2_app.
  2: { eapply Forall2_impl; [exact IH|]. intros r a (h' & m' & Hh' & Hr'). exists h', m'. split; [by apply list_elem_of_further|done]. }
  apply Forall2_same_length_lookup_2.
  { unfold seg_source. by rewrite length_fmap, !length_seqZ, Hsl. }
  intros i r a Hr Ha. unfold seg_source in Hr. rewrite list_lookup_fmap in Hr.
  destruct (seqZ 0 (seg_len s) !! i) as [x|] eqn:Ex; [|done]. injection Hr as <-.
  apply lookup_seqZ in Ex as [-> Hi]. apply lookup_seqZ in Ha as [-> _]. exists h, m. cbn. split_and!; [apply list_elem_of_here|done|done|lia|lia|lia].
Qed.

Section Sender.
Context {K : Type} `{!Kernel K}.
Implicit Types w : world K.

Lemma backs_new w k cookie buf len access c s h :
  (forall x, is_Some (d_mrs (w_dom w) !! x) -> x < d_next_mr (w_dom w)) ->
  backs (d_mrs (w_dom w)) c s h -> backs (d_mrs (w_dom (new_mr w k cookie buf len access))) c s h.
Proof.
  intros Hn (m & Hm & Hr). exists m. split; [|exact Hr]. unfold new_mr. w_simpl. rewrite lookup_insert_ne; [done|].
  intros <-. specialize (Hn _ (ex_intro _ m Hm)). lia.
Qed.

(** What registration leaves alone. *)
Definition reg_rest w := (w_log w, w_ep w, w_live w, w_cqs w, w_avec w, w_mem w, w_cfg w).

Lemma register_backs chunks dest destlen segs hs done w :
  w_live w = true -> (forall x, is_Some (d_mrs (w_dom w) !! x) -> x < d_next_mr (w_dom w)) ->
  Forall3 (backs (d_mrs (w_dom w))) done segs hs ->
  wp (rndzv_register false chunks dest destlen segs hs) (fun '(err, segs', hs') w' => reg_rest w' = reg_rest w /\
    (err = 0 -> Forall3 (backs (d_mrs (w_dom w'))) (done ++ chunks) segs' hs')) w.
Proof.
  revert segs hs done w. induction chunks as [|c chunks IH]; intros segs hs done w Hlive Hn Hb; cbn [rndzv_register].
  { apply wp_ret. rewrite app_nil_r. done. }
  apply wp_bind, wp_ep_get, wp_bind, wp_bind, wp_reg_internal; [done|..].
  - intros err k'. apply wp_ret, wp_ret. split; [done|]. destruct (err =? 0) eqn:Ez; [done|]. intros ->. done.
  - intros cookie k' Hck. apply wp_bind. eapply wp_mr_cookie_of; [unfold new_mr; w_simpl; apply lookup_insert_eq|]. apply wp_ret.
    set (h := d_next_mr (w_dom w)). eapply wp_mono; [apply (IH _ _ (done ++ [c]))|].
    + done.
    + unfold new_mr. w_simpl. intros x. destruct (decide (x = h)) as [->|Hne]; [lia|].
      rewrite lookup_insert_ne by done. intros Hx. specialize (Hn x Hx). fold h. lia.
    + apply Forall3_app; [|constructor; [|constructor]].
      * clear -Hn Hb. induction Hb; constructor; [by apply backs_new|done].
      * eexists. unfold new_mr. w_simpl. split; [apply lookup_insert_eq|]. cbn. done.
    + intros [[err segs'] hs'] w' [Hr Hs]. split; [exact Hr|]. rewrite <- app_assoc in Hs. exact Hs.
Qed.

(** An allocation, exactly. *)
Lemma pending_alloc_exact type context flags w :
  0 <= e_op_id (w_ep w) -> e_op_id (w_ep w) + 1 < 2 ^ 64 ->
  wlp (rds_pending_alloc type context flags) (fun r w' => forall id, r = Some id -> id = e_op_id (w_ep w) + 1 /\
    exists k', w' = w <| w_k := k' |> <| w_ep ::= fun e => e <| e_op_id := id |>
      <| e_pending ::= fun l => l ++ [pending_init id type context flags] |> |>) w.
Proof.
  intros H0 H1. unfold rds_pending_alloc. apply wlp_bind, wlp_of_wp, wp_sys_alloc. intros [a|] k'; [|by apply wlp_ret].
  unfold rds_next_id. apply wlp_bind, wlp_bind, wlp_of_wp, wp_ep_upd, wlp_bind, wlp_of_wp, wp_ep_get. w_simpl.
  rewrite u64_small, (proj2 (Z.eqb_neq _ 0)) by lia. cbn [negb]. apply wlp_ret, wlp_bind, wlp_of_wp, wp_ep_upd, wlp_ret.
  intros id [= <-]. split; [done|]. exists k'. unfold set_field. cbn. by rewrite u64_small by lia.
Qed.

(** A rendezvous send through the socket: one datagram with the segments that
    registration made, which the new pending operation keeps. *)
Lemma send_rndzv_log (made : list rds_rndzv_seg -> list Z -> rds_domain -> Prop) iov dest destlen tag data context flags tagged gen_comp dest_addr w :
  world_ok w -> e_op_id (w_ep w) + 1 < 2 ^ 64 -> e_eager_rdma (w_ep w) = false ->
  (forall k, wp (rndzv_register (caching w) (rndzv_chunks iov) dest destlen [] []) (fun '(err, segs, hs) w' =>
     reg_rest w' = reg_rest w /\ (err = 0 -> made segs hs (w_dom w'))) (w <| w_k := k |>)) ->
  let id := e_op_id (w_ep w) + 1 in
  let hdr := rts_hdr tagged flags tag data (ofi_total_iov_len iov) (u64 (rndzv_nseg iov)) id in
  wlp (rds_send_rndzv iov dest destlen tag data context flags tagged gen_comp dest_addr) (fun r w' => r = 0 -> exists segs hs p,
    w_log w' = w_log w ++ [mkSent (sa_name dest destlen) (rds_hdr_bytes hdr ++ rds_segs_bytes segs) None 0] /\ made segs hs (w_dom w') /\
    e_pending (w_ep w') = e_pending (w_ep w) ++ [p] /\ p_id p = id /\ (if caching w then p_cmrs p else p_mrs p) = Some hs) w.
Proof.
  intros Hw Hop Hrd Hreg id hdr. pose proof (pn_op _ _ _ _ _ (wi_pend _ _ _ _ Hw)) as Hop0. unfold rds_send_rndzv.
  apply wlp_bind, wlp_of_wp, wp_ep_get, wlp_bind, wlp_of_wp, wp_gets. destruct (_ >=? _); [by apply wlp_ret|].
  apply wlp_bind, wlp_of_wp, wp_gets. cbn zeta. fold (caching w). destruct (u64 (u64 _ * _) >? _); [by apply wlp_ret|].
  apply wlp_bind, wlp_of_wp, wp_sys_alloc. intros a1 k1. apply wlp_bind, wlp_of_wp, wp_sys_alloc. intros a2 k2.
  destruct a1; [|by apply wlp_ret]. destruct a2; [|by apply wlp_ret]. apply wlp_bind.
  eapply wlp_mono; [apply wlp_of_wp, (Hreg k2)|]. clear Hreg.
  intros [[err segs] hs] w1 [Hr Hb]. unfold reg_rest in Hr. injection Hr as E1 E2 E3 E4 E5 E6 E7.
  destruct (err =? 0) eqn:Ez; cbn [negb]; [|apply wlp_then_ret; intros s' ->; done].
  apply Z.eqb_eq in Ez. specialize (Hb Ez). apply wlp_bind.
  eapply wlp_mono; [apply pending_alloc_exact; rewrite E2; lia|]. cbn beta. intros [i|] w2 Hal; [|by apply wlp_then_ret].
  destruct (Hal i eq_refl) as [-> [k' Ew2]]. clear Hal. rewrite E2 in *. fold id in Ew2 |- *. fold hdr. apply wlp_bind, wlp_of_wp.
  eapply (wp_pend_upd id _ (e_pending (w_ep w)) _ []); [rewrite Ew2; unfold set_field; cbn; by rewrite E2|done|by apply (fresh_id [] [] None)|].
  match goal with |- wlp _ _ (set_pend _ (_ ++ ?q :: _)) => set (p := q) end. unfold rndzv_send_rts.
  apply wlp_bind, wlp_bind, wlp_of_wp, wp_ep_get.
  replace (e_eager_rdma _) with false by (rewrite Ew2; unfold set_pend, set_field; cbn; by rewrite E2).
  apply wlp_bind, wlp_ret. cbn [Z.eqb Z.opp negb FI_ENOSYS Pos.eqb]. apply wlp_bind, wlp_of_wp, wp_sys_sendmsg. intros errno k3.
  apply wlp_ret. destruct (send_status errno =? 0) eqn:Es; cbn [negb].
  2: { apply wlp_bind. eapply wlp_mono; [instantiate (1 := fun _ _ => True); unfold wlp; by destruct (pend_remove _ _) as [[? ?]|]|].
       intros _ w3 _. apply wlp_then_ret. intros s' Hz. rewrite Hz in Es. done. }
  apply Z.eqb_eq, send_status_zero in Es as ->. apply wlp_bind, wlp_of_wp, wp_ep_upd, wlp_ret. intros _.
  exists segs, hs, p. subst w2. unfold set_pend. w_simpl. rewrite E1. split_and!; [reflexivity|exact Hb|reflexivity..|]. unfold p. by destruct (caching w).
Qed.

(** Without the cache the descriptor is backed by regions of its own. *)
Lemma send_rndzv_wire iov dest destlen tag data context flags tagged gen_comp dest_addr w :
  world_ok w -> e_op_id (w_ep w) + 1 < 2 ^ 64 ->
  d_cache_enabled (w_dom w) = false -> e_eager_rdma (w_ep w) = false ->
  let id := e_op_id (w_ep w) + 1 in
  let hdr := rts_hdr tagged flags tag data (ofi_total_iov_len iov) (u64 (rndzv_nseg iov)) id in
  wlp (rds_send_rndzv iov dest destlen tag data context flags tagged gen_comp dest_addr) (fun r w' => r = 0 -> exists segs hs p,
    w_log w' = w_log w ++ [mkSent (sa_name dest destlen) (rds_hdr_bytes hdr ++ rds_segs_bytes segs) None 0] /\
    Forall3 (backs (d_mrs (w_dom w'))) (rndzv_chunks iov) segs hs /\
    e_pending (w_ep w') = e_pending (w_ep w) ++ [p] /\ p_id p = id /\ p_mrs p = Some hs) w.
Proof.
  intros Hw Hop Hca Hrd. pose proof (send_rndzv_log (fun segs hs d => Forall3 (backs (d_mrs d)) (rndzv_chunks iov) segs hs)) as H.
  unfold caching in H. specialize (H iov dest destlen tag data context flags tagged gen_comp dest_addr w Hw Hop Hrd). rewrite Hca in H. apply H.
  intros k. eapply wp_mono; [apply (register_backs _ _ _ [] [] [] (w <| w_k := k |>)); [apply Hw|exact (ms_next _ _ _ _ (wi_mrs _ _ _ _ Hw))|constructor]|].
  by intros [[err segs] hs] w' [? ?].
Qed.
End Sender.

(** ** The receiver *)

Lemma payload_segs_bytes segs tail : Forall rds_seg_ok segs -> payload_segs (length segs) (rds_segs_bytes segs ++ tail) = segs.
Proof.
  induction 1 as [|s segs Hs _ IH]; [done|]. change (rds_segs_bytes (s :: segs)) with (rds_seg_bytes s ++ rds_segs_bytes segs).
  cbn [length payload_segs]. rewrite <- app_assoc.
  destruct (Nat.ltb_spec (length (rds_seg_bytes s ++ rds_segs_bytes segs ++ tail)) 24) as [Hlt|_].
  { rewrite length_app, rds_seg_bytes_length in Hlt. lia. }
  rewrite drop_app_length' by (by rewrite rds_seg_bytes_length). by rewrite IH, rds_seg_roundtrip.
Qed.

Lemma backs_segs mrs chunks segs hs :
  Forall3 (backs mrs) chunks segs hs -> Forall (fun c => 0 < iov_len c <= RDS_KERNEL_SEG_MAX) chunks ->
  Forall rds_seg_ok segs /\ Forall (fun s => 0 < seg_len s) segs /\ sumZ (seg_len <$> segs) = iov_total chunks /\
  length segs = length chunks.
Proof.
  induction 1 as [|c s h chunks segs hs (m & _ & _ & _ & _ & Ho & Hl & Hc) _ IH]; intros Hf; [done|].
  apply Forall_cons in Hf as [Hc0 Hf]. destruct (IH Hf) as (H1 & H2 & H3 & H4). unfold RDS_KERNEL_SEG_MAX in *.
  split_and!; [constructor; [unfold rds_seg_ok; lia|done]|constructor; [lia|done]| |cbn; lia].
  rewrite iov_total_cons. change (sumZ (seg_len <$> s :: segs)) with (seg_len s + sumZ (seg_len <$> segs)). lia.
Qed.

Lemma rts_hdr_ok tagged flags tag data size nseg id :
  0 <= tag < 2 ^ 64 -> 0 <= data < 2 ^ 64 -> 0 <= size < 2 ^ 64 -> 0 <= id < 2 ^ 64 ->
  rds_hdr_ok (rts_hdr tagged flags tag data size nseg id).
Proof.
  intros Ht Hd Hs Hi. pose proof (hf_flags_range tagged flags). assert (Hu : 0 <= u16 nseg < 2 ^ 16) by (by apply Z.mod_pos_bound).
  change (rts_hdr tagged flags tag data size nseg id)
    with (mkHdr RDS_HDR_MAGIC RDS_OP_RTS (hf_flags tagged flags) (u16 nseg) tag data size id).
  unfold rds_hdr_ok. cbn [h_magic h_op h_flags h_seg_cnt h_tag h_data h_size h_id]. unfold RDS_HDR_MAGIC, RDS_OP_RTS. lia.
Qed.

Section EndToEnd.
Context {K : Type} `{!Kernel K} `{!MrAgainEnds K}.
Implicit Types w : world K.

(** A descriptor that meets its receive. *)
Lemma rts_arrives tagged flags tag data size id segs src w l1 rx l2 :
  world_ok w -> e_op_id (w_ep w) + 1 < 2 ^ 64 -> 0 <= tag < 2 ^ 64 -> 0 <= data < 2 ^ 64 -> 0 <= size < 2 ^ 64 -> 0 <= id < 2 ^ 64 ->
  Forall rds_seg_ok segs -> Forall (fun s => 0 < seg_len s) segs -> sumZ (seg_len <$> segs) = size -> Z.of_nat (length segs) < 2 ^ 16 ->
  posted_list tagged (w_ep w) = l1 ++ rx :: l2 -> rx_ok rx -> (length (rx_iov rx) <= RDS_IOV_LIMIT)%nat ->
  is_Some (k_alloc PENDING_SIZE (w_k w)).1 ->
  let fi := ofi_av_lookup_fi_addr (w_avec w) src in
  Forall (fun r => posted_match tagged tag fi r = false) l1 -> posted_match tagged tag fi rx = true ->
  let hdr := rts_hdr tagged flags tag data size (Z.of_nat (length segs)) id in
  let n := Z.to_nat (Z.min size (iov_total (rx_iov rx))) in
  wp (progress_msg src (rds_hdr_bytes hdr ++ rds_segs_bytes segs) false []) (fun _ w' => exists reads rest,
    w_log w' = w_log w ++ reads ++ rest /\
    mjoin (rdma_moves <$> reads) = zip (take n (iov_addrs (rx_iov rx))) (take n (segs_source segs)) /\
    Forall (is_read_for src (e_op_id (w_ep w) + 1)) reads /\ Forall (fun s => sn_rdma s = None) rest) w.
Proof.
  intros Hw Hop Ht Hd Hs Hi Hok Hpos Hsum Hcnt El Hrx Hlim Hal fi Hno Hyes hdr n.
  assert (Htag : hdr_tagged hdr = tagged) by apply hf_flags_tagged. apply wp_datagram; [apply Hw|by apply rts_hdr_ok|].
  assert (Hc : h_seg_cnt hdr = Z.of_nat (length segs)) by (apply u16_small; lia).
  rewrite inbound_matchable.
  2: { split; [done|right]. split; [done|]. rewrite Hc, rds_segs_bytes_length. unfold RDS_SEG_SIZE. lia. }
  fold fi. rewrite Htag. unfold rds_match_posted. apply wp_bind, wp_bind, wp_ep_get. change (h_tag hdr) with tag.
  rewrite (proj2 (find_split_Some _ _ l1 rx l2)) by done. apply wp_bind, wp_ep_upd, wp_ret. change (h_op hdr =? RDS_OP_EAGER) with false.
  rewrite Hc, Nat2Z.id. rewrite <- (app_nil_r (rds_segs_bytes segs)), payload_segs_bytes by done.
  match goal with |- wp _ _ ?wg => assert (Hw1 : world_ok wg);
    [|pose proof (start_read_moves rx hdr segs src fi wg Hw1) as Hr] end.
  { apply wi_set_posted; [done|]. pose proof (wi_match _ _ _ _ tagged Hw) as Hm. rewrite El in Hm. by eapply match_ok_posted_sub. }
  destruct tagged; exact (Hr Hop Hrx Hlim Hpos Hsum Hcnt Hal).
Qed.

(** Reads of the right places are moves between the two buffers. *)
Lemma moves_located mrs hs (dst : list Z) (srcs : list (Z * Z)) (addrs : list Z) :
  Forall2 (located mrs hs) srcs addrs ->
  Forall2 (fun mv da => mv.1 = da.1 /\ located mrs hs mv.2 da.2) (zip dst srcs) (zip dst addrs).
Proof.
  intros Hl. revert dst. induction Hl as [|r a srcs addrs Hr _ IH]; intros [|d dst]; cbn; try constructor; [done|apply IH].
Qed.

End EndToEnd.

Section Transfer.
Context {K : Type} `{!Kernel K}.

(** C6: A rendezvous message reaches the receive buffer byte for byte, from
    a sender whose registration cache and eager rings are off
    ([d_cache_enabled] and [e_eager_rdma] are false), under a kernel with
    [MrAgainEnds].  (With the cache on the descriptor may name the wrong
    bytes, Limits.cached_send_names_region_start.)  A
    send that is accepted puts one descriptor on the wire and keeps the
    regions it names registered under a new pending operation; when the
    descriptor reaches an endpoint where it meets a posted receive, the
    RDMA requests posted there are READs carrying the id of the receive
    operation, and the [i]-th byte they move comes from byte [i] of the
    sender's buffer and goes to byte [i] of the receive buffer, for every
    [i] up to the smaller of the two.  The message is within the size and the
    scatter limit of the provider, the oldest posted receive that matches is
    [rx], and the receiver can allocate its pending operation. *)
Theorem rndzv_end_to_end (Hagain : MrAgainEnds K) iov dest destlen tag data context flags tagged gen_comp dest_addr (ws wr : world K) src l1 rx l2 :
  world_ok ws -> world_ok wr -> e_op_id (w_ep ws) + 1 < 2 ^ 64 -> e_op_id (w_ep wr) + 1 < 2 ^ 64 ->
  iov_ok iov -> (length iov <= RDS_IOV_LIMIT)%nat -> iov_total iov <= RDS_MAX_MSG_SIZE ->
  d_cache_enabled (w_dom ws) = false -> e_eager_rdma (w_ep ws) = false -> 0 <= tag < 2 ^ 64 -> 0 <= data < 2 ^ 64 ->
  posted_list tagged (w_ep wr) = l1 ++ rx :: l2 -> rx_ok rx -> (length (rx_iov rx) <= RDS_IOV_LIMIT)%nat ->
  is_Some (k_alloc PENDING_SIZE (w_k wr)).1 ->
  let fi := ofi_av_lookup_fi_addr (w_avec wr) src in
  Forall (fun r => posted_match tagged tag fi r = false) l1 -> posted_match tagged tag fi rx = true ->
  let n := Z.to_nat (Z.min (iov_total iov) (iov_total (rx_iov rx))) in
  wp (rds_send_rndzv iov dest destlen tag data context flags tagged gen_comp dest_addr) (fun r ws' => r = 0 ->
    exists d hs p, w_log ws' = w_log ws ++ [mkSent (sa_name dest destlen) d None 0] /\
      e_pending (w_ep ws') = e_pending (w_ep ws) ++ [p] /\ p_mrs p = Some hs /\
      wp (progress_msg src d false []) (fun _ wr' => exists reads rest,
        w_log wr' = w_log wr ++ reads ++ rest /\
        Forall (is_read_for src (e_op_id (w_ep wr) + 1)) reads /\ Forall (fun s => sn_rdma s = None) rest /\
        Forall2 (fun mv da => mv.1 = da.1 /\ located (d_mrs (w_dom ws')) hs mv.2 da.2)
          (mjoin (rdma_moves <$> reads)) (zip (take n (iov_addrs (rx_iov rx))) (take n (iov_addrs iov)))) wr) ws.
Proof.
  intros Hws Hwr Hos Hor Hiov Hlim Hmax Hca Hrd Ht Hd El Hrx Hrl Hal fi Hno Hyes n.
  pose proof (send_rndzv_spec iov dest destlen tag data context flags tagged gen_comp dest_addr ws Hws Hos Hiov) as Hsafe.
  eapply wp_mono; [eapply (wp_wlp _ _ _ ws Hsafe); by apply send_rndzv_wire|]. cbn beta.
  intros r ws' [_ Hwire] Hr. destruct (Hwire Hr) as (segs & hs & p & Elog & Hb & Ep & _ & Hp).
  destruct (rndzv_chunks_spec iov (proj1 Hiov)) as (Hn & Ha & Hf). destruct (backs_segs _ _ _ _ Hb Hf) as (Hsok & Hpos & Hsum & Hlen).
  assert (Htot : iov_total (rndzv_chunks iov) = iov_total iov).
  { pose proof (iov_addrs_length iov (proj1 Hiov)) as L1.
    pose proof (iov_addrs_length (rndzv_chunks iov) ltac:(eapply Forall_impl; [exact Hf|cbn; lia])) as L2. rewrite Ha in L2. lia. }
  pose proof (nseg_max iov (proj1 Hiov) Hlim Hmax) as Hmx. pose proof (pn_op _ _ _ _ _ (wi_pend _ _ _ _ Hws)).
  assert (0 <= iov_total iov) by (pose proof (iov_addrs_length iov (proj1 Hiov)); lia).
  eexists _, hs, p. split_and!; [exact Elog|exact Ep|exact Hp|]. rewrite u64_small, <- Hn, <- Hlen, ofi_total_iov_len_ok by (done || lia).
  eapply wp_mono; [eapply (rts_arrives tagged flags tag data (iov_total iov)); try done; try lia; destruct Hiov; lia|].
  cbn beta. intros _ wr' (reads & rest & E1 & E2 & E3 & E4). exists reads, rest. split_and!; [done..|]. rewrite E2.
  apply moves_located, Forall2_take. rewrite <- Ha. exact (backs_located _ _ _ _ Hb).
Qed.
End Transfer.
