(* ===== verification/Complete.v ===== *)
(** * Completion of operations

    When and how an asynchronous operation ends: the notification of its
    last RDMA request, or the FIN of the peer.  Each ends it exactly once,
    with the completion it is due. *)

From stdpp Require Import sorting.
From S2P Require Import Prelude Iov Wire Config Kernel Cq CqFifo Av MrCache MrCacheInv State Mr.
From S2P Require Import MrInv Pending Ring Msg Progress Frame Inv Rules PendInv Safety SafetyRing.
From S2P Require Import SafetyRx SafetyTx Eager.

Section Complete.
Context {K : Type} `{!Kernel K} `{!MrAgainEnds K}.
Implicit Types w : world K.

(** The end of a rendezvous receive: a FIN leaves for the sender, or is
    parked when the socket is full; one completion, unless none is wanted
    and nothing failed; the operation is gone. *)
Definition finalized (p : rds_pending) (l1 l2 : list rds_pending) w w' : Prop :=
  e_pending (w_ep w') = l1 ++ l2 /\
  (exists errno, w_log w' = w_log w ++ [fin_sent (p_peer p) (p_peer_id p) errno] /\
     (e_deferred (w_ep w') = e_deferred (w_ep w) \/
      send_status errno = - FI_EAGAIN /\ e_deferred (w_ep w') = e_deferred (w_ep w) ++ [fin_parked (p_peer p) (p_peer_id p)])) /\
  (if negb (p_no_comp p) || negb (p_error p =? 0)
   then posted K (w_cqs w) (e_rx_cq (w_ep w)) (comp_of (p_context p) (p_flags p) (p_len p) (p_data p) (p_tag p) (p_error p))
          (rx_src w (p_addr p) (p_error p)) (w_cqs w')
   else w_cqs w' = w_cqs w).

Lemma finalize_exact id l1 p l2 xp w :
  world_inv [] [] xp w -> e_pending (w_ep w) = l1 ++ p :: l2 -> p_id p = id ->
  wp (rds_rndzv_rx_finalize id) (fun _ w' => finalized p l1 l2 w w') w.
Proof.
  intros Hw E Hid. destruct (wi_pend_split _ _ _ _ _ _ _ Hw E) as (Hl1 & Hp & _ & _). rewrite Hid in Hl1.
  unfold rds_rndzv_rx_finalize. apply wp_bind. eapply wp_pend_deref; [done..|]. apply wp_bind.
  assert (Hrest : forall w1, cqs_ok w1 -> e_pending (w_ep w1) = l1 ++ p :: l2 -> w_cqs w1 = w_cqs w -> bound_of w1 = bound_of w ->
    (exists errno, w_log w1 = w_log w ++ [fin_sent (p_peer p) (p_peer_id p) errno] /\
       (e_deferred (w_ep w1) = e_deferred (w_ep w) \/
        send_status errno = - FI_EAGAIN /\ e_deferred (w_ep w1) = e_deferred (w_ep w) ++ [fin_parked (p_peer p) (p_peer_id p)])) ->
    wp ((if negb (p_no_comp p) || negb (p_error p =? 0)
         then rds_cq_write_rx (p_context p) (p_flags p) (p_len p) (p_data p) (p_tag p) (p_addr p) (p_error p)
         else ret tt) ;;; pend_remove id) (fun _ w' => finalized p l1 l2 w w') w1).
  { intros w1 Hc1 E1 Ec1 Eb1 Hl. assert (Erx : e_rx_cq (w_ep w1) = e_rx_cq (w_ep w)) by (unfold bound_of in Eb1; congruence).
    assert (Esrc : rx_src w1 (p_addr p) (p_error p) = rx_src w (p_addr p) (p_error p)).
    { unfold rx_src. assert (e_caps (w_ep w1) = e_caps (w_ep w)) as -> by (unfold bound_of in Eb1; congruence). done. }
    apply wp_bind. unfold finalized. destruct (negb (p_no_comp p) || negb (p_error p =? 0)) eqn:Eb.
    - apply wp_cq_write_rx; [done|apply Hp|]. intros cqs k' Hpo. eapply wp_pend_remove; [exact E1|done..|].
      split_and!; [done|exact Hl|]. rewrite <- Ec1, <- Erx, <- Esrc. exact Hpo.
    - apply wp_ret. eapply wp_pend_remove; [exact E1|done..|]. split_and!; [done|exact Hl|exact Ec1]. }
  apply wp_send_fin.
  - intros k' errno. apply Hrest; [|done..|].
    + by eapply (cqs_ok_bound w); [..|exact (wi_cqs _ _ _ _ Hw)].
    + exists errno. split; [done|by left].
  - intros k' errno He. apply Hrest; [|done..|].
    + by eapply (cqs_ok_bound w); [..|exact (wi_cqs _ _ _ _ Hw)].
    + exists errno. split; [done|by right].
Qed.

(** The operation with the outcome of one more request recorded. *)
Definition noted (status : Z) (p : rds_pending) : rds_pending :=
  if status =? 0 then p else set_error (abs_err status) p.

(** Nothing but the record of the operation changed. *)
Definition only_noted (p' : rds_pending) (l1 l2 : list rds_pending) w w' : Prop :=
  e_pending (w_ep w') = l1 ++ p' :: l2 /\ w_cqs w' = w_cqs w /\ w_log w' = w_log w.

Lemma noted_like status p : pend_like p (noted status p) /\
  p_seg_remaining (noted status p) = p_seg_remaining p /\ p_seg_deferred (noted status p) = p_seg_deferred p.
Proof. unfold noted. destruct (status =? 0); [done|]. apply set_error_like. Qed.

Lemma notify_exact token status w l1 p l2 :
  world_ok w -> e_pending (w_ep w) = l1 ++ p :: l2 -> p_id p = token ->
  let p1 := noted status p in
  let p2 := p1 <| p_seg_remaining := p_seg_remaining p - 1 |> in
  wp (rds_handle_rdma_notify token status) (fun _ w' =>
    if p_seg_remaining p =? 0 then only_noted p1 l1 l2 w w'
    else if p_seg_remaining p >? 1 then only_noted p2 l1 l2 w w'
    else match p_type p with
         | RDS_PEND_RMA => completed p2 l1 l2 0 w w'
         | RDS_PEND_RNDZV_RX => if p_seg_deferred p =? 0 then finalized p2 l1 l2 w w' else only_noted p2 l1 l2 w w'
         | RDS_PEND_RNDZV_TX => only_noted p2 l1 l2 w w'
         end) w.
Proof.
  intros Hw E Hid p1 p2. destruct (wi_pend_split _ _ _ _ _ _ _ Hw E) as (Hl1 & Hp & _ & Hb). rewrite Hid in Hl1.
  assert (Elk : pending_lookup token (e_pending (w_ep w)) = Some p).
  { rewrite E, <- Hid. apply pending_at. by rewrite Hid. }
  pose proof Hp as [_ _ Hr Hd Hs _]. destruct (noted_like status p) as (Hlk & Er & Ed). fold p1 in Hlk, Er, Ed.
  unfold rds_handle_rdma_notify. apply wp_bind, wp_ep_get. rewrite Elk. apply wp_bind.
  apply wp_mono with (Q := fun _ w1 => w1 = set_pend w (l1 ++ p1 :: l2)).
  { unfold p1, noted. destruct (status =? 0); cbn [negb].
    - apply wp_ret. rewrite <- E. symmetry. apply set_pend_id.
    - by eapply wp_pend_upd; [exact E|done|done|]. }
  intros _ ? ->. set (w1 := set_pend w (l1 ++ p1 :: l2)).
  assert (Hid1 : p_id p1 = token) by (destruct Hlk; congruence).
  destruct (p_seg_remaining p =? 0) eqn:Ez; [by apply wp_ret|]. cbn zeta.
  assert (Edec : decr32 (p_seg_remaining p) = p_seg_remaining p - 1) by (unfold decr32; apply u32_small; lia).
  rewrite Edec. apply wp_bind. eapply (wp_pend_upd _ _ l1 p1 l2); [done|done|done|]. fold p2.
  set (w2 := set_pend w1 (l1 ++ p2 :: l2)). destruct (p_seg_remaining p >? 1) eqn:Eg.
  { rewrite (proj2 (Z.eqb_neq (p_seg_remaining p - 1) 0)) by lia. by apply wp_ret. }
  assert (Ez1 : p_seg_remaining p - 1 = 0) by lia. rewrite Ez1. cbn [Z.eqb negb].
  assert (Hlk2 : pend_like p p2) by exact Hlk. assert (E2 : e_pending (w_ep w2) = l1 ++ p2 :: l2) by done.
  assert (Hw2 : is_rndzv_tx (p_type p) = false -> world_inv [] [] (Some (p_id p2)) w2).
  { intros Ht. destruct Hlk2 as (Eid2 & _). rewrite Eid2. change w2 with (set_pend w (l1 ++ p2 :: l2)).
    eapply wi_update; [by eapply wi_open|exact E|exact Hlk|done|unfold p2; cbn; lia|unfold p2; cbn; lia|by left]. }
  destruct (p_type p) eqn:Ety; [by apply wp_ret| |].
  - destruct (p_seg_deferred p =? 0); [|by apply wp_ret].
    eapply wp_mono; [eapply finalize_exact; [by apply Hw2|exact E2|done]|]. cbn beta. intros _ w' Hf. exact Hf.
  - assert (Ety2 : p_type p2 = RDS_PEND_RMA) by (destruct Hlk2 as (_ & -> & _); done).
    eapply wp_mono; [eapply (complete_exact token l1 p2 l2 (Some (p_id p2)) w2); [by apply Hw2|exact E2|done| |]|].
    + right. rewrite Ety2. split; [by rewrite <- Hid1|done].
    + change (p_seg_deferred p1 = 0). rewrite Ed. eapply no_parked; [exact Hw| |by rewrite Ety].
      rewrite E. apply elem_of_app. right. apply list_elem_of_here.
    + cbn beta. intros _ w' (_ & _ & Hc). rewrite decide_False in Hc by (unfold counted; tauto). exact Hc.
Qed.

End Complete.

Section Counts.
Context {K : Type} `{!Kernel K}.
Implicit Types w : world K.

(** C14: Every RDMA notification is counted once (for a kernel with
    [MrAgainEnds]).  A status of an unknown
    operation changes nothing.  Otherwise the first error is recorded and
    the outstanding count goes down by one; as long as requests are
    outstanding or parked nothing is reported; the last notification
    reports a one-sided operation to the transmit queue, or sends the FIN
    of a rendezvous receive and reports it to the receive queue, with the
    first error that occurred, and removes the operation.  A rendezvous
    receive that failed is always reported; a one-sided operation is reported
    if a completion was asked for, and a failed one that asked for none is
    not, which is against fi_endpoint.3 ([unsignalled_rma_error_lost]).  A
    completion is lost only when it takes an overflow entry (an error, or a
    full queue) that the allocator can refuse. *)
Theorem rdma_notify_counts (Hagain : MrAgainEnds K) token status w :
  world_ok w ->
  match pending_lookup token (e_pending (w_ep w)) with
  | None => rds_handle_rdma_notify token status w = Some (tt, w)
  | Some p => exists l1 l2, e_pending (w_ep w) = l1 ++ p :: l2 /\
      let p1 := noted status p in
      let p2 := p1 <| p_seg_remaining := p_seg_remaining p - 1 |> in
      wp (rds_handle_rdma_notify token status) (fun _ w' =>
        if p_seg_remaining p =? 0 then only_noted p1 l1 l2 w w'
        else if p_seg_remaining p >? 1 then only_noted p2 l1 l2 w w'
        else match p_type p with
             | RDS_PEND_RMA => completed p2 l1 l2 0 w w'
             | RDS_PEND_RNDZV_RX => if p_seg_deferred p =? 0 then finalized p2 l1 l2 w w' else only_noted p2 l1 l2 w w'
             | RDS_PEND_RNDZV_TX => only_noted p2 l1 l2 w w'
             end) w
  end.
Proof.
  intros Hw. destruct (pend_viewP token (e_pending (w_ep w))) as [l1 p l2 E Hid Hl1 Elk _ _|_ Elk _ _]; rewrite Elk.
  - exists l1, l2. split; [done|]. by apply notify_exact.
  - unfold rds_handle_rdma_notify, bind, rds_pending_find, ep_get, gets. by rewrite Elk.
Qed.

End Counts.

Lemma fin_hdr_ok id : 0 <= id < 2 ^ 64 -> rds_hdr_ok (fin_hdr id).
Proof. intros Hid. unfold rds_hdr_ok, fin_hdr, set_field. cbn. unfold RDS_HDR_MAGIC, RDS_OP_FIN. lia. Qed.

Section Fin.
Context {K : Type} `{!Kernel K} `{!MrAgainEnds K}.
Implicit Types w : world K.

(** The FIN of a send that is under way. *)
Lemma fin_exact id src w l1 p l2 :
  world_ok w -> 0 <= id < 2 ^ 64 -> e_pending (w_ep w) = l1 ++ p :: l2 -> p_id p = id -> is_rndzv_tx (p_type p) = true ->
  wp (progress_msg src (rds_hdr_bytes (fin_hdr id)) false []) (fun _ w' => world_ok w' /\ completed p l1 l2 1 w w') w.
Proof.
  intros Hw Hid E Hpid Et. destruct (wi_pend_split _ _ _ _ _ _ _ Hw E) as (Hl1 & _). rewrite Hpid in Hl1.
  rewrite <- (app_nil_r (rds_hdr_bytes (fin_hdr id))). apply wp_datagram; [apply Hw|by apply fin_hdr_ok|].
  unfold rds_handle_inbound. cbn zeta. change (h_magic (fin_hdr id)) with RDS_HDR_MAGIC. rewrite Z.eqb_refl.
  change (h_op (fin_hdr id)) with RDS_OP_FIN. change (h_id (fin_hdr id)) with id. rewrite Z.eqb_refl. cbn [negb].
  assert (Elk : pending_lookup id (e_pending (w_ep w)) = Some p) by (rewrite E, <- Hpid; apply pending_at; by rewrite Hpid).
  apply wp_bind, wp_ep_get. rewrite Elk, Et.
  eapply wp_mono; [eapply (complete_exact id l1 p l2 None); [exact Hw|exact E|done|by left|]|].
  - eapply no_parked; [exact Hw|rewrite E; apply elem_of_app; right; apply list_elem_of_here|]. by intros HR; rewrite HR in Et.
  - cbn beta. intros _ w' (Hw' & _ & Hc). split; [done|]. by rewrite decide_True in Hc by done.
Qed.

(** A FIN ends the send it names, once.  The sender's operation leaves
    the pending list, its in-flight slot is free again, and the send is
    reported to the transmit queue when a completion was asked for; a FIN
    for anything else (a duplicate, or an id that is not a send) changes
    nothing. *)
Theorem fin_completes_send id src w :
  world_ok w -> 0 <= id < 2 ^ 64 ->
  wp (progress_msg src (rds_hdr_bytes (fin_hdr id)) false []) (fun _ w' =>
    match pending_lookup id (e_pending (w_ep w)) with
    | Some p => if is_rndzv_tx (p_type p)
                then exists l1 l2, e_pending (w_ep w) = l1 ++ p :: l2 /\ completed p l1 l2 1 w w'
                else w' = w
    | None => w' = w
    end) w.
Proof.
  intros Hw Hid. destruct (pend_viewP id (e_pending (w_ep w))) as [l1 p l2 E Hpid Hl1 Elk _ _|_ Elk _ _]; rewrite Elk.
  1: destruct (is_rndzv_tx (p_type p)) eqn:Et.
  { eapply wp_mono; [by eapply fin_exact|]. cbn beta. intros _ w' [_ Hc]. by exists l1, l2. }
  all: rewrite <- (app_nil_r (rds_hdr_bytes (fin_hdr id))); apply wp_datagram; [apply Hw|by apply fin_hdr_ok|].
  all: unfold rds_handle_inbound; cbn zeta; change (h_magic (fin_hdr id)) with RDS_HDR_MAGIC; rewrite Z.eqb_refl;
    change (h_op (fin_hdr id)) with RDS_OP_FIN; change (h_id (fin_hdr id)) with id; rewrite Z.eqb_refl; cbn [negb];
    apply wp_bind, wp_ep_get; rewrite Elk, ?Et; by apply wp_ret.
Qed.
End Fin.

Section Unsignalled.
Context {K : Type} `{!Kernel K}.
Implicit Types w : world K.

End Unsignalled.
