(* ===== verification/Lifecycle.v ===== *)
(** * The life of an operation

    From the call to the completion: a send or a one-sided operation that is
    refused leaves no trace; one that is accepted is reported exactly once,
    and what ends it - the FIN of the peer, or the notifications of its
    segments - leaves the endpoint with nothing of it but the completion.
    Throughout, reported means [posted]: the completion is the last one of the
    queue, or it was lost because it needed an overflow entry (an error, or a
    full array) that the allocator can refuse. *)

From stdpp Require Import sorting.
From S2P Require Import Prelude Iov Wire Config Kernel Cq CqFifo Av MrCache MrCacheInv State Mr.
From S2P Require Import MrInv Pending Ring Msg Rma Progress Ep Frame Inv Rules PendInv Safety SafetyRing.
From S2P Require Import SafetyRx SafetyTx Eager Complete.

Section Lifecycle.
Context {K : Type} `{!Kernel K}.
Implicit Types w : world K.

(** The call asked for a completion. *)
Definition signalled w (flags : Z) : bool := has (Z.lor (e_tx_op_flags (w_ep w)) flags) FI_COMPLETION.

(** ** Sends *)

(** C7: A send is refused or completes exactly once (for a kernel that
    answers a registration with EAGAIN only finitely often in a row,
    [MrAgainEnds]).  A call that returns an
    error leaves no operation and no completion behind.  A call that returns
    0 has either finished, with the one completion that was asked for, or
    left one operation pending; then the FIN that names it removes it, gives
    its in-flight slot back and reports it, once, if a completion was asked
    for.  Reported: the completion is the last one of the transmit queue,
    unless the array of the queue is full and the overflow entry it then
    takes can be refused by the allocator; or there is no such queue. *)
Theorem send_completes_once (Hagain : MrAgainEnds K) iov dest_addr tag data context flags tagged src w :
  world_ok w -> e_op_id (w_ep w) + 1 < 2 ^ 64 -> iov_ok iov ->
  let gen := signalled w flags in
  let len := ofi_total_iov_len iov in
  let idle w' := e_pending (w_ep w') = e_pending (w_ep w) /\ e_rndzv_tx_inflight (w_ep w') = e_rndzv_tx_inflight (w_ep w) in
  wp (rds_generic_send iov dest_addr tag data context flags tagged) (fun r w' =>
    if negb (r =? 0) then idle w' /\ w_cqs w' = w_cqs w
    else idle w' /\ tx_reported gen context (tx_comp_flags tagged) len 0 w w' \/
      exists p, e_pending (w_ep w') = e_pending (w_ep w) ++ [p] /\ p_context p = context /\ w_cqs w' = w_cqs w /\
        wp (progress_msg src (rds_hdr_bytes (fin_hdr (p_id p))) false []) (fun _ w'' =>
          idle w'' /\ tx_reported gen context (tx_comp_flags tagged) len 0 w w'') w') w.
Proof.
  intros Hw Hop Hiov gen len idle. eapply wp_mono; [by apply generic_send_spec|]. cbn beta.
  intros r w' (Hw' & Hmv & Ho). unfold send_outcome in Ho. destruct (r =? 0); cbn [negb]; [|destruct Ho as (? & ? & ?); by split_and!].
  destruct Ho as [(? & ? & ?)|(p & (Hty & Hcx & Hfl & Hln & Hnc & Her) & Ep & Ei & Ec)]; [left; by split_and!|right]. exists p. split_and!; [done..|].
  pose proof (wi_pend _ _ _ _ Hw') as Hpn. pose proof (pn_range _ _ _ _ _ Hpn) as Hrg. rewrite Ep in Hrg. apply Forall_app in Hrg as [_ Hrg].
  apply Forall_cons in Hrg as [Hrg _]. pose proof (pn_op _ _ _ _ _ Hpn).
  eapply wp_mono; [eapply (fin_exact (p_id p) src w' (e_pending (w_ep w)) p []); [done|lia|done|done|by rewrite Hty]|]. cbn beta.
  intros _ w2 [_ (E2 & I2 & C2)]. rewrite app_nil_r in E2. split; [split; [done|lia]|].
  assert (Et : e_tx_cq (w_ep w') = e_tx_cq (w_ep w)) by (destruct Hmv as (_ & _ & Hb); unfold bound_of in Hb; congruence).
  rewrite Hty, Hcx, Hfl, Hln, Hnc, Her, Ec, Et, negb_involutive in C2. unfold tx_reported. rewrite andb_true_r. exact C2.
Qed.

(** ** One-sided operations *)

(** Deliver the notifications of an operation. *)
Fixpoint notify_all (token : Z) (statuses : list Z) : St K unit :=
  match statuses with
  | [] => ret tt
  | s :: l => rds_handle_rdma_notify token s ;;; notify_all token l
  end.

(** The error an operation ends with: the first one. *)
Definition first_error (err : Z) (statuses : list Z) : Z :=
  fold_left (fun e s => if negb (e =? 0) || (s =? 0) then e else abs_err s) statuses err.

Lemma noted_error s p : p_error (noted s p) = if negb (p_error p =? 0) || (s =? 0) then p_error p else abs_err s.
Proof. unfold noted, set_error. destruct (s =? 0) eqn:E1, (p_error p =? 0) eqn:E2; cbn; done. Qed.

Lemma noted_same s p :
  (p_id (noted s p), p_type (noted s p), p_context (noted s p), p_flags (noted s p), p_len (noted s p), p_no_comp (noted s p)) =
  (p_id p, p_type p, p_context p, p_flags p, p_len p, p_no_comp p).
Proof. unfold noted, set_error. by destruct (s =? 0), (p_error p =? 0). Qed.

Lemma notify_run `{!MrAgainEnds K} token statuses w l1 p l2 :
  world_ok w -> e_pending (w_ep w) = l1 ++ p :: l2 -> p_id p = token -> p_type p = RDS_PEND_RMA ->
  Z.of_nat (length statuses) = p_seg_remaining p -> 0 < p_seg_remaining p ->
  wp (notify_all token statuses) (fun _ w' => e_pending (w_ep w') = l1 ++ l2 /\
    if p_no_comp p then w_cqs w' = w_cqs w
    else posted K (w_cqs w) (e_tx_cq (w_ep w)) (comp_of (p_context p) (p_flags p) (p_len p) 0 0 (first_error (p_error p) statuses)) None (w_cqs w')) w.
Proof.
  revert w p. induction statuses as [|s l IH]; intros w p Hw E Hid Hty Hlen Hpos; cbn [length] in Hlen; [lia|]. cbn [notify_all].
  apply wp_bind. eapply wp_mono; [eapply (wp_wlp _ _ _ w); [by apply (rdma_notify_spec token s)|eapply wlp_of_wp; by eapply notify_exact]|].
  cbn beta. intros _ w1 [[Hw1 Hm1] Hn]. rewrite (proj2 (Z.eqb_neq (p_seg_remaining p) 0)) in Hn by lia.
  pose proof (noted_same s p) as [= Eid Ety Ecx Efl Eln Enc]. destruct l as [|s2 l].
  - cbn [length] in Hlen. replace (p_seg_remaining p >? 1) with false in Hn by lia. rewrite Hty in Hn. destruct Hn as (E1 & _ & C1). apply wp_ret.
    split; [done|]. change (if is_tx_or_rma (p_type (noted s p)) && negb (p_no_comp (noted s p))
      then posted K (w_cqs w) (e_tx_cq (w_ep w)) (comp_of (p_context (noted s p)) (p_flags (noted s p)) (p_len (noted s p)) 0 0 (p_error (noted s p))) None (w_cqs w1)
      else w_cqs w1 = w_cqs w) in C1. rewrite Ety, Hty, Ecx, Efl, Eln, Enc, noted_error in C1. cbn [first_error fold_left]. by destruct (p_no_comp p).
  - cbn [length] in *. replace (p_seg_remaining p >? 1) with true in Hn by lia. destruct Hn as (E1 & C1 & _).
    set (p2 := noted s p <| p_seg_remaining := p_seg_remaining p - 1 |>) in *.
    assert (Et : e_tx_cq (w_ep w1) = e_tx_cq (w_ep w)) by (destruct Hm1 as (_ & _ & Hb); unfold bound_of in Hb; congruence).
    eapply wp_mono; [apply (IH w1 p2); [done|done|exact (eq_trans Eid Hid)|exact (eq_trans Ety Hty)|cbn; lia|cbn; lia]|]. cbn beta.
    intros _ w2 [E2 C2]. split; [done|]. change (p_no_comp p2) with (p_no_comp (noted s p)) in C2. change (p_context p2) with (p_context (noted s p)) in C2.
    change (p_flags p2) with (p_flags (noted s p)) in C2. change (p_len p2) with (p_len (noted s p)) in C2. change (p_error p2) with (p_error (noted s p)) in C2.
    rewrite Enc, Ecx, Efl, Eln, C1, Et, noted_error in C2. exact C2.
Qed.

(** C13: A one-sided operation is refused or completes exactly once (for a
    kernel with [MrAgainEnds]).  A call
    that returns an error leaves no operation and no completion behind.  A
    call of at least one byte that returns 0 leaves one operation pending
    whose segments are under way; after exactly as many notifications as
    segments it is gone, and it has been reported once, with the first error
    that occurred, if a completion was asked for; the completion is lost only
    when it takes an overflow entry (an error, or a full queue) that the
    allocator can refuse.  An operation posted without asking for a completion
    is not reported even when it failed, which is against fi_endpoint.3 (see
    Complete.unsignalled_rma_error_lost). *)
Theorem rma_completes_once (Hagain : MrAgainEnds K) iov remote_fi remote_off key wr context flags w :
  world_ok w -> e_op_id (w_ep w) + 1 < 2 ^ 64 -> iov_ok iov -> 0 < iov_total iov ->
  wp (rds_rma_common iov remote_fi remote_off key wr context flags) (fun r w' =>
    if negb (r =? 0) then e_pending (w_ep w') = e_pending (w_ep w) /\ w_cqs w' = w_cqs w
    else exists p, e_pending (w_ep w') = e_pending (w_ep w) ++ [p] /\ p_context p = context /\ w_cqs w' = w_cqs w /\
      forall statuses, Z.of_nat (length statuses) = p_seg_remaining p ->
        wp (notify_all (p_id p) statuses) (fun _ w'' => e_pending (w_ep w'') = e_pending (w_ep w) /\
          if signalled w flags
          then posted K (w_cqs w) (e_tx_cq (w_ep w))
                 (comp_of context (rma_comp_flags wr) (iov_total iov) 0 0 (first_error (p_error p) statuses)) None (w_cqs w'')
          else w_cqs w'' = w_cqs w) w') w.
Proof.
  intros Hw Hop Hiov Hpos. eapply wp_mono; [by apply rma_common_spec|]. cbn beta. intros r w' (Hw' & Hmv & Ho).
  assert (Hlen : rds_iov_len iov = iov_total iov) by (apply (ofi_total_iov_len_ok iov Hiov)). rewrite Hlen in Ho.
  destruct Ho as [[Hr (E & _ & C)]|[-> (p & (Hty & Hcx & Hfl & Hln & Hnc) & Hrem & Ep & _ & Ec)]].
  - rewrite (proj2 (Z.eqb_neq r 0)) by lia. by split.
  - exists p. split_and!; [done..|]. intros statuses Hst.
    eapply wp_mono; [apply (notify_run (p_id p) statuses w' (e_pending (w_ep w)) p []); done|]. cbn beta. intros _ w2 [E2 C2].
    rewrite app_nil_r in E2. split; [done|].
    assert (Et : e_tx_cq (w_ep w') = e_tx_cq (w_ep w)) by (destruct Hmv as (_ & _ & Hb); unfold bound_of in Hb; congruence).
    rewrite Hcx, Hfl, Hln, Hnc, Ec, Et in C2. unfold signalled. by destruct (has _ _).
Qed.

(** ** Cancelled receives *)

(** No receive posted on the list has the context. *)
Definition unposted (tagged : bool) (context : Z) w : Prop :=
  Forall (fun rx => rx_context rx <> context) (posted_list tagged (w_ep w)).

(** The oldest receive of the list with the context is gone, the others are
    in place and in order, and the cancellation is on the receive queue;
    nothing else of the endpoint has changed. *)
Definition cancelled (tagged : bool) (context : Z) w w' : Prop :=
  exists l1 rx l2 cqs' k', posted_list tagged (w_ep w) = l1 ++ rx :: l2 /\ rx_context rx = context /\
    Forall (fun rx => rx_context rx <> context) l1 /\
    posted K (w_cqs w) (e_rx_cq (w_ep w)) (cancel_err context rx) None cqs' /\
    w' = w <| w_ep ::= set_posted tagged (l1 ++ l2) |> <| w_cqs := cqs' |> <| w_k := k' |>.

Lemma other_contexts context l :
  Forall (fun rx => (rx_context rx =? context) = false) l -> Forall (fun rx => rx_context rx <> context) l.
Proof. intros H. eapply Forall_impl; [exact H|]. intros rx. apply Z.eqb_neq. Qed.

Lemma set_posted_cqs tagged l w : cqs_ok w -> cqs_ok (w <| w_ep ::= set_posted tagged l |>).
Proof. intros H. by destruct tagged. Qed.

Lemma wp_cancel_write context rx (Q : unit -> world K -> Prop) w :
  cqs_ok w ->
  (forall cqs' k', posted K (w_cqs w) (e_rx_cq (w_ep w)) (cancel_err context rx) None cqs' ->
     Q tt (w <| w_cqs := cqs' |> <| w_k := k' |>)) ->
  wp (match e_rx_cq (w_ep w) with
      | Some id => cq_run id (ofi_cq_write_error (cancel_err context rx)) ;;; ret tt
      | None => ret tt
      end) Q w.
Proof.
  intros [_ Ht] HQ. destruct (e_rx_cq (w_ep w)) as [id|] eqn:Eo.
  2: { apply wp_ret. replace w with (w <| w_cqs := w_cqs w |> <| w_k := w_k w |>) by (by destruct w). by apply HQ. }
  eapply wp_cq_run_write; [reflexivity|exact Ht|apply write_error_static| |exact HQ].
  intros q k cs _ Hr. eapply wp_mono; [by apply ofi_cq_write_error_appends|].
  intros r [q' k'] [[_ (a & Ha)]|(_ & -> & Hn)]; [left; by exists a|right]. split; [done|]. by apply err_lost.
Qed.

Lemma cancel_in_exact tagged context w :
  cqs_ok w ->
  wp (cancel_in tagged context) (fun b w' =>
    if b : bool then cancelled tagged context w w' else unposted tagged context w /\ w' = w) w.
Proof.
  intros Hw. unfold cancel_in. apply wp_bind, wp_ep_get. destruct (find_split _ _) as [[[l1 rx] l2]|] eqn:Ef.
  2: { apply find_split_None in Ef. apply wp_ret. split; [by apply other_contexts|done]. }
  apply find_split_Some in Ef as (E & Hc%Z.eqb_eq & Hl). apply wp_bind, wp_ep_upd, wp_bind, wp_ep_get, wp_bind.
  apply wp_cancel_write; [by apply set_posted_cqs|]. intros cqs' k' Hp. apply wp_ret.
  exists l1, rx, l2, cqs', k'. split_and!; [done|done|by apply other_contexts| |done]. by destruct tagged.
Qed.

(** C27: Cancelling takes back exactly one receive.  The call withdraws the
    oldest receive posted with the context, looking at the untagged ones
    first, and reports it once with [FI_ECANCELED] on the receive queue (or
    loses the report, where the allocator can refuse the entry that an error
    takes); when no posted receive has the context it returns [-FI_ENOENT] and
    changes nothing. *)
Theorem cancel_takes_one context w :
  cqs_ok w ->
  wp (rds_ep_cancel context) (fun r w' =>
    (r = 0 /\ cancelled false context w w') \/
    (r = 0 /\ unposted false context w /\ cancelled true context w w') \/
    (r = - FI_ENOENT /\ unposted false context w /\ unposted true context w /\ w' = w)) w.
Proof.
  intros Hw. unfold rds_ep_cancel. apply wp_bind. eapply wp_mono; [by apply cancel_in_exact|]. cbn beta.
  intros [|] w1 H1; [apply wp_ret; by left|]. destruct H1 as [Hm ->]. apply wp_bind. eapply wp_mono; [by apply cancel_in_exact|].
  cbn beta. intros [|] w2 H2; apply wp_ret; right; [by left|right]. destruct H2 as [Ht ->]. by split_and!.
Qed.
End Lifecycle.
