(* ===== verification/Traffic.v ===== *)
(** * What the endpoint puts on the wire

    Every datagram an endpoint hands to the socket, in every reachable state,
    is a well-formed message of the protocol.  This is more than [KnownOps]
    asks of the other side, so the assumption under which an endpoint is
    safe is one that endpoints keep for each other. *)

From stdpp Require Import sorting.
From S2P Require Import Prelude Iov Wire Config Kernel Attr Cq CqFifo Av MrCache MrCacheInv State Mr.
From S2P Require Import MrInv Pending Ring Msg Rma RingRx Progress Ep Cntr Objects Segments Pres Frame Inv Rules PendInv Safety.
From S2P Require Import SafetyRing SafetyRx SafetyTx SafetyEp Emits Refs CntrSpec Startup Ops Effects Reach Eager.

Section Traffic.
Context {K : Type} `{!Kernel K}.
Implicit Types w : world K.

Lemma pres_log_sys_k {A} (f : K -> A * K) : pres w_log (sys_k f).
Proof. intros w. unfold wlp, sys_k. by destruct (f (w_k w)). Qed.
Hint Resolve pres_log_sys_k : pres.

(** Bringing an endpoint up sends nothing. *)
Lemma open_log self version info sel txq rxq : pres (K := K) w_log (ep_open self version info sel txq rxq).
Proof.
  assert (pres (K := K) w_log (rds_ep_init_socket (Some info))) by (unfold rds_ep_init_socket, init_socket_fail, set_buf, rds_setname; pres).
  unfold ep_open, rds_endpoint, rds_ep_ring_init, ofi_endpoint_init, ofi_endpoint_close, cq_unref, rds_ep_bind, ofi_ep_bind_cq, ofi_ep_bind_av,
    ep_list_insert, fid_list_insert2, rds_ep_ctrl. pres; auto.
Qed.

(** C9: The endpoint speaks the protocol, for a kernel that answers a
    registration with EAGAIN only finitely often in a row and delivers only
    datagrams with the operation codes of the protocol ([MrAgainEnds],
    [KnownOps]).  Whatever calls, traffic,
    notifications and invalidations it sees, every datagram it ever hands to
    the socket is a well-formed message: it carries the magic number, a known
    operation and a segment count in range, and its length is exactly what
    its header announces (the message of an eager send, the segments of a
    descriptor, nothing for a FIN, the geometry for a ring handshake).  In
    particular a peer that runs this provider receives only what
    [KnownOps] asks for. *)
Theorem endpoint_speaks_protocol (Hagain : MrAgainEnds K) (Hops : KnownOps K) x self version info sel txq rxq w0 :
  domain_ready x info txq rxq w0 ->
  wp (ep_open self version info sel txq rxq) (fun r w1 => r = 0 -> forall w, ep_reach w1 w -> exists l, w_log w = w_log w0 ++ l /\
    Forall (fun s => sn_rdma s = None -> wire_ok (sn_payload s) /\ inbound_ok (rds_hdr_of_bytes (sn_payload s))) l) w0.
Proof.
  intros Hd. eapply wp_mono; [eapply (wp_wlp _ _ _ w0); [by apply open_spec|apply open_log]|]. cbn beta. intros r w1 [Hw1 Elog] Hr w Hreach.
  destruct (Hw1 Hr) as [Hok _]. assert (Hgr : logs w0 w).
  { induction Hreach as [|w op w' Hre IH Hpre E]; [by apply logs_same|]. pose proof (exec_emits x op w (reach_ok _ _ _ Hok Hre) Hpre) as He.
    unfold wlp in He. rewrite E in He. eapply logs_trans; [done|apply He]. }
  destruct Hgr as (l & El & Hl). exists l. split; [done|]. eapply Forall_impl; [exact Hl|]. intros s Hs Hn. split; [by apply Hs|by apply wire_inbound, Hs].
Qed.

(** ** Runs *)

(** The operations of a run, in order. *)
Inductive ep_run (w0 : world K) : list (ep_op K) -> world K -> Prop :=
| run_start : ep_run w0 [] w0
| run_step ops w op w' :
    ep_run w0 ops w -> op_pre w op -> ep_exec op w = Some (tt, w') -> ep_run w0 (ops ++ [op]) w'.

Lemma run_reach w0 ops w : ep_run w0 ops w -> ep_reach w0 w.
Proof. induction 1; [constructor|by econstructor]. Qed.

(** C38: A limit of the provider: counters move by hand only.  fi_cntr.3
    says that a counter bound to an endpoint is incremented by the completion
    of the operations it is bound for.  Here, whatever an endpoint does between
    opening and closing a counter (sends, receives, RMA, completions,
    failures, progress, binding the counter to any of its events), the
    counter holds exactly what the calls fi_cntr_add, fi_cntr_adderr,
    fi_cntr_set and fi_cntr_seterr on it have made of it, modulo 2^64: no
    completion is ever counted.  An imported counter holds what it was
    opened with.  (For runs under a kernel with [MrAgainEnds] and
    [KnownOps].) *)
Theorem counters_move_by_hand (Hagain : MrAgainEnds K) (Hops : KnownOps K) x w0 ops w id c :
  sys_ok x w0 -> ep_run w0 ops w -> w_cntrs w0 !! id = Some c -> Forall (fun op => reopens id op = false) ops ->
  cntr_val w id = Some (foldl (cntr_eff id) (counts c) ops).
Proof.
  intros Hok Hrun Hc. induction Hrun as [|ops w op w' Hrun IH Hpre E]; intros Hall; [unfold cntr_val; by rewrite Hc|].
  apply Forall_app in Hall as [Hall Hop]. apply Forall_inv in Hop.
  pose proof (exec_emits x op w (reach_ok _ _ _ Hok (run_reach _ _ _ Hrun)) Hpre) as He. unfold wlp in He. rewrite E in He.
  destruct He as (_ & Hv & _). rewrite (Hv id Hop), (IH Hall), foldl_app. done.
Qed.
End Traffic.
