(* ===== verification/RmaSpec.v ===== *)
(** * One-sided operations

    The RDMA requests of an [fi_read] or [fi_write] cover the buffers
    exactly, chunk by chunk; a rejected chunk stops the operation. *)

From stdpp Require Import sorting.
From S2P Require Import Prelude Iov Wire Config Kernel Cq CqFifo Av MrCache MrCacheInv State Mr.
From S2P Require Import MrInv Pending Ring Msg Rma Segments Frame Inv Rules PendInv Safety.
From S2P Require Import SafetyRing SafetyRx SafetyTx Eager Pres Rendezvous.

(** The remote bytes of an operation, in order. *)
Definition rma_target (key remote_off total : Z) : list (Z * Z) :=
  (fun i => (key, remote_off + i)) <$> seqZ 0 total.

(** A request of the operation [id]: direction, key and token. *)
Definition is_rma_for (dest : list Z) (dlen key : Z) (wr : bool) (id : Z) (s : sent) : Prop :=
  exists off liov errno, s = rdma_sent dest dlen key off liov wr true id errno.

Definition accepted (s : sent) : Prop := sn_errno s = 0.

Lemma rma_target_slice key roff total off n : 0 <= off -> 0 <= n -> off + n <= total ->
  take (Z.to_nat n) (drop (Z.to_nat off) (rma_target key roff total)) =
  (fun i => (key, roff + off + i)) <$> seqZ 0 n.
Proof.
  intros Ho Hn Hle. unfold rma_target. rewrite <- fmap_drop, <- fmap_take, seqZ_drop, seqZ_take by lia.
  replace (Z.min n (total - off)) with n by lia. apply list_eq. intros i. rewrite !list_lookup_fmap.
  destruct (decide (Z.of_nat i < n)).
  - rewrite !lookup_seqZ_lt by lia. cbn. do 2 f_equal. lia.
  - by rewrite !lookup_seqZ_ge by lia.
Qed.

Section RmaSpec.
Context {K : Type} `{!Kernel K}.
Implicit Types w : world K.

(** The requests cover a prefix; all of it when none is rejected. *)
Definition covers (local : list Z) (remote : list (Z * Z)) (reqs : list sent) (r : Z) : Prop :=
  (r = 0 /\ Forall accepted reqs /\ mjoin (rdma_moves <$> reqs) = zip local remote) \/
  (r <> 0 /\ exists acc bad n, reqs = acc ++ [bad] /\ Forall accepted acc /\ ~ accepted bad /\
     mjoin (rdma_moves <$> reqs) = zip (take n local) (take n remote)).

Lemma covers_cons x reqs n local remote r :
  accepted x -> rdma_moves x = zip (take n local) (take n remote) -> (length local = length remote) ->
  covers (drop n local) (drop n remote) reqs r -> covers local remote (x :: reqs) r.
Proof.
  intros Hx Em Hlen. change (mjoin (rdma_moves <$> x :: reqs)) with (rdma_moves x ++ mjoin (rdma_moves <$> reqs)).
  assert (Hl : length (take n local) = length (take n remote)) by (rewrite !length_take; lia).
  intros [(-> & Ha & E)|(Hr & acc & bad & m & -> & Ha & Hb & E)]; [left|right].
  - split_and!; [done|by constructor|]. change (rdma_moves x ++ mjoin (rdma_moves <$> reqs) = zip local remote).
    rewrite Em, E, <- zip_with_app by done. by rewrite !take_drop.
  - split; [done|]. exists (x :: acc), bad, (n + m)%nat. split_and!; [done|by constructor|done|].
    change (rdma_moves x ++ mjoin (rdma_moves <$> acc ++ [bad]) = zip (take (n + m) local) (take (n + m) remote)).
    rewrite Em, E, <- zip_with_app by done. by rewrite !take_take_drop.
Qed.

Lemma rma_loop_log fuel id iov dest alen key roff wr off total w :
  iov_ok iov -> (length iov <= RDS_IOV_LIMIT)%nat -> total = iov_total iov -> 0 <= off <= total ->
  0 <= roff -> roff + total < 2 ^ 64 ->
  wlp (rma_loop fuel id iov dest alen key roff wr off total) (fun r w' => exists reqs,
    w_log w' = w_log w ++ reqs /\ Forall (is_rma_for dest alen key wr id) reqs /\
    covers (drop (Z.to_nat off) (iov_addrs iov)) (drop (Z.to_nat off) (rma_target key roff total)) reqs r) w.
Proof.
  intros Hiov Hlim Etot. revert off w. induction fuel as [|fuel IH]; intros off w Ho Hr0 Hr1; cbn [rma_loop].
  all: pose proof (iov_addrs_length iov (proj1 Hiov)) as Hal.
  all: assert (Hrl : length (rma_target key roff total) = Z.to_nat total) by (unfold rma_target; by rewrite length_fmap, length_seqZ).
  all: destruct (off <? total) eqn:Elt; cbn [negb]; try apply wlp_ub.
  2: cbn zeta.
  1,3: apply wlp_ret; exists []; rewrite app_nil_r; split_and!; [done|constructor|]; left; split_and!; [done|constructor|];
    rewrite !drop_ge by lia; done.
  set (n := Z.min (total - off) RDS_KERNEL_SEG_MAX). assert (Hn : 0 < n /\ off + n <= total) by (unfold n, RDS_KERNEL_SEG_MAX; lia).
  destruct (rds_iov_slice iov off n) as [liov got] eqn:Esl.
  assert (Hgot : got = n).
  { pose proof Esl as E. apply slice_loop_spec in E as (ext & _ & -> & Hp & _ & _ & Heq); [|apply Hiov|lia|destruct Hiov; lia|lia|lia|cbn; lia].
    rewrite Z.sub_0_r in Heq. pose proof (iov_addrs_length _ Hp) as Hel. rewrite Heq in Hel by (cbn; lia).
    rewrite length_take, length_drop in Hel. lia. }
  apply slice_exact in Esl as (Ha & Hl & Hll & Hne); [|done|done|lia|lia|lia].
  rewrite Hgot, (proj2 (Z.eqb_neq n 0)) by lia. apply wlp_bind, wlp_of_wp, wp_post_rdma_log.
  { intros Hbad. rewrite liov_ok_intro in Hbad; [done|apply Hne; lia|done]. }
  intros errno k' _. set (x := rdma_sent _ _ _ _ _ _ _ _ _).
  assert (Em : rdma_moves x = zip (take (Z.to_nat n) (drop (Z.to_nat off) (iov_addrs iov)))
                                  (take (Z.to_nat n) (drop (Z.to_nat off) (rma_target key roff total)))).
  { rewrite rma_target_slice by lia. unfold rdma_moves, x, rdma_sent. cbn [sn_rdma ra_local ra_cookie ra_remote_addr ra_remote_bytes]. rewrite Hl, Ha. by rewrite u64_small by lia. }
  assert (Hrma : is_rma_for dest alen key wr id x) by (by eexists _, _, _).
  destruct (send_status errno =? 0) eqn:Es; cbn [negb].
  - apply Z.eqb_eq, send_status_zero in Es as ->. apply wlp_bind. eapply wlp_mono; [apply quiet_pend_upd|].
    cbn beta. intros _ w1 E1. eapply wlp_mono; [apply (IH (off + n)); lia|]. cbn beta. intros r w2 (reqs & E2 & Hf & Hc).
    exists (x :: reqs). rewrite E1 in E2. cbn in E2. rewrite <- app_assoc in E2. split_and!; [exact E2|by constructor|].
    eapply (covers_cons _ _ (Z.to_nat n)); [done|exact Em|rewrite !length_drop; lia|].
    rewrite !drop_drop. replace (Z.to_nat off + Z.to_nat n)%nat with (Z.to_nat (off + n)) by lia. exact Hc.
  - apply wlp_ret. exists [x]. split_and!; [done|by constructor|]. right. split; [lia|].
    exists [], x, (Z.to_nat n). split_and!; [done|constructor| |].
    + unfold accepted, x. cbn. intros ->. done.
    + change (mjoin (rdma_moves <$> [x])) with (rdma_moves x ++ []). by rewrite app_nil_r.
Qed.

Lemma rma_close_log id (r : Z) w : pres (@w_log K)
  (p <- pend_deref id ;;
   if p_seg_remaining p =? 0 then pend_remove id ;;; ret r
   else (if negb (r =? 0) then pend_upd id (fun p => p <| p_error := - r |>) else ret tt) ;;; ret 0).
Proof. pres. Qed.

Lemma quiet_av_addr a : pres (@w_log K) (rds_av_addr a).
Proof. unfold rds_av_addr. pres. Qed.
Lemma quiet_av_addrlen : pres (@w_log K) av_addrlen_get.
Proof. unfold av_addrlen_get. pres. Qed.

Context `{!MrAgainEnds K}.

(** C12: A one-sided operation moves exactly its bytes.  The RDMA requests
    an [fi_read] or [fi_write] hands to the socket pair byte [i] of the
    local buffers with byte [i] of the remote range, in order, in chunks
    the kernel takes, all in the right direction with the right key and the
    id of the new operation.  They cover the whole range unless the socket
    refuses one, which is then the last. *)
Theorem rma_requests_cover iov remote_fi roff key wr context flags dest w :
  world_ok w -> e_op_id (w_ep w) + 1 < 2 ^ 64 -> iov_ok iov -> (length iov <= RDS_IOV_LIMIT)%nat ->
  iov_total iov <= RDS_MAX_MSG_SIZE -> 0 <= roff -> roff + iov_total iov < 2 ^ 64 ->
  ofi_av_get_addr (w_avec w) remote_fi = Some dest -> is_Some (k_alloc PENDING_SIZE (w_k w)).1 ->
  wp (rds_rma_common iov remote_fi roff key wr context flags) (fun _ w' => exists reqs r,
    w_log w' = w_log w ++ reqs /\
    Forall (is_rma_for dest (av_addrlen (w_avec w)) key wr (e_op_id (w_ep w) + 1)) reqs /\
    covers (iov_addrs iov) (rma_target key roff (iov_total iov)) reqs r) w.
Proof.
  intros Hw Hop Hiov Hlim Hmax Hr0 Hr1 Hdest Hal. pose proof (pn_op _ _ _ _ _ (wi_pend _ _ _ _ Hw)) as Hop0.
  pose proof (rma_common_spec iov remote_fi roff key wr context flags w Hw Hop Hiov) as Hsafe.
  eapply wp_mono; [eapply (wp_wlp _ _ _ w Hsafe)|cbn beta; intros a w' [_ HQ]; exact HQ].
  assert (Elen : rds_iov_len iov = iov_total iov) by (apply (ofi_total_iov_len_ok iov Hiov)).
  unfold rds_rma_common. cbn zeta. rewrite Elen. replace (iov_total iov >? RDS_MAX_MSG_SIZE) with false by lia.
  apply wlp_bind, wlp_of_wp, wp_av_addr; [apply Hw|]. rewrite Hdest. apply wlp_bind, wlp_of_wp, wp_av_addrlen; [apply Hw|].
  apply wlp_bind. eapply wlp_mono; [apply pending_alloc_id; [lia|done|done]|]. cbn beta. intros x w1 [-> E1].
  apply wlp_bind, wlp_of_wp, wp_ep_get. apply wlp_bind. eapply wlp_mono; [apply quiet_pend_upd|]. cbn beta. intros _ w2 E2.
  pose proof (iov_total_nonneg _ (proj1 Hiov)).
  apply wlp_bind. eapply wlp_mono; [apply rma_loop_log; [done|done|done|lia|lia|lia]|]. cbn beta.
  intros r w3 (reqs & E3 & Hf & Hc). change (Z.to_nat 0) with 0%nat in Hc. rewrite !drop_0 in Hc.
  eapply wlp_mono; [apply rma_close_log; exact w|]. cbn beta. intros _ w4 E4. exists reqs, r.
  split_and!; [rewrite E4, E3, E2, E1; done|done|exact Hc].
Qed.

(** C36: A zero-length read or write is accepted and never reported: the
    call returns success, nothing is sent, no operation stays pending and
    no completion is written, whatever completion was asked for. *)
Theorem zero_length_rma_unreported iov remote_fi roff key wr context flags dest w :
  world_ok w -> e_op_id (w_ep w) + 1 < 2 ^ 64 -> iov_total iov = 0 -> iov_ok iov ->
  ofi_av_get_addr (w_avec w) remote_fi = Some dest -> is_Some (k_alloc PENDING_SIZE (w_k w)).1 ->
  wp (rds_rma_common iov remote_fi roff key wr context flags) (fun r w' => r = 0 /\
    w_cqs w' = w_cqs w /\ w_log w' = w_log w /\ e_pending (w_ep w') = e_pending (w_ep w)) w.
Proof.
  intros Hw Hop Ez Hiov Hdest [a Ha]. assert (Elen : rds_iov_len iov = 0) by (rewrite <- Ez; apply (ofi_total_iov_len_ok iov Hiov)).
  pose proof (pn_op _ _ _ _ _ (wi_pend _ _ _ _ Hw)) as Hop0.
  unfold rds_rma_common. rewrite Elen. cbn zeta. change (0 >? RDS_MAX_MSG_SIZE) with false. cbn iota.
  apply wp_bind, wp_av_addr; [apply Hw|]. rewrite Hdest. apply wp_bind, wp_av_addrlen; [apply Hw|].
  apply wp_bind. unfold rds_pending_alloc, rds_next_id. apply wp_bind. unfold wp at 1, sys_alloc.
  destruct (k_alloc _ _) as [o k'] eqn:Eal. cbn in Ha. subst o. apply wp_bind, wp_bind, wp_ep_upd, wp_bind, wp_ep_get.
  w_simpl. rewrite u64_small, (proj2 (Z.eqb_neq _ 0)) by lia. cbn [negb]. apply wp_ret, wp_bind, wp_ep_upd, wp_ret.
  set (id := e_op_id (w_ep w) + 1). pose proof (fresh_id _ _ _ _ Hw) as Hfr.
  match goal with |- context [pending_init ?i ?t ?c ?f] => set (p := pending_init i t c f) end.
  apply wp_bind, wp_ep_get, wp_bind. eapply (wp_pend_upd id _ (e_pending (w_ep w)) p []); [done|done|exact Hfr|].
  apply wp_bind. change (Z.to_nat 0) with 0%nat. cbn [rma_loop Z.ltb Z.compare negb]. apply wp_ret.
  apply wp_bind. eapply (wp_pend_deref id (e_pending (w_ep w)) _ []); [done|done|exact Hfr|].
  cbn [p pending_init set_field p_seg_remaining Z.eqb]. apply wp_bind.
  eapply (wp_pend_remove id (e_pending (w_ep w)) _ []); [done|done|exact Hfr|]. apply wp_ret. rewrite app_nil_r. done.
Qed.
End RmaSpec.
