(* ===== verification/Close.v ===== *)
(** * Closing an endpoint

    [rds_ep_close] takes the endpoint apart: it frees every region and
    returns every cache entry the endpoint holds, exactly once, and leaves
    the regions of others alone. *)

From stdpp Require Import sorting.
From S2P Require Import Prelude Iov Wire Config Kernel Cq CqFifo Av MrCache MrCacheInv State Mr.
From S2P Require Import MrInv Pending Ring Msg Progress Ep Cntr Pres Frame Inv Rules PendInv Safety.
From S2P Require Import SafetyRing SafetyRx SafetyTx SafetyEp Emits Refs CntrSpec.

(** The regions [l] taken out of the table. *)
Definition free_list (l : list Z) (mrs : gmap Z rds_mr) : gmap Z rds_mr := foldl (fun m h => delete h m) mrs l.

Lemma free_list_lookup l mrs h : free_list l mrs !! h = if bool_decide (h ∈ l) then None else mrs !! h.
Proof.
  revert mrs. induction l as [|x l IH]; intros mrs; [done|]. change (free_list (x :: l) mrs) with (free_list l (delete x mrs)).
  rewrite IH. destruct (decide (h ∈ l)) as [Hl|Hl].
  - rewrite !bool_decide_eq_true_2; [done|by apply list_elem_of_further|done].
  - rewrite (bool_decide_eq_false_2 (h ∈ l)) by done. destruct (decide (h = x)) as [->|Hne].
    + rewrite bool_decide_eq_true_2 by apply list_elem_of_here. apply lookup_delete_eq.
    + rewrite bool_decide_eq_false_2 by (rewrite elem_of_cons; tauto). by apply lookup_delete_ne.
Qed.

Lemma free_list_app l1 l2 mrs : free_list (l1 ++ l2) mrs = free_list l2 (free_list l1 mrs).
Proof. apply foldl_app. Qed.

Section Close.
Context {K : Type} `{!Kernel K} `{!MrAgainEnds K}.
Implicit Types w : world K.

(** Teardown in progress: the endpoint still exists and holds the regions
    [ms] and the cache entries [cs]. *)
Record closing (ms cs : list Z) w : Prop := {
  cl_live : w_live w = true; cl_reg : reg_ok w;
  cl_mrs : mrs_ok (d_mrs (w_dom w)) (d_next_mr (w_dom w)) (e_self (w_ep w)) ms;
  cl_cache : cache_on (caching w) (the_cache w) cs }.

Lemma wp_put_list l ms cs (Q : unit -> world K -> Prop) w :
  closing (l ++ ms) cs w ->
  (forall k', let w' := set_mrs (w <| w_k := k' |>) (free_list l (d_mrs (w_dom w))) in closing ms cs w' -> Q tt w') ->
  wp (rds_mr_put_all l) Q w.
Proof.
  revert w. induction l as [|h l IH]; intros w Hc HQ; cbn [rds_mr_put_all].
  - apply wp_ret. specialize (HQ (w_k w)). cbn zeta in HQ. change (free_list [] ?m) with m in HQ.
    assert (E : set_mrs (w <| w_k := w_k w |>) (d_mrs (w_dom w)) = w) by (by destruct w as [? ? ? [] ? ? ? ? ?]).
    rewrite E in HQ. by apply HQ.
  - destruct Hc as [H1 H2 H3 H4]. apply wp_bind. eapply (wp_mr_put h (l ++ ms)); [done|exact H3|]. intros k' Hm'.
    apply IH; [by split|]. intros k'' w'' Hc''. exact (HQ k'' Hc'').
Qed.

Lemma wp_put_opt o ms cs (Q : unit -> world K -> Prop) w :
  closing (opt_list o ++ ms) cs w ->
  (forall k', let w' := set_mrs (w <| w_k := k' |>) (free_list (opt_list o) (d_mrs (w_dom w))) in closing ms cs w' -> Q tt w') ->
  wp (rds_mr_put o) Q w.
Proof.
  intros Hc HQ. destruct o as [h|].
  - destruct Hc as [H1 H2 H3 H4]. eapply (wp_mr_put h ms); [done|exact H3|]. intros k' Hm'. apply (HQ k'). by split.
  - exact (wp_put_list [] ms cs Q w Hc HQ).
Qed.

(** Freeing the peers of a list. *)
Definition peers_mrs_of (peers : gmap Z rds_peer) (l : list Z) : list Z :=
  mjoin ((fun h => match peers !! h with Some p => peer_mrs p | None => [] end) <$> l).

(** What teardown of the rings leaves alone. *)
Definition rest_of w := (e_pending (w_ep w), e_deferred (w_ep w), e_sock (w_ep w), e_self (w_ep w), d_reg_ep (w_dom w),
  d_eps (w_dom w), d_next_mr (w_dom w), the_cache w).

Lemma peer_free_spec h p ms cs w :
  e_peers (w_ep w) !! h = Some p -> closing (peer_mrs p ++ ms) cs w ->
  wp (rds_peer_free h) (fun _ w' => closing ms cs w' /\ rest_of w' = rest_of w /\
    d_mrs (w_dom w') = free_list (peer_mrs p) (d_mrs (w_dom w)) /\ e_peers (w_ep w') = delete h (e_peers (w_ep w))) w.
Proof.
  intros Hp Hc. unfold rds_peer_free. apply wp_bind. eapply wp_peer_deref; [exact Hp|]. apply wp_bind, wp_ep_upd.
  match goal with |- wp _ _ ?wg => set (w0 := wg) end. unfold peer_mrs in Hc. rewrite <- app_assoc in Hc.
  assert (Hc0 : closing (opt_list (pe_rx_ring_mr p) ++ opt_list (pe_credit_mr p) ++ ms) cs w0) by (destruct Hc; by split).
  apply wp_bind. eapply wp_put_opt; [exact Hc0|]. intros k1 w1 Hc1. apply wp_bind. eapply wp_put_opt; [exact Hc1|].
  intros k2 w2 Hc2. apply wp_ep_upd. split_and!; [destruct Hc2; by split|done| |done].
  unfold peer_mrs. rewrite free_list_app. done.
Qed.

Lemma peers_mrs_delete (peers : gmap Z rds_peer) h l : (h ∉ l) -> peers_mrs_of (delete h peers) l = peers_mrs_of peers l.
Proof.
  intros Hh. unfold peers_mrs_of. f_equal. apply list_fmap_ext. intros i x Hx. rewrite lookup_delete_ne; [done|].
  intros ->. apply Hh. by eapply list_elem_of_lookup_2.
Qed.

Lemma peer_free_all_spec l ms cs w :
  NoDup l -> (forall h, h ∈ l -> is_Some (e_peers (w_ep w) !! h)) -> closing (peers_mrs_of (e_peers (w_ep w)) l ++ ms) cs w ->
  wp (rds_peer_free_all l) (fun _ w' => closing ms cs w' /\ rest_of w' = rest_of w /\
    d_mrs (w_dom w') = free_list (peers_mrs_of (e_peers (w_ep w)) l) (d_mrs (w_dom w)) /\
    forall h, e_peers (w_ep w') !! h = if bool_decide (h ∈ l) then None else e_peers (w_ep w) !! h) w.
Proof.
  revert w. induction l as [|h l IH]; intros w Hn Hin Hc; cbn [rds_peer_free_all].
  { apply wp_ret. done. }
  apply NoDup_cons in Hn as [Hh Hn]. destruct (Hin h (list_elem_of_here _ _)) as [p Hp].
  assert (E : peers_mrs_of (e_peers (w_ep w)) (h :: l) = peer_mrs p ++ peers_mrs_of (e_peers (w_ep w)) l).
  { unfold peers_mrs_of. rewrite fmap_cons, Hp. done. }
  rewrite E, <- app_assoc in Hc. apply wp_bind. eapply wp_mono; [by eapply peer_free_spec|]. cbn beta.
  intros _ w1 (Hc1 & Hr1 & Hm1 & Hp1). rewrite <- (peers_mrs_delete _ h), <- Hp1 in Hc1 by done.
  eapply wp_mono; [apply IH; [done| |exact Hc1]|cbn beta].
  { intros x Hx. rewrite Hp1, lookup_delete_ne; [by apply Hin, list_elem_of_further|]. by intros ->. }
  intros _ w2 (Hc2 & Hr2 & Hm2 & Hp2). split_and!; [done|by rewrite Hr2| |].
  - by rewrite Hm2, Hm1, E, free_list_app, Hp1, peers_mrs_delete.
  - intros x. rewrite Hp2, Hp1. destruct (decide (x ∈ l)) as [Hx|Hx].
    + rewrite !bool_decide_eq_true_2; [done|by apply list_elem_of_further|done].
    + rewrite (bool_decide_eq_false_2 (x ∈ l)) by done. destruct (decide (x = h)) as [->|Hne].
      * rewrite bool_decide_eq_true_2 by apply list_elem_of_here. apply lookup_delete_eq.
      * rewrite bool_decide_eq_false_2 by (rewrite elem_of_cons; tauto). by apply lookup_delete_ne.
Qed.

(** The peers in the order of the list are the peers of the table. *)
Lemma peers_mrs_all slots max rdma peers hash lru cnt next :
  peers_ok slots max rdma peers hash lru cnt next -> all_peer_mrs peers ≡ₚ peers_mrs_of peers lru.
Proof.
  intros Hok. assert (Hl : forall h, h ∈ lru <-> is_Some (peers !! h)) by apply Hok. pose proof (pr_lru _ _ _ _ _ _ _ _ Hok) as Hn.
  clear Hok. revert peers Hl. induction lru as [|h lru IH]; intros peers Hl.
  - assert (peers = ∅) as ->; [|done]. apply map_empty. intros h. destruct (peers !! h) eqn:E; [|done].
    exfalso. apply (not_elem_of_nil h), Hl. by eexists.
  - apply NoDup_cons in Hn as [Hh Hn]. destruct (proj1 (Hl h) (list_elem_of_here _ _)) as [p Hp].
    rewrite (all_peer_mrs_del _ h p Hp), (IH Hn (delete h peers)).
    + rewrite peers_mrs_delete by done. unfold peers_mrs_of. rewrite fmap_cons, Hp. done.
    + intros x. destruct (decide (x = h)) as [->|Hne].
      * rewrite lookup_delete_eq. split; [done|]. by intros [? ?].
      * rewrite lookup_delete_ne, <- Hl, elem_of_cons by done. tauto.
Qed.

(** Releasing the operations of a list. *)
Lemma flush_pending_spec p ps ms cs w :
  pend_ok p -> e_pending (w_ep w) = p :: ps -> closing (pend_mrs p ++ ms) (pend_cmrs p ++ cs) w ->
  wp (flush_pending p) (fun _ w' => closing ms cs w' /\ e_pending (w_ep w') = ps /\
    d_mrs (w_dom w') = free_list (pend_mrs p) (d_mrs (w_dom w)) /\
    (queues_of w', e_deferred (w_ep w'), e_peers (w_ep w'), d_reg_ep (w_dom w'), e_self (w_ep w')) =
    (queues_of w, e_deferred (w_ep w), e_peers (w_ep w), d_reg_ep (w_dom w), e_self (w_ep w))) w.
Proof.
  intros Hp E Hc. unfold flush_pending. apply wp_bind, wp_ep_upd. pose proof (po_cnt _ Hp) as Hcnt.
  match goal with |- wp _ _ ?wg => set (w0 := wg) end.
  assert (Hc0 : closing (pend_mrs p ++ ms) (pend_cmrs p ++ cs) w0) by (destruct Hc; by split).
  assert (E0 : e_pending (w_ep w0) = ps) by (unfold w0; w_simpl; by rewrite E).
  revert Hc0 Hcnt. unfold pend_mrs, pend_cmrs. destruct (p_cmrs p) as [l|]; [|destruct (p_mrs p) as [l|]]; cbn [default app]; intros Hc0 Hcnt.
  - rewrite Hcnt, Nat2Z.id, take_ge by done. destruct Hc0 as [H1 H2 H3 H4].
    apply (wp_cache_put_all l cs); [done|done|]. intros c k' Hc'. split_and!; [by split|exact E0|done..].
  - rewrite Hcnt, Nat2Z.id, app_nil_r, take_ge by done. eapply wp_put_list; [exact Hc0|].
    intros k' w' Hc'. split_and!; [done|exact E0|done..].
  - apply wp_ret. done.
Qed.

Lemma flush_pendings_spec l ms cs w :
  Forall pend_ok l -> e_pending (w_ep w) = l -> closing (all_pend_mrs l ++ ms) (all_pend_cmrs l ++ cs) w ->
  wp (flush_pendings l) (fun _ w' => closing ms cs w' /\ e_pending (w_ep w') = [] /\
    d_mrs (w_dom w') = free_list (all_pend_mrs l) (d_mrs (w_dom w)) /\
    (queues_of w', e_deferred (w_ep w'), e_peers (w_ep w'), d_reg_ep (w_dom w'), e_self (w_ep w')) =
    (queues_of w, e_deferred (w_ep w), e_peers (w_ep w), d_reg_ep (w_dom w), e_self (w_ep w))) w.
Proof.
  revert w. induction l as [|p l IH]; intros w Hok E Hc; cbn [flush_pendings].
  { by apply wp_ret. }
  apply Forall_cons in Hok as [Hp Hok].
  change (all_pend_mrs (p :: l)) with (pend_mrs p ++ all_pend_mrs l) in *.
  change (all_pend_cmrs (p :: l)) with (pend_cmrs p ++ all_pend_cmrs l) in *. rewrite <- !app_assoc in Hc.
  apply wp_bind. eapply wp_mono; [by eapply flush_pending_spec|]. cbn beta. intros _ w1 (Hc1 & E1 & Hm1 & Hk1).
  eapply wp_mono; [by apply IH|]. cbn beta. intros _ w2 (Hc2 & E2 & Hm2 & Hk2).
  split_and!; [done|done| |by rewrite Hk2]. by rewrite Hm2, Hm1, free_list_app.
Qed.

(** Everything the endpoint holds, in the order it is released. *)
Definition held_mrs w : list Z := peers_mrs_of (e_peers (w_ep w)) (e_peer_lru (w_ep w)) ++ all_pend_mrs (e_pending (w_ep w)).

Lemma held_internal w : world_ok w -> held_mrs w ≡ₚ internal w.
Proof.
  intros Hw. unfold held_mrs, internal. rewrite (peers_mrs_all _ _ _ _ _ _ _ _ (wi_peers _ _ _ _ Hw)). by rewrite (comm (++)).
Qed.

(** The domain stops registering memory through the endpoint. *)
Definition unregistered w : world K := w <| w_dom ::= fun d =>
  if bool_decide (d_reg_ep d = Some (e_self (w_ep w))) then d <| d_reg_ep := None |> else d |>.

Lemma unregistered_spec others w :
  world_ok w -> cache_on (caching w) (the_cache w) (all_pend_cmrs (e_pending (w_ep w)) ++ others) ->
  let w0 := unregistered w in
  closing (held_mrs w) (all_pend_cmrs (e_pending (w_ep w)) ++ others) w0 /\ w_ep w0 = w_ep w /\
  d_mrs (w_dom w0) = d_mrs (w_dom w) /\ d_reg_ep (w_dom w0) <> Some (e_self (w_ep w)).
Proof.
  intros Hw Hc w0. pose proof (wi_reg _ _ _ _ Hw) as Hr. pose proof (wi_mrs _ _ _ _ Hw) as Hm.
  assert (Hi : mrs_ok (d_mrs (w_dom w)) (d_next_mr (w_dom w)) (e_self (w_ep w)) (held_mrs w)).
  { rewrite (held_internal w Hw). exact Hm. }
  assert (E : (w0 = w <| w_dom ::= fun d => d <| d_reg_ep := None |> |>) \/ (w0 = w /\ d_reg_ep (w_dom w) <> Some (e_self (w_ep w)))).
  { unfold w0, unregistered. destruct (bool_decide_reflect (d_reg_ep (w_dom w) = Some (e_self (w_ep w)))) as [Hs|Hs].
    - left. unfold set_field. by rewrite bool_decide_eq_true_2.
    - right. split; [|done]. destruct w. unfold set_field. cbn in *. by rewrite bool_decide_eq_false_2. }
  destruct E as [->|[-> Hs]].
  - split_and!; [split; [exact (wi_live _ _ _ _ Hw)|done|exact Hi|exact Hc]|done..].
  - split_and!; [split; [exact (wi_live _ _ _ _ Hw)|done..]|done..].
Qed.

Lemma flush_lists_spec others w :
  Forall pend_ok (e_pending (w_ep w)) -> closing (all_pend_mrs (e_pending (w_ep w))) (all_pend_cmrs (e_pending (w_ep w)) ++ others) w ->
  wp rds_ep_flush_lists (fun _ w' => closing [] others w' /\ e_pending (w_ep w') = [] /\ queues_of w' = ([], [], [], []) /\
    d_mrs (w_dom w') = free_list (all_pend_mrs (e_pending (w_ep w))) (d_mrs (w_dom w)) /\
    (e_deferred (w_ep w'), e_peers (w_ep w'), d_reg_ep (w_dom w'), e_self (w_ep w')) =
    (e_deferred (w_ep w), e_peers (w_ep w), d_reg_ep (w_dom w), e_self (w_ep w))) w.
Proof.
  intros Hok Hc. unfold rds_ep_flush_lists. apply wp_bind, wp_ep_upd, wp_bind, wp_ep_get. w_simpl.
  eapply wp_mono; [apply (flush_pendings_spec _ [] others); [exact Hok|done|rewrite app_nil_r; destruct Hc; by split]|].
  cbn beta. intros _ w' (Hc' & E & Hm & Hk). injection Hk as Q1 Q2 Q3 Q4 Q5 Q6 Q7 Q8.
  split_and!; [done|done| |done|]; unfold queues_of; congruence.
Qed.

Lemma peers_gone slots max rdma (peers peers' : gmap Z rds_peer) hash lru cnt next :
  peers_ok slots max rdma peers hash lru cnt next ->
  (forall h, peers' !! h = if bool_decide (h ∈ lru) then None else peers !! h) -> peers' = ∅.
Proof.
  intros Hok Hp. apply map_empty. intros h. rewrite Hp. destruct (bool_decide_reflect (h ∈ lru)) as [|Hn]; [done|].
  destruct (peers !! h) eqn:E; [|done]. exfalso. apply Hn, (pr_lru_in _ _ _ _ _ _ _ _ Hok). by eexists.
Qed.

Lemma ep_close_core others w :
  world_ok w -> e_ref (w_ep w) = 0 -> cache_on (caching w) (the_cache w) (all_pend_cmrs (e_pending (w_ep w)) ++ others) ->
  wp rds_ep_close (fun r w' => r = 0 /\ w_live w' = false /\
    (forall h, d_mrs (w_dom w') !! h = if bool_decide (h ∈ internal w) then None else d_mrs (w_dom w) !! h) /\
    cache_on (caching w') (the_cache w') others /\ (d_reg_ep (w_dom w') <> Some (e_self (w_ep w)) /\ reg_ok w' /\ e_self (w_ep w') = e_self (w_ep w)) /\
    e_pending (w_ep w') = [] /\ e_deferred (w_ep w') = [] /\ e_peers (w_ep w') = ∅ /\ queues_of w' = ([], [], [], [])) w.
Proof.
  intros Hw Href Hc. unfold rds_ep_close. apply wp_bind, wp_ep_get. rewrite Href. cbn [Z.eqb negb].
  apply wp_bind, wp_ep_get, wp_bind, wp_dom_upd. change (wp ?m ?Q _) with (wp m Q (unregistered w)).
  destruct (unregistered_spec others w Hw Hc) as (Hc0 & E4 & E1 & Hself). revert Hc0 E4 E1 Hself.
  generalize (unregistered w). intros w0 Hc0 E4 E1 Hself. apply wp_bind. unfold rds_ep_ring_cleanup. apply wp_bind, wp_ep_get.
  pose proof (wi_peers _ _ _ _ Hw) as Hpe. rewrite E4.
  eapply wp_mono; [apply (peer_free_all_spec _ (all_pend_mrs (e_pending (w_ep w))) (all_pend_cmrs (e_pending (w_ep w)) ++ others))|].
  { exact (pr_lru _ _ _ _ _ _ _ _ Hpe). }
  { rewrite E4. intros h Hh. by apply (pr_lru_in _ _ _ _ _ _ _ _ Hpe). }
  { rewrite E4. exact Hc0. }
  cbn beta. rewrite E4, E1. intros _ w1 (Hc1 & Hr1 & Hm1 & Hp1). injection Hr1 as R1 R2 R3 R4 R5 R6 R7 R8.
  apply wp_bind. unfold rds_ep_flush_deferred. apply wp_ep_upd, wp_bind. rewrite E4 in R1, R2, R4. rewrite <- R1 in Hc1.
  eapply wp_mono; [apply (flush_lists_spec others)|].
  { w_simpl. rewrite R1. exact (pn_ok _ _ _ _ _ (wi_pend _ _ _ _ Hw)). }
  { destruct Hc1; by split. }
  cbn beta. w_simpl. intros _ w3 (Hc3 & E6 & Q & Hm3 & Hk3). injection Hk3 as Q1 Q2 Q3 Q4. apply wp_bind, wp_ep_get, wp_bind.
  assert (HM : forall h, d_mrs (w_dom w3) !! h = if bool_decide (h ∈ internal w) then None else d_mrs (w_dom w) !! h).
  { intros h. rewrite Hm3, Hm1, R1, <- free_list_app, free_list_lookup.
    erewrite bool_decide_ext; [done|]. by rewrite <- (held_internal w Hw). }
  pose proof (peers_gone _ _ _ _ _ _ _ _ _ Hpe Hp1) as Hg.
  assert (Hs : d_reg_ep (w_dom w3) <> Some (e_self (w_ep w))) by congruence. assert (Es : e_self (w_ep w3) = e_self (w_ep w)) by congruence.
  assert (Hreg : forall wc : world K, w_dom wc = w_dom w3 -> e_self (w_ep wc) = e_self (w_ep w3) -> reg_ok wc).
  { intros wc Ed Ee ep Hep. rewrite Ed in Hep. pose proof (cl_reg _ _ _ Hc3 ep Hep) as Hep'. unfold ep_sock_of in *. rewrite Ee, Ed, Es in *.
    rewrite (proj2 (Z.eqb_neq ep (e_self (w_ep w)))) in * by congruence. exact Hep'. }
  destruct (_ >=? 0); [apply wp_modify|apply wp_ret]; apply wp_bind, wp_endpoint_close, wp_bind, wp_modify, wp_ret;
    (split_and!; [done|done|exact HM|exact (cl_cache _ _ _ Hc3)|exact Hs|by apply Hreg|exact Es|exact E6|w_simpl; congruence|w_simpl; congruence|exact Q]).
Qed.

(** ** References *)

Lemma emits_peer_free h : emits (K := K) (rds_peer_free h).
Proof. unfold rds_peer_free. emits. Qed.
Hint Resolve emits_peer_free : emits.
Lemma emits_peer_free_all l : emits (K := K) (rds_peer_free_all l).
Proof. induction l as [|h l IH]; cbn [rds_peer_free_all]; emits. Qed.
Lemma emits_flush_pendings l : emits (K := K) (flush_pendings l).
Proof. induction l as [|p l IH]; cbn [flush_pendings]; unfold flush_pending; emits. Qed.
Lemma emits_unregister self : emits (K := K) (dom_upd (fun d => if bool_decide (d_reg_ep d = Some self) then d <| d_reg_ep := None |> else d)).
Proof. apply emits_pres, pres_dom_upd. intros w. unfold seen, obj_part, caching. w_simpl. by destruct (bool_decide _). Qed.
Hint Resolve emits_peer_free_all emits_flush_pendings emits_unregister : emits.

Lemma close_objects w : w_live w = true ->
  wlp rds_ep_close (fun r w' => r = 0 -> (forall id, cntr_val w' id = cntr_val w id) /\ forall x, refs_ok x w -> refs_ok x w') w.
Proof.
  intros Hl. unfold rds_ep_close. apply wlp_bind, wlp_of_wp, wp_ep_get. destruct (negb _); [by apply wlp_ret|].
  set (Q := fun (r : Z) w' => r = 0 -> _). set (same := fun w1 => cntr_part w1 = cntr_part w /\ obj_part w1 = obj_part w).
  assert (Hstep : forall A (m : St K A) (k : A -> St K Z) w1, same w1 -> emits m -> (forall a w2, same w2 -> wlp (k a) Q w2) -> wlp (bind m k) Q w1).
  { intros A m k w1 [E1 F1] Hm Hk. apply wlp_bind. eapply wlp_mono; [apply Hm|]. cbn beta. intros a w2 (_ & E2 & F2). apply Hk. split; congruence. }
  do 7 (apply Hstep; [done|unfold rds_ep_ring_cleanup, rds_ep_flush_deferred, rds_ep_flush_lists; emits|intros ? ? ?]).
  match goal with H : same ?w8 |- wlp _ _ ?w8 => destruct H as [E1 E2]; rename w8 into wc end.
  apply wlp_bind, wlp_of_wp, wp_endpoint_close, wlp_bind, wlp_of_wp, wp_modify, wlp_ret. intros _. split.
  - intros id. injection E1 as E1 _ _. unfold cntr_val. w_simpl. rewrite <- E1. unfold cntrs_without. rewrite foldr_alter_lookup.
    destruct (w_cntrs wc !! id) as [c|]; [|done]. cbn. f_equal. apply unref_iter.
  - intros x Hr. assert (Hr1 : refs_ok x wc) by (by apply (refs_part x w)). injection E2 as _ E2 _ _ _ _.
    apply (refs_left x wc); [done|congruence|done|done|done|done|]. exact (ro_ep _ _ Hr1).
Qed.

End Close.

Section Releases.
Context {K : Type} `{!Kernel K}.
Implicit Types w : world K.

(** C15: Closing an endpoint always succeeds and releases exactly what the
    endpoint holds: every internal region leaves the table and every other
    region stays as it was, every cache entry of a send under way is given
    back to the cache and the other users of the cache keep theirs, and the
    domain no longer registers memory through the endpoint; the completion
    queues, counters, address vector and domain lose exactly the references
    of the endpoint, and every counter keeps its counts.  No release is done
    twice and none touches freed memory: the close is defined.  (For a kernel
    with [MrAgainEnds].) *)
Theorem ep_close_releases (Hagain : MrAgainEnds K) x others w :
  sys_ok x w -> cache_on (caching w) (the_cache w) (all_pend_cmrs (e_pending (w_ep w)) ++ others) ->
  wp rds_ep_close (fun r w' => (r = 0 /\ w_live w' = false /\
    (forall h, d_mrs (w_dom w') !! h = if bool_decide (h ∈ internal w) then None else d_mrs (w_dom w) !! h) /\
    cache_on (caching w') (the_cache w') others /\ (d_reg_ep (w_dom w') <> Some (e_self (w_ep w)) /\ reg_ok w' /\ e_self (w_ep w') = e_self (w_ep w)) /\
    e_pending (w_ep w') = [] /\ e_deferred (w_ep w') = [] /\ e_peers (w_ep w') = ∅ /\ queues_of w' = ([], [], [], [])) /\
    (forall id, cntr_val w' id = cntr_val w id) /\ refs_ok x w') w.
Proof.
  intros (Hw & _ & Hr) Hc. pose proof (ro_ep _ _ Hr) as Href.
  eapply wp_mono; [eapply (wp_wlp _ _ _ w); [by apply (ep_close_core others)|exact (close_objects w (wi_live _ _ _ _ Hw))]|].
  cbn beta. intros r w' [H1 H2]. split; [done|]. destruct (H2 (proj1 H1)) as [Hv Hr']. split; [done|]. by apply Hr'.
Qed.
End Releases.
