(* ===== verification/Stack.v ===== *)
(** * The provider from the first object to the last

    An application opens a fabric, a domain on it, completion queues and an
    address vector in the domain, and an endpoint on those; it uses the
    endpoint; it closes everything in the opposite order.  The theorems here
    put together what the other files show of the parts: opening leads to
    the states in which the endpoint is safe, and from every state the
    endpoint reaches everything can be closed.  Further theorems show what
    happens when objects are closed in another order. *)

From stdpp Require Import sorting strings.
From S2P Require Import Prelude Iov Wire Config Kernel Attr Getinfo Cq CqFifo Av AvIp MrCache MrCacheInv State Mr.
From S2P Require Import MrInv Pending Ring Msg Rma RingRx Progress Ep Cntr Objects Segments Pres Frame Inv Rules PendInv Safety.
From S2P Require Import SafetyRing SafetyRx RingPoll SafetyTx SafetyEp Emits Refs CntrSpec ObjSpec Startup Ops Effects Reach Close.
From S2P Require Import AvSpec.

(** ** The calls *)

(** What an application passes to the calls that open the objects: the
    attributes, the names of the new objects and, for the two queues, how
    their wait objects come up; the cache gets its monitor and limits from the
    environment. *)
Record stack := mkStack {
  sk_fabric : fi_fabric_attr; sk_domain : Z; sk_ep : Z; sk_version : Z; sk_info : fi_info;
  sk_monitor : bool; sk_max_cnt : Z; sk_max_size : Z; sk_setup : Z;
  sk_txq : Z; sk_tx_attr : fi_cq_attr; sk_tx_wait : Z; sk_tx_poll : Z;
  sk_rxq : Z; sk_rx_attr : fi_cq_attr; sk_rx_wait : Z; sk_rx_poll : Z;
  sk_av_attr : fi_av_attr; sk_universe : Z; sk_selective : bool }.

Section Stack.
Context {K : Type} `{!Kernel K}.
Implicit Types w : world K.

(** The next call, once the last one has succeeded. *)
Definition next (m k : St K Z) : St K Z := r <- m ;; if negb (r =? 0) then ret r else k.

Lemma wp_next m k (Q : Z -> world K -> Prop) w :
  wp m (fun r w' => if r =? 0 then wp k Q w' else Q r w') w -> wp (next m k) Q w.
Proof.
  intros H. apply wp_bind. eapply wp_mono; [exact H|]. cbn beta. intros r w' H'. destruct (r =? 0); [exact H'|by apply wp_ret].
Qed.

(** A call that succeeds. *)
Lemma wp_next_ok m k (P : world K -> Prop) (Q : Z -> world K -> Prop) w :
  wp m (fun r w' => r = 0 /\ P w') w -> (forall w', P w' -> wp k Q w') -> wp (next m k) Q w.
Proof. intros Hm Hk. apply wp_next. eapply wp_mono; [exact Hm|]. cbn beta. intros r w' [-> H']. by apply Hk. Qed.

Definition stack_open (a : stack) : St K Z :=
  next (rds_fabric (sk_fabric a))
  (next (rds_domain_open (sk_domain a) (sk_version a) (Some (sk_info a)) (sk_monitor a) (sk_max_cnt a) (sk_max_size a) (sk_setup a))
  (next (rds_cq_open (sk_txq a) (sk_tx_attr a) (sk_tx_wait a) (sk_tx_poll a))
  (next (rds_cq_open (sk_rxq a) (sk_rx_attr a) (sk_rx_wait a) (sk_rx_poll a))
  (next (ofi_ip_av_create (sk_av_attr a) (sk_universe a))
  (ep_open (sk_ep a) (sk_version a) (sk_info a) (sk_selective a) (sk_txq a) (sk_rxq a)))))).

Fixpoint close_all (f : Z -> St K Z) (ids : list Z) : St K Z :=
  match ids with
  | [] => ret 0
  | id :: ids => next (f id) (close_all f ids)
  end.

(** The application knows what it has opened. *)
Definition cntr_ids w : list Z := (map_to_list (w_cntrs w)).*1.
Definition cq_ids w : list Z := (map_to_list (ob_cq_refs (w_obj w))).*1.

Definition stack_close : St K Z :=
  next rds_ep_close
  (next (ids <- gets cntr_ids ;; close_all util_cntr_close ids)
  (next (ids <- gets cq_ids ;; close_all rds_cq_close ids)
  (next (av <- gets (fun w => ob_av (w_obj w)) ;; match av with Some _ => ip_av_close | None => ret 0 end)
  (next rds_domain_close rds_fabric_close)))).

(** ** Opening *)

(** A process that has opened nothing. *)
Record process_fresh w : Prop := {
  pf_cfg : config_ok (w_cfg w); pf_live : w_live w = false; pf_ref : e_ref (w_ep w) = 0;
  pf_cntrs : w_cntrs w = ∅; pf_cqs : ob_cq_refs (w_obj w) = ∅; pf_av : ob_av (w_obj w) = None }.

(** Arguments without null pointers where the calls follow them, two queues
    of the provider's own, a vector that is not empty. *)
Record stack_ok (a : stack) : Prop := {
  so_fabric : is_Some (fba_name (sk_fabric a));
  so_domain : exists d, in_domain_attr (sk_info a) = Some d /\ is_Some (dma_name d);
  so_queues : sk_txq a <> sk_rxq a;
  so_tx : has (qa_flags (sk_tx_attr a)) FI_PEER = false /\ 0 <= qa_size (sk_tx_attr a) <= 2 ^ 63;
  so_rx : has (qa_flags (sk_rx_attr a)) FI_PEER = false /\ 0 <= qa_size (sk_rx_attr a) <= 2 ^ 63;
  so_av : 1 <= (if aa_count (sk_av_attr a) =? 0 then sk_universe a else aa_count (sk_av_attr a)) }.

(** A domain with queues only. *)
Record based (info : fi_info) w : Prop := {
  bs_cfg : config_ok (w_cfg w); bs_live : w_live w = false; bs_dom : domain_fresh (w_dom w); bs_refs : refs_ok alone w;
  bs_caps : has (in_caps info) FI_SOURCE = true -> has (ud_caps (ob_domain (w_obj w))) FI_SOURCE = true;
  bs_av : ob_av (w_obj w) = None; bs_fmt : ud_addr_format (ob_domain (w_obj w)) = in_addr_format info }.

Lemma based_k info w k' : based info w -> based info (w <| w_k := k' |>).
Proof. intros [H1 H2 H3 H4 H5 H6 H7]. split; [done..| |done|done|done]. by apply (refs_part alone w). Qed.

(** Bits added to a mask stay set. *)
Lemma has_more a b m : has a m = true -> has (Z.lor a b) m = true.
Proof. unfold has. rewrite !negb_true_iff, !Z.eqb_neq. intros H E. apply H. rewrite Z.land_lor_distr_l in E. by apply Z.lor_eq_0_l in E. Qed.

Lemma domain_based self info a name d w :
  process_fresh w -> uf_domain_list (ob_fabric (w_obj w)) = [] -> uf_ref (ob_fabric (w_obj w)) = 0 -> domain_fresh d ->
  based info (dom_plus (Z.b2z (d_cache_enabled d)) (w <| w_obj ::= domain_made self info a name |> <| w_dom := d |>)).
Proof.
  intros [H1 H2 H3 H4 H5 H6] Hl Hr Hd. split; [done|done|done| |intros H; by apply has_more|done|done].
  split; unfold own, caching, dom_plus; w_simpl; rewrite ?H2; cbn; rewrite ?H4, ?H5, ?H6; [by intros id r ?%lookup_empty_Some|by intros r|by intros id c ?%lookup_empty_Some|by destruct (d_cache_enabled d)|done|done|done|].
  unfold fabric_ok. cbn. rewrite Hl, Hr. split_and!; [apply NoDup_singleton|done|done|apply list_elem_of_here].
Qed.

(** The queue is open and can take completions. *)
Definition queue_ok (src : bool) w (id : Z) : Prop := is_Some (ob_cq_refs (w_obj w) !! id) /\ bound_ok (w_cqs w) (Some id) src.

Lemma queue_k src w k' id : queue_ok src w id -> queue_ok src (w <| w_k := k' |>) id.
Proof. done. Qed.

Lemma queue_opened info id attr w :
  based info w -> ob_cq_refs (w_obj w) !! id = None -> has (qa_flags attr) FI_PEER = false -> 0 <= qa_size attr <= 2 ^ 63 ->
  let w' := cq_opened id attr w in
  based info w' /\ queue_ok (has (in_caps info) FI_SOURCE) w' id /\
  (forall src id', id' <> id -> queue_ok src w id' -> queue_ok src w' id') /\
  (forall id', id' <> id -> ob_cq_refs (w_obj w') !! id' = ob_cq_refs (w_obj w) !! id').
Proof.
  intros Hb Hn Hp Hs w'. pose proof Hb as [H1 H2 H3 H4 H5 H6 H7].
  assert (Ho : forall id', id' <> id -> ob_cq_refs (w_obj w') !! id' = ob_cq_refs (w_obj w) !! id') by (intros id' Hne; by apply lookup_insert_ne).
  assert (Eq : w_cqs w' = <[id := new_cq attr w]> (w_cqs w)) by (unfold w', cq_opened; w_simpl; by rewrite Hp).
  split_and!; [..|exact Ho].
  - split; [done..| |done|done|done]. by apply (refs_open_cq alone w).
  - split; [eexists; apply lookup_insert_eq|]. rewrite Eq. intros i [= <-]. exists (new_cq attr w), []. rewrite lookup_insert_eq. split; [done|].
    split; [by apply util_cq_init_rep|]. intros E. unfold new_cq. rewrite (H5 E). by eexists.
  - intros src id' Hne [Ho' Hb']. split; [by rewrite Ho|]. rewrite Eq. intros i [= <-]. destruct (Hb' id' eq_refl) as (q & cs & E & Hq).
    exists q, cs. by rewrite lookup_insert_ne.
Qed.

Lemma av_ready info txq rxq attr universe w :
  based info w -> queue_ok (has (in_caps info) FI_SOURCE) w txq -> queue_ok (has (in_caps info) FI_SOURCE) w rxq ->
  domain_ready alone info txq rxq (av_opened attr universe w).
Proof.
  intros [H1 H2 (D1 & D2 & D3) H4 H5 H6 H7] [Ht1 Ht2] [Hr1 Hr2]. split; [done| |exact Hr2| | | |done| |done].
  - intros i E. destruct (Ht2 i E) as (q & cs & ? & ? & _). by exists q, cs.
  - intros ep E. change (d_reg_ep (w_dom w) = Some ep) in E. congruence.
  - intros h [m E]. change (d_mrs (w_dom w) !! h = Some m) in E. rewrite D2 in E. by apply lookup_empty_Some in E.
  - by exists [].
  - split; [exact alone_ok|]. by apply (refs_open_av alone w).
Qed.

(** A vector for IPv4 addresses. *)
Lemma new_av_ipv4 attr universe :
  1 <= (if aa_count attr =? 0 then universe else aa_count attr) -> has (aa_flags attr) OFI_AV_DYN_ADDRLEN = false ->
  av_ipv4 (new_av FI_SOCKADDR_IN attr universe).
Proof.
  intros Hn Hf. split_and!; [|done|exact Hf]. split; cbn [new_av av_chunk_cnt av_hash av_pool]; [|intros k i; rewrite !lookup_empty; naive_solver|by intros i e ?%lookup_empty_Some..].
  unfold roundup_power_of_two. destruct (_ <? 2); [lia|]. apply Z.pow_pos_nonneg; [lia|]. pose proof (Z.log2_nonneg ((if aa_count attr =? 0 then universe else aa_count attr) - 1)). lia.
Qed.

(** Everything up to the endpoint. *)
Lemma stack_ready a (Q : Z -> world K -> Prop) w :
  (forall k : K, (k_alloc RBMAP_SIZE k).1 <> None) -> process_fresh w -> stack_ok a ->
  (forall r w', r <> 0 -> Q r w') ->
  (forall w', domain_ready alone (sk_info a) (sk_txq a) (sk_rxq a) w' -> (in_addr_format (sk_info a) = FI_SOCKADDR_IN -> av_ipv4 (w_avec w')) ->
     wp (ep_open (sk_ep a) (sk_version a) (sk_info a) (sk_selective a) (sk_txq a) (sk_rxq a)) Q w') ->
  wp (stack_open a) Q w.
Proof.
  intros Hmap Hf [[fname Ef] (d & Ed & [dname En]) Hne [Htp Hts] [Hrp Hrs] Hav] Hfail Hep. unfold stack_open.
  assert (Hfail' : forall (r : Z) (m : St K Z) w', r <> 0 -> if r =? 0 then wp m Q w' else Q r w').
  { intros r m w' Hr. rewrite (proj2 (Z.eqb_neq r 0) Hr). by apply Hfail. }
  apply wp_next. eapply wp_mono; [by apply fabric_spec|]. cbn beta. intros r w1 (k1 & [[Hr ->]|[-> ->]]); [by apply Hfail'|].
  apply wp_next. eapply wp_mono; [by apply (domain_open_spec _ _ _ d dname)|]. cbn beta. intros r w2 (k2 & [[Hr ->]|[-> (dom & Hd & Ew)]]); [by apply Hfail'|].
  assert (Hb : based (sk_info a) w2 /\ ob_cq_refs (w_obj w2) = ∅).
  { subst w2. split; [|exact (pf_cqs _ Hf)]. apply domain_based; [by destruct Hf|done..]. }
  clear Ew. destruct Hb as [Hb Ho]. cbn [Z.eqb].
  apply wp_next. eapply wp_mono; [apply cq_open_spec|]. cbn beta. intros r w3 (k3 & [[Hr ->]|[-> ->]]); [by apply Hfail'|].
  destruct (queue_opened _ (sk_txq a) (sk_tx_attr a) _ (based_k _ _ k3 Hb)) as (Hb3 & Hq3 & _ & Ho3); [w_simpl; by rewrite Ho|done|done|]. cbn [Z.eqb].
  apply wp_next. eapply wp_mono; [apply cq_open_spec|]. cbn beta. intros r w4 (k4 & [[Hr ->]|[-> ->]]); [by apply Hfail'|].
  destruct (queue_opened _ (sk_rxq a) (sk_rx_attr a) _ (based_k _ _ k4 Hb3)) as (Hb4 & Hq4 & Hk4 & _); [|done|done|].
  { specialize (Ho3 (sk_rxq a) ltac:(congruence)). etransitivity; [exact Ho3|]. w_simpl. by rewrite Ho. }
  apply (Hk4 _ (sk_txq a)) in Hq3; [|done]. cbn [Z.eqb].
  apply wp_next. eapply wp_mono; [apply av_create_spec|]. cbn beta. intros r w5 (k5 & [[[-> Hfl] ->]|[Hr _]]); [|by apply Hfail'].
  cbn [Z.eqb]. apply Hep; [exact (av_ready _ _ _ _ _ _ (based_k _ _ k5 Hb4) (queue_k _ _ k5 _ Hq3) (queue_k _ _ k5 _ Hq4))|].
  intros Ef'. pose proof (bs_fmt _ _ (based_k _ _ k5 Hb4)) as Efmt. unfold av_opened. cbn [set_field w_avec]. rewrite Efmt, Ef'. by apply new_av_ipv4.
Qed.

(** ** Closing *)

Lemma close_all_spec {A} (get : world K -> gmap Z A) (f : Z -> St K Z) (P : world K -> Prop) :
  (forall id w, P w -> is_Some (get w !! id) -> wp (f id) (fun r w' => r = 0 /\ P w' /\ get w' = delete id (get w)) w) ->
  forall ids w, P w -> NoDup ids -> (forall id, id ∈ ids <-> is_Some (get w !! id)) ->
  wp (close_all f ids) (fun r w' => r = 0 /\ P w' /\ get w' = ∅) w.
Proof.
  intros Hf ids. induction ids as [|id ids IH]; intros w HP Hn Hin; cbn [close_all].
  - apply wp_ret. split_and!; [done|done|]. apply map_empty. intros id. apply eq_None_not_Some. intros Hs%Hin. by apply elem_of_nil in Hs.
  - apply NoDup_cons in Hn as [Hid Hn]. eapply wp_next_ok; [apply Hf; [done|apply Hin, list_elem_of_here]|]. cbn beta. intros w' [HP' E]. apply IH; [done|done|].
    intros id'. rewrite E, lookup_delete_is_Some, <- Hin, elem_of_cons. split; [|naive_solver]. intros H. split; [congruence|by right].
Qed.

Lemma map_ids {A} (m : gmap Z A) : NoDup (map_to_list m).*1 /\ forall id, id ∈ (map_to_list m).*1 <-> is_Some (m !! id).
Proof.
  split; [apply NoDup_fst_map_to_list|]. intros id. rewrite list_elem_of_fmap. split.
  - intros ([i a] & -> & H%elem_of_map_to_list). by exists a.
  - intros [a H%elem_of_map_to_list]. by exists (id, a).
Qed.

(** Teardown after the endpoint: nobody else, no endpoint. *)
Record ending w : Prop := {
  en_refs : refs_ok alone w; en_live : w_live w = false; en_reg : reg_ok w;
  en_cache : exists held, cache_on (caching w) (the_cache w) held }.

Lemma ending_step w w' : ending w -> refs_ok alone w' -> w_live w' = w_live w -> w_dom w' = w_dom w -> e_self (w_ep w') = e_self (w_ep w) ->
  e_sock (w_ep w') = e_sock (w_ep w) -> ending w'.
Proof.
  intros [H1 H2 H3 H4] Hr El Ed Es Ek. split; [done|congruence| |unfold caching, the_cache in *; by rewrite Ed].
  intros ep Hep. unfold reg_ok, ep_sock_of in *. rewrite El, Es, Ek. rewrite Ed in *. by apply H3.
Qed.

Lemma cntr_gone id w : ending w -> is_Some (w_cntrs w !! id) ->
  wp (util_cntr_close id) (fun r w' => r = 0 /\ ending w' /\ w_cntrs w' = delete id (w_cntrs w)) w.
Proof.
  intros He [c Hc]. pose proof He as [Hr Hl _ _]. pose proof (ro_cntrs _ _ Hr id c Hc) as E. unfold own in E. rewrite Hl in E. cbn in E.
  unfold util_cntr_close. apply wp_bind. eapply wp_cntr_get; [exact Hc|]. rewrite E. cbn [Z.add Z.eqb negb]. apply wp_bind, wp_modify, wp_bind, wp_modify, wp_ret.
  split_and!; [done| |done]. eapply ending_step; [exact He| |done..]. by apply (refs_close_cntr alone w id c alone_ok).
Qed.

Lemma cq_gone id w : ending w /\ w_cntrs w = ∅ -> is_Some (ob_cq_refs (w_obj w) !! id) ->
  wp (rds_cq_close id) (fun r w' => r = 0 /\ (ending w' /\ w_cntrs w' = ∅) /\ ob_cq_refs (w_obj w') = delete id (ob_cq_refs (w_obj w))) w.
Proof.
  intros [He Ec] [r Hc]. pose proof He as [Hr Hl _ _]. pose proof (ro_cqs _ _ Hr id r Hc) as E. unfold own in E. rewrite Hl in E. cbn in E. subst r.
  eapply wp_mono; [by apply cq_close_spec|]. cbn beta. rewrite Z.eqb_refl. intros e w' [-> ->]. split_and!; [done| |exact Ec|done].
  eapply ending_step; [exact He| |done..]. by apply (refs_close_cq alone w id (delete id) alone_ok).
Qed.

Lemma av_gone w : ending w ->
  wp (av <- gets (fun w => ob_av (w_obj w)) ;; match av with Some _ => ip_av_close | None => ret 0 end) (fun r w' => r = 0 /\ ending w' /\
    ob_av (w_obj w') = None /\ w_cntrs w' = w_cntrs w /\ ob_cq_refs (w_obj w') = ob_cq_refs (w_obj w)) w.
Proof.
  intros He. pose proof He as [Hr Hl _ _]. apply wp_bind, wp_gets. destruct (ob_av (w_obj w)) as [r|] eqn:E; [|by apply wp_ret].
  pose proof (ro_av _ _ Hr r E) as Er. unfold own in Er. rewrite Hl in Er. cbn in Er. subst r. apply wp_av_close; [done|].
  split_and!; [done| |done..]. eapply ending_step; [exact He| |done..]. by apply refs_close_av.
Qed.

(** The cache of a domain is closed, whoever holds entries of it. *)
Lemma cache_close_spec `{!MrAgainEnds K} held w :
  reg_ok w -> cache_on (caching w) (the_cache w) held ->
  wp rds_mr_cache_close (fun _ w' => exists d k', d_cache_enabled d = false /\ w' = dom_plus (- Z.b2z (caching w)) (w <| w_k := k' |> <| w_dom := d |>) /\
    (caching w = true -> mc_entries (d_mr_cache d) = ∅)) w.
Proof.
  intros Hreg Hc. unfold rds_mr_cache_close. apply wp_bind, wp_gets. unfold caching in *. destruct (d_cache_enabled (w_dom w)) eqn:Eon.
  - apply wp_bind. eapply wp_mono; [by apply (cleanup_spec (owner_ok w) w held); [apply owner_ok_refl|]|]. cbn beta.
    intros _ w1 ([_ (c & k' & ->)] & He & _). apply wp_bind, wp_modify, wp_dom_upd. eexists _, k'. split_and!; [|reflexivity|]; [done|intros _; exact He].
  - apply wp_ret. exists (w_dom w), (w_k w). split_and!; [done| |done]. rewrite dom_plus_0. by destruct w.
Qed.

Lemma domain_gone `{!MrAgainEnds K} w :
  ending w -> w_cntrs w = ∅ -> ob_cq_refs (w_obj w) = ∅ -> ob_av (w_obj w) = None ->
  wp rds_domain_close (fun r w' => r = 0 /\ w_cntrs w' = ∅ /\ ob_cq_refs (w_obj w') = ∅ /\ ob_av (w_obj w') = None /\ w_live w' = false /\
    caching w' = false /\ ud_ref (ob_domain (w_obj w')) = 0 /\ uf_ref (ob_fabric (w_obj w')) = 0 /\ uf_domain_list (ob_fabric (w_obj w')) = []) w.
Proof.
  intros [Hr Hl Hreg [held Hc]] Ec Eq Ea. unfold rds_domain_close. apply wp_bind. eapply wp_mono; [by apply (cache_close_spec held)|]. cbn beta.
  intros _ w1 (d & k' & Hoff & -> & _). pose proof (ro_domain _ _ Hr) as Hd. unfold own in Hd. rewrite Hl, Ec, Eq, Ea in Hd. cbn in Hd.
  assert (Hd' : ud_ref (ob_domain (w_obj (dom_plus (- Z.b2z (caching w)) (w <| w_k := k' |> <| w_dom := d |>)))) = 0) by (unfold dom_plus; cbn; rewrite Hd; by destruct (caching w)).
  unfold ofi_domain_close. apply wp_bind, wp_gets. rewrite Hd'. cbn [Z.eqb negb]. apply wp_bind, wp_gets, wp_bind, wp_modify, wp_ret.
  destruct (ro_fabric _ _ Hr) as (_ & Hlen & Href & Hin). cbn in Hlen, Href.
  split_and!; [done..|exact Hoff|exact Hd'| |]; cbn.
  - rewrite Href. done.
  - destruct (uf_domain_list (ob_fabric (w_obj w))) as [|s [|? ?]]; [done| |done]. apply list_elem_of_singleton in Hin as <-.
    rewrite filter_cons, decide_False by tauto. done.
Qed.

(** Everything is closed and nothing refers to anything any more. *)
Record process_done w : Prop := {
  pd_live : w_live w = false; pd_cntrs : w_cntrs w = ∅; pd_cqs : ob_cq_refs (w_obj w) = ∅; pd_av : ob_av (w_obj w) = None;
  pd_cache : caching w = false; pd_domain : ud_ref (ob_domain (w_obj w)) = 0;
  pd_fabric : uf_ref (ob_fabric (w_obj w)) = 0 /\ uf_domain_list (ob_fabric (w_obj w)) = [] }.

Lemma stack_closes `{!MrAgainEnds K} w : sys_ok alone w -> wp stack_close (fun r w' => r = 0 /\ process_done w') w.
Proof.
  intros Hs. pose proof Hs as (Hw & _ & Hr). destruct (wi_cache _ _ _ _ Hw) as [ot Hc]. unfold stack_close.
  eapply (wp_next_ok _ _ ending).
  { eapply wp_mono; [eapply (wp_wlp _ _ _ w); [by apply (ep_close_core ot); [|exact (ro_ep _ _ Hr)|]|exact (close_objects w (wi_live _ _ _ _ Hw))]|].
    cbn beta. intros r w' [(Hr0 & Hl & _ & Hc' & (_ & Hreg & _) & _) H2]. destruct (H2 Hr0) as [_ H3]. split; [done|]. split; [by apply H3|done|done|by exists ot]. }
  intros w1 He1. eapply (wp_next_ok _ _ (fun w => ending w /\ w_cntrs w = ∅)).
  { apply wp_bind, wp_gets. destruct (map_ids (w_cntrs w1)) as [Hn Hin]. exact (close_all_spec w_cntrs util_cntr_close ending cntr_gone _ _ He1 Hn Hin). }
  intros w2 He2. eapply (wp_next_ok _ _ (fun w => (ending w /\ w_cntrs w = ∅) /\ ob_cq_refs (w_obj w) = ∅)).
  { apply wp_bind, wp_gets. destruct (map_ids (ob_cq_refs (w_obj w2))) as [Hn Hin].
    exact (close_all_spec (fun w => ob_cq_refs (w_obj w)) rds_cq_close _ cq_gone _ _ He2 Hn Hin). }
  intros w3 [[He3 Ec3] Eq3]. eapply wp_next_ok; [by apply av_gone|]. cbn beta. intros w4 (He4 & Ea4 & Ec4 & Eq4).
  eapply wp_next_ok; [apply domain_gone; congruence|]. cbn beta. intros w5 (Ec5 & Eq5 & Ea5 & Hl5 & Hon5 & Hd5 & Hf5 & Hfl5).
  unfold rds_fabric_close, ofi_fabric_close. apply wp_bind, wp_gets. rewrite Hf5. cbn [Z.eqb negb]. apply wp_ret. split; [done|]. by split.
Qed.

(** C33: A domain opened for addresses of no particular format (neither
    FI_SOCKADDR_IN nor FI_SOCKADDR_IN6) cannot talk to IPv4 peers: inserting
    an IPv4 address into an address vector opened on it is undefined (an
    assertion on the length of addresses fails). *)
Theorem any_format_vector_unusable attr universe w :
  match ud_addr_format (ob_domain (w_obj w)) with FI_SOCKADDR_IN | FI_SOCKADDR_IN6 => False | _ => True end ->
  wp (ofi_ip_av_create attr universe) (fun r w' => r = 0 -> forall buf count flags context (k : K),
    0 < count -> sa_family buf = AF_INET -> ofi_verify_av_insert flags context = 0 -> ofi_ip_av_insert buf count flags context (w_avec w', k) = None) w.
Proof.
  intros Hf. eapply wp_mono; [apply av_create_spec|]. cbn beta. intros r w' (k' & [[_ ->]|[Hr _]]) Hr0; [|done]. intros buf count flags context k Hc Ha Hv.
  apply av_dynamic_length_fails; [..|done|done|done]; unfold av_opened; cbn [set_field w_avec w_obj]; revert Hf; w_simpl;
    (destruct (ud_addr_format (ob_domain (w_obj w))); [|try done..]); intros _; unfold new_av; cbn [av_addrlen av_flags]; try done; by apply has_more.
Qed.

(** C2: From the first object to the last, for a kernel that answers a
    registration with EAGAIN only finitely often in a row, delivers only
    datagrams with the operation codes of the protocol ([MrAgainEnds],
    [KnownOps]) and never refuses the allocation of the domain's map of
    regions (otherwise opening the domain is undefined).  A process that has opened
    nothing opens a fabric, a domain, two completion queues, an address
    vector and an endpoint.  If all calls succeed, then whatever happens
    afterwards (operations, traffic, more queues and counters opened, bound
    and closed), no allowed call is ever undefined, and at any time closing
    the endpoint, every counter, every queue, the vector, the domain and the
    fabric in this order succeeds, call by call, and leaves no reference
    behind.  The vector of a domain for IPv4 addresses takes IPv4 addresses. *)
Theorem stack_lifecycle (Hagain : MrAgainEnds K) (Hops : KnownOps K) a w0 :
  (forall k : K, (k_alloc RBMAP_SIZE k).1 <> None) -> process_fresh w0 -> stack_ok a ->
  wp (stack_open a) (fun r w1 => r = 0 -> (in_addr_format (sk_info a) = FI_SOCKADDR_IN -> av_ipv4 (w_avec w1)) /\
    forall w, ep_reach w1 w -> (forall op, op_pre w op -> is_Some (ep_exec op w)) /\ wp stack_close (fun r' w' => r' = 0 /\ process_done w') w) w0.
Proof.
  intros Hmap Hf Ha. apply stack_ready; [done..|]. intros w Hd Hav. eapply wp_mono; [by apply open_spec|]. cbn beta. intros r w1 H1 Hr.
  destruct (H1 Hr) as (Hs & _ & _ & Ea). rewrite Ea. split; [done|]. intros w2 H2. pose proof (reach_ok _ _ _ Hs H2) as Hs2. split; [|by apply stack_closes].
  intros op Hop. pose proof (exec_ok alone op w2 Hs2 Hop) as Hwp. unfold wp in Hwp. by destruct (ep_exec op w2).
Qed.

(** ** Closing out of order *)

Lemma freed_entry_put h w : mc_entries (the_cache w) = ∅ -> rds_reg_cache_put h w = None.
Proof.
  intros E. unfold rds_reg_cache_put, ofi_mr_cache_delete, bind, upd, set_entry, entry_of, gets, modify. cbn. unfold the_cache in E. rewrite E. by rewrite alter_empty, lookup_empty.
Qed.

(** C31: A domain refused is a domain damaged.  Closing a domain while an
    endpoint is open on it returns -FI_EBUSY and leaves every object open and
    every reference exact, but has closed the registration cache of the
    domain by then.  The endpoint goes on without it, and giving back an
    entry it took before (when a send that is under way completes, or the
    endpoint is closed) is undefined: the entry has been freed.  (In a build
    with assertions it is ofi_mr_cache_cleanup that stops the process when
    such an entry is in use.  A kernel with [MrAgainEnds].) *)
Theorem domain_close_while_busy (Hagain : MrAgainEnds K) x w :
  sys_ok x w ->
  wp rds_domain_close (fun r w' => r = - FI_EBUSY /\ caching w' = false /\ refs_ok x w' /\
    (w_ep w', w_live w', w_cqs w', w_cntrs w') = (w_ep w, w_live w, w_cqs w, w_cntrs w) /\
    (caching w = true -> forall h, rds_reg_cache_put h w' = None)) w.
Proof.
  intros (Hw & Hx & Hr). destruct (wi_cache _ _ _ _ Hw) as [ot Hc]. unfold rds_domain_close. apply wp_bind.
  eapply wp_mono; [by eapply cache_close_spec; [exact (wi_reg _ _ _ _ Hw)|exact Hc]|]. cbn beta. intros _ w1 (d & k' & Hoff & -> & He).
  match goal with |- wp _ _ ?wg => set (w1 := wg) end. assert (Hr1 : refs_ok x w1).
  { unfold w1. destruct (caching w) eqn:Eon; [by apply (refs_cache_off x (w <| w_k := k' |>)); [apply (refs_part x w)|..]|].
    rewrite dom_plus_0. apply (refs_part x w); [done| |done]. unfold obj_part, caching in *. w_simpl. by rewrite Eon, Hoff. }
  pose proof (ro_domain _ _ Hr1) as Hd. unfold own in Hd. change (w_live w1) with (w_live w) in Hd. rewrite (wi_live _ _ _ _ Hw) in Hd.
  pose proof (ho_domain _ Hx). assert (0 <= opt_one (ob_av (w_obj w1))) by (by destruct (ob_av (w_obj w1))). assert (0 <= Z.b2z (caching w1)) by (by destruct (caching w1)).
  unfold ofi_domain_close. apply wp_bind, wp_gets. rewrite (proj2 (Z.eqb_neq (ud_ref (ob_domain (w_obj w1))) 0)) by lia. cbn [negb]. apply wp_ret.
  split_and!; [done|done|done|done|]. intros Eon h. apply freed_entry_put. exact (He Eon).
Qed.

(** C32: A region does not keep its endpoint.  Closing an endpoint succeeds
    while the application still has a memory region registered through it;
    the region stays in the table, and closing it afterwards is undefined
    (the region refers to the socket of the endpoint that is gone).  A kernel
    with [MrAgainEnds]. *)
Theorem region_outlives_endpoint (Hagain : MrAgainEnds K) x h m w :
  sys_ok x w -> d_mrs (w_dom w) !! h = Some m -> mr_ref m = 1 -> mr_ep m = e_self (w_ep w) -> (h ∉ internal w) ->
  wp rds_ep_close (fun r w' => r = 0 /\ d_mrs (w_dom w') !! h = Some m /\ rds_mr_close h w' = None) w.
Proof.
  intros (Hw & _ & Hr) Hm Href Hep Hin. destruct (wi_cache _ _ _ _ Hw) as [ot Hc].
  eapply wp_mono; [apply (ep_close_core ot); [done|exact (ro_ep _ _ Hr)|exact Hc]|]. cbn beta.
  intros r w' (-> & Hl & Hmrs & _ & (_ & _ & Es) & _). pose proof (Hmrs h) as E. rewrite bool_decide_eq_false_2, Hm in E by done.
  assert (Hs : forall f, ep_sock_of (w' <| w_dom ::= f |>) (mr_ep m) = None) by (intros f; unfold ep_sock_of; w_simpl; by rewrite Hep, <- Es, Z.eqb_refl, Hl).
  split_and!; [done|done|]. unfold rds_mr_close, rds_mr_put, bind, gets, ret, sock_of. rewrite E. cbn [of_opt]. unfold ret. rewrite Href. change (1 - 1 =? 0) with true. cbn [negb].
  unfold dom_upd, modify. cbn -[ep_sock_of set_field rds_kernel_free]. by rewrite Hs.
Qed.
End Stack.
