(* ===== verification/Again.v ===== *)
(** * A registration the kernel puts off

    [ofi_mr_cache_search] reads [-FI_EAGAIN] as "somebody else changed the
    tree, search again", but the provider's [add_region] callback also hands
    it the [EAGAIN] of [RDS_GET_MR].  With a kernel whose registration pool
    stays full the search never returns. *)

From S2P Require Import Prelude Iov Wire Config Kernel Cq Av Rbt RbtSpec MrCache MrCacheInv State Mr MrInv.

Section Again.
Context {K : Type} `{!Kernel K}.
Implicit Types w : world K.

(** The registration pool of the kernel is full and stays full. *)
Definition pool_full : Prop := forall sock args (k : K), (k_get_mr sock args k).1 = inl FI_EAGAIN.

(** Nothing of the endpoint's is cached, so nothing can be given up. *)
Record starved w : Prop := {
  sv_tree : exists fl, rbmap_ok (mc_tree (the_cache w)) [] fl []; sv_lru : mc_lru_list (the_cache w) = [];
  sv_dead : mc_dead_region_list (the_cache w) = [];
  sv_free : exists h l, mc_free (the_cache w) = h :: l /\ is_Some (mc_entries (the_cache w) !! h);
  sv_reg : exists ep, d_reg_ep (w_dom w) = Some ep /\ is_Some (ep_sock_of w ep) }.

Lemma flush_starved flush w : starved w ->
  wp (ofi_mr_cache_flush flush) (fun freed w' => freed = false /\ starved w') w.
Proof.
  intros [H1 H2 H3 H4 H5]. unfold ofi_mr_cache_flush. apply wp_bind, wp_gets. cbn [co_get rds_cache_owner]. unfold the_cache in *.
  rewrite H2, H3. apply wp_bind, wp_modify, wp_bind. cbn [flush_lru_loop]. apply wp_ret, wp_bind. cbn [free_entries].
  apply wp_ret, wp_ret. split; [done|]. by split.
Qed.

Lemma find_starved info w : starved w -> wp (ofi_mr_rbt_find info) (fun e w' => e = None /\ w' = w) w.
Proof.
  intros [[fl H1] _ _ _ _]. unfold ofi_mr_rbt_find. apply wp_bind, wp_gets, wp_bind. unfold on_tree, wp at 1. cbn [co_get rds_cache_owner].
  pose proof (rbmap_search_spec (tree_cmp util_mr_find_within info (the_cache w)) _ _ _ _ H1 ltac:(constructor)) as Hs. unfold wp, the_cache in Hs.
  destruct (ofi_rbmap_search _ _) as [[a t]|]; [|done]. destruct Hs as [-> [(d & ?%elem_of_nil & _)|[-> _]]]; [done|].
  unfold rbt_data. rewrite Z.eqb_refl. apply wp_ret. split; [done|]. by destruct w as [? ? ? [? []] ? ? ? ? ?].
Qed.

Lemma create_starved info w : pool_full -> iov_len info <= RDS_KERNEL_SEG_MAX -> starved w ->
  wp (util_mr_cache_create info) (fun '(r, _) w' => r = - FI_EAGAIN /\ starved w') w.
Proof.
  intros Hfull Hlen [H1 H2 H3 (h & l & H4 & e & H5) (ep & H6 & sock & H7)]. unfold the_cache in *.
  unfold util_mr_cache_create. apply wp_bind. unfold util_mr_entry_alloc. apply wp_bind, wp_gets. cbn [co_get rds_cache_owner].
  rewrite H4. apply wp_bind, wp_ret. cbn [negb]. apply wp_bind, wp_gets. cbn [co_get rds_cache_owner]. rewrite H4.
  apply wp_bind, wp_modify, wp_ret. apply wp_bind, wp_modify, wp_bind. cbn [co_add_region co_upd rds_cache_owner].
  unfold rds_cache_add_region. apply wp_bind, wp_gets. w_simpl. rewrite H6. apply wp_bind.
  eapply wp_sock_of; [exact H7|]. apply wp_bind, wp_gets, wp_bind. eapply wp_of_opt.
  { unfold cache_entry. w_simpl. mc_simpl. by rewrite lookup_alter_eq, H5. }
  apply wp_bind, wp_gets, wp_bind. unfold rds_kernel_reg. cbn [me_iov set_field].
  replace (iov_len info >? RDS_KERNEL_SEG_MAX) with false by (symmetry; rewrite Z.gtb_ltb; lia).
  apply wp_bind. unfold sys_get_mr. unfold wp at 1. w_simpl.
  match goal with |- context [k_get_mr ?s ?a ?k] => pose proof (Hfull s a k) as Hf; destruct (k_get_mr s a k) as [r k'] end.
  cbn [fst] in Hf. subst r. apply wp_ret, wp_ret. cbn [Z.eqb negb Z.opp FI_EAGAIN]. apply wp_bind. unfold util_mr_free_entry. apply wp_bind.
  eapply wp_of_opt; [cbn; by rewrite lookup_alter_eq, H5|]. cbn [me_node set_field]. rewrite Z.eqb_refl. cbn [negb]. apply wp_bind.
  cbn [co_delete_region rds_cache_owner]. unfold rds_cache_delete_region. apply wp_bind, wp_gets. w_simpl. rewrite H6.
  apply wp_bind. eapply wp_sock_of; [exact H7|]. apply wp_bind, wp_gets, wp_bind. eapply wp_of_opt.
  { unfold cache_entry. w_simpl. mc_simpl. by rewrite lookup_alter_eq, H5. }
  apply wp_sys_free_mr. intros k''. apply wp_modify, wp_ret. split; [done|].
  split; [done..| |by exists ep; split; [|exists sock]]. exists h, l. split; [done|]. unfold the_cache. cbn.
  rewrite lookup_alter_eq, H5. by eexists.
Qed.

(** One round of the search ends where it began. *)
Lemma search_starved n info w : pool_full -> iov_len info <= RDS_KERNEL_SEG_MAX -> starved w ->
  wlp (search_loop n info) (fun _ _ => False) w.
Proof.
  intros Hfull Hlen. revert w. induction n as [|n IH]; intros w Hs; cbn [search_loop]; apply wlp_bind, wlp_of_wp, wp_gets.
  all: apply wlp_bind; eapply wlp_mono; [apply wlp_of_wp; instantiate (1 := fun _ => starved)|].
  1, 3: destruct (_ || _); [apply wp_bind; eapply wp_mono; [by apply flush_starved|]; cbn beta; intros _ w' [_ Hs']; by apply wp_ret|by apply wp_ret].
  all: cbn beta; intros _ w1 Hs1; apply wlp_bind, wlp_of_wp, wp_modify.
  all: match goal with |- wlp _ _ ?wg => assert (Hs2 : starved wg) by (destruct Hs1; by split); generalize dependent wg end; intros w2 Hs2.
  all: apply wlp_bind; eapply wlp_mono; [apply wlp_of_wp; by apply find_starved|]; cbn beta; intros _ w3 [-> ->].
  all: apply wlp_bind, wlp_of_wp, wp_gets; cbn [is_hit]; apply wlp_bind, wlp_of_wp, wp_gets, wlp_bind.
  all: replace (purge_loop _ info None) with (ret (S := world K) tt) by (by destruct (length _)); apply wlp_ret.
  all: apply wlp_bind; eapply wlp_mono; [apply wlp_of_wp; by apply create_starved|]; intros [r h] w4 [-> Hs4].
  all: cbn [Z.eqb negb andb Z.opp FI_EAGAIN Pos.eqb]; apply wlp_bind, wlp_ret.
  - apply wlp_ub.
  - by apply IH.
Qed.

(** C35: While the kernel answers [RDS_GET_MR] with [EAGAIN] a cache search
    with nothing cached to give up does not return: whatever number of
    rounds its loop is granted, it asks for another. *)
Theorem search_eagain_never_returns n info w :
  pool_full -> iov_len info <= RDS_KERNEL_SEG_MAX -> starved w -> search_loop n info w = None.
Proof.
  intros Hfull Hlen Hs. pose proof (search_starved n info w Hfull Hlen Hs) as H'. unfold wlp in H'.
  by destruct (search_loop n info w) as [[a s]|].
Qed.
End Again.
