(* ===== verification/Limits.v ===== *)
(** * Where a guarantee stops

    Two limits of the message path.  [rds_handle_inbound] checks the length
    of a descriptor only for [RDS_OP_RTS], but treats every operation code it
    does not know as one.  [rds_send_rndzv] describes a cached registration
    as if it began where the buffer begins. *)

From stdpp Require Import sorting.
From S2P Require Import Prelude Iov Wire Config Kernel Cq Av MrCache MrCacheInv State Mr MrInv Pending Ring Msg.
From S2P Require Import Segments Inv Rules SafetyTx RndzvEnd.

Section Limits.
Context {K : Type} `{!Kernel K}.
Implicit Types w : world K.

(** C40: A datagram with the provider's magic number, an operation code
    outside the protocol and a segment count its payload does not hold is
    not rejected: when no posted receive matches it and every allocation
    succeeds, the handler queues it as an unexpected descriptor and copies
    the segment array from beyond the received bytes, which is undefined. *)
Theorem unknown_op_overreads hdr payload src fi w :
  h_magic hdr = RDS_HDR_MAGIC -> h_op hdr < RDS_OP_EAGER \/ RDS_OP_RING_ACK < h_op hdr ->
  Z.of_nat (length payload) < h_seg_cnt hdr * RDS_SEG_SIZE ->
  Forall (fun r => posted_match (hdr_tagged hdr) (h_tag hdr) fi r = false) (posted_list (hdr_tagged hdr) (w_ep w)) ->
  (forall n (k : K), is_Some (k_alloc n k).1) ->
  rds_handle_inbound hdr payload src fi w = None.
Proof.
  intros Hm Hop Hl Hno Hal. unfold RDS_OP_EAGER, RDS_OP_RING_ACK in Hop. unfold rds_handle_inbound. cbn zeta. rewrite Hm, Z.eqb_refl.
  assert (E : forall c, 1 <= c <= 5 -> h_op hdr =? c = false) by (intros c Hc; apply Z.eqb_neq; lia).
  unfold RDS_OP_FIN, RDS_OP_RING_REQ, RDS_OP_RING_ACK, RDS_OP_RTS. rewrite !E by lia. cbn [negb orb andb].
  unfold rds_match_posted, bind, ep_get, gets. rewrite (proj2 (find_split_None _ _) Hno). cbn [ret].
  unfold rds_enqueue_unexp, bind, sys_alloc, RDS_OP_EAGER. rewrite !E by lia. cbn zeta. unfold ret.
  destruct (k_alloc (UNEXP_SIZE + 0) (w_k w)) as [a1 k1] eqn:E1. pose proof (Hal (UNEXP_SIZE + 0) (w_k w)) as [x1 H1]. rewrite E1 in H1. cbn in H1. subst a1.
  w_simpl. destruct (k_alloc (h_seg_cnt hdr * RDS_SEG_SIZE) k1) as [a2 k2] eqn:E2.
  pose proof (Hal (h_seg_cnt hdr * RDS_SEG_SIZE) k1) as [x2 H2]. rewrite E2 in H2. cbn in H2. subst a2.
  rewrite rds_segs_of_bytes_None by (unfold RDS_SEG_SIZE in Hl; lia). done.
Qed.

(** ** A cached registration larger than the buffer *)

(** The segments name, from its start, a cached region that encloses the
    buffer; the region is still there in the domain [d]. *)
Definition names_start w (v : iovec) (segs : list rds_rndzv_seg) (d : rds_domain) : Prop :=
  exists h e, h ∈ tree_of (the_cache w) /\ mc_entries (the_cache w) !! h = Some e /\ ofi_iov_within v (me_iov e) = true /\
    region (d_mr_cache d) h = Some (me_iov e, me_data e) /\ segs = [mkSeg (cm_cookie (me_data e)) 0 (iov_len v)].

Lemma seg_count_one len : 0 < len <= RDS_KERNEL_SEG_MAX -> seg_count len = 1.
Proof. intros Hl. unfold seg_count. symmetry. apply (Z.div_unique_pos _ _ _ (len - 1)); lia. Qed.

Lemma one_chunk v : 0 < iov_len v <= RDS_KERNEL_SEG_MAX -> rndzv_chunks [v] = [v].
Proof.
  intros Hv. change (rndzv_chunks [v]) with (chunk_loop (Z.to_nat (seg_count (iov_len v))) (iov_base v) (iov_len v) ++ []).
  rewrite seg_count_one by done. change (Z.to_nat 1) with 1%nat. cbn [chunk_loop].
  rewrite (proj2 (Z.eqb_neq (iov_len v) 0)), Z.min_l by lia. by destruct v.
Qed.

Lemma register_hit `{!MrAgainEnds K} v dest destlen x w k :
  world_ok w -> caching w = true -> ofi_mr_cache_full (the_cache w) = false -> mc_dead_region_list (the_cache w) = [] ->
  x ∈ tree_of (the_cache w) -> ofi_iov_within v (iov_of (the_cache w) x) = true -> (forall r (k' : K), k_mon_valid v r k' = true) ->
  wp (rndzv_register true [v] dest destlen [] []) (fun '(err, segs, _) w' =>
    reg_rest w' = reg_rest w /\ (err = 0 -> names_start w v segs (w_dom w'))) (w <| w_k := k |>).
Proof.
  intros Hw Hon Hf Hd Hx Hin Hv. destruct (wi_cache _ _ _ _ Hw) as [ot Hc]. rewrite Hon in Hc. cbn [rndzv_register].
  apply wp_bind, wp_ep_get, wp_bind. unfold rds_reg_cache_get. apply wp_bind, wp_gets. unfold caching in Hon. w_simpl. rewrite Hon. cbn [negb].
  apply wp_bind, wp_dom_upd, wp_bind. replace (mkIov (iov_base v) (iov_len v)) with v by (by destruct v).
  match goal with |- wp _ _ ?w1 => eapply wp_mono; [apply (search_hit (owner_ok w1) v w1 (all_pend_cmrs (e_pending (w_ep w)) ++ [] ++ ot) x)|] end.
  { apply owner_ok_refl. exact (wi_reg _ _ _ _ Hw). } { exact Hc. } { exact Hf. } { exact Hd. } { exact Hx. } { exact Hin. } { intros r w'. apply Hv. }
  intros [r h] w1 ([_ (c & k' & ->)] & [_ Hk] & Hh). apply wp_bind, wp_dom_upd. destruct (Z.eqb_spec r 0) as [->|Hne]; cbn [negb]; [|by apply wp_ret, wp_ret].
  destruct (Hh eq_refl) as [Ht Hwi]. destruct (ck_tree _ _ Hc h Ht) as (e & He & _). change (mc_entries (the_cache w) !! h = Some e) in He.
  specialize (Hk h I). change (region c h = region (the_cache w) h) in Hk. assert (Hr : region c h = Some (me_iov e, me_data e)) by (rewrite Hk; unfold region; by rewrite He).
  destruct (mc_entries c !! h) as [e'|] eqn:E'; [|unfold region in Hr; by rewrite E' in Hr]. assert (Ed : me_data e' = me_data e) by (unfold region in Hr; rewrite E' in Hr; by injection Hr).
  apply wp_bind, wp_gets, wp_bind. eapply wp_of_opt; [exact E'|]. do 2 apply wp_ret. split; [done|]. intros _. exists h, e. split_and!; [done|done| |exact Hr|by rewrite Ed].
  change (ofi_iov_within v (iov_of (the_cache w) h) = true) in Hwi. unfold iov_of in Hwi. by rewrite He in Hwi.
Qed.

(** C39: With the registration cache on, a descriptor can name the wrong
    bytes.  A rendezvous send of one buffer (of at most one kernel segment)
    that lies inside cached regions, none of which begins where the buffer
    does, puts a descriptor on the wire whose only segment carries the cookie
    of such a region with offset 0: the receiver reads from the start of the
    region, below the buffer.  (The cache has nothing to flush, its monitor
    vouches for cached mappings, the eager rings are off; a kernel with
    [MrAgainEnds].) *)
Theorem cached_send_names_region_start (Hagain : MrAgainEnds K) v dest destlen tag data context flags tagged gen_comp dest_addr x w :
  world_ok w -> e_op_id (w_ep w) + 1 < 2 ^ 64 -> e_eager_rdma (w_ep w) = false ->
  iov_ok [v] -> 0 < iov_len v <= RDS_KERNEL_SEG_MAX ->
  caching w = true -> ofi_mr_cache_full (the_cache w) = false -> mc_dead_region_list (the_cache w) = [] ->
  x ∈ tree_of (the_cache w) -> ofi_iov_within v (iov_of (the_cache w) x) = true ->
  (forall h, h ∈ tree_of (the_cache w) -> iov_base (iov_of (the_cache w) h) <> iov_base v) ->
  (forall r (k : K), k_mon_valid v r k = true) ->
  let hdr := rts_hdr tagged flags tag data (ofi_total_iov_len [v]) 1 (e_op_id (w_ep w) + 1) in
  wp (rds_send_rndzv [v] dest destlen tag data context flags tagged gen_comp dest_addr) (fun r w' => r = 0 -> exists h e seg,
    w_log w' = w_log w ++ [mkSent (sa_name dest destlen) (rds_hdr_bytes hdr ++ rds_segs_bytes [seg]) None 0] /\
    region (the_cache w') h = Some (me_iov e, me_data e) /\ ofi_iov_within v (me_iov e) = true /\
    seg_cookie seg = cm_cookie (me_data e) /\ seg_len seg = iov_len v /\ iov_base (me_iov e) + seg_off seg < iov_base v) w.
Proof.
  intros Hw Hop Hrd Hiov Hlen Hon Hf Hd Hx Hin Hne Hv hdr.
  pose proof (send_rndzv_spec [v] dest destlen tag data context flags tagged gen_comp dest_addr w Hw Hop Hiov) as Hs.
  pose proof (send_rndzv_log (fun segs _ d => names_start w v segs d) [v] dest destlen tag data context flags tagged gen_comp dest_addr w Hw Hop Hrd) as Hl.
  rewrite Hon, one_chunk in Hl by done. cbn zeta in Hl. specialize (Hl (fun k => register_hit v dest destlen x w k Hw Hon Hf Hd Hx Hin Hv)).
  eapply wp_mono; [exact (wp_wlp _ _ _ w Hs Hl)|]. cbn beta. intros r w' [_ Hr] Hr0.
  destruct (Hr Hr0) as (segs & hs & p & El & (h & e & Ht & He & Hwi & Hre & ->) & _). exists h, e, (mkSeg (cm_cookie (me_data e)) 0 (iov_len v)).
  split_and!; [|done..|]; cbn [seg_off].
  - rewrite El. change (rndzv_nseg [v]) with (seg_count (iov_len v) + 0). by rewrite seg_count_one.
  - specialize (Hne h Ht). unfold iov_of in Hne. rewrite He in Hne. unfold ofi_iov_within in Hwi. lia.
Qed.
End Limits.
