(* ===== verification/Demo.v ===== *)
(** * Concrete runs

    A domain with two completion queues, an address vector with one peer and
    an empty registration cache; an endpoint opened on it; and states the
    endpoint reaches by running operations.  The theorems of the development
    are applied to these states, so their hypotheses hold together. *)

From stdpp Require Import sorting strings.
From S2P Require Import Prelude Iov Wire Config Kernel Attr Getinfo AttrSpec Discovery Cq CqFifo Av Rbt RbtSpec MrCache MrCacheInv State Mr.
From S2P Require Import MrInv Pending Ring Msg Rma RingRx Progress Ep Cntr Objects Segments Frame Inv Rules.
From S2P Require Import PendInv Safety SafetyRing SafetyRx SafetyTx SafetyEp Emits Refs CntrSpec ObjSpec Startup Ops Effects Reach Eager.
From S2P Require Import Rendezvous RndzvEnd Complete Lifecycle RmaSpec Close Again Limits Traffic.

(** ** The domain *)

(** A host with one interface, which has the address of the endpoint. *)
#[export] Instance demo_net : NetEnv := {
  ne_getaddrinfo node service family passive := None;
  ne_socket family := 0;
  ne_connect dest := 0;
  ne_getsockname dest := inr (demo_addr 9);
  ne_getifaddrs := Some [mkIfaddrs "eth0"%string true true false (Some (demo_addr 9)) "10.0.0.0/8"%string 1000];
  ne_iface := None;
  ne_inet_ntop a := true
}.

Definition demo_version : Z := FI_VERSION 2 0.

(** Messages with the address of the sender, completions only where asked
    for on the sending side, from the interface of the host. *)
Definition demo_hints : fi_info :=
  mkInfo (bits [FI_MSG; FI_TAGGED; FI_SOURCE]) 0 FI_SOCKADDR_IN None None 0
    (Some (rds_tx_attr <| txa_op_flags := 0 |>)) (Some (rds_rx_attr <| rxa_op_flags := FI_COMPLETION |>)) None None None.

Definition demo_found : list prov_info :=
  match rds_getinfo [] demo_version None None 0 (Some demo_hints) (mkQuiet 4096 [] []) with Some (inr l, _) => l | _ => [] end.

(** The first entry fi_getinfo returns. *)
Definition demo_info : fi_info := as_user (core_entry demo_version (match demo_found with i :: _ => i | [] => rds_info end)).

Definition demo_cache : ofi_mr_cache := mkCache true ofi_rbmap_init [] [] 0 0 1024 (2 ^ 28) 0 0 0 0 0 0 ∅ [] 0.

Definition demo_objects : objects :=
  mkObjects (mkFabric 1 "rds-10.0.0.0/8" [20]) (mkUtilDomain 20 5 "eth0" (bits [FI_MSG; FI_TAGGED; FI_SOURCE]) 0 0 FI_SOCKADDR_IN FI_AV_UNSPEC)
    (Some 0) {[1 := 0; 2 := 0]}.

Definition demo_domain : world quiet_state :=
  mkWorld quiet_state rds_config_default (ep_zero 0) false
    (mkDomain None demo_cache true None 0 ∅ 1 ∅)
    {[1 := util_cq_init 8 false FORMAT_TAGGED; 2 := util_cq_init 8 true FORMAT_TAGGED]}
    {[3 := mkCntr 0 0 0 0 UTIL_CNTR_NO_WAIT_OPS false false]}
    demo_av (fun a => a mod 256) (mkQuiet 4096 [] [(demo_addr 1, [5; 6; 7])]) [] demo_objects.

Lemma demo_cq_ok id q src : w_cqs demo_domain !! id = Some (util_cq_init 8 src FORMAT_TAGGED) -> (q = true -> src = true) ->
  bound_ok (w_cqs demo_domain) (Some id) q.
Proof.
  intros E Hq i [= <-]. eexists _, []. split_and!; [exact E| |].
  - apply util_cq_init_rep. lia.
  - intros ->%Hq. by eexists.
Qed.

(** The domain is referred to by its cache, its address vector, two queues
    and a counter, and the last four by nobody. *)
Lemma demo_refs : refs_ok alone demo_domain.
Proof.
  split; [|by intros r [= <-]| |vm_compute; reflexivity|done|done|done|].
  3: { split_and!; [repeat constructor; set_solver|done|done|set_solver]. }
  - intros id r E. change (ob_cq_refs (w_obj demo_domain)) with ({[1 := 0; 2 := 0]} : gmap Z Z) in E.
    apply lookup_insert_Some in E as [[_ <-]|[_ [_ <-]%lookup_singleton_Some]]; done.
  - intros id c E. change (w_cntrs demo_domain) with ({[3 := mkCntr 0 0 0 0 UTIL_CNTR_NO_WAIT_OPS false false]} : gmap Z util_cntr) in E.
    by apply lookup_singleton_Some in E as [_ <-].
Qed.

Lemma demo_ready : domain_ready alone demo_info 1 2 demo_domain.
Proof.
  split; [exact rds_config_default_ok|by apply (demo_cq_ok 1 _ false)|by apply (demo_cq_ok 2 _ true)|done| | |done| |].
  - intros h [m Hm]. done.
  - exists []. apply (init_ok true 1024 (2 ^ 28)). done.
  - exact (conj alone_ok demo_refs).
  - split; by eexists.
Qed.

(** The state a program leaves. *)
Definition after {A} (m : St quiet_state A) (w : world quiet_state) : world quiet_state :=
  match m w with Some (_, w') => w' | None => w end.

Definition demo : world quiet_state := after (ep_open 7 demo_version demo_info true 1 2) demo_domain.

Lemma demo_opened : fst <$> ep_open 7 demo_version demo_info true 1 2 demo_domain = Some 0.
Proof. vm_compute. reflexivity. Qed.

Lemma after_wp {A} (m : St quiet_state A) (Q : A -> world quiet_state -> Prop) w a :
  wp m Q w -> fst <$> m w = Some a -> Q a (after m w).
Proof. unfold after, wp. destruct (m w) as [[b w']|]; [|done]. cbn. by intros HQ [= ->]. Qed.

Lemma demo_sys : sys_ok alone demo.
Proof. exact (proj1 (after_wp _ _ _ _ (open_spec alone 7 demo_version demo_info true 1 2 demo_domain demo_ready) demo_opened eq_refl)). Qed.
Lemma demo_ok : world_ok demo.
Proof. exact (proj1 demo_sys). Qed.

(** The same endpoint on a domain that has opened no cache. *)
Definition plain_dom : rds_domain := w_dom demo_domain <| d_mr_cache := cache_zero |> <| d_cache_enabled := false |>.
Definition plain_domain : world quiet_state := dom_plus (-1) (demo_domain <| w_dom := plain_dom |>).
Definition demo_plain : world quiet_state := after (ep_open 7 demo_version demo_info true 1 2) plain_domain.

Lemma demo_plain_sys : sys_ok alone demo_plain.
Proof.
  assert (E : fst <$> ep_open 7 demo_version demo_info true 1 2 plain_domain = Some 0) by (vm_compute; reflexivity).
  assert (Hd : domain_ready alone demo_info 1 2 plain_domain).
  { destruct demo_ready as [H1 H2 H3 H4 H5 H6 H7 [H8 H9] H10].
    split; [exact H1|exact H2|exact H3|exact H4|exact H5|by exists []|exact H7|exact (conj H8 (refs_cache_off alone demo_domain plain_dom H9 eq_refl eq_refl))|exact H10]. }
  exact (proj1 (after_wp _ _ _ _ (open_spec alone 7 demo_version demo_info true 1 2 plain_domain Hd) E eq_refl)).
Qed.
Lemma demo_plain_ok : world_ok demo_plain.
Proof. exact (proj1 demo_plain_sys). Qed.

(** One step of the endpoint. *)
Definition step (op : ep_op quiet_state) (w : world quiet_state) : world quiet_state := after (ep_exec op) w.

Lemma step_ok op w : sys_ok alone w -> op_pre w op -> sys_ok alone (step op w).
Proof.
  intros Hw Hp. pose proof (exec_ok alone op w Hw Hp) as He. unfold step, after, wp in *. by destruct (ep_exec op w) as [[[] w']|].
Qed.

(** ** Applications: the endpoint as a whole *)

Lemma endpoint_safe_witness :
  fst <$> ep_open 7 demo_version demo_info true 1 2 demo_domain = Some 0 /\
  forall w, ep_reach demo w -> world_ok w /\ refs_ok alone w /\ forall op, op_pre w op -> is_Some (ep_exec op w).
Proof.
  split; [vm_compute; reflexivity|].
  exact (after_wp _ _ _ _ (endpoint_safe quiet_again_ends quiet_known_ops alone 7 demo_version demo_info true 1 2 demo_domain demo_ready) demo_opened eq_refl).
Defined.

Lemma endpoint_speaks_protocol_witness :
  domain_ready alone demo_info 1 2 demo_domain /\
  forall w, ep_reach demo w -> exists l, w_log w = w_log demo_domain ++ l /\
    Forall (fun s => sn_rdma s = None -> wire_ok (sn_payload s) /\ inbound_ok (rds_hdr_of_bytes (sn_payload s))) l.
Proof.
  split; [exact demo_ready|].
  exact (after_wp _ _ _ _ (endpoint_speaks_protocol quiet_again_ends quiet_known_ops alone 7 demo_version demo_info true 1 2 demo_domain demo_ready) demo_opened eq_refl).
Defined.

(** ** Applications: discovery *)

Definition quiet_host : quiet_state := mkQuiet 4096 [] [].

Lemma demo_order_sizes : order_sizes_ok (Some demo_hints).
Proof. done. Qed.

(** The outcome of a discovery call that is total. *)
Lemma found_wp {A} (m : M quiet_state A) (P : A -> Prop) a : ensures m P -> fst <$> m quiet_host = Some a -> P a.
Proof. intros H. specialize (H quiet_host). unfold wp in H. destruct (m quiet_host) as [[b k]|]; [|done]. cbn. by intros [= ->]. Qed.

Lemma ensures_run {A} (m : M quiet_state A) (P : A -> Prop) : ensures m P -> exists a, fst <$> m quiet_host = Some a /\ P a.
Proof. intros H. specialize (H quiet_host). unfold wp in H. destruct (m quiet_host) as [[b k]|]; [|done]. by exists b. Qed.

Lemma getinfo_roundtrip_witness :
  fst <$> rds_getinfo [] demo_version None None 0 (Some demo_hints) quiet_host = Some (inr demo_found) /\
  demo_found <> [] /\
  Forall (fun i => recheck demo_version i = if ofi_valid_addr_format FI_SOCKADDR_IN (in_addr_format i) then 0 else - FI_ENODATA) demo_found.
Proof.
  assert (E : fst <$> rds_getinfo [] demo_version None None 0 (Some demo_hints) quiet_host = Some (inr demo_found)) by (vm_compute; reflexivity).
  split; [exact E|].
  destruct (found_wp _ _ _ (getinfo_roundtrip [] demo_version None None 0 (Some demo_hints) ltac:(by vm_compute) demo_order_sizes) E) as (H1 & _ & H2).
  exact (conj H1 H2).
Defined.

Lemma getinfo_grants_witness :
  fst <$> rds_getinfo [] demo_version None None 0 (Some demo_hints) quiet_host = Some (inr demo_found) /\
  demo_found <> [] /\ is_Some (in_tx_attr demo_hints) /\ is_Some (in_rx_attr demo_hints) /\ Forall (granted demo_hints) demo_found.
Proof.
  assert (E : fst <$> rds_getinfo [] demo_version None None 0 (Some demo_hints) quiet_host = Some (inr demo_found)) by (vm_compute; reflexivity).
  split; [exact E|]. split; [vm_compute; discriminate|]. split; [by eexists|]. split; [by eexists|].
  exact (found_wp _ _ _ (getinfo_grants [] demo_version None None 0 demo_hints) E).
Defined.

Lemma getinfo_usable_witness :
  fst <$> rds_getinfo [] demo_version None None 0 (Some demo_hints) quiet_host = Some (inr demo_found) /\
  Forall (fun i => recheck demo_version i = 0) demo_found.
Proof.
  assert (E : fst <$> rds_getinfo [] demo_version None None 0 (Some demo_hints) quiet_host = Some (inr demo_found)) by (vm_compute; reflexivity).
  split; [exact E|].
  exact (proj2 (found_wp _ _ _ (getinfo_usable [] demo_version 0 demo_hints ltac:(by vm_compute) demo_order_sizes eq_refl eq_refl eq_refl eq_refl) E)).
Defined.

Lemma getinfo_offers_unusable_witness :
  ne_iface (NetEnv := demo_net) = None /\
  exists l i, fst <$> rds_getinfo [] demo_version None None 0 None quiet_host = Some (inr l) /\ i ∈ l /\ in_src_addr i = Some loopback6 /\ recheck demo_version i = - FI_ENODATA.
Proof.
  split; [reflexivity|].
  assert (Ha : forall n (k : quiet_state), exists a k', k_alloc n k = (Some a, k')) by (intros n k; by eexists _, _).
  destruct (ensures_run _ _ (getinfo_offers_unusable Ha [] demo_version 0 ltac:(by vm_compute) eq_refl eq_refl)) as (r & E & l & i4 & i6 & -> & _ & H6 & _ & _ & Hs & Hr).
  exact (ex_intro _ l (ex_intro _ i6 (conj E (conj H6 (conj Hs Hr))))).
Defined.

Lemma endpoint_attributes_witness :
  w_live demo_domain = false /\
  fst <$> rds_endpoint 7 demo_version None demo_domain = Some (- FI_EINVAL) /\
  w_live (after (rds_endpoint 7 demo_version None) demo_domain) = false.
Proof.
  assert (E : fst <$> rds_endpoint 7 demo_version None demo_domain = Some (- FI_EINVAL)) by (vm_compute; reflexivity).
  split; [reflexivity|]. split; [exact E|].
  destruct (after_wp _ _ _ _ (endpoint_attributes 7 demo_version None demo_domain eq_refl) E) as (_ & H & _). by apply H.
Defined.

(** Discharge the caller's obligations by evaluation. *)
Ltac demo_pre := split_and!; [vm_compute; reflexivity|split; [by repeat constructor|vm_compute; reflexivity]|exact I].

(** The same, for a call on a counter. *)
Ltac demo_open := split_and!; [vm_compute; reflexivity|split; [by repeat constructor|vm_compute; reflexivity]|eexists; vm_compute; reflexivity].

(** ** Applications: counters *)

Lemma run_demo ops w op : ep_run demo ops w -> op_pre w op -> fst <$> ep_exec op w = Some tt -> ep_run demo (ops ++ [op]) (step op w).
Proof.
  intros Hr Hp E. eapply run_step; [exact Hr|exact Hp|]. unfold step, after. destruct (ep_exec op w) as [[[] w']|]; done.
Qed.

(** The counter of the domain bound to sends; a message sent; 5 added. *)
Definition demo_bound : world quiet_state := step (Fi_bind_cntr 3 FI_TRANSMIT) demo.
Definition demo_sent : world quiet_state := step (Fi_inject 5000 3 0) demo_bound.
Definition demo_counted : world quiet_state := step (Fi_cntr_add 3 5) demo_sent.

Lemma counters_move_by_hand_witness :
  w_cntrs demo !! 3 = Some (mkCntr 0 0 0 0 UTIL_CNTR_NO_WAIT_OPS false false) /\
  (e_cntrs (w_ep demo_bound) !! 0 = Some 3 /\ length (w_log demo_sent) = S (length (w_log demo_bound))) /\
  cntr_val demo_counted 3 = Some (5, 0, false).
Proof.
  assert (E3 : w_cntrs demo !! 3 = Some (mkCntr 0 0 0 0 UTIL_CNTR_NO_WAIT_OPS false false)) by (vm_compute; reflexivity).
  split; [exact E3|]. split; [split; vm_compute; reflexivity|].
  assert (R1 : ep_run demo [Fi_bind_cntr 3 FI_TRANSMIT] demo_bound).
  { apply (run_demo []); [constructor|demo_open|vm_compute; reflexivity]. }
  assert (R2 : ep_run demo [Fi_bind_cntr 3 FI_TRANSMIT; Fi_inject 5000 3 0] demo_sent).
  { apply (run_demo _ _ _ R1); [demo_pre|vm_compute; reflexivity]. }
  assert (R3 : ep_run demo [Fi_bind_cntr 3 FI_TRANSMIT; Fi_inject 5000 3 0; Fi_cntr_add 3 5] demo_counted).
  { apply (run_demo _ _ _ R2); [demo_open|vm_compute; reflexivity]. }
  exact (counters_move_by_hand quiet_again_ends quiet_known_ops alone demo _ demo_counted 3 _ demo_sys R3 E3 ltac:(by repeat constructor)).
Defined.

(** A tagged receive posted; a rendezvous send under way; an RMA write
    without completion under way. *)
Definition demo_recv : world quiet_state := step (Fi_trecv 5000 8 FI_ADDR_UNSPEC 42 0 11) demo.
Definition demo_send : world quiet_state := step (Fi_send 100000 3000000 0 33) demo.
Definition demo_write : world quiet_state := step (Fi_write 9000 64 0 128 77 5) demo.

Lemma demo_recv_ok : world_ok demo_recv.
Proof. apply (step_ok (Fi_trecv 5000 8 FI_ADDR_UNSPEC 42 0 11)); [exact demo_sys|demo_pre]. Qed.

Lemma demo_send_sys : sys_ok alone demo_send.
Proof. apply (step_ok (Fi_send 100000 3000000 0 33)); [exact demo_sys|demo_pre]. Qed.
Lemma demo_send_ok : world_ok demo_send.
Proof. exact (proj1 demo_send_sys). Qed.

Lemma demo_write_ok : world_ok demo_write.
Proof. apply (step_ok (Fi_write 9000 64 0 128 77 5)); [exact demo_sys|demo_pre]. Qed.

#[local] Opaque demo demo_plain demo_recv demo_send demo_write.

Lemma ep_close_releases_witness : all_pend_cmrs (e_pending (w_ep demo_send)) <> [] /\
  exists others, wp rds_ep_close (fun r w' => (r = 0 /\ w_live w' = false /\
    (forall h, d_mrs (w_dom w') !! h = if bool_decide (h ∈ internal demo_send) then None else d_mrs (w_dom demo_send) !! h) /\
    cache_on (caching w') (the_cache w') others /\ (d_reg_ep (w_dom w') <> Some (e_self (w_ep demo_send)) /\ reg_ok w' /\ e_self (w_ep w') = e_self (w_ep demo_send)) /\
    e_pending (w_ep w') = [] /\ e_deferred (w_ep w') = [] /\ e_peers (w_ep w') = ∅ /\ queues_of w' = ([], [], [], [])) /\
    (forall id, cntr_val w' id = cntr_val demo_send id) /\ refs_ok alone w') demo_send.
Proof.
  split; [vm_compute; discriminate|]. destruct (wi_cache _ _ _ _ demo_send_ok) as [others Hc]. exists others.
  exact (ep_close_releases quiet_again_ends alone others demo_send demo_send_sys Hc).
Defined.

(** ** Applications: completions *)

Lemma rdma_notify_counts_witness :
  exists p l1 l2, pending_lookup 1 (e_pending (w_ep demo_write)) = Some p /\ p_seg_remaining p = 1 /\
    e_pending (w_ep demo_write) = l1 ++ p :: l2 /\
    wp (rds_handle_rdma_notify 1 0) (fun _ w' => completed (noted 0 p <| p_seg_remaining := 0 |>) l1 l2 0 demo_write w') demo_write.
Proof.
  pose proof (rdma_notify_counts quiet_again_ends 1 0 demo_write demo_write_ok) as Hn.
  destruct (pending_lookup 1 (e_pending (w_ep demo_write))) as [p|] eqn:E; [|vm_compute in E; discriminate E].
  destruct Hn as (l1 & l2 & El & Hw). exists p, l1, l2.
  assert (Hp : p_seg_remaining p = 1 /\ p_type p = RDS_PEND_RMA) by (vm_compute in E; injection E as <-; repeat split).
  destruct Hp as [Hr Ht]. rewrite Hr, Ht in Hw. exact (conj eq_refl (conj Hr (conj El Hw))).
Defined.

Lemma send_completes_once_witness :
  let idle w' := e_pending (w_ep w') = e_pending (w_ep demo) /\ e_rndzv_tx_inflight (w_ep w') = e_rndzv_tx_inflight (w_ep demo) in
  signalled demo FI_COMPLETION = true /\
  wp (rds_generic_send [mkIov 100000 3000000] 0 0 0 33 FI_COMPLETION false) (fun r w' =>
    if negb (r =? 0) then idle w' /\ w_cqs w' = w_cqs demo
    else idle w' /\ tx_reported true 33 (tx_comp_flags false) 3000000 0 demo w' \/
      exists p, e_pending (w_ep w') = e_pending (w_ep demo) ++ [p] /\ p_context p = 33 /\ w_cqs w' = w_cqs demo /\
        wp (progress_msg (demo_addr 1) (rds_hdr_bytes (fin_hdr (p_id p))) false []) (fun _ w'' =>
          idle w'' /\ tx_reported true 33 (tx_comp_flags false) 3000000 0 demo w'') w') demo.
Proof.
  assert (Hs : signalled demo FI_COMPLETION = true) by (vm_compute; reflexivity). split; [exact Hs|].
  pose proof (send_completes_once quiet_again_ends [mkIov 100000 3000000] 0 0 0 33 FI_COMPLETION false (demo_addr 1) demo demo_ok ltac:(vm_compute; reflexivity)
    ltac:(split; [by repeat constructor|vm_compute; reflexivity])) as H.
  rewrite Hs in H. exact H.
Defined.

Lemma rma_completes_once_witness :
  signalled demo FI_COMPLETION = true /\
  wp (rds_rma_common [mkIov 9000 64] 0 128 77 true 5 FI_COMPLETION) (fun r w' =>
    if negb (r =? 0) then e_pending (w_ep w') = e_pending (w_ep demo) /\ w_cqs w' = w_cqs demo
    else exists p, e_pending (w_ep w') = e_pending (w_ep demo) ++ [p] /\ p_context p = 5 /\ w_cqs w' = w_cqs demo /\
      forall statuses, Z.of_nat (length statuses) = p_seg_remaining p ->
        wp (notify_all (p_id p) statuses) (fun _ w'' => e_pending (w_ep w'') = e_pending (w_ep demo) /\
          posted quiet_state (w_cqs demo) (e_tx_cq (w_ep demo))
            (comp_of 5 (rma_comp_flags true) 64 0 0 (first_error (p_error p) statuses)) None (w_cqs w'')) w') demo.
Proof.
  assert (Hs : signalled demo FI_COMPLETION = true) by (vm_compute; reflexivity). split; [exact Hs|].
  pose proof (rma_completes_once quiet_again_ends [mkIov 9000 64] 0 128 77 true 5 FI_COMPLETION demo demo_ok ltac:(vm_compute; reflexivity)
    ltac:(split; [by repeat constructor|vm_compute; reflexivity]) ltac:(vm_compute; reflexivity)) as H.
  rewrite Hs in H. exact H.
Defined.

Lemma fin_completes_send_witness :
  exists p l1 l2, pending_lookup 1 (e_pending (w_ep demo_send)) = Some p /\ e_pending (w_ep demo_send) = l1 ++ p :: l2 /\
    wp (progress_msg (demo_addr 1) (rds_hdr_bytes (fin_hdr 1)) false []) (fun _ w' => completed p l1 l2 1 demo_send w') demo_send.
Proof.
  pose proof (fin_completes_send 1 (demo_addr 1) demo_send demo_send_ok ltac:(lia)) as Hn.
  destruct (pending_lookup 1 (e_pending (w_ep demo_send))) as [p|] eqn:E; [|vm_compute in E; discriminate E].
  assert (Ht : is_rndzv_tx (p_type p) = true) by (vm_compute in E; injection E as <-; repeat split). rewrite Ht in Hn.
  destruct (pend_viewP 1 (e_pending (w_ep demo_send))) as [l1 q l2 El Hid Hl Hlk _ _|_ Hlk _ _]; rewrite E in Hlk; [|discriminate Hlk].
  injection Hlk as <-. exists p, l1, l2. split; [exact eq_refl|]. split; [exact El|].
  eapply wp_mono; [exact Hn|]. cbn beta. intros _ w' (l1' & l2' & El' & Hc).
  assert (l1 = [] /\ l2 = [] /\ l1' = [] /\ l2' = []) as (-> & -> & -> & ->); [|exact Hc].
  vm_compute in El, El'. destruct l1 as [|? [|]], l1' as [|? [|]]; try discriminate El; try discriminate El'. injection El as _ <-. injection El' as _ <-. repeat split.
Defined.


(** ** Applications: messages *)

Lemma demo_recv_posted : exists rx, posted_list true (w_ep demo_recv) = [rx] /\ rx_ok rx /\
  posted_match true 42 (ofi_av_lookup_fi_addr (w_avec demo_recv) (demo_addr 1)) rx = true /\
  iov_addrs (rx_iov rx) = seqZ 5000 8.
Proof.
  destruct (posted_list true (w_ep demo_recv)) as [|rx [|]] eqn:E; try (vm_compute in E; discriminate E). exists rx.
  split; [exact eq_refl|]. vm_compute in E. injection E as <-. split_and!; [|vm_compute; reflexivity..].
  split; [split; [by repeat constructor|done]|]. split; [by apply (bool_decide_unpack _)|done].
Qed.

Lemma cancel_takes_one_witness :
  cqs_ok demo_recv /\
  wp (rds_ep_cancel 11) (fun r w' =>
    (r = 0 /\ cancelled false 11 demo_recv w') \/
    (r = 0 /\ unposted false 11 demo_recv /\ cancelled true 11 demo_recv w') \/
    (r = - FI_ENOENT /\ unposted false 11 demo_recv /\ unposted true 11 demo_recv /\ w' = demo_recv)) demo_recv.
Proof.
  pose proof (wi_cqs _ _ _ _ demo_recv_ok) as H. split; [exact H|]. exact (cancel_takes_one 11 demo_recv H).
Defined.

Lemma demo_iov_ok a n : 0 <= n < 2 ^ 64 -> iov_ok [mkIov a n].
Proof. intros Hn. split; [repeat constructor; cbn; lia|cbn; lia]. Qed.

Lemma eager_end_to_end_witness :
  exists rx, posted_list true (w_ep demo_recv) = [rx] /\
  wp (rds_send_eager [mkIov 700 3] (demo_addr 1) 16 42 0 5 0 true true) (fun r ws' =>
    exists d errno, w_log ws' = w_log demo ++ [mkSent (sa_name (demo_addr 1) 16) d None errno] /\ r = send_status errno /\
      wp (progress_msg (demo_addr 1) d false []) (fun _ wr' =>
        delivered rx (iov_gather (w_mem demo) [mkIov 700 3]) (recv_flags true 0) 0 42
          (ofi_av_lookup_fi_addr (w_avec demo_recv) (demo_addr 1)) (demo_recv <| w_ep ::= set_posted true [] |>) wr') demo_recv) demo.
Proof.
  destruct demo_recv_posted as (rx & El & Hrx & Hm & _). exists rx. split; [exact El|].
  exact (eager_end_to_end [mkIov 700 3] (demo_addr 1) 16 42 0 5 0 true true demo demo_recv (demo_addr 1) [] rx []
    demo_ok demo_recv_ok (demo_iov_ok 700 3 ltac:(lia)) ltac:(lia) ltac:(lia) El Hrx (List.Forall_nil _) Hm).
Defined.

Lemma early_message_delivered_witness :
  wp (progress_msg (demo_addr 1) (rds_hdr_bytes (eager_hdr true 0 42 0 3) ++ [1; 2; 3]) false [] ;;;
      rds_post_recv [mkIov 6000 2] FI_ADDR_UNSPEC 40 3 11 0 true)
     (fun r w' => r = 0 /\ exists k', delivered (rx_of [mkIov 6000 2] FI_ADDR_UNSPEC 40 3 11 0 true) [1; 2; 3] (recv_flags true 0) 0 42
        (ofi_av_lookup_fi_addr (w_avec demo) (demo_addr 1)) (demo <| w_k := k' |>) w') demo.
Proof.
  apply (early_message_delivered true 0 42 0 [1; 2; 3] (demo_addr 1) [mkIov 6000 2] FI_ADDR_UNSPEC 40 3 11 0 demo demo_ok).
  - lia.
  - lia.
  - vm_compute. reflexivity.
  - vm_compute. lia.
  - apply demo_iov_ok. lia.
  - by apply (bool_decide_unpack _).
  - replace (posted_list true (w_ep demo)) with (@nil rds_rx_entry) by (vm_compute; reflexivity). constructor.
  - eexists. vm_compute. reflexivity.
  - replace (unexp_list true (w_ep demo)) with (@nil rds_unexp) by (vm_compute; reflexivity). constructor.
  - vm_compute. reflexivity.
Defined.

(** A two-segment rendezvous message, larger than the receive. *)
Definition demo_segs : list rds_rndzv_seg := [mkSeg 900 0 5; mkSeg 901 16 4].

Lemma rndzv_reads_cover_witness :
  exists rx, posted_list true (w_ep demo_recv) = [rx] /\
  wp (rds_start_rndzv_read rx (rts_hdr true 0 42 0 9 2 71) demo_segs 2 (demo_addr 1) 0) (fun _ w' => exists reads rest,
    w_log w' = w_log demo_recv ++ reads ++ rest /\
    mjoin (rdma_moves <$> reads) = zip (take 8 (iov_addrs (rx_iov rx))) (take 8 (segs_source demo_segs)) /\
    Forall (is_read_for (demo_addr 1) (e_op_id (w_ep demo_recv) + 1)) reads /\ Forall (fun s => sn_rdma s = None) rest) demo_recv.
Proof.
  destruct demo_recv_posted as (rx & El & Hrx & Hm & Ha). exists rx. split; [exact El|].
  assert (Hlen : (length (rx_iov rx) <= RDS_IOV_LIMIT)%nat /\ iov_total (rx_iov rx) = 8)
    by (vm_compute in El; injection El as <-; vm_compute; lia).
  destruct Hlen as [Hlen Ht].
  pose proof (rndzv_reads_cover rx (rts_hdr true 0 42 0 9 2 71) demo_segs (demo_addr 1) 0 demo_recv demo_recv_ok) as Hr.
  rewrite Ht in Hr. apply Hr; [vm_compute; reflexivity|exact Hrx|exact Hlen|by repeat constructor|reflexivity|vm_compute; reflexivity|].
  eexists. vm_compute. reflexivity.
Defined.

Lemma rndzv_end_to_end_witness :
  exists rx, posted_list true (w_ep demo_recv) = [rx] /\
  wp (rds_send_rndzv [mkIov 100000 3000000] (demo_addr 1) 16 42 0 5 0 true true 0) (fun r ws' => r = 0 ->
    exists d hs p, w_log ws' = w_log demo_plain ++ [mkSent (sa_name (demo_addr 1) 16) d None 0] /\
      e_pending (w_ep ws') = e_pending (w_ep demo_plain) ++ [p] /\ p_mrs p = Some hs /\
      wp (progress_msg (demo_addr 1) d false []) (fun _ wr' => exists reads rest,
        w_log wr' = w_log demo_recv ++ reads ++ rest /\
        Forall (is_read_for (demo_addr 1) (e_op_id (w_ep demo_recv) + 1)) reads /\ Forall (fun s => sn_rdma s = None) rest /\
        Forall2 (fun mv da => mv.1 = da.1 /\ located (d_mrs (w_dom ws')) hs mv.2 da.2)
          (mjoin (rdma_moves <$> reads)) (zip (take 8 (iov_addrs (rx_iov rx))) (take 8 (iov_addrs [mkIov 100000 3000000])))) demo_recv) demo_plain.
Proof.
  destruct demo_recv_posted as (rx & El & Hrx & Hm & Ha). exists rx. split; [exact El|].
  assert (Hlen : (length (rx_iov rx) <= RDS_IOV_LIMIT)%nat /\ iov_total (rx_iov rx) = 8)
    by (vm_compute in El; injection El as <-; vm_compute; lia).
  destruct Hlen as [Hlen Ht].
  pose proof (rndzv_end_to_end quiet_again_ends [mkIov 100000 3000000] (demo_addr 1) 16 42 0 5 0 true true 0 demo_plain demo_recv (demo_addr 1) [] rx []
    demo_plain_ok demo_recv_ok) as Hr.
  rewrite Ht in Hr. change (Z.to_nat (Z.min (iov_total [mkIov 100000 3000000]) 8)) with 8%nat in Hr.
  apply Hr; [vm_compute; reflexivity|vm_compute; reflexivity|apply demo_iov_ok; lia|vm_compute; lia|vm_compute; discriminate
    |vm_compute; reflexivity|vm_compute; reflexivity|lia|lia|exact El|exact Hrx|exact Hlen|eexists; vm_compute; reflexivity|constructor|exact Hm].
Defined.

(** ** Applications: one-sided operations *)

Lemma rma_requests_cover_witness :
  wp (rds_rma_common [mkIov 9000 64; mkIov 100 8] 0 128 77 true 5 0) (fun _ w' => exists reqs r,
    w_log w' = w_log demo ++ reqs /\
    Forall (is_rma_for (demo_addr 1) (av_addrlen (w_avec demo)) 77 true (e_op_id (w_ep demo) + 1)) reqs /\
    covers (seqZ 9000 64 ++ seqZ 100 8) (rma_target 77 128 72) reqs r) demo.
Proof.
  apply (rma_requests_cover [mkIov 9000 64; mkIov 100 8] 0 128 77 true 5 0 (demo_addr 1) demo demo_ok).
  - vm_compute. reflexivity.
  - split; [by repeat constructor|done].
  - vm_compute. lia.
  - vm_compute. discriminate.
  - lia.
  - vm_compute. reflexivity.
  - vm_compute. reflexivity.
  - eexists. vm_compute. reflexivity.
Defined.

Lemma zero_length_rma_unreported_witness :
  wp (rds_rma_common [mkIov 9000 0] 0 128 77 true 5 FI_COMPLETION) (fun r w' => r = 0 /\
    w_cqs w' = w_cqs demo /\ w_log w' = w_log demo /\ e_pending (w_ep w') = e_pending (w_ep demo)) demo.
Proof.
  apply (zero_length_rma_unreported [mkIov 9000 0] 0 128 77 true 5 FI_COMPLETION (demo_addr 1) demo demo_ok).
  - vm_compute. reflexivity.
  - reflexivity.
  - apply demo_iov_ok. lia.
  - vm_compute. reflexivity.
  - eexists. vm_compute. reflexivity.
Defined.

(** ** Applications: the registration cache *)

Lemma demo_owner (w : world quiet_state) : world_ok w -> owner_ok w w.
Proof. intros Hw. apply owner_ok_refl, Hw. Qed.

Lemma demo_send_held : exists held, held <> [] /\ cache_ok (co_get demo_send) held.
Proof.
  destruct (wi_cache _ _ _ _ demo_send_ok) as [ot Hc]. exists (all_pend_cmrs (e_pending (w_ep demo_send)) ++ ot).
  assert (Eon : caching demo_send = true) by (vm_compute; reflexivity). rewrite Eon in Hc.
  split; [|exact Hc]. intros E. apply app_nil in E as [E _]. vm_compute in E. discriminate E.
Qed.

(** A kernel that answers the next [mo_left] registrations with EAGAIN. *)
Record moody_state := mkMoody { mo_quiet : quiet_state; mo_left : nat }.

Definition moody {A} (k : moody_state) (r : A * quiet_state) : A * moody_state := (r.1, mkMoody r.2 (mo_left k)).

#[export] Instance moody_kernel : Kernel moody_state := {
  k_alloc n k := moody k (k_alloc n (mo_quiet k));
  k_sendmsg s name pl ra k := moody k (k_sendmsg s name pl ra (mo_quiet k));
  k_recvmsg s n c k := moody k (k_recvmsg s n c (mo_quiet k));
  k_get_mr s args k := match mo_left k with O => moody k (k_get_mr s args (mo_quiet k)) | S n => (inl FI_EAGAIN, mkMoody (mo_quiet k) n) end;
  k_free_mr s c k := mkMoody (k_free_mr s c (mo_quiet k)) (mo_left k);
  k_gettime_ms k := moody k (k_gettime_ms (mo_quiet k));
  k_mon_valid a b k := k_mon_valid a b (mo_quiet k);
  k_mon_subscribe a k := moody k (k_mon_subscribe a (mo_quiet k));
  k_mon_unsubscribe a k := mkMoody (k_mon_unsubscribe a (mo_quiet k)) (mo_left k);
  k_socket k := moody k (k_socket (mo_quiet k));
  k_setsockopt s o k := moody k (k_setsockopt s o (mo_quiet k));
  k_bind s a k := moody k (k_bind s a (mo_quiet k));
  k_getsockname s k := moody k (k_getsockname s (mo_quiet k));
  k_nonblock s k := moody k (k_nonblock s (mo_quiet k));
  k_close s k := mkMoody (k_close s (mo_quiet k)) (mo_left k);
  k_patience k := mo_left k
}.

#[export] Instance moody_again_ends : MrAgainEnds moody_state.
Proof.
  split; intros; cbn; try done.
  all: match goal with k : moody_state |- _ => destruct k as [q [|n]]; cbn in *; [done|lia] end.
Qed.

Definition moody_world : world moody_state :=
  mkWorld moody_state rds_config_default (ep_zero 7) true
    (mkDomain (Some 7) demo_cache true None 0 ∅ 1 ∅) ∅ ∅ demo_av (fun _ => 0) (mkMoody quiet0 3) [] demo_objects.

(** With three refusals to come the lookup succeeds all the same. *)
Lemma ofi_mr_cache_search_spec_witness :
  (fun r => r.1.1) <$> ofi_mr_cache_search (mkIov 4096 100) moody_world = Some 0 /\
  wp (ofi_mr_cache_search (mkIov 4096 100)) (fun '(r, h) s' =>
    (if r =? 0 then cache_ok (co_get s') [h] /\ ofi_iov_within (mkIov 4096 100) (iov_of (co_get s') h) = true
     else cache_ok (co_get s') []) /\
    forall x, x ∈ [] -> region (co_get s') x = region (co_get moody_world) x) moody_world /\
  exists held, held <> [] /\
  wp (ofi_mr_cache_search (mkIov 100100 50)) (fun '(r, h) s' =>
    (if r =? 0 then cache_ok (co_get s') (h :: held) /\ ofi_iov_within (mkIov 100100 50) (iov_of (co_get s') h) = true
     else cache_ok (co_get s') held) /\
    forall x, x ∈ held -> region (co_get s') x = region (co_get demo_send) x) demo_send.
Proof.
  split; [vm_compute; reflexivity|]. split.
  - assert (Hr : reg_ok moody_world) by (intros ep [= <-]; by eexists).
    assert (Hc : cache_ok (co_get moody_world) []) by (exact (init_ok true 1024 (2 ^ 28) _ eq_refl)).
    exact (ofi_mr_cache_search_spec (owner_ok moody_world) (rds_cache_laws moody_world) (mkIov 4096 100) moody_world [] (owner_ok_refl _ Hr) Hc).
  - destruct demo_send_held as (held & Hne & Hc). exists held. split; [exact Hne|].
    exact (ofi_mr_cache_search_spec (owner_ok demo_send) (rds_cache_laws demo_send) (mkIov 100100 50) demo_send held (demo_owner _ demo_send_ok) Hc).
Defined.



(** ** A kernel whose registration pool is full *)

Record full_state := mkFull { fs_quiet : quiet_state }.

#[export] Instance full_kernel : Kernel full_state := {
  k_alloc n k := let '(r, q) := k_alloc n (fs_quiet k) in (r, mkFull q);
  k_sendmsg s name pl ra k := let '(r, q) := k_sendmsg s name pl ra (fs_quiet k) in (r, mkFull q);
  k_recvmsg s n c k := let '(r, q) := k_recvmsg s n c (fs_quiet k) in (r, mkFull q);
  k_get_mr _ _ k := (inl FI_EAGAIN, k);
  k_free_mr s c k := mkFull (k_free_mr s c (fs_quiet k));
  k_gettime_ms k := let '(r, q) := k_gettime_ms (fs_quiet k) in (r, mkFull q);
  k_mon_valid a b k := k_mon_valid a b (fs_quiet k);
  k_mon_subscribe a k := let '(r, q) := k_mon_subscribe a (fs_quiet k) in (r, mkFull q);
  k_mon_unsubscribe a k := mkFull (k_mon_unsubscribe a (fs_quiet k));
  k_socket k := let '(r, q) := k_socket (fs_quiet k) in (r, mkFull q);
  k_setsockopt s o k := let '(r, q) := k_setsockopt s o (fs_quiet k) in (r, mkFull q);
  k_bind s a k := let '(r, q) := k_bind s a (fs_quiet k) in (r, mkFull q);
  k_getsockname s k := let '(r, q) := k_getsockname s (fs_quiet k) in (r, mkFull q);
  k_nonblock s k := let '(r, q) := k_nonblock s (fs_quiet k) in (r, mkFull q);
  k_close s k := mkFull (k_close s (fs_quiet k));
  k_patience _ := O
}.

Definition full_world : world full_state :=
  mkWorld full_state rds_config_default (ep_zero 7) true
    (mkDomain (Some 7) (pool_grow demo_cache) true None 0 ∅ 1 ∅) ∅ ∅ demo_av (fun _ => 0) (mkFull quiet0) [] demo_objects.

Lemma search_eagain_never_returns_witness : search_loop 40 (mkIov 4096 100) full_world = None.
Proof.
  apply (search_eagain_never_returns 40 (mkIov 4096 100) full_world).
  - intros sock args k. reflexivity.
  - vm_compute. discriminate.
  - split; [exists []; exact rbmap_init_ok|reflexivity..| |].
    + exists 0, (seqZ 1 (POOL_CHUNK - 1)). split; [reflexivity|]. eexists. vm_compute. reflexivity.
    + exists 7. split; [reflexivity|]. by eexists.
Defined.

(** ** Messages outside the protocol *)

Lemma unknown_op_overreads_witness :
  rds_handle_inbound (mkHdr RDS_HDR_MAGIC 9 0 100 0 0 0 1) [1; 2; 3] (demo_addr 1) 0 demo = None.
Proof.
  apply (unknown_op_overreads (mkHdr RDS_HDR_MAGIC 9 0 100 0 0 0 1) [1; 2; 3] (demo_addr 1) 0 demo).
  - reflexivity.
  - right. reflexivity.
  - vm_compute. reflexivity.
  - replace (posted_list _ (w_ep demo)) with (@nil rds_rx_entry) by (vm_compute; reflexivity). constructor.
  - intros n k. by eexists.
Defined.

(** ** A cached registration larger than the buffer *)

(** After a send from 100000 a send from 100100 is accepted, and its
    descriptor names the bytes from 100000 on. *)
Lemma cached_send_names_region_start_witness :
  fst <$> rds_send_rndzv [mkIov 100100 200000] (demo_addr 1) 16 0 0 34 0 false true 0 demo_send = Some 0 /\
  wp (rds_send_rndzv [mkIov 100100 200000] (demo_addr 1) 16 0 0 34 0 false true 0) (fun r w' => r = 0 -> exists h e seg,
    w_log w' = w_log demo_send ++ [mkSent (sa_name (demo_addr 1) 16) (rds_hdr_bytes (rts_hdr false 0 0 0 200000 1 2) ++ rds_segs_bytes [seg]) None 0] /\
    region (the_cache w') h = Some (me_iov e, me_data e) /\ ofi_iov_within (mkIov 100100 200000) (me_iov e) = true /\
    seg_cookie seg = cm_cookie (me_data e) /\ seg_len seg = 200000 /\ iov_base (me_iov e) + seg_off seg < 100100) demo_send.
Proof.
  split; [vm_compute; reflexivity|].
  assert (Hn : Forall (fun h => iov_base (iov_of (the_cache demo_send) h) <> 100100) [0; 1; 2]).
  { constructor; [vm_compute; discriminate|]. constructor; [vm_compute; discriminate|]. constructor; [vm_compute; discriminate|constructor]. }
  rewrite Forall_forall in Hn.
  pose proof (cached_send_names_region_start quiet_again_ends (mkIov 100100 200000) (demo_addr 1) 16 0 0 34 0 false true 0 0 demo_send
    demo_send_ok ltac:(vm_compute; reflexivity) ltac:(vm_compute; reflexivity) ltac:(split; [by repeat constructor|vm_compute; reflexivity])
    ltac:(split; [reflexivity|vm_compute; discriminate]) ltac:(vm_compute; reflexivity) ltac:(vm_compute; reflexivity) ltac:(vm_compute; reflexivity)) as H.
  assert (Et : tree_of (the_cache demo_send) = [0; 1; 2]) by (vm_compute; reflexivity). rewrite Et in H.
  specialize (H ltac:(left) ltac:(vm_compute; reflexivity)).
  specialize (H Hn ltac:(reflexivity)). replace (e_op_id (w_ep demo_send) + 1) with 2 in H by (vm_compute; reflexivity). exact H.
Defined.
