(* ===== verification/RingDemo.v ===== *)
(** * Concrete runs of the eager ring

    Two endpoints open with the ring enabled, connect by the RING_REQ and
    RING_ACK handshake, and exchange a message.  The theorems of [RingLive]
    are applied to the states they pass through. *)

From stdpp Require Import sorting.
From S2P Require Import Prelude Iov Wire Config Kernel Attr Getinfo AttrSpec Discovery Cq CqFifo Av Rbt RbtSpec MrCache MrCacheInv State Mr.
From S2P Require Import MrInv Pending Ring Msg Rma RingRx RingLink Progress Ep Segments Footprint Frame Inv Rules.
From S2P Require Import PendInv Safety SafetyRing SafetyRx RingPoll SafetyTx SafetyEp Emits Refs Startup Ops Effects Reach Eager RingSend RingHand RingEnd RingLive Demo.

(** ** Connecting *)

Definition ring_cfg : rds_config :=
  mkConfig RDS_DEF_EAGER_SIZE true 2 128 RDS_DEF_RING_MAX_PEERS true 256 0 0.

Definition ring_domain : world quiet_state := demo_domain <| w_cfg := ring_cfg |>.

Definition ring_open : world quiet_state := after (ep_open 7 demo_version demo_info true 1 2) ring_domain.

(** The control datagram an endpoint sent last, at the other end. *)
Definition ctrl_in (from : world quiet_state) : St quiet_state unit :=
  let pl := match last (w_log from) with Some sn => sn_payload sn | None => [] end in
  rds_ring_handle_ctrl (rds_hdr_of_bytes pl) (drop 40 pl) 0.

Definition demo_ring_send : St quiet_state Z :=
  rds_ring_send (SrcIov [mkIov 5000 3]) 0 42 9 33 0 true true RDS_OP_EAGER.

Definition ring_req : world quiet_state := after demo_ring_send ring_open.
Definition ring_ack : world quiet_state := after (ctrl_in ring_req) ring_open.
Definition ring_up : world quiet_state := after (ctrl_in ring_ack) ring_req.
(** The receiver also posts a buffer. *)
Definition ring_rx : world quiet_state := step (Fi_trecv 6000 8 FI_ADDR_UNSPEC 42 0 11) ring_ack.

Definition the_peer (w : world quiet_state) : rds_peer :=
  default (mkPeer 0 [] RDS_PEER_NONE 0 0 None 0 0 0 None 0 0 0 0 0 0 0 0) (e_peers (w_ep w) !! 0).

Lemma after_run {A} (m : St quiet_state A) w a : fst <$> m w = Some a -> m w = Some (a, after m w).
Proof. unfold after. destruct (m w) as [[b w']|]; [|done]. cbn. by intros [= ->]. Qed.

Lemma ring_cfg_ok : config_ok ring_cfg.
Proof. split; [by vm_compute|by exists 1|by vm_compute..]. Qed.

Lemma ring_open_sys : sys_ok alone ring_open.
Proof.
  assert (E : fst <$> ep_open 7 demo_version demo_info true 1 2 ring_domain = Some 0) by (vm_compute; reflexivity).
  assert (Hd : domain_ready alone demo_info 1 2 ring_domain).
  { destruct demo_ready as [H1 H2 H3 H4 H5 H6 H7 [H8 H9] H10].
    split; [exact ring_cfg_ok|exact H2|exact H3|exact H4|exact H5|exact H6|exact H7|split; [done|exact (refs_part alone demo_domain ring_domain eq_refl eq_refl H9)]|exact H10]. }
  exact (proj1 (after_wp _ _ _ _ (open_spec alone 7 demo_version demo_info true 1 2 ring_domain Hd) E eq_refl)).
Qed.

#[local] Opaque ring_open ring_req ring_up.

Lemma ring_rx_ok : world_ok ring_rx.
Proof.
  apply (step_ok (Fi_trecv 6000 8 FI_ADDR_UNSPEC 42 0 11)).
  - assert (E : fst <$> ctrl_in ring_req ring_open = Some tt) by (vm_compute; reflexivity).
    assert (Hc : wp (ctrl_in ring_req) (fun _ w' => world_ok w' /\ kept ring_open w') ring_open) by (apply handle_ctrl_spec; exact (proj1 ring_open_sys)).
    assert (Hg : wlp (ctrl_in ring_req) (fun _ w' => grows ring_open w') ring_open) by (unfold ctrl_in; generalize ring_open; apply emits_handle_ctrl).
    destruct (after_wp _ _ _ _ (wp_wlp _ _ _ _ Hc Hg) E) as [[H1 _] H2]. destruct ring_open_sys as (_ & H3 & H4). exact (conj H1 (conj H3 (grows_refs _ _ _ H2 H4))).
  - split_and!; [by vm_compute|by vm_compute|done].
Qed.

#[local] Opaque ring_ack ring_rx.

(** ** The connected pair *)

Definition sys0 : ringsys (K := quiet_state) := mkSys ring_up ring_rx [] [] [].

Lemma ring_rx_peers : e_peers (w_ep ring_rx) = {[0 := the_peer ring_rx]}.
Proof. vm_compute. reflexivity. Qed.

Lemma sys0_init : sys_init 2 128 0 0 sys0.
Proof.
  split; [exists (the_peer ring_up)|exists (the_peer ring_rx)|done].
  - split_and!; [vm_compute; reflexivity| |vm_compute; reflexivity..]. split; [vm_compute; reflexivity|split; vm_compute; reflexivity|vm_compute; reflexivity|]. right. vm_compute. done.
  - assert (Er : pe_rx_ring (the_peer ring_rx) = 89208) by (vm_compute; reflexivity).
    assert (Ec : pe_credit_tx_addr (the_peer ring_rx) = 89200) by (vm_compute; reflexivity).
    assert (Ea : rx_addrs ring_rx = seqZ 6000 8) by (vm_compute; reflexivity).
    change (rs_rx sys0) with ring_rx. split_and!; [vm_compute; reflexivity| |vm_compute; reflexivity..|].
    + split; [vm_compute; reflexivity|split; vm_compute; reflexivity| |].
      * rewrite Er, Ea. intros x Hx. split; [rewrite elem_of_seqZ; lia|]. intros (h & q & Hq & Hc). change (rs_rx sys0) with ring_rx in Hq.
        rewrite ring_rx_peers in Hq. apply lookup_singleton_Some in Hq as [_ <-]. rewrite Ec in Hc. lia.
      * rewrite Ec, Ea. intros x Hx. rewrite elem_of_seqZ. lia.
    + intros i Hi. assert (i = 0 \/ i = 1) as [-> | ->] by lia; vm_compute; reflexivity.
Qed.

(** ** One message *)

Definition ring_sent1 : world quiet_state := after demo_ring_send ring_up.
Definition req1 : rds_rdma_args := default (mkRdmaArgs 0 0 0 [] 0 0) (last_req ring_sent1).
Definition slot1 : iovec := mkIov (pe_tx_stage (the_peer ring_up)) 128.

(** After the send, and after the write has landed. *)
Definition sys1 : ringsys (K := quiet_state) :=
  sys0 <| rs_tx := ring_sent1 |> <| rs_flight ::= cons (req1, 0) |>
       <| rs_sent ::= fun l => l ++ [mem_read (w_mem ring_sent1) (iov_base slot1) (iov_len slot1)] |>.
Definition sys2 : ringsys (K := quiet_state) :=
  sys1 <| rs_rx := rdma_land req1 slot1 (the_peer ring_rx) 0 (iov_len slot1) sys1 |> <| rs_flight := [] ++ [] |>.

Lemma demo_send_pre : send_pre 0 ring_up (the_peer ring_up) (SrcIov [mkIov 5000 3]) 0 RDS_OP_EAGER.
Proof.
  split; [vm_compute; reflexivity..| |vm_compute; reflexivity]. split_and!; [|done|done|by left].
  apply demo_iov_ok. done.
Qed.

Lemma sys_step1 : sys_step 2 128 0 0 sys0 sys1.
Proof.
  apply (sys_send 2 128 0 0 sys0 (the_peer ring_up) (SrcIov [mkIov 5000 3]) 0 42 9 33 0 true true RDS_OP_EAGER ring_sent1 req1 slot1).
  - exact demo_send_pre.
  - apply (after_run demo_ring_send ring_up 0). vm_compute. reflexivity.
  - vm_compute. reflexivity.
  - vm_compute. reflexivity.
Qed.

Lemma sys_step2 : sys_step 2 128 0 0 sys1 sys2.
Proof. apply (sys_arrive 2 128 0 0 sys1 (the_peer ring_rx) [] req1 0 [] slot1); vm_compute; reflexivity. Qed.

Lemma sys_run : rtc (sys_step 2 128 0 0) sys0 sys2.
Proof. eapply rtc_l; [exact sys_step1|]. eapply rtc_l; [exact sys_step2|apply rtc_refl]. Qed.

Lemma sys2_rx_ok : world_ok (rs_rx sys2).
Proof. exact (land_world_ok req1 slot1 (the_peer ring_rx) 0 (iov_len slot1) sys1 ring_rx_ok). Qed.

(** After the receiver has consumed it. *)
Definition slotp1 : Z := slot_addr (w_ep (rs_rx sys2)) (the_peer ring_rx) (u32 (pe_rx_head (the_peer ring_rx) mod e_ring_slots (w_ep (rs_rx sys2)))).
Definition poll1 : St quiet_state unit := poll_slot 0 (the_peer ring_rx) slotp1 (e_ring_slots (w_ep (rs_rx sys2))).
Definition sys3 : ringsys (K := quiet_state) := sys2 <| rs_rx := after poll1 (rs_rx sys2) |>.

Lemma sys_step3 : sys_step 2 128 0 0 sys2 sys3.
Proof.
  apply (sys_poll 2 128 0 0 sys2 (the_peer ring_rx)).
  - vm_compute. reflexivity.
  - vm_compute. reflexivity.
  - apply (after_run poll1). vm_compute. reflexivity.
Qed.

Lemma ring_exactly_once_witness :
  (exists q, e_peers (w_ep (rs_rx sys3)) !! 0 = Some q /\ pe_rx_head q = 1) /\ length (rs_sent sys3) = 1%nat /\
  exists p q, e_peers (w_ep (rs_tx sys3)) !! 0 = Some p /\ e_peers (w_ep (rs_rx sys3)) !! 0 = Some q /\
    hands 0 sys0 [sys1; sys2; sys3] (take (Z.to_nat (pe_rx_head q)) (rs_sent sys3)) /\
    Z.of_nat (length (rs_sent sys3)) = pe_tx_head p /\ pe_rx_head q <= pe_tx_head p <= pe_rx_head q + 2 /\
    forall k, pe_rx_head q <= k < pe_tx_head p ->
      rs_sent sys3 !! Z.to_nat k = Some (ring_of 128 (rs_rx sys3) q (k mod 2)) \/
      exists a j, (a, j) ∈ rs_flight sys3 /\ ra_remote_addr a = k mod 2 * 128.
Proof.
  split; [eexists; split; vm_compute; reflexivity|]. split; [vm_compute; reflexivity|].
  exact (ring_exactly_once (K := quiet_state) 2 128 0 0 ltac:(lia) ltac:(by vm_compute) sys0 [sys1; sys2; sys3] sys0_init
    (conj sys_step1 (conj sys_step2 (conj sys_step3 I)))).
Defined.

Lemma ring_poll_drains_witness :
  exists q, e_peers (w_ep (rs_rx sys2)) !! 0 = Some q /\
  wp (rds_ring_poll_peer 0) (fun _ w' => world_ok w' /\ (exists s', rs_rx s' = w' /\ rx_run 2 128 0 0 sys2 s') /\
    exists q', e_peers (w_ep w') !! 0 = Some q' /\ pe_rx_head q <= pe_rx_head q' /\
      drains 0 (rs_rx sys2) (slots_between (pe_rx_head q) (pe_rx_head q') (rs_sent sys2)) w' /\
      (pe_rx_head q' = Z.of_nat (length (rs_sent sys2)) \/
       exists a j, (a, j) ∈ rs_flight sys2 /\ ra_remote_addr a = pe_rx_head q' mod 2 * 128)) (rs_rx sys2).
Proof.
  exists (the_peer ring_rx). assert (Hq : e_peers (w_ep (rs_rx sys2)) !! 0 = Some (the_peer ring_rx)) by (vm_compute; reflexivity). split; [exact Hq|].
  assert (Hid : e_op_id (w_ep (rs_rx sys2)) + 2 < 2 ^ 64) by (vm_compute; reflexivity).
  exact (ring_poll_drains (K := quiet_state) 2 128 0 0 ltac:(lia) ltac:(vm_compute; split; [discriminate|reflexivity]) quiet_again_ends sys0 sys2 (the_peer ring_rx) sys0_init sys_run sys2_rx_ok Hid Hq).
Defined.

Lemma ring_slot_is_datagram_witness :
  rds_ring_deliver 0 (rds_ring_slot_of_bytes (mem_read (w_mem (rs_rx sys2)) 89208 RDS_RING_HDR_SIZE)) (rds_slot_payload 89208) (rs_rx sys2) =
  rds_handle_inbound (eager_hdr true 0 42 9 (ofi_total_iov_len [mkIov 5000 3])) (iov_gather (w_mem ring_up) [mkIov 5000 3])
    (pe_sa (the_peer ring_rx)) (pe_addr (the_peer ring_rx)) (rs_rx sys2).
Proof.
  apply (ring_slot_is_datagram (K := quiet_state) 2 128 0 ltac:(lia) ltac:(by vm_compute) ring_up ring_sent1 (rs_rx sys2) (the_peer ring_up) [mkIov 5000 3] 0 42 9 33 0 true true).
  - destruct sys0_init as [(p & Hp & Htx & _) _ _]. assert (p = the_peer ring_up) as -> by (unfold the_peer; change ring_up with (rs_tx sys0); by rewrite Hp). exact Htx.
  - vm_compute. reflexivity.
  - vm_compute. done.
  - vm_compute. reflexivity.
  - vm_compute. done.
  - by apply demo_iov_ok.
  - done.
  - done.
  - replace (pe_tx_stage (the_peer ring_up)) with 89464 by (vm_compute; reflexivity). intros x Hx.
    change (iov_addrs [mkIov 5000 3]) with (seqZ 5000 3) in Hx. apply elem_of_seqZ in Hx. lia.
  - vm_compute. reflexivity.
  - apply (after_run demo_ring_send ring_up 0). vm_compute. reflexivity.
  - vm_compute. reflexivity.
  - vm_compute. reflexivity.
Defined.

Lemma inject_bypasses_ring_witness :
  pe_state (the_peer ring_rx) = RDS_PEER_READY /\
  wp (rds_generic_inject 7000 100 0 5 true) (fun r w' => exists errno, r = send_status errno /\ e_peers (w_ep w') = e_peers (w_ep ring_rx) /\
    w_log w' = w_log ring_rx ++ [mkSent (sa_name (demo_addr 1) (av_addrlen (w_avec ring_rx)))
      (rds_hdr_bytes (eager_hdr true 0 5 0 100) ++ mem_read (w_mem ring_rx) 7000 100) None errno]) ring_rx.
Proof.
  split; [vm_compute; reflexivity|].
  apply (inject_bypasses_ring (K := quiet_state) 7000 100 0 5 true (demo_addr 1) ring_rx ring_rx_ok).
  - apply demo_iov_ok. lia.
  - vm_compute. reflexivity.
  - vm_compute. split; [reflexivity|discriminate].
  - vm_compute. reflexivity.
Defined.

(** ** A receiver whose socket refuses the credit write *)

Record busy_state := mkBusy { bs_quiet : quiet_state }.

#[local] Instance busy_kernel : Kernel busy_state := {
  k_alloc n k := let '(r, q) := k_alloc n (bs_quiet k) in (r, mkBusy q);
  k_sendmsg s name pl ra k := (FI_ENOBUFS, k);
  k_recvmsg s n c k := let '(r, q) := k_recvmsg s n c (bs_quiet k) in (r, mkBusy q);
  k_get_mr s a k := let '(r, q) := k_get_mr s a (bs_quiet k) in (r, mkBusy q);
  k_free_mr s c k := mkBusy (k_free_mr s c (bs_quiet k));
  k_gettime_ms k := let '(r, q) := k_gettime_ms (bs_quiet k) in (r, mkBusy q);
  k_mon_valid a b k := k_mon_valid a b (bs_quiet k);
  k_mon_subscribe a k := let '(r, q) := k_mon_subscribe a (bs_quiet k) in (r, mkBusy q);
  k_mon_unsubscribe a k := mkBusy (k_mon_unsubscribe a (bs_quiet k));
  k_socket k := let '(r, q) := k_socket (bs_quiet k) in (r, mkBusy q);
  k_setsockopt s o k := let '(r, q) := k_setsockopt s o (bs_quiet k) in (r, mkBusy q);
  k_bind s a k := let '(r, q) := k_bind s a (bs_quiet k) in (r, mkBusy q);
  k_getsockname s k := let '(r, q) := k_getsockname s (bs_quiet k) in (r, mkBusy q);
  k_nonblock s k := let '(r, q) := k_nonblock s (bs_quiet k) in (r, mkBusy q);
  k_close s k := mkBusy (k_close s (bs_quiet k));
  k_patience _ := O
}.

Definition busy (w : world quiet_state) : world busy_state :=
  mkWorld busy_state (w_cfg w) (w_ep w) (w_live w) (w_dom w) (w_cqs w) (w_cntrs w) (w_avec w) (w_mem w) (mkBusy (w_k w)) (w_log w) (w_obj w).

(** The receiver after a poll that consumed the message. *)
Definition busy_rx : world busy_state :=
  match rds_ring_poll_peer 0 (busy (rs_rx sys2)) with Some (_, w) => w | None => busy (rs_rx sys2) end.

Lemma idle_poll_keeps_credit_witness :
  (exists q, e_peers (w_ep busy_rx) !! 0 = Some q /\ pe_rx_head q = 1 /\ pe_rx_credit_sent q = 0) /\
  rds_ring_poll_peer 0 busy_rx = Some (tt, busy_rx).
Proof.
  set (q := default (the_peer ring_rx) (e_peers (w_ep busy_rx) !! 0)).
  assert (Hq : e_peers (w_ep busy_rx) !! 0 = Some q) by (vm_compute; reflexivity).
  split; [exists q; split_and!; [exact Hq|vm_compute; reflexivity..]|]. apply (idle_poll_keeps_credit (K := busy_state) 0 q busy_rx Hq).
  - vm_compute. discriminate.
  - vm_compute. discriminate.
Defined.
