(* ===== verification/StackDemo.v ===== *)
(** * Concrete runs: opening and closing

    A process that opens everything with what fi_getinfo returned, uses the
    endpoint, and closes everything; and processes that close objects in
    another order. *)

From stdpp Require Import sorting strings.
From S2P Require Import Prelude Iov Wire Config Kernel Attr Getinfo Cq CqFifo Av AvIp AvSpec MrCache MrCacheInv State Mr.
From S2P Require Import MrInv Pending Ring Msg Rma RingRx Progress Ep Cntr Objects Segments Frame Inv Rules PendInv Safety.
From S2P Require Import SafetyRing SafetyRx SafetyTx SafetyEp Emits Refs CntrSpec ObjSpec Startup Ops Effects Reach Close Stack Demo.

Definition empty_process : world quiet_state :=
  mkWorld quiet_state rds_config_default (ep_zero 0) false domain_zero ∅ ∅ (mkAv 0 0 0 ∅ ∅ 0) (fun _ => 0) quiet0 []
    (mkObjects (mkFabric 0 "none" []) (mkUtilDomain 0 0 "none" 0 0 0 FI_FORMAT_UNSPEC FI_AV_UNSPEC) None ∅).

Definition demo_cq_attr : fi_cq_attr := mkCqAttr 8 0 FI_CQ_FORMAT_TAGGED FI_WAIT_NONE false.

Definition demo_fabric_attr : fi_fabric_attr := default (mkFabricAttr None None None 0 0) (in_fabric_attr demo_info).

(** The default cache, two queues of 8 entries, a vector of 4 addresses. *)
Definition demo_stack (info : fi_info) : stack :=
  mkStack demo_fabric_attr 20 7 demo_version info true 1024 (2 ^ 28) 0
    1 demo_cq_attr 0 0 2 demo_cq_attr 0 0 (mkAvAttr FI_AV_TABLE 4 false 0) 16 true.

Lemma empty_fresh : process_fresh empty_process.
Proof. by split; [exact rds_config_default_ok|..]. Qed.

Lemma demo_stack_ok : stack_ok (demo_stack demo_info).
Proof.
  split; [eexists; vm_compute; reflexivity| |done|done|done|done]. eexists. split; [vm_compute; reflexivity|]. eexists. vm_compute. reflexivity.
Qed.

Lemma quiet_map (k : quiet_state) : (k_alloc RBMAP_SIZE k).1 <> None.
Proof. done. Qed.

(** The process with everything open, and after a message was sent. *)
Definition demo_up : world quiet_state := after (stack_open (demo_stack demo_info)) empty_process.

Lemma demo_up_opened : fst <$> stack_open (demo_stack demo_info) empty_process = Some 0.
Proof. vm_compute. reflexivity. Qed.

Lemma stack_lifecycle_witness :
  fst <$> stack_open (demo_stack demo_info) empty_process = Some 0 /\ av_ipv4 (w_avec demo_up) /\
  wp stack_close (fun r' w' => r' = 0 /\ process_done w') demo_up.
Proof.
  split; [exact demo_up_opened|].
  destruct (after_wp _ _ _ _ (stack_lifecycle quiet_again_ends quiet_known_ops (demo_stack demo_info) empty_process quiet_map empty_fresh demo_stack_ok) demo_up_opened eq_refl) as [H1 H2].
  assert (Ef : in_addr_format demo_info = FI_SOCKADDR_IN) by (vm_compute; reflexivity). unfold demo_up.
  exact (conj (H1 Ef) (proj2 (H2 _ (reach_start _)))).
Defined.

(** A rendezvous send holds an entry of the cache while its domain is closed. *)
Lemma domain_close_while_busy_witness :
  all_pend_cmrs (e_pending (w_ep demo_send)) <> [] /\ caching demo_send = true /\
  wp rds_domain_close (fun r w' => r = - FI_EBUSY /\ caching w' = false /\ refs_ok alone w' /\
    (w_ep w', w_live w', w_cqs w', w_cntrs w') = (w_ep demo_send, w_live demo_send, w_cqs demo_send, w_cntrs demo_send) /\
    (caching demo_send = true -> forall h, rds_reg_cache_put h w' = None)) demo_send.
Proof.
  split; [vm_compute; discriminate|]. split; [vm_compute; reflexivity|]. exact (domain_close_while_busy quiet_again_ends alone demo_send demo_send_sys).
Defined.

(** A region registered by the application. *)
Definition demo_region : world quiet_state := step (Fi_mr_regattr (Some (mkMrAttr [mkIov 5000 64] FI_REMOTE_READ))) demo.

Lemma demo_region_sys : sys_ok alone demo_region.
Proof. apply (step_ok (Fi_mr_regattr (Some (mkMrAttr [mkIov 5000 64] FI_REMOTE_READ)))); [exact demo_sys|demo_pre]. Qed.

Definition the_region : rds_mr := default (mkMr 0 0 0 0 0 0 0 0) (d_mrs (w_dom demo_region) !! 1).

Lemma region_outlives_endpoint_witness :
  d_mrs (w_dom demo_region) !! 1 = Some the_region /\
  wp rds_ep_close (fun r w' => r = 0 /\ d_mrs (w_dom w') !! 1 = Some the_region /\ rds_mr_close 1 w' = None) demo_region.
Proof.
  assert (E : d_mrs (w_dom demo_region) !! 1 = Some the_region) by (vm_compute; reflexivity). split; [exact E|].
  apply (region_outlives_endpoint quiet_again_ends alone 1 the_region demo_region demo_region_sys E); [vm_compute; reflexivity|vm_compute; reflexivity|].
  replace (internal demo_region) with (@nil Z) by (vm_compute; reflexivity). apply not_elem_of_nil.
Defined.

(** The same process with an information structure that leaves the format
    of addresses open. *)
Definition any_info : fi_info := demo_info <| in_addr_format := FI_FORMAT_UNSPEC |>.
Definition any_open : St quiet_state Z :=
  next (rds_fabric demo_fabric_attr) (rds_domain_open 20 demo_version (Some any_info) true 1024 (2 ^ 28) 0).
Definition any_domain : world quiet_state := after any_open empty_process.

Lemma any_format_vector_unusable_witness :
  fst <$> any_open empty_process = Some 0 /\
  fst <$> ofi_ip_av_create (mkAvAttr FI_AV_TABLE 4 false 0) 16 any_domain = Some 0 /\
  ofi_ip_av_insert (demo_addr 3) 1 0 false (w_avec (after (ofi_ip_av_create (mkAvAttr FI_AV_TABLE 4 false 0) 16) any_domain), quiet0) = None.
Proof.
  split; [vm_compute; reflexivity|].
  assert (E : fst <$> ofi_ip_av_create (mkAvAttr FI_AV_TABLE 4 false 0) 16 any_domain = Some 0) by (vm_compute; reflexivity). split; [exact E|].
  apply (after_wp _ _ _ _ (any_format_vector_unusable (mkAvAttr FI_AV_TABLE 4 false 0) 16 any_domain ltac:(vm_compute; exact I)) E eq_refl).
  - reflexivity.
  - vm_compute. reflexivity.
  - vm_compute. reflexivity.
Defined.
